(* ===== verification/_CoqProject ===== *)
-Q . S2P
Prelude.v
Utf8.v
Text.v
Net.v
Net6.v
Frame.v
HostCode.v
GeoSite.v
GeoIp.v
Routing.v
UnitTests.v
Sock.v
Socks5.v
Http.v
Task.v
Relay.v
Channel.v
Registry.v
Flow.v
Link.v
Client.v
ClientProtocol.v
ClientTraces.v
Ssrf.v
Control.v
RunProxy.v
Mux.v
Server.v
Roles.v
Fixtures.v
Serve.v
Proxy.v
Harness.v
Config.v
Tunnel.v
World.v
Threads.v
WorldOk.v
WorldLinks.v
WorldAcks.v
Schedule.v
EndToEnd.v
WorldRelease.v
WorldSends.v
WorldBlocked.v
WorldDeadlock.v
WorldComplete.v
HalfClose.v
WorldShutdown.v
System.v
Sessions.v
