(* ===== verification/Prelude.v ===== *)
(** * echo-proxy-core: a verification development (root file)

    The repository is a tunnelling proxy in two programs that share a wire
    format.  The _client_ ([src/client]) accepts HTTP and SOCKS5 connections on
    the local machine, decides by routing rules whether to connect directly or
    through the tunnel, and multiplexes the tunnelled ones as numbered streams
    over one WebSocket.  The _server_ ([src/server]) issues single-use tokens,
    opens the streams' destinations and relays.  [src/core-lib] has the frame
    codec and the registry of streams that both use.

    ** The path of a connection

    An accept loop ([Proxy]) numbers the connection and spawns a handler
    ([Client]).  The handler reads the request ([Http], [Socks5]), asks the
    routing rules ([Routing], with [GeoSite] and [GeoIp] behind them), and for
    a tunnelled target registers the stream ([Registry]) and a one-shot for its
    acknowledgement ([Mux]), sends OPEN, and after a positive OPEN_ACK relays
    ([Relay]) as DATA frames ([Frame]) until CLOSE.  The keeper ([Proxy]) logs
    in ([Control]) and keeps the session; the two session readers ([Mux])
    dispatch incoming frames; the server's reader runs [handle_open]
    ([Server]), which filters the destination ([Ssrf]).  [World] runs all of
    this side by side, and [EndToEnd] says what the two ends of a stream can
    rely on.

    ** Files

    - [Prelude] (this file): bytes, results, integers as bytes, shared lemmas
      and hint databases.  [Utf8], [Text], [Net]: what the programs use of
      Rust's standard library on strings and IP addresses (UTF-8 validation,
      [trim], [rfind], [splitn], [parse], case folding of ASCII; the parser and
      printer of [std::net]).  [Net6]: a printed IPv6 address reads back.
    - [Frame] (core-lib/src/frame.rs): [encode], [decode], [FrameError].
    - [Registry] (core-lib/src/session.rs): [StreamRegistry] over a shared
      store of channels; [Channel] is the interface to the channel library.  A
      [route] is two steps, up to its await ([route_start]) and the send
      ([route_finish]), since it keeps its sender while it waits.
    - [GeoSite], [GeoIp] (client/src/geosite.rs, geoip.rs): loaders, matcher.
    - [Routing] (client/src/lib.rs): [HostPattern], [RoutingConfig], the splits
      of host and port.
    - [Sock]: a connection for the parsing functions, as a state monad with
      failure, panic and "waits for ever" told apart.  [Socks5]
      ([parse_socks5_request], [socks5_reply]), [Http]
      ([parse_request_header]).
    - [Task]: asynchronous code as programs over the calls it makes, with a
      step relation, an executable run, protocols and a weakest-precondition
      calculus.  [Relay], [Client], [Server]: the handlers of both programs as
      such programs, with the code's order of calls and its early returns.
      [ClientProtocol]: the abstract connection protocol and the refinement;
      [ClientTraces]: what follows for whole runs.
    - [Mux]: [run_client_reader], [PendingAcks], [MuxConn::close], the reader
      of [run_server_mux_session].  [Control]: [obtain_token],
      [process_control], the HELLO that spends a token.  [Ssrf]:
      [is_dest_allowed], [is_public_ip].
    - [Proxy] (client/src/lib.rs): [run_mux_keeper] as a state machine, the
      accept loops.  [Config] (both main.rs): settings and [build_routing].
      [RunProxy]: [build_request] and [run_proxy_with_routing], the proxy that
      does not reconnect.  [Serve] (server/src/lib.rs): [serve], the
      connections it spawns, and the shutdown channel they share.
    - [Flow], [Link]: the receiving half of one end, from the wire through the
      reader and the registry to the write tasks, with logs of what each has
      seen.  [Tunnel]: what follows for a given sequence of frames.
    - [World]: a session, with both programs' tasks, writer loops and readers,
      as one step relation.  [Roles]: a protocol for every kind of task the
      session runs.  [Threads]: what a task in the pool has done and can do
      next, from its protocol.  [WorldOk], [WorldLinks], [WorldAcks]: the
      invariants of the session, one part of its state each; [WorldRelease]:
      that no write task waits for nothing; [WorldSends], [WorldBlocked]: what
      a reader that waits, waits for; [WorldDeadlock]: a run in which the two
      readers wait for each other; [WorldComplete]: when an upload is complete; [WorldShutdown]: what the shutdown of the server ends
      and what it leaves.  [Schedule]: the
      steps as a function of the scheduler's choice, to evaluate examples.
      [EndToEnd]: the properties.  [HalfClose]: what a
      half-closed connection loses.
    - [System]: [run_proxy_resilient] as a whole, the accept loops, the keeper
      and the sessions it goes through, each of them a [World], with the
      connections that have no session (yet) and the channel by which a
      session's tasks tell the keeper of their end.  [Sessions]: what holds across
      sessions.
    - [HostCode] (core-lib/src/lib.rs): [encode_host], [decode_host].
    - [UnitTests]: the repository's unit tests, which hold of the model.
      [Fixtures] (integration-tests/src/lib.rs): the applications and upstreams
      of the integration tests, against the parsers they talk to.  [Harness]:
      how the tests start server and clients, the HTTP upstream, the direct
      GET.

    ** State and operations

    A component's state is a record with the fields of the Rust struct
    ([streams] for [StreamRegistry], [session] for a client session, [keeper]
    for the locals of [run_mux_keeper]); an operation is a function on it.
    What is shared between tasks and referred to by handle (channels, one-shot
    acknowledgements) lives in a store addressed by numbers, so that dropping a
    sender, replacing an entry and draining a closed channel act on the same
    object the other task holds.  Interleaving is a step relation
    ([Registry.reg_step], [Mux.session_step], [Tunnel.link_step],
    [Serve.serve_step], [World.world_step], [System.sys_step]) whose steps end
    at the code's awaits, with invariants by induction on reachability.  In
    [World.world] a task is its program, how far it is, the channel ends it
    holds and its history; [World.do_call] says what each of its calls does to the session.
    A [u32] is an [N] with its bound, wrap-around where the code wraps
    ([Proxy.accept_one]); an [as u8] is the remainder ([GeoIp.parse_cidr]).  A
    Rust slice that may panic is an [option]: [None] is the panic, and the
    theorems show it does not occur.

    ** What the theorems show

    - Codec: [decode] inverts [encode], and fails exactly where it should.
    - Request readers: they accept exactly a reference grammar, return its
      parts, consume exactly its bytes, never panic, and wait only for a peer
      that stays silent; refusals write the specified replies.
    - Routing and rule files: [should_bypass] decides the documented order of
      precedence; a loaded file accepts what some rule of the chosen tags does.
    - Handlers: every run follows the connection protocol, whatever the
      environment answers; consequences are the faithful upload, that every
      request is answered, and that a stream is unregistered at the end.
    - Registry and sessions: invariants, refinement of a map of queues, what
      each branch of [route] does, draining after [close]; each OPEN_ACK
      answers one handler; the end of a session releases every waiter.
    - Server: the runs of [handle_open], only allowed destinations are dialled (the
      filter decides on the address a SOCKS5 client named, IPv4 or IPv6),
      the faithful download; tokens open at most one session.
    - A session, for every interleaving of both programs and every behaviour
      of applications, destinations and network: what a destination receives is
      a prefix of what the one application that asked for it sent, less the
      bytes that the HTTP parser had read ahead of its request and lost
      ([ClientTraces.comes_from]), and the other way round; an application is told it is connected only when the
      server is; between a reader and a write task nothing is lost; every
      message on the wire decodes; no task panics ([EndToEnd]); no write task
      is left waiting on a channel nobody can send on ([WorldRelease]); and a
      reader that is held up by a full channel waits for that stream's task,
      which can go on, or waits in a send until the peer's reader reads
      ([WorldBlocked]); and an application that has closed has been delivered
      in full, less the same bytes, once the session has come to rest
      ([WorldComplete]).  The end of an application's input is the end of its
      reply ([HalfClose]).  After the end
      or the shutdown of the server's reader nothing is dialled and nothing
      more is uploaded ([WorldShutdown]).  CLOSE loses nothing ([Tunnel]).
    - The running client, through any number of lost sessions: every session is
      one that [World] reaches, so that all of the above holds of it; what a
      destination receives comes from one accepted connection, in one session;
      the keeper hears of the end of its session, stops only when told to, and
      can always bring a session up again by itself ([Sessions]).
    - Keeper, numbering, start-up: backoff and session hand-over, distinct
      stream ids below 2^32, when the client starts and with what; which part
      of the server a shutdown message ends ([Serve]).
    - The tests' fixtures: they agree with the parsers and with each other, and
      a client that a test starts logs in exactly when it should ([Harness]).
    - The legacy host encoding: its floating-point index stays inside the text,
      and decoding inverts encoding.

    Some theorems state what the code does where it, or a comment, promises more:
    [Ssrf.socks_ipv6_filtered], [Ssrf.ssrf_gaps], [WorldDeadlock.readers_deadlock],
    [HalfClose.half_close_ends_download], [Mux.late_open_waits_forever],
    [Client.accepted_stream_leaks], [Http.pipelined_bytes_lost],
    [GeoSite.regex_rule_lowercased], [GeoIp.cidr_prefix_truncated],
    [Routing.ipv6_pattern_misparsed], [Routing.http_ipv6_never_geoip],
    [Proxy.connect_failures_never_back_off], [HalfClose.half_close_loses_reply],
    [Serve.shutdown_message_stops_one],
    [WorldShutdown.shutdown_leaves_streams], [Fixtures.connect_fixture].

    ** Code outside the repository

    Crates are classes with the laws the code relies on: [ChannelLib]
    (async_channel), [Transport] (a WebSocket's send over TCP, which waits
    while the peer does not read: when there is room is a parameter), [IpNets] (ipnet), [RegexEngine] (regex),
    [GeoSiteDecoder] and [GeoIpDecoder] (protobuf), [SemVer], [UuidLib],
    [TomlReader], [FileSystem], [UriLib] (http), [Base64], and [UnicodeCase] for the non-ASCII part of
    [to_lowercase].  Each has a concrete instance where a witness needs it.
    Sockets, timers and the peer are the answers of calls ([Task.answer]) or
    the events of a state machine.

    ** Fuel and bounds

    Recursion is structural except for four loops.  [Http.header_loop] gets one
    more than the number of bytes that will arrive: every turn but the last
    consumes a byte ([Http.header_loop_finishes]).  [Text.trim_end_loop], [Text.dec_loop] and
    [Net.hex_loop] get the length of the text or a bound on the number of
    digits.  [Task.run] is used in examples only; the theorems are about the
    relation [Task.steps], which has no bound.  Channel capacities (32 per
    stream, 1 per acknowledgement), the header and body limits, the
    acknowledgement deadline and the backoff limits are the code's constants.

    [World.world_step] has no bound on tasks or steps; [Schedule.exec_all] is
    structural in the schedule.  [Fixtures.await_blank],
    [Fixtures.response_loop], [Harness.drain_request] and [Harness.direct_loop]
    take fuel, with what is enough in their theorems.

    ** Not modelled

    The WebSocket library's transport and TCP set-up ([connect_async],
    [accept_hdr_async], [bind]), logging and command-line parsing: what they
    yield is an argument or an event.  The integration tests themselves (the
    directory [tests]), and the delays of the fixtures.  [World] is one session,
    from its HELLO on; its server's half exists whether or not the server
    accepts the token (one that does not is a reader that ends at once).  A
    connection whose application is relayed directly ([handle_direct]) is a task
    of [World] or [System], but its upstream is not followed.  Memory ordering is that of one atomic counter and of
    mutexes held for a single operation, hence steps.  In [World] an accept
    gives an id that no connection of the session has ([World.fresh_id]); the
    counter wraps after 2^32 connections, and what happens when it meets an id
    that is still in use is not covered.  [Sessions] proves that fewer accepts
    never do.

    ** Next

    Progress of a session under a fair scheduler (a CLOSE sent is a CLOSE
    received, a registered stream ends); the server's accept loop over [World],
    as [System] is for the client. *)
From stdpp Require Export base tactics option list gmap.
From Stdlib Require Export Strings.Byte.
From Stdlib Require Export NArith ZArith Lia.
From stdpp Require Export strings.

(** ** Notation scope and hint databases of the development *)

Declare Scope echo_scope.
Delimit Scope echo_scope with echo.
#[global] Open Scope echo_scope.

Create HintDb echo.
Create Rewrite HintDb echo_rw.

(** ** Bytes

    A Rust [u8] is a [Byte.byte]; a [Vec<u8>], a [&[u8]], a [String] and a
    [&str] are all [list byte].  That a [String] holds UTF-8 is the predicate
    [Utf8.utf8_valid], stated where it matters. *)

Abbreviation byte := Byte.byte.
Abbreviation bytes := (list Byte.byte).

(** A string literal, as its bytes. *)
Definition bs (s : string) : bytes := String.list_byte_of_string s.
Arguments bs s%_string.

Definition u8 (b : byte) : N := Byte.to_N b.

(** [as u8]: the low eight bits. *)
Definition u8_of (n : N) : byte :=
  match Byte.of_N (n mod 256) with Some b => b | None => x00 end.

#[export] Instance byte_eq_dec : EqDecision byte := Byte.byte_eq_dec.

#[export] Instance byte_countable : Countable byte :=
  inj_countable Byte.to_N Byte.of_N Byte.of_to_N.

(** ** Results: Rust's [Result<T, E>] *)

Inductive result (T E : Type) : Type :=
| Ok (v : T)
| Err (e : E).
Arguments Ok {T E} v.
Arguments Err {T E} e.

Definition rbind {T U E : Type} (r : result T E) (f : T → result U E) : result U E :=
  match r with Ok v => f v | Err e => Err e end.

Definition map_err {T E F : Type} (r : result T E) (f : E → F) : result T F :=
  match r with Ok v => Ok v | Err e => Err (f e) end.

(** [r.ok()] *)
Definition res_ok {T E : Type} (r : result T E) : option T :=
  match r with Ok v => Some v | Err _ => None end.

(** [o.ok_or_else(..)] *)
Definition ok_or {T E : Type} (o : option T) (e : E) : result T E :=
  match o with Some v => Ok v | None => Err e end.

Notation "'let?' x ':=' r 'in' k" := (rbind r (λ x, k))
  (at level 10, x binder, k at level 200) : echo_scope.

(** ** Machine integers *)

Definition U16_MAX : N := 65535.
Definition U32_MAX : N := 4294967295.
Definition USIZE_MAX : N := 18446744073709551615.

Definition in_range (lo hi n : N) : bool := (lo <=? n)%N && (n <=? hi)%N.

(** [u32::to_be_bytes] and [u32::from_be_bytes]. *)
Definition u32_to_be_bytes (n : N) : bytes :=
  [u8_of (n / 16777216); u8_of (n / 65536); u8_of (n / 256); u8_of n]%N.

Arguments u32_to_be_bytes : simpl never.

Definition u32_from_be_bytes (b0 b1 b2 b3 : byte) : N :=
  (u8 b0 * 16777216 + u8 b1 * 65536 + u8 b2 * 256 + u8 b3)%N.

Definition u16_to_be_bytes (n : N) : bytes := [u8_of (n / 256); u8_of n]%N.

Definition u16_from_be_bytes (b0 b1 : byte) : N := (u8 b0 * 256 + u8 b1)%N.

(** ** Tactics *)

(** Case analysis on every [match] and [if] of the goal or of a hypothesis. *)
Ltac break_match :=
  repeat match goal with
  | |- context [match ?x with _ => _ end] => destruct x eqn:?
  end.

Ltac break_match_hyp H :=
  repeat match type of H with
  | context [match ?x with _ => _ end] => destruct x eqn:?; try discriminate H
  end.

(** A goal about one byte, by the 256 cases. *)
Ltac byte_cases b := destruct b; try reflexivity; try discriminate; try done.

(** Boolean hypotheses and goals into propositions, then [lia]. *)
Ltac blia :=
  unfold in_range in *;
  repeat rewrite ?andb_true_iff, ?andb_false_iff, ?orb_true_iff, ?orb_false_iff,
    ?negb_true_iff, ?negb_false_iff, ?N.leb_le, ?N.leb_gt, ?N.ltb_lt, ?N.ltb_ge,
    ?N.eqb_eq, ?N.eqb_neq, ?Nat.leb_le, ?Nat.leb_gt, ?Nat.ltb_lt, ?Nat.ltb_ge,
    ?Nat.eqb_eq, ?Nat.eqb_neq in *; lia.

(** [lia] with divisions and remainders by constants. *)
Ltac dlia := zify; Z.to_euclidean_division_equations; lia.

(** ** Bytes as numbers *)

Lemma u8_bound (b : byte) : (u8 b < 256)%N.
Proof. pose proof (Byte.to_N_bounded b). unfold u8. lia. Qed.

Lemma u8_inj (a b : byte) : u8 a = u8 b → a = b.
Proof.
  intros H. pose proof (Byte.of_to_N a) as Ha. pose proof (Byte.of_to_N b) as Hb.
  unfold u8 in H. rewrite H in Ha. congruence.
Qed.

Lemma u8_of_u8 (b : byte) : u8_of (u8 b) = b.
Proof.
  unfold u8_of, u8. pose proof (Byte.to_N_bounded b).
  rewrite N.mod_small by lia. by rewrite Byte.of_to_N.
Qed.

Lemma u8_u8_of (n : N) : u8 (u8_of n) = (n mod 256)%N.
Proof.
  unfold u8_of, u8. pose proof (N.mod_upper_bound n 256 ltac:(lia)).
  destruct (Byte.of_N (n mod 256)) as [b|] eqn:E.
  - by apply Byte.to_of_N.
  - apply Byte.of_N_None_iff in E. lia.
Qed.


Lemma u32_from_be_bound (b0 b1 b2 b3 : byte) : (u32_from_be_bytes b0 b1 b2 b3 ≤ U32_MAX)%N.
Proof.
  unfold u32_from_be_bytes, U32_MAX.
  pose proof (u8_bound b0); pose proof (u8_bound b1).
  pose proof (u8_bound b2); pose proof (u8_bound b3). lia.
Qed.

Lemma u16_from_be_bound (b0 b1 : byte) : (u16_from_be_bytes b0 b1 ≤ U16_MAX)%N.
Proof.
  unfold u16_from_be_bytes, U16_MAX.
  pose proof (u8_bound b0); pose proof (u8_bound b1). lia.
Qed.

Lemma u32_be_roundtrip (n : N) (b0 b1 b2 b3 : byte) :
  (n ≤ U32_MAX)%N → u32_to_be_bytes n = [b0; b1; b2; b3] →
  u32_from_be_bytes b0 b1 b2 b3 = n.
Proof.
  unfold U32_MAX, u32_to_be_bytes, u32_from_be_bytes.
  intros Hn [= <- <- <- <-]. rewrite !u8_u8_of. dlia.
Qed.

Lemma u32_be_of_from (b0 b1 b2 b3 : byte) :
  u32_to_be_bytes (u32_from_be_bytes b0 b1 b2 b3) = [b0; b1; b2; b3].
Proof.
  unfold u32_to_be_bytes, u32_from_be_bytes.
  pose proof (u8_bound b0); pose proof (u8_bound b1).
  pose proof (u8_bound b2); pose proof (u8_bound b3).
  repeat f_equal; apply u8_inj; rewrite u8_u8_of; dlia.
Qed.

Lemma u16_be_roundtrip (n : N) :
  (n ≤ U16_MAX)%N → u16_from_be_bytes (u8_of (n / 256)) (u8_of n) = n.
Proof. unfold U16_MAX, u16_from_be_bytes. intros. rewrite !u8_u8_of. dlia. Qed.

Lemma bytes_cat_inj_length {A : Type} (a b c d : list A) :
  length a = length c → a ++ b = c ++ d → a = c ∧ b = d.
Proof. intros Hl H. by apply app_inj_1 in H. Qed.

#[export] Hint Resolve u8_bound u32_from_be_bound u16_from_be_bound : echo.
#[export] Hint Rewrite u8_of_u8 u8_u8_of : echo_rw.
