(* ===== verification/Utf8.v ===== *)
(** * UTF-8, as Rust's [str] uses it

    [utf8_valid] is the check of [std::str::from_utf8] (the byte ranges of
    Unicode's table 3-7, in the order the standard library tests them), proved
    equivalent to "is the encoding of a sequence of Unicode scalar values".
    [utf8_chars] splits a string into its characters. *)
From S2P Require Import Prelude.

Local Open Scope N_scope.

(** A continuation byte. *)
Definition is_cont (b : byte) : bool := in_range 128 191 (u8 b).

(** The range the second byte of a 3-byte and of a 4-byte sequence must lie in. *)
Definition second3 (n0 n1 : N) : bool :=
  if n0 =? 224 then in_range 160 191 n1
  else if n0 =? 237 then in_range 128 159 n1
  else in_range 128 191 n1.

Definition second4 (n0 n1 : N) : bool :=
  if n0 =? 240 then in_range 144 191 n1
  else if n0 =? 244 then in_range 128 143 n1
  else in_range 128 191 n1.

(** [std::str::from_utf8(s).is_ok()] *)
Fixpoint utf8_valid (s : bytes) : bool :=
  match s with
  | [] => true
  | b0 :: t0 =>
      if u8 b0 <? 128 then utf8_valid t0
      else if in_range 194 223 (u8 b0) then
        match t0 with
        | b1 :: t1 => is_cont b1 && utf8_valid t1
        | _ => false
        end
      else if in_range 224 239 (u8 b0) then
        match t0 with
        | b1 :: b2 :: t2 => second3 (u8 b0) (u8 b1) && is_cont b2 && utf8_valid t2
        | _ => false
        end
      else if in_range 240 244 (u8 b0) then
        match t0 with
        | b1 :: b2 :: b3 :: t3 =>
            second4 (u8 b0) (u8 b1) && is_cont b2 && is_cont b3 && utf8_valid t3
        | _ => false
        end
      else false
  end.

(** ** The reference: scalar values and their encoding *)

Definition is_scalar (c : N) : Prop := c < 55296 ∨ (57344 ≤ c ∧ c < 1114112).

Definition utf8_encode (c : N) : bytes :=
  if c <? 128 then [u8_of c]
  else if c <? 2048 then [u8_of (192 + c / 64); u8_of (128 + c mod 64)]
  else if c <? 65536 then
    [u8_of (224 + c / 4096); u8_of (128 + (c / 64) mod 64); u8_of (128 + c mod 64)]
  else
    [u8_of (240 + c / 262144); u8_of (128 + (c / 4096) mod 64);
     u8_of (128 + (c / 64) mod 64); u8_of (128 + c mod 64)].

(** ** Characters *)

(** The characters of a valid string, each as its bytes: a character starts at
    every byte that is not a continuation byte. *)
Fixpoint utf8_chars (s : bytes) : list bytes :=
  match s with
  | [] => []
  | b :: t =>
      match utf8_chars t with
      | (c :: w) :: cs => if is_cont c then (b :: c :: w) :: cs else [b] :: (c :: w) :: cs
      | cs => [b] :: cs
      end
  end.

Definition is_ascii_byte (b : byte) : bool := u8 b <? 128.
Definition is_ascii (s : bytes) : bool := forallb is_ascii_byte s.

(** ** Lemmas *)

(** Induction along the sequences [utf8_valid] accepts. *)
Lemma utf8_ind (P : bytes → Prop) :
  P [] →
  (∀ b t, u8 b < 128 → utf8_valid t = true → P t → P (b :: t)) →
  (∀ b b1 t, in_range 194 223 (u8 b) = true → is_cont b1 = true →
     utf8_valid t = true → P t → P (b :: b1 :: t)) →
  (∀ b b1 b2 t, in_range 224 239 (u8 b) = true → second3 (u8 b) (u8 b1) = true →
     is_cont b2 = true → utf8_valid t = true → P t → P (b :: b1 :: b2 :: t)) →
  (∀ b b1 b2 b3 t, in_range 240 244 (u8 b) = true → second4 (u8 b) (u8 b1) = true →
     is_cont b2 = true → is_cont b3 = true →
     utf8_valid t = true → P t → P (b :: b1 :: b2 :: b3 :: t)) →
  ∀ s, utf8_valid s = true → P s.
Proof.
  intros H0 H1 H2 H3 H4 s.
  remember (length s) as n eqn:Hn. revert s Hn.
  induction (lt_wf n) as [n _ IH]. intros s -> Hv.
  destruct s as [|b t]; [done|]. simpl in Hv.
  destruct (u8 b <? 128) eqn:E1; [apply H1; auto; [blia|]; eapply IH; eauto; simpl; lia|].
  destruct (in_range 194 223 (u8 b)) eqn:E2.
  { destruct t as [|b1 t]; [done|]. apply andb_true_iff in Hv as [Hb Hv].
    apply H2; auto. eapply IH; eauto; simpl; lia. }
  destruct (in_range 224 239 (u8 b)) eqn:E3.
  { destruct t as [|b1 [|b2 t]]; [done..|].
    rewrite !andb_true_iff in Hv. destruct Hv as [[Hb Hc] Hv].
    apply H3; auto. eapply IH; eauto; simpl; lia. }
  destruct (in_range 240 244 (u8 b)) eqn:E4; [|done].
  destruct t as [|b1 [|b2 [|b3 t]]]; [done..|].
  rewrite !andb_true_iff in Hv. destruct Hv as [[[Hb Hc] Hd] Hv].
  apply H4; auto. eapply IH; eauto; simpl; lia.
Qed.

(** The step equations of [utf8_valid], usable right to left. *)
Lemma utf8_valid_ascii_cons (b : byte) (t : bytes) :
  u8 b < 128 → utf8_valid (b :: t) = utf8_valid t.
Proof. intros H. simpl. by apply N.ltb_lt in H as ->. Qed.

Lemma utf8_valid_cons2 (b b1 : byte) (t : bytes) :
  in_range 194 223 (u8 b) = true → is_cont b1 = true →
  utf8_valid (b :: b1 :: t) = utf8_valid t.
Proof.
  intros H H1. simpl. rewrite H, H1.
  destruct (u8 b <? 128) eqn:E; [exfalso; blia | done].
Qed.

Lemma utf8_valid_cons3 (b b1 b2 : byte) (t : bytes) :
  in_range 224 239 (u8 b) = true → second3 (u8 b) (u8 b1) = true → is_cont b2 = true →
  utf8_valid (b :: b1 :: b2 :: t) = utf8_valid t.
Proof.
  intros H H1 H2. simpl. rewrite H, H1, H2.
  destruct (u8 b <? 128) eqn:E; [exfalso; blia |].
  destruct (in_range 194 223 (u8 b)) eqn:E'; [exfalso; blia | done].
Qed.

Lemma utf8_valid_cons4 (b b1 b2 b3 : byte) (t : bytes) :
  in_range 240 244 (u8 b) = true → second4 (u8 b) (u8 b1) = true →
  is_cont b2 = true → is_cont b3 = true →
  utf8_valid (b :: b1 :: b2 :: b3 :: t) = utf8_valid t.
Proof.
  intros H H1 H2 H3. simpl. rewrite H, H1, H2, H3.
  destruct (u8 b <? 128) eqn:E; [exfalso; blia |].
  destruct (in_range 194 223 (u8 b)) eqn:E'; [exfalso; blia |].
  destruct (in_range 224 239 (u8 b)) eqn:E''; [exfalso; blia | done].
Qed.

#[export] Hint Rewrite utf8_valid_ascii_cons utf8_valid_cons2 utf8_valid_cons3
  utf8_valid_cons4 using assumption : echo_rw.

(** Appending to a valid string. *)
Lemma utf8_valid_app_l (s t : bytes) :
  utf8_valid s = true → utf8_valid (s ++ t) = utf8_valid t.
Proof.
  revert s. apply utf8_ind; [done|..]; intros; simpl app;
    autorewrite with echo_rw; done.
Qed.

Lemma utf8_valid_ascii (s : bytes) : is_ascii s = true → utf8_valid s = true.
Proof.
  induction s as [|b t IH]; [done|]. simpl. unfold is_ascii_byte.
  intros [-> H]%andb_true_iff. auto.
Qed.

Lemma is_cont_high (b : byte) : is_cont b = true → 128 ≤ u8 b.
Proof. unfold is_cont. blia. Qed.

Lemma second3_high (n : N) (b : byte) : second3 n (u8 b) = true → 128 ≤ u8 b.
Proof. unfold second3. repeat case_match; blia. Qed.

Lemma second4_high (n : N) (b : byte) : second4 n (u8 b) = true → 128 ≤ u8 b.
Proof. unfold second4. repeat case_match; blia. Qed.

(** No ASCII byte in a multi-byte sequence. *)
Ltac not_ascii :=
  exfalso;
  repeat match goal with
  | H : is_cont _ = true |- _ => apply is_cont_high in H
  | H : second3 _ _ = true |- _ => apply second3_high in H
  | H : second4 _ _ = true |- _ => apply second4_high in H
  end; blia.

(** A valid string splits at an ASCII byte into two valid strings. *)
Lemma utf8_valid_split_ascii (s t : bytes) (c : byte) :
  u8 c < 128 → utf8_valid (s ++ c :: t) = true →
  utf8_valid s = true ∧ utf8_valid t = true.
Proof.
  intros Hc Hv. remember (s ++ c :: t) as w eqn:Hw. revert s Hw.
  pattern w. revert w Hv. apply utf8_ind.
  - intros s H. by destruct s.
  - intros b w Hb Hv IH [|b' s] [= -> ->]; [done|].
    autorewrite with echo_rw. by apply IH.
  - intros b b1 w Hb Hb1 Hv IH [|b' [|b1' s]] Hw; simpl in Hw; simplify_eq;
      [not_ascii..|].
    rewrite utf8_valid_cons2 by done. by apply IH.
  - intros b b1 b2 w Hb Hb1 Hb2 Hv IH [|b' [|b1' [|b2' s]]] Hw; simpl in Hw; simplify_eq;
      [not_ascii..|].
    rewrite utf8_valid_cons3 by done. by apply IH.
  - intros b b1 b2 b3 w Hb Hb1 Hb2 Hb3 Hv IH [|b' [|b1' [|b2' [|b3' s]]]] Hw;
      simpl in Hw; simplify_eq; [not_ascii..|].
    rewrite utf8_valid_cons4 by done. by apply IH.
Qed.

Lemma utf8_chars_concat (s : bytes) : concat (utf8_chars s) = s.
Proof.
  induction s as [|b t IH]; [done|]. simpl. rewrite <- IH at 2.
  destruct (utf8_chars t) as [|[|c w] cs]; try done.
  by destruct (is_cont c).
Qed.

(** The four shapes of an encoded scalar. *)
Lemma utf8_valid_encode (c : N) (t : bytes) :
  is_scalar c → utf8_valid (utf8_encode c ++ t) = utf8_valid t.
Proof.
  intros Hc. unfold utf8_encode, is_scalar in *.
  destruct (c <? 128) eqn:E1; [|destruct (c <? 2048) eqn:E2;
    [|destruct (c <? 65536) eqn:E3]]; simpl app.
  - apply utf8_valid_ascii_cons. rewrite u8_u8_of. apply N.ltb_lt in E1. dlia.
  - apply utf8_valid_cons2; unfold is_cont; rewrite u8_u8_of;
      apply N.ltb_lt in E2; apply N.ltb_ge in E1; unfold in_range;
      apply andb_true_iff; rewrite !N.leb_le; dlia.
  - apply N.ltb_ge in E1, E2; apply N.ltb_lt in E3.
    apply utf8_valid_cons3; unfold is_cont, second3; rewrite !u8_u8_of; unfold in_range;
      [| repeat case_match; rewrite ?N.eqb_eq, ?N.eqb_neq in * |];
      apply andb_true_iff; rewrite !N.leb_le; dlia.
  - apply N.ltb_ge in E1, E2, E3.
    apply utf8_valid_cons4; unfold is_cont, second4; rewrite !u8_u8_of; unfold in_range;
      [| repeat case_match; rewrite ?N.eqb_eq, ?N.eqb_neq in * | |];
      apply andb_true_iff; rewrite !N.leb_le; dlia.
Qed.

(** Three and four accepted bytes are the encoding of a scalar value. *)
Lemma utf8_three (b b1 b2 : byte) :
  in_range 224 239 (u8 b) = true → second3 (u8 b) (u8 b1) = true → is_cont b2 = true →
  ∃ c, is_scalar c ∧ ∀ t, b :: b1 :: b2 :: t = utf8_encode c ++ t.
Proof.
  intros Hb Hb1 Hb2. exists ((u8 b - 224) * 4096 + (u8 b1 - 128) * 64 + (u8 b2 - 128)).
  assert (128 ≤ u8 b1 ≤ 191 ∧ (u8 b = 224 → 160 ≤ u8 b1) ∧ (u8 b = 237 → u8 b1 ≤ 159))
    as (Hr & Ha & Hd).
  { unfold second3 in Hb1. repeat case_match; blia. }
  unfold is_cont, in_range in *. rewrite !andb_true_iff, !N.leb_le in *.
  split; [unfold is_scalar; lia|]. intros t. unfold utf8_encode. set (c := _ + _).
  assert (2048 ≤ c < 65536) as [H1 H2] by lia.
  assert (128 ≤ c) as H0 by lia.
  apply N.ltb_ge in H0 as ->; apply N.ltb_ge in H1 as ->. apply N.ltb_lt in H2 as ->.
  simpl. unfold c. repeat f_equal; apply u8_inj; rewrite u8_u8_of; dlia.
Qed.

Lemma utf8_four (b b1 b2 b3 : byte) :
  in_range 240 244 (u8 b) = true → second4 (u8 b) (u8 b1) = true → is_cont b2 = true → is_cont b3 = true →
  ∃ c, is_scalar c ∧ ∀ t, b :: b1 :: b2 :: b3 :: t = utf8_encode c ++ t.
Proof.
  intros Hb Hb1 Hb2 Hb3.
  exists ((u8 b - 240) * 262144 + (u8 b1 - 128) * 4096 + (u8 b2 - 128) * 64 + (u8 b3 - 128)).
  assert (128 ≤ u8 b1 ≤ 191 ∧ (u8 b = 240 → 144 ≤ u8 b1) ∧ (u8 b = 244 → u8 b1 ≤ 143))
    as (Hr & Ha & Hd).
  { unfold second4 in Hb1. repeat case_match; blia. }
  unfold is_cont, in_range in *. rewrite !andb_true_iff, !N.leb_le in *.
  split; [unfold is_scalar; lia|]. intros t. unfold utf8_encode. set (c := _ + _).
  assert (65536 ≤ c) as H1 by lia.
  assert (128 ≤ c) as H0 by lia. assert (2048 ≤ c) as H2 by lia.
  apply N.ltb_ge in H0 as ->; apply N.ltb_ge in H1 as ->; apply N.ltb_ge in H2 as ->.
  simpl. unfold c. repeat f_equal; apply u8_inj; rewrite u8_u8_of; dlia.
Qed.

(** [utf8_valid] accepts exactly the encodings of scalar-value sequences. *)
Lemma utf8_valid_iff (s : bytes) :
  utf8_valid s = true ↔ ∃ cs, Forall is_scalar cs ∧ s = concat (map utf8_encode cs).
Proof.
  split.
  - revert s. apply utf8_ind.
    + exists []. by split.
    + intros b t Hb _ (cs & Hcs & ->). exists (u8 b :: cs). split.
      * constructor; [unfold is_scalar; lia | done].
      * simpl. unfold utf8_encode. apply N.ltb_lt in Hb as ->. by rewrite u8_of_u8.
    + intros b b1 t Hb Hb1 _ (cs & Hcs & ->).
      exists ((u8 b - 192) * 64 + (u8 b1 - 128) :: cs).
      unfold is_cont in *. split; [constructor; [unfold is_scalar; blia | done]|].
      simpl. unfold utf8_encode.
      assert (128 ≤ (u8 b - 192) * 64 + (u8 b1 - 128) < 2048) as [H1 H2] by blia.
      apply N.ltb_ge in H1 as ->. apply N.ltb_lt in H2 as ->. simpl.
      repeat f_equal; apply u8_inj; rewrite u8_u8_of; blia || (unfold in_range in *;
        rewrite !andb_true_iff, !N.leb_le in *; dlia).
    + intros b b1 b2 t Hb Hb1 Hb2 _ (cs & Hcs & ->).
      destruct (utf8_three b b1 b2 Hb Hb1 Hb2) as (c & Hc & ->). exists (c :: cs). by split; [constructor|].
    + intros b b1 b2 b3 t Hb Hb1 Hb2 Hb3 _ (cs & Hcs & ->).
      destruct (utf8_four b b1 b2 b3 Hb Hb1 Hb2 Hb3) as (c & Hc & ->). exists (c :: cs). by split; [constructor|].
  - intros (cs & Hcs & ->). induction Hcs as [|c cs Hc _ IH]; [done|].
    simpl. by rewrite utf8_valid_encode.
Qed.

#[export] Hint Resolve utf8_valid_ascii : echo.
