(* ===== verification/Text.v ===== *)
(** * The string operations of Rust's standard library the program calls

    Strings are their UTF-8 bytes ([Prelude.bytes]).  Searching for an ASCII
    character is searching for its byte: in UTF-8 no other character contains
    it ([Utf8.utf8_valid_split_ascii]). *)
From S2P Require Import Prelude Utf8.

(** ** Comparison and affixes *)

Definition str_eqb (a b : bytes) : bool := bool_decide (a = b).

(** [s.starts_with(p)], [s.ends_with(p)], [s.strip_prefix(p)], [s.contains(p)] *)
Fixpoint starts_with (s p : bytes) {struct p} : bool :=
  match p with
  | [] => true
  | c :: p' =>
      match s with
      | d :: s' => bool_decide (c = d) && starts_with s' p'
      | [] => false
      end
  end.

Definition ends_with (s p : bytes) : bool := starts_with (rev s) (rev p).

Definition strip_prefix (s p : bytes) : option bytes :=
  if starts_with s p then Some (drop (length p) s) else None.

Fixpoint contains (s p : bytes) : bool :=
  starts_with s p || match s with [] => false | _ :: s' => contains s' p end.

(** ** Slicing

    [s[i..]] and [s[..i]] panic off a character boundary: [None]. *)
Definition is_char_boundary (s : bytes) (i : nat) : bool :=
  match s !! i with
  | Some b => (i =? 0) || negb (is_cont b)
  | None => i =? length s
  end.

Definition str_from (s : bytes) (i : nat) : option bytes :=
  if is_char_boundary s i then Some (drop i s) else None.

Definition str_to (s : bytes) (i : nat) : option bytes :=
  if is_char_boundary s i then Some (take i s) else None.

(** [iter.any(p)] for a test that may panic: left to right, stopping at the
    first [true] or the first panic. *)
Fixpoint any_opt {A : Type} (p : A → option bool) (l : list A) : option bool :=
  match l with
  | [] => Some false
  | a :: l' =>
      match p a with
      | None => None
      | Some true => Some true
      | Some false => any_opt p l'
      end
  end.

(** ** Searching for an ASCII character *)

(** [s.rsplit_once(c)] *)
Fixpoint rsplit_once (s : bytes) (c : byte) : option (bytes * bytes) :=
  match s with
  | [] => None
  | d :: s' =>
      match rsplit_once s' c with
      | Some (h, p) => Some (d :: h, p)
      | None => if bool_decide (d = c) then Some ([], s') else None
      end
  end.

(** [s.rfind(c)]: the byte index of the last occurrence. *)
Definition rfind (s : bytes) (c : byte) : option nat :=
  option_map (λ hp, length (fst hp)) (rsplit_once s c).

(** [s.split_once(c)] *)
Fixpoint split_once (s : bytes) (c : byte) : option (bytes * bytes) :=
  match s with
  | [] => None
  | d :: s' =>
      if bool_decide (d = c) then Some ([], s')
      else option_map (λ hp, (d :: fst hp, snd hp)) (split_once s' c)
  end.

(** [s.splitn(n, c)] collected: at most [n] pieces, the last one the rest. *)
Fixpoint splitn (n : nat) (s : bytes) (c : byte) : list bytes :=
  match n with
  | O => []
  | S O => [s]
  | S n' => match split_once s c with
            | Some (h, t) => h :: splitn n' t c
            | None => [s]
            end
  end.

(** ** Trimming *)

Fixpoint drop_while {A : Type} (p : A → bool) (l : list A) : list A :=
  match l with
  | [] => []
  | a :: l' => if p a then drop_while p l' else l
  end.

Definition drop_while_end {A : Type} (p : A → bool) (l : list A) : list A :=
  rev (drop_while p (rev l)).

(** [s.trim_matches(p)] for a [p] that holds of ASCII characters only. *)
Definition trim_matches (p : byte → bool) (s : bytes) : bytes :=
  drop_while_end p (drop_while p s).

(** [char::is_whitespace] (Unicode White_Space), on a character's bytes. *)
Definition whitespace_scalars : list N :=
  [9; 10; 11; 12; 13; 32; 133; 160; 5760; 8192; 8193; 8194; 8195; 8196; 8197;
   8198; 8199; 8200; 8201; 8202; 8232; 8233; 8239; 8287; 12288]%N.

Definition is_whitespace (ch : bytes) : bool :=
  existsb (λ c, str_eqb ch (utf8_encode c)) whitespace_scalars.

(** [s.trim()] *)
Definition trim (s : bytes) : bytes :=
  concat (drop_while_end is_whitespace (drop_while is_whitespace (utf8_chars s))).

(** [s.trim_end_matches(p)] for a string pattern [p]; every round removes
    [length p] bytes, so [length s] rounds are enough for a nonempty [p]. *)
Fixpoint trim_end_loop (fuel : nat) (s p : bytes) : bytes :=
  match fuel with
  | O => s
  | S f => if ends_with s p then trim_end_loop f (take (length s - length p) s) p else s
  end.

Definition trim_end_matches (s p : bytes) : bytes := trim_end_loop (length s) s p.

(** ** ASCII case *)

Definition ascii_lower_byte (b : byte) : byte :=
  if in_range 65 90 (u8 b) then u8_of (u8 b + 32)%N else b.

Definition ascii_upper_byte (b : byte) : byte :=
  if in_range 97 122 (u8 b) then u8_of (u8 b - 32)%N else b.

Definition to_ascii_lowercase (s : bytes) : bytes := map ascii_lower_byte s.
Definition to_ascii_uppercase (s : bytes) : bytes := map ascii_upper_byte s.

Definition eq_ignore_ascii_case (a b : bytes) : bool :=
  str_eqb (to_ascii_lowercase a) (to_ascii_lowercase b).

(** ** Unicode case

    [str::to_lowercase] and [str::to_uppercase] on an ASCII string are the
    ASCII maps; on other strings they use the Unicode tables, which the
    interface below stands for.  The laws are those of any function that
    returns a Rust [String]. *)
Class UnicodeCase := {
  lower_unicode : bytes → bytes;
  upper_unicode : bytes → bytes;
  lower_unicode_valid s : utf8_valid s = true → utf8_valid (lower_unicode s) = true;
  upper_unicode_valid s : utf8_valid s = true → utf8_valid (upper_unicode s) = true
}.

Definition to_lowercase `{UnicodeCase} (s : bytes) : bytes :=
  if is_ascii s then to_ascii_lowercase s else lower_unicode s.

Definition to_uppercase `{UnicodeCase} (s : bytes) : bytes :=
  if is_ascii s then to_ascii_uppercase s else upper_unicode s.

(** A concrete instance, for evaluating examples: scripts without case. *)
Definition caseless : UnicodeCase :=
  {| lower_unicode s := s; upper_unicode s := s;
     lower_unicode_valid s H := H; upper_unicode_valid s H := H |}.

(** ** Numbers *)

Definition is_digit (b : byte) : bool := in_range 48 57 (u8 b).
Definition digit_val (b : byte) : N := (u8 b - 48)%N.

(** The digit loop of [from_str_radix]: checked multiplication and addition. *)
Fixpoint parse_digits (max acc : N) (s : bytes) : option N :=
  match s with
  | [] => Some acc
  | b :: t =>
      if is_digit b then
        let m := (acc * 10)%N in
        if (max <? m)%N then None
        else let a := (m + digit_val b)%N in
             if (max <? a)%N then None else parse_digits max a t
      else None
  end.

(** [s.parse::<uN>().ok()], with [max] the type's maximum: an optional leading
    [+], at least one digit. *)
Definition parse_uint (max : N) (s : bytes) : option N :=
  match s with
  | [] => None
  | b :: t =>
      if bool_decide (b = x2b) then
        match t with [] => None | _ => parse_digits max 0 t end
      else parse_digits max 0 s
  end.

Definition parse_u16 : bytes → option N := parse_uint U16_MAX.
Definition parse_usize : bytes → option N := parse_uint USIZE_MAX.

(** [Display] of an unsigned integer; [fuel] bounds the number of digits. *)
Fixpoint dec_loop (fuel : nat) (n : N) (acc : bytes) : bytes :=
  match fuel with
  | O => acc
  | S f =>
      let acc' := u8_of (48 + n mod 10)%N :: acc in
      if (n <? 10)%N then acc' else dec_loop f (n / 10)%N acc'
  end.

Definition show_dec (n : N) : bytes := dec_loop 20 n [].

(** ** Lemmas: affixes *)

Lemma str_eqb_eq (a b : bytes) : str_eqb a b = true ↔ a = b.
Proof. apply bool_decide_eq_true. Qed.

Lemma starts_with_iff (s p : bytes) : starts_with s p = true ↔ ∃ t, s = p ++ t.
Proof.
  revert s. induction p as [|c p IH]; intros s; simpl.
  - split; [by exists s | done].
  - destruct s as [|d s]; [split; [done | by intros [t ?]]|].
    rewrite andb_true_iff, bool_decide_eq_true, IH. split.
    + intros [-> [t ->]]. by exists t.
    + intros [t [= -> ->]]. eauto.
Qed.

Lemma starts_with_app (p t : bytes) : starts_with (p ++ t) p = true.
Proof. apply starts_with_iff. by exists t. Qed.

Lemma ends_with_iff (s p : bytes) : ends_with s p = true ↔ ∃ t, s = t ++ p.
Proof.
  unfold ends_with. rewrite starts_with_iff. split; intros [t Ht].
  - exists (rev t). rewrite <- (rev_involutive p), <- rev_app_distr, <- Ht.
    by rewrite rev_involutive.
  - exists (rev t). by rewrite Ht, rev_app_distr.
Qed.

Lemma ends_with_app (t p : bytes) : ends_with (t ++ p) p = true.
Proof. apply ends_with_iff. by exists t. Qed.

Lemma contains_iff (s p : bytes) : contains s p = true ↔ ∃ a b, s = a ++ p ++ b.
Proof.
  induction s as [|c s IH]; simpl; rewrite orb_true_iff, starts_with_iff.
  - split.
    + intros [[t Ht]|?]; [by exists [], t | done].
    + intros (a & b & H). left. exists b. by destruct a.
  - rewrite IH. split.
    + intros [[t ->]|(a & b & ->)]; [by exists [], t | by exists (c :: a), b].
    + intros ([|c' a] & b & H); [left; by exists b|].
      injection H as -> ->. right. by exists a, b.
Qed.

Lemma strip_prefix_iff (s p t : bytes) : strip_prefix s p = Some t ↔ s = p ++ t.
Proof.
  unfold strip_prefix. destruct (starts_with s p) eqn:E.
  - apply starts_with_iff in E as [w ->]. rewrite drop_app_length. split.
    + by intros [= ->].
    + by intros ->%app_inv_head.
  - split; [done|]. intros ->. by rewrite starts_with_app in E.
Qed.

(** ** Lemmas: slices *)

Lemma utf8_valid_head (b : byte) (t : bytes) : utf8_valid (b :: t) = true → is_cont b = false.
Proof.
  simpl. unfold is_cont, in_range. intros H. apply not_true_iff_false. intros Hc.
  rewrite andb_true_iff, !N.leb_le in Hc.
  repeat case_match; try done; blia.
Qed.

(** A position after which the text is valid UTF-8 is a boundary. *)
Lemma char_boundary_app (s t : bytes) :
  utf8_valid t = true → is_char_boundary (s ++ t) (length s) = true.
Proof.
  intros Ht. unfold is_char_boundary. destruct t as [|b t].
  - rewrite app_nil_r, lookup_ge_None_2 by done. by apply Nat.eqb_eq.
  - rewrite list_lookup_middle by done. rewrite (utf8_valid_head b t Ht). apply orb_true_r.
Qed.

Lemma str_to_app (s t : bytes) : utf8_valid t = true → str_to (s ++ t) (length s) = Some s.
Proof. intros Ht. unfold str_to. rewrite char_boundary_app by done. by rewrite take_app_length. Qed.

Lemma str_from_app (s t : bytes) : utf8_valid t = true → str_from (s ++ t) (length s) = Some t.
Proof. intros Ht. unfold str_from. rewrite char_boundary_app by done. by rewrite drop_app_length. Qed.

Lemma any_opt_total {A : Type} (p : A → option bool) (f : A → bool) (l : list A) :
  (∀ a, a ∈ l → p a = Some (f a)) → any_opt p l = Some (existsb f l).
Proof.
  induction l as [|a l IH]; intros H; simpl; [done|].
  rewrite H by left. destruct (f a); [done|]. apply IH. intros b Hb. apply H. by right.
Qed.

(** ** Lemmas: splitting at a character *)

Lemma elem_of_mid {A : Type} (a : A) (l k : list A) : a ∈ l ++ a :: k.
Proof. apply elem_of_app. right. left. Qed.

Lemma rsplit_once_None (s : bytes) (c : byte) : rsplit_once s c = None ↔ c ∉ s.
Proof.
  induction s as [|d s IH]; simpl; [split; [intros; apply not_elem_of_nil | done]|].
  rewrite not_elem_of_cons, <- IH.
  destruct (rsplit_once s c) as [[h p]|]; [split; [done | by intros []]|].
  case_bool_decide as Hd; split; [done | by intros [? _] | by split | done].
Qed.

Lemma rsplit_once_Some (s h p : bytes) (c : byte) :
  rsplit_once s c = Some (h, p) ↔ s = h ++ c :: p ∧ c ∉ p.
Proof.
  revert h. induction s as [|d s IH]; intros h; simpl.
  - split; [done|]. by intros [H _]; destruct h.
  - destruct (rsplit_once s c) as [[h' p']|] eqn:E.
    + split.
      * intros [= <- ->]. destruct (proj1 (IH h') eq_refl) as [-> ?]. done.
      * intros [H Hp]. destruct h as [|d' h]; injection H as -> ->.
        { apply rsplit_once_None in Hp. congruence. }
        pose proof (proj2 (IH h) (conj eq_refl Hp)). by simplify_eq.
    + case_bool_decide as Hd.
      * subst d. split.
        { intros [= <- ->]. split; [done|]. by apply rsplit_once_None. }
        intros [H Hp]. destruct h as [|d' h]; [by simplify_eq/=|].
        injection H as -> ->. exfalso.
        apply (proj1 (rsplit_once_None _ _) E), elem_of_mid.
      * split; [done|]. intros [H Hp]. exfalso.
        destruct h as [|d' h]; injection H as -> ->; [done|].
        apply (proj1 (rsplit_once_None _ _) E), elem_of_mid.
Qed.

Lemma rsplit_once_app (h p : bytes) (c : byte) :
  c ∉ p → rsplit_once (h ++ c :: p) c = Some (h, p).
Proof. intros. by apply rsplit_once_Some. Qed.

Lemma split_once_Some (s h p : bytes) (c : byte) :
  split_once s c = Some (h, p) ↔ s = h ++ c :: p ∧ c ∉ h.
Proof.
  revert h. induction s as [|d s IH]; intros h; simpl.
  - split; [done|]. by intros [H _]; destruct h.
  - case_bool_decide as Hd.
    + subst d. split.
      * intros [= <- ->]. split; [done | apply not_elem_of_nil].
      * intros [H Hh]. destruct h as [|d' h]; [by simplify_eq/=|].
        injection H as -> ->. by apply not_elem_of_cons in Hh as [].
    + destruct (split_once s c) as [[h' p']|] eqn:E; simpl; split.
      * intros [= <- ->]. destruct (proj1 (IH h') eq_refl) as [-> ?].
        split; [done|]. by apply not_elem_of_cons.
      * intros [H Hh]. destruct h as [|d' h]; injection H as -> ->; [done|].
        apply not_elem_of_cons in Hh as [_ Hh].
        pose proof (proj2 (IH h) (conj eq_refl Hh)). by simplify_eq.
      * done.
      * intros [H Hh]. destruct h as [|d' h]; injection H as -> ->; [done|].
        apply not_elem_of_cons in Hh as [_ Hh].
        by pose proof (proj2 (IH h) (conj eq_refl Hh)).
Qed.

Lemma split_once_None (s : bytes) (c : byte) : split_once s c = None ↔ c ∉ s.
Proof.
  induction s as [|d s IH]; simpl; [split; [intros; apply not_elem_of_nil | done]|].
  rewrite not_elem_of_cons, <- IH.
  case_bool_decide as Hd; [split; [done | by intros [? _]]|].
  destruct (split_once s c); simpl; (split; [done|]); by intros [].
Qed.

(** ** Lemmas: trimming *)

Lemma drop_while_id {A : Type} (p : A → bool) (a : A) (l : list A) :
  p a = false → drop_while p (a :: l) = a :: l.
Proof. intros H. simpl. by rewrite H. Qed.

Lemma drop_while_suffix {A : Type} (p : A → bool) (l : list A) :
  ∃ k, l = k ++ drop_while p l ∧ forallb p k = true.
Proof.
  induction l as [|a l [k [Hk Hp]]]; simpl; [by exists []|].
  destruct (p a) eqn:E.
  - exists (a :: k). simpl. rewrite E, <- Hk. done.
  - by exists [].
Qed.

Lemma drop_while_head {A : Type} (p : A → bool) (l : list A) (a : A) (t : list A) :
  drop_while p l = a :: t → p a = false.
Proof.
  induction l as [|b l IH]; simpl; [done|]. destruct (p b) eqn:E; [done|].
  by intros [= -> ->].
Qed.

Lemma drop_while_none {A : Type} (p : A → bool) (l : list A) :
  forallb (λ a, negb (p a)) l = true → drop_while p l = l.
Proof. destruct l as [|a l]; simpl; [done|]. by intros [->%negb_true_iff _]%andb_true_iff. Qed.

Lemma trim_end_loop_id (fuel : nat) (s p : bytes) :
  ends_with s p = false → trim_end_loop fuel s p = s.
Proof. intros H. destruct fuel; simpl; [done|]. by rewrite H. Qed.

(** The characters of an encoded text are its encoded scalars. *)
Lemma is_cont_tail (x : N) : is_cont (u8_of (128 + x mod 64)) = true.
Proof.
  unfold is_cont, in_range. rewrite u8_u8_of. apply andb_true_iff. rewrite !N.leb_le. dlia.
Qed.

Lemma utf8_encode_shape (c : N) :
  is_scalar c → ∃ b w, utf8_encode c = b :: w ∧ is_cont b = false ∧
    forallb is_cont w = true ∧ (w = [] → u8 b = c).
Proof.
  intros Hc. unfold utf8_encode, is_scalar in *.
  destruct (c <? 128)%N eqn:E1; [|destruct (c <? 2048)%N eqn:E2;
    [|destruct (c <? 65536)%N eqn:E3]]; eexists _, _;
    (split; [reflexivity|]); rewrite ?N.ltb_lt, ?N.ltb_ge in *; cbn [forallb];
    rewrite ?is_cont_tail; (split; [|split; [done|]]); try done;
    unfold is_cont, in_range; rewrite u8_u8_of.
  - apply andb_false_iff. rewrite !N.leb_gt. dlia.
  - intros _. dlia.
  - apply andb_false_iff. rewrite !N.leb_gt. dlia.
  - apply andb_false_iff. rewrite !N.leb_gt. dlia.
  - apply andb_false_iff. rewrite !N.leb_gt. dlia.
Qed.

Lemma utf8_chars_cont (w t : bytes) (b : byte) :
  forallb is_cont w = true → (∀ c t', t = c :: t' → is_cont c = false) →
  utf8_chars (b :: w ++ t) = (b :: w) :: utf8_chars t.
Proof.
  intros Hw Ht. revert b Hw. induction w as [|c w IH]; intros b Hw.
  - cbn [app utf8_chars]. destruct (utf8_chars t) as [|[|c w] cs] eqn:E; [done..|].
    pose proof (utf8_chars_concat t) as Hc. rewrite E in Hc. cbn in Hc.
    by rewrite (Ht c _ (eq_sym Hc)).
  - apply andb_true_iff in Hw as [Hc Hw]. specialize (IH c Hw).
    cbn [app] in IH |- *. set (x := c :: w ++ t) in *. cbn [utf8_chars]. rewrite IH. by rewrite Hc.
Qed.

Lemma utf8_chars_encode (cs : list N) :
  Forall is_scalar cs → utf8_chars (concat (map utf8_encode cs)) = map utf8_encode cs.
Proof.
  induction 1 as [|c cs Hc Hcs IH]; [done|]. cbn [map concat].
  destruct (utf8_encode_shape c Hc) as (b & w & -> & Hb & Hw & _). cbn [app].
  rewrite utf8_chars_cont; [by rewrite IH|done|]. intros c' t'.
  destruct Hcs as [|d ds Hd _]; [done|]. cbn [map concat].
  destruct (utf8_encode_shape d Hd) as (b' & w' & -> & Hb' & _). by intros [= <- _].
Qed.

(** [trim] of a text is a text and does not end in a newline. *)
Lemma trim_text (s : bytes) :
  utf8_valid s = true → utf8_valid (trim s) = true ∧ ends_with (trim s) [x0a] = false.
Proof.
  intros (cs & Hcs & ->)%utf8_valid_iff. unfold trim. rewrite utf8_chars_encode by done.
  destruct (drop_while_suffix is_whitespace (map utf8_encode cs)) as (k & Hk & _).
  set (l := drop_while _ _) in *. unfold drop_while_end.
  apply map_eq_app in Hk as (cs1 & cs2 & -> & _ & Hl). apply Forall_app in Hcs as [_ Hcs].
  destruct (drop_while_suffix is_whitespace (rev l)) as (k' & Hk' & _).
  destruct (drop_while is_whitespace (rev l)) as [|a t] eqn:E; [done|].
  apply drop_while_head in E. apply (f_equal (@rev _)) in Hk'. rewrite rev_involutive, rev_app_distr in Hk'.
  rewrite <- Hl in Hk'. apply map_eq_app in Hk' as (ds & ds2 & -> & Hds & _).
  apply Forall_app in Hcs as [Hcs _]. rewrite <- Hds. split.
  { apply utf8_valid_iff. by exists ds. }
  cbn [rev] in Hds. apply map_eq_app in Hds as (d1 & d2 & -> & _ & Hd).
  apply map_eq_cons in Hd as (d & ? & -> & <- & ->%map_eq_nil).
  apply Forall_app in Hcs as [_ [Hd _]%Forall_cons]. rewrite map_app, concat_app. cbn [map concat].
  rewrite app_nil_r. destruct (utf8_encode_shape d Hd) as (b & w & He & _ & Hw & Hn).
  apply not_true_iff_false. intros [u Hu]%ends_with_iff. rewrite He in *.
  destruct w as [|c w _] using rev_ind.
  - apply app_inj_tail in Hu as [_ ->]. specialize (Hn eq_refl). by vm_compute in E.
  - rewrite app_comm_cons, app_assoc in Hu. apply app_inj_tail in Hu as [_ ->].
    rewrite forallb_app in Hw. by apply andb_true_iff in Hw as [_ Hw].
Qed.

Lemma ascii_chars (s : bytes) : is_ascii s = true → utf8_chars s = map (λ b, [b]) s.
Proof.
  induction s as [|b t IH]; [done|]. cbn. intros [_ Ht]%andb_true_iff. rewrite IH by done.
  destruct t as [|c t]; [done|]. cbn in *. apply andb_true_iff in Ht as [Hc _].
  assert (is_cont c = false) as ->; [|done]. unfold is_cont, is_ascii_byte in *. blia.
Qed.

(** A printable ASCII character other than the space. *)
Definition visible (b : byte) : bool := in_range 33 126 (u8 b).

Lemma visible_text (v : bytes) : forallb visible v = true → is_ascii v = true.
Proof.
  unfold is_ascii. rewrite !forallb_forall. intros Hv b Hb. specialize (Hv b Hb). by byte_cases b.
Qed.

Lemma visible_not_space (b : byte) : visible b = true → is_whitespace [b] = false.
Proof. by byte_cases b. Qed.

Lemma concat_singletons {A : Type} (l : list A) : concat (map (λ a, [a]) l) = l.
Proof. induction l as [|a l IH]; [done|]. cbn. by rewrite IH. Qed.

(** A header's value: [trim] takes the space before and the line end after. *)
Lemma trim_field (v : bytes) : forallb visible v = true → trim (x20 :: v ++ [x0d; x0a]) = v.
Proof.
  intros Hv. unfold trim. rewrite ascii_chars.
  2:{ cbn. unfold is_ascii. rewrite forallb_app. by rewrite (visible_text v Hv : forallb is_ascii_byte v = true). }
  cbn [map]. rewrite map_app. cbn [map drop_while].
  assert (Hw : is_whitespace [x20] = true) by reflexivity. rewrite Hw. clear Hw.
  destruct v as [|b v]; [reflexivity|]. pose proof Hv as [Hb _]%andb_true_iff. cbn [map app drop_while].
  rewrite (visible_not_space b Hb). rewrite app_comm_cons. change ([b] :: map (λ a, [a]) v) with (map (λ a, [a]) (b :: v)).
  unfold drop_while_end. rewrite rev_app_distr. cbn [rev app drop_while].
  assert (Hw : is_whitespace [x0a] = true) by reflexivity. rewrite Hw. clear Hw.
  assert (Hw : is_whitespace [x0d] = true) by reflexivity. rewrite Hw. clear Hw.
  rewrite drop_while_none; [by rewrite rev_involutive, concat_singletons|].
  rewrite forallb_forall. intros c [d [<- Hd]]%in_rev%in_map_iff. rewrite visible_not_space; [done|].
  by rewrite forallb_forall in Hv; apply Hv.
Qed.

Lemma trim_end_matches_id (s p : bytes) :
  ends_with s p = false → trim_end_matches s p = s.
Proof. apply trim_end_loop_id. Qed.

(** ** Lemmas: case *)

Lemma to_ascii_lowercase_length (s : bytes) : length (to_ascii_lowercase s) = length s.
Proof. apply length_map. Qed.

Lemma ascii_lower_byte_idem (b : byte) :
  ascii_lower_byte (ascii_lower_byte b) = ascii_lower_byte b.
Proof. byte_cases b. Qed.

Lemma ascii_lower_ascii (b : byte) : is_ascii_byte b = is_ascii_byte (ascii_lower_byte b).
Proof. byte_cases b. Qed.

Lemma to_ascii_lowercase_idem (s : bytes) :
  to_ascii_lowercase (to_ascii_lowercase s) = to_ascii_lowercase s.
Proof.
  unfold to_ascii_lowercase. rewrite map_map. apply map_ext, ascii_lower_byte_idem.
Qed.

Lemma to_ascii_lowercase_is_ascii (s : bytes) : is_ascii (to_ascii_lowercase s) = is_ascii s.
Proof.
  unfold is_ascii, to_ascii_lowercase.
  induction s as [|b s IH]; [done|]. simpl. by rewrite IH, <- ascii_lower_ascii.
Qed.

Lemma to_lowercase_ascii `{UnicodeCase} (s : bytes) :
  is_ascii s = true → to_lowercase s = to_ascii_lowercase s.
Proof. unfold to_lowercase. by intros ->. Qed.

Lemma to_lowercase_valid `{UnicodeCase} (s : bytes) :
  utf8_valid s = true → utf8_valid (to_lowercase s) = true.
Proof.
  unfold to_lowercase. destruct (is_ascii s) eqn:E; [|apply lower_unicode_valid].
  intros _. apply utf8_valid_ascii. by rewrite to_ascii_lowercase_is_ascii.
Qed.

(** ** Lemmas: numbers *)

Definition dec_value (acc : N) (s : bytes) : N :=
  fold_left (λ a b, a * 10 + digit_val b)%N s acc.

Lemma dec_value_ge (s : bytes) (acc : N) : (acc ≤ dec_value acc s)%N.
Proof.
  revert acc. induction s as [|b s IH]; intros acc; simpl; [lia|].
  specialize (IH (acc * 10 + digit_val b)%N). unfold dec_value in *. lia.
Qed.

Lemma parse_digits_complete (max acc : N) (s : bytes) :
  forallb is_digit s = true → (dec_value acc s ≤ max)%N →
  parse_digits max acc s = Some (dec_value acc s).
Proof.
  revert acc. induction s as [|b s IH]; intros acc; simpl; [done|].
  intros [-> Hs]%andb_true_iff Hv.
  pose proof (dec_value_ge s (acc * 10 + digit_val b)) as Hge. unfold dec_value in *.
  destruct (_ <? _)%N eqn:E1; [exfalso; blia|].
  destruct (max <? acc * 10 + digit_val b)%N eqn:E2; [exfalso; blia|]. by apply IH.
Qed.

Lemma parse_digits_sound (max acc v : N) (s : bytes) :
  (acc ≤ max)%N → parse_digits max acc s = Some v →
  forallb is_digit s = true ∧ v = dec_value acc s ∧ (v ≤ max)%N.
Proof.
  revert acc. induction s as [|b s IH]; intros acc Ha; simpl; [by intros [= <-]|].
  destruct (is_digit b); [|done]. repeat (case_match; [done|]).
  intros Hp. apply IH in Hp as (? & ? & ?); [done | blia].
Qed.

Lemma parse_uint_bound (max v : N) (s : bytes) : parse_uint max s = Some v → (v ≤ max)%N.
Proof.
  unfold parse_uint. intros H. repeat case_match; simplify_eq;
    by apply parse_digits_sound in H as (_ & _ & ?); [| lia].
Qed.

Lemma dec_loop_value (fuel : nat) (n : N) (acc : bytes) :
  (n < 10 ^ N.of_nat fuel)%N → dec_value 0 (dec_loop fuel n acc) = dec_value n acc.
Proof.
  revert n acc. induction fuel as [|f IH]; intros n acc Hn.
  - simpl in *. by replace n with 0%N by lia.
  - assert (Hd : digit_val (u8_of (48 + n mod 10)) = (n mod 10)%N).
    { unfold digit_val. rewrite u8_u8_of. dlia. }
    cbn [dec_loop]. destruct (n <? 10)%N eqn:E.
    + unfold dec_value. cbn [fold_left]. rewrite Hd. f_equal. apply N.ltb_lt in E. dlia.
    + rewrite IH.
      * unfold dec_value. cbn [fold_left]. rewrite Hd. f_equal. dlia.
      * rewrite Nat2N.inj_succ, N.pow_succ_r' in Hn. apply N.Div0.div_lt_upper_bound. lia.
Qed.

Lemma dec_loop_digits (fuel : nat) (n : N) (acc : bytes) :
  forallb is_digit acc = true → forallb is_digit (dec_loop fuel n acc) = true.
Proof.
  revert n acc. induction fuel as [|f IH]; intros n acc Ha; [done|].
  assert (is_digit (u8_of (48 + n mod 10)) = true) as Hd.
  { unfold is_digit, in_range. rewrite u8_u8_of.
    apply andb_true_iff. rewrite !N.leb_le. dlia. }
  cbn [dec_loop]. destruct (n <? 10)%N; [|apply IH]; simpl; by rewrite Hd, Ha.
Qed.

Lemma dec_loop_nonempty (fuel : nat) (n : N) (acc : bytes) : dec_loop (S fuel) n acc ≠ [].
Proof.
  revert n acc. induction fuel as [|f IH]; intros n acc; cbn [dec_loop];
    destruct (n <? 10)%N; done || apply IH.
Qed.

Lemma show_dec_digits (n : N) : forallb is_digit (show_dec n) = true.
Proof. by apply dec_loop_digits. Qed.

(** [Display] then [parse] gives the number back, for every type's maximum
    below 10^20 (all of u8 to u64). *)
Lemma parse_show_dec (max n : N) :
  (n ≤ max)%N → (max < 10 ^ 20)%N → parse_uint max (show_dec n) = Some n.
Proof.
  intros Hn Hm. pose proof (show_dec_digits n) as Hd.
  assert (Hv : dec_value 0 (show_dec n) = n) by (apply dec_loop_value; simpl; lia).
  pose proof (dec_loop_nonempty 19 n []) as Hne. fold (show_dec n) in Hne.
  unfold parse_uint. destruct (show_dec n) as [|b t] eqn:E; [done|].
  case_bool_decide as Hb.
  { subst b. done. }
  rewrite parse_digits_complete; [by rewrite Hv | done | by rewrite Hv].
Qed.

Lemma digit_not (b c : byte) : is_digit c = false → is_digit b = true → b ≠ c.
Proof. congruence. Qed.

Lemma show_dec_no (c : byte) (n : N) : is_digit c = false → c ∉ show_dec n.
Proof.
  intros Hc Hin%list_elem_of_In. pose proof (show_dec_digits n) as Hd.
  rewrite forallb_forall in Hd. apply Hd in Hin. congruence.
Qed.

Lemma is_ascii_app (a b : bytes) : is_ascii (a ++ b) = is_ascii a && is_ascii b.
Proof. apply forallb_app. Qed.

Lemma is_ascii_concat (ls : list bytes) :
  Forall (λ s, is_ascii s = true) ls → is_ascii (concat ls) = true.
Proof. induction 1; cbn [concat]; [done|]. rewrite is_ascii_app. apply andb_true_iff. auto. Qed.

Lemma show_dec_ascii (n : N) : is_ascii (show_dec n) = true.
Proof.
  unfold is_ascii. pose proof (show_dec_digits n) as Hd.
  rewrite forallb_forall in *. intros b Hb%Hd. revert Hb. by destruct b.
Qed.

#[export] Hint Resolve show_dec_digits show_dec_ascii to_lowercase_valid : echo.
