(* ===== verification/Net.v ===== *)
(** * IP addresses, as [std::net] parses, prints and classifies them

    The parser of the standard library ([core::net::parser]): a cursor over the
    text, [read_atomically] restoring it on failure, [read_number],
    [read_ipv4_addr], [read_ipv6_addr]; and the predicates the server's
    destination filter uses. *)
From S2P Require Import Prelude Utf8 Text.

Inductive IpAddr : Type :=
| V4 (o : list byte)            (** four octets *)
| V6 (segments : list N).       (** eight 16-bit segments *)

#[export] Instance ip_eq_dec : EqDecision IpAddr.
Proof. solve_decision. Defined.

Definition wf_ip (ip : IpAddr) : Prop :=
  match ip with
  | V4 o => length o = 4
  | V6 s => length s = 8 ∧ Forall (λ n, (n ≤ U16_MAX)%N) s
  end.

(** [Ipv6Addr::from([u8; 16])]: big-endian pairs. *)
Fixpoint segments_of (o : bytes) : list N :=
  match o with
  | a :: b :: t => u16_from_be_bytes a b :: segments_of t
  | _ => []
  end.

(** An address as the integer its prefixes are taken of. *)
Definition v4_value (o : list byte) : N := fold_left (λ acc b, acc * 256 + u8 b)%N o 0%N.
Definition v6_value (s : list N) : N := fold_left (λ acc g, acc * 65536 + g)%N s 0%N.

(** ** The parser

    A reader takes the remaining text and returns a value with the text left,
    or [None], after which the caller goes on from where it was: the option
    type is [read_atomically]. *)
Definition reader (A : Type) : Type := bytes → option (A * bytes).

Definition read_given_char (c : byte) : reader unit := λ s,
  match s with
  | d :: t => if bool_decide (d = c) then Some (tt, t) else None
  | [] => None
  end.

(** [char::to_digit(radix)] *)
Definition to_digit (radix : N) (b : byte) : option N :=
  let n := u8 b in
  let d :=
    if in_range 48 57 n then Some (n - 48)%N
    else if in_range 97 122 n then Some (n - 87)%N
    else if in_range 65 90 n then Some (n - 55)%N
    else None in
  match d with
  | Some v => if (v <? radix)%N then Some v else None
  | None => None
  end.

(** The digits at the front: their number, value, and the text after them.
    [read_number] stops with [None] as soon as there are more than
    [max_digits] of them. *)
Fixpoint read_digits (radix : N) (acc : N) (count : nat) (s : bytes) : N * nat * bytes :=
  match s with
  | b :: t =>
      match to_digit radix b with
      | Some d => read_digits radix (acc * radix + d)%N (S count) t
      | None => (acc, count, s)
      end
  | [] => (acc, count, [])
  end.

(** [read_number(radix, Some(max_digits), allow_zero_prefix)] into a type with
    maximum [max] ([try_into().ok()]). *)
Definition read_number (radix : N) (max_digits : nat) (allow_zero_prefix : bool) (max : N)
  : reader N := λ s,
  let has_leading_zero := match s with b :: _ => bool_decide (b = x30) | [] => false end in
  let '(v, count, t) := read_digits radix 0 0 s in
  if max_digits <? count then None
  else if count =? 0 then None
  else if negb allow_zero_prefix && has_leading_zero && (1 <? count) then None
  else if (max <? v)%N then None
  else Some (v, t).

(** [read_separator(sep, index, inner)] *)
Definition read_separator {A : Type} (sep : byte) (index : nat) (inner : reader A) : reader A :=
  λ s,
  if 0 <? index then
    match read_given_char sep s with
    | Some (_, t) => inner t
    | None => None
    end
  else inner s.

Definition read_octet : reader N := read_number 10 3 false 255.

(** The loop of [read_ipv4_addr] over the slots [i .. 3]. *)
Fixpoint read_octets (n i : nat) : reader (list byte) := λ s,
  match n with
  | O => Some ([], s)
  | S n' =>
      match read_separator x2e i read_octet s with
      | None => None
      | Some (v, t) =>
          match read_octets n' (S i) t with
          | None => None
          | Some (vs, u) => Some (u8_of v :: vs, u)
          end
      end
  end.

Definition read_ipv4_addr : reader (list byte) := read_octets 4 0.

(** [read_groups]: the groups read, and whether the last two came from an
    embedded IPv4 address.  [n] groups are left, [i] have been read. *)
Fixpoint read_groups (n i : nat) (s : bytes) : list N * bool * bytes :=
  match n with
  | O => ([], false, s)
  | S n' =>
      let v4 := if 0 <? n' then read_separator x3a i read_ipv4_addr s else None in
      match v4 with
      | Some ([a; b; c; d], t) =>
          ([u16_from_be_bytes a b; u16_from_be_bytes c d], true, t)
      | _ =>
          match read_separator x3a i (read_number 16 4 true U16_MAX) s with
          | Some (g, t) =>
              let '(gs, v, u) := read_groups n' (S i) t in (g :: gs, v, u)
          | None => ([], false, s)
          end
      end
  end.

(** [read_ipv6_addr] *)
Definition read_ipv6_addr : reader (list N) := λ s,
  let '(head, head_ipv4, t) := read_groups 8 0 s in
  let head_size := length head in
  if head_size =? 8 then Some (head, t)
  else if head_ipv4 then None
  else
    match read_given_char x3a t with
    | None => None
    | Some (_, t1) =>
        match read_given_char x3a t1 with
        | None => None
        | Some (_, t2) =>
            let limit := 8 - (head_size + 1) in
            let '(tail, _, u) := read_groups limit 0 t2 in
            Some (head ++ repeat 0%N (8 - head_size - length tail) ++ tail, u)
        end
    end.

(** [read_ip_addr] *)
Definition read_ip_addr : reader IpAddr := λ s,
  match read_ipv4_addr s with
  | Some (o, t) => Some (V4 o, t)
  | None =>
      match read_ipv6_addr s with
      | Some (g, t) => Some (V6 g, t)
      | None => None
      end
  end.

(** [s.parse::<IpAddr>().ok()]: the whole text must be used. *)
Definition parse_ip (s : bytes) : option IpAddr :=
  match read_ip_addr s with
  | Some (ip, []) => Some ip
  | _ => None
  end.

(** ** Display *)

Definition show_ipv4 (o : list byte) : bytes :=
  match o with
  | [] => []
  | a :: r => show_dec (u8 a) ++ concat (map (λ b, x2e :: show_dec (u8 b)) r)
  end.

(** [{:x}] of a 16-bit segment. *)
Fixpoint hex_loop (fuel : nat) (n : N) (acc : bytes) : bytes :=
  match fuel with
  | O => acc
  | S f =>
      let d := (n mod 16)%N in
      let acc' := (if (d <? 10)%N then u8_of (48 + d) else u8_of (87 + d)) :: acc in
      if (n <? 16)%N then acc' else hex_loop f (n / 16)%N acc'
  end.

Definition show_hex (n : N) : bytes := hex_loop 4 n [].

(** [fmt_subslice] *)
Definition fmt_subslice (chunk : list N) : bytes :=
  match chunk with
  | [] => []
  | first :: tail => show_hex first ++ concat (map (λ g, x3a :: show_hex g) tail)
  end.

(** The first longest run of zero segments: (start, length). *)
Fixpoint zero_span (i : nat) (cur longest : nat * nat) (s : list N) : nat * nat :=
  match s with
  | [] => longest
  | g :: t =>
      if (g =? 0)%N then
        let cur' := (if snd cur =? 0 then i else fst cur, S (snd cur)) in
        zero_span (S i) cur' (if snd longest <? snd cur' then cur' else longest) t
      else zero_span (S i) (0, 0) longest t
  end.

(** [Ipv6Addr::to_ipv4_mapped] *)
Definition to_ipv4_mapped (s : list N) : option (list byte) :=
  match s with
  | [0; 0; 0; 0; 0; 65535; g; h]%N => Some (u16_to_be_bytes g ++ u16_to_be_bytes h)
  | _ => None
  end.

Definition show_ipv6 (s : list N) : bytes :=
  match to_ipv4_mapped s with
  | Some o => bs "::ffff:" ++ show_ipv4 o
  | None =>
      let '(start, len) := zero_span 0 (0, 0) (0, 0) s in
      if 1 <? len then
        fmt_subslice (take start s) ++ bs "::" ++ fmt_subslice (drop (start + len) s)
      else fmt_subslice s
  end.

(** ** Classification *)

Definition v4_is_loopback (o : list byte) : bool :=
  match o with a :: _ => (u8 a =? 127)%N | [] => false end.

Definition v4_is_private (o : list byte) : bool :=
  match o with
  | a :: b :: _ =>
      (u8 a =? 10)%N
      || ((u8 a =? 172)%N && in_range 16 31 (u8 b))
      || ((u8 a =? 192)%N && (u8 b =? 168)%N)
  | _ => false
  end.

Definition v4_is_link_local (o : list byte) : bool :=
  match o with a :: b :: _ => (u8 a =? 169)%N && (u8 b =? 254)%N | _ => false end.

Definition v4_is_unspecified (o : list byte) : bool := bool_decide (o = [x00; x00; x00; x00]).

Definition v6_is_loopback (s : list N) : bool :=
  bool_decide (s = [0; 0; 0; 0; 0; 0; 0; 1]%N).

Definition v6_is_unspecified (s : list N) : bool :=
  bool_decide (s = [0; 0; 0; 0; 0; 0; 0; 0]%N).

Definition v6_is_multicast (s : list N) : bool :=
  match s with g :: _ => (N.land g 65280 =? 65280)%N | [] => false end.

(** ** Lemmas *)

(** Text at which a number stops. *)
Definition stops (radix : N) (s : bytes) : Prop :=
  match s with [] => True | b :: _ => to_digit radix b = None end.

Lemma read_digits_stop (radix acc : N) (n : nat) (s : bytes) :
  stops radix s → read_digits radix acc n s = (acc, n, s).
Proof. destruct s as [|b s]; simpl; [done|]. by intros ->. Qed.

Lemma to_digit_is_digit (b : byte) : is_digit b = true → to_digit 10 b = Some (digit_val b).
Proof. byte_cases b. Qed.

Lemma read_digits_app (acc : N) (n : nat) (ds rest : bytes) :
  forallb is_digit ds = true → stops 10 rest →
  read_digits 10 acc n (ds ++ rest) = (dec_value acc ds, n + length ds, rest).
Proof.
  intros Hd Hs. revert acc n Hd. induction ds as [|d ds IH]; intros acc n Hd; simpl.
  - rewrite read_digits_stop by done. by rewrite Nat.add_0_r.
  - simpl in Hd. apply andb_true_iff in Hd as [Hd Hds].
    rewrite to_digit_is_digit, IH by done. by rewrite Nat.add_succ_r.
Qed.

(** A printed octet has at most three digits and no leading zero. *)
Definition octet_text_ok (s : bytes) : bool :=
  match s with
  | b :: _ => (length s <=? 3) && (negb (bool_decide (b = x30)) || (length s =? 1))
  | [] => false
  end.

Lemma show_octet_ok (b : byte) : octet_text_ok (show_dec (u8 b)) = true.
Proof. destruct b; vm_compute; reflexivity. Qed.

Lemma read_octet_show (b : byte) (rest : bytes) :
  stops 10 rest → read_octet (show_dec (u8 b) ++ rest) = Some (u8 b, rest).
Proof.
  intros Hs. pose proof (show_octet_ok b) as Hok. pose proof (u8_bound b).
  unfold read_octet, read_number. rewrite read_digits_app by auto with echo.
  replace (dec_value 0 (show_dec (u8 b))) with (u8 b)
    by (symmetry; apply dec_loop_value; simpl; lia).
  destruct (show_dec (u8 b)) as [|c t]; [done|]. simpl in Hok |- *.
  destruct (3 <? S (length t)) eqn:E3; [exfalso; blia|].
  destruct (255 <? u8 b)%N eqn:E; [exfalso; blia|].
  case_bool_decide; simpl in *; [|done].
  destruct (1 <? S (length t)) eqn:E1; [exfalso; blia | done].
Qed.

(** [Display] then [parse] of an IPv4 address. *)
Lemma parse_show_ipv4 (o : list byte) : length o = 4 → parse_ip (show_ipv4 o) = Some (V4 o).
Proof.
  destruct o as [|a [|b [|c [|d [|? ?]]]]]; intros Hl; try done.
  unfold parse_ip, read_ip_addr, read_ipv4_addr. cbn [show_ipv4 map concat].
  rewrite app_nil_r.
  cbn [read_octets]. unfold read_separator. cbn [Nat.ltb Nat.leb].
  rewrite read_octet_show by done. cbn [app read_given_char]. rewrite bool_decide_eq_true_2 by done.
  rewrite read_octet_show by done. cbn [app read_given_char]. rewrite bool_decide_eq_true_2 by done.
  rewrite read_octet_show by done. cbn [app read_given_char]. rewrite bool_decide_eq_true_2 by done.
  rewrite <- (app_nil_r (show_dec (u8 d))), read_octet_show by done.
  by rewrite !u8_of_u8.
Qed.

Lemma read_number_bound (radix max v : N) (m : nat) (z : bool) (s t : bytes) :
  read_number radix m z max s = Some (v, t) → (v ≤ max)%N.
Proof.
  unfold read_number. destruct (read_digits radix 0 0 s) as [[w n] u].
  intros H. repeat case_match; simplify_eq; blia.
Qed.

Lemma read_octets_length (n i : nat) (s t : bytes) (o : list byte) :
  read_octets n i s = Some (o, t) → length o = n.
Proof.
  revert i s o. induction n as [|n IH]; intros i s o; simpl; [by intros [= <- <-]|].
  destruct (read_separator _ _ _ _) as [[v u]|]; [|done].
  destruct (read_octets n (S i) u) as [[vs w]|] eqn:E; [|done].
  intros [= <- <-]. simpl. f_equal. eapply IH. by rewrite E.
Qed.

Lemma read_groups_wf (n i : nat) (s u : bytes) (gs : list N) (v : bool) :
  read_groups n i s = (gs, v, u) → length gs ≤ n ∧ Forall (λ g, (g ≤ U16_MAX)%N) gs.
Proof.
  revert i s gs u v. induction n as [|n IH]; intros i s gs u v; cbn [read_groups].
  { intros Hk; simplify_eq. split; [done | constructor]. }
  set (o := if 0 <? n then _ else _).
  assert (Hgroup : ∀ k, match read_separator x3a i (read_number 16 4 true U16_MAX) s with
            | Some (g, t) => let '(gs', v', u') := read_groups n (S i) t in (g :: gs', v', u')
            | None => ([], false, s) end = (k, v, u) →
          length k ≤ S n ∧ Forall (λ g, (g ≤ U16_MAX)%N) k).
  { intros k. destruct (read_separator x3a i (read_number 16 4 true U16_MAX) s)
      as [[g t]|] eqn:Eg.
    - destruct (read_groups n (S i) t) as [[gs' v'] u'] eqn:Er. intros Hk; simplify_eq/=.
      apply IH in Er as [Hl Hf]. split; [simpl; lia|]. constructor; [|done].
      unfold read_separator in Eg. repeat (case_match; try done);
        by eapply read_number_bound.
    - intros Hk; simplify_eq/=. split; [lia | constructor]. }
  destruct o as [[[|a [|b [|c [|d [|? ?]]]]] t]|] eqn:Eo; try apply Hgroup.
  assert (0 < n) by (unfold o in Eo; destruct (0 <? n) eqn:E0; [blia | done]).
  clear Eo o. intros Hk; simplify_eq/=. split.
  - lia.
  - repeat constructor; apply u16_from_be_bound.
Qed.

#[local] Opaque read_groups.

(** A parsed address is well formed. *)
Lemma parse_ip_wf (s : bytes) (ip : IpAddr) : parse_ip s = Some ip → wf_ip ip.
Proof.
  unfold parse_ip, read_ip_addr. destruct (read_ipv4_addr s) as [[o t]|] eqn:E4.
  { apply read_octets_length in E4. destruct t; [|done]. by intros [= <-]. }
  destruct (read_ipv6_addr s) as [[g t]|] eqn:E6; [|done].
  destruct t; [|done]. intros [= <-]. unfold read_ipv6_addr in E6.
  destruct (read_groups 8 0 s) as [[head hv] t1] eqn:Eh. apply read_groups_wf in Eh as [Hl Hf].
  destruct (length head =? 8) eqn:E8; [simplify_eq; split; [blia | done]|].
  destruct hv; [done|].
  destruct (read_given_char _ t1) as [[? t2]|]; [|done].
  destruct (read_given_char _ t2) as [[? t3]|]; [|done].
  destruct (read_groups (8 - (length head + 1)) 0 t3) as [[tail tv] t4] eqn:Et.
  apply read_groups_wf in Et as [Hl' Hf']. simplify_eq. apply Nat.eqb_neq in E8. split.
  - rewrite !length_app, repeat_length. lia.
  - rewrite !Forall_app. repeat split; auto. apply Forall_forall. intros x Hx.
    apply list_elem_of_In, repeat_spec in Hx. subst. unfold U16_MAX. lia.
Qed.

#[local] Transparent read_groups.

(** No address starts with a bracket. *)
Lemma parse_ip_bracket (s : bytes) : parse_ip (x5b :: s) = None.
Proof. reflexivity. Qed.

(** ** Displayed addresses are ASCII *)

Lemma show_ipv4_ascii (o : list byte) : is_ascii (show_ipv4 o) = true.
Proof.
  destruct o as [|a r]; [done|]. cbn [show_ipv4]. rewrite is_ascii_app, show_dec_ascii.
  apply is_ascii_concat. rewrite Forall_map. apply Forall_true. intros b.
  change (x2e :: show_dec (u8 b)) with ([x2e] ++ show_dec (u8 b)).
  by rewrite is_ascii_app, show_dec_ascii.
Qed.

Lemma hex_loop_ascii (fuel : nat) (n : N) (acc : bytes) :
  is_ascii acc = true → is_ascii (hex_loop fuel n acc) = true.
Proof.
  revert n acc. induction fuel as [|f IH]; intros n acc Ha; [done|]. cbn [hex_loop].
  set (d := (n mod 16)%N). assert (d < 16)%N by (unfold d; dlia).
  assert (Hd : is_ascii ((if (d <? 10)%N then u8_of (48 + d) else u8_of (87 + d)) :: acc) = true).
  { unfold is_ascii in *. cbn [forallb]. rewrite Ha, andb_true_r. unfold is_ascii_byte.
    destruct (d <? 10)%N eqn:E; rewrite u8_u8_of, N.mod_small by blia; blia. }
  destruct (n <? 16)%N; auto.
Qed.

Lemma fmt_subslice_ascii (gs : list N) : is_ascii (fmt_subslice gs) = true.
Proof.
  destruct gs as [|g gs]; [done|]. cbn [fmt_subslice]. rewrite is_ascii_app.
  unfold show_hex at 1. rewrite hex_loop_ascii by done.
  apply is_ascii_concat. rewrite Forall_map. apply Forall_true. intros h.
  change (x3a :: show_hex h) with ([x3a] ++ show_hex h). rewrite is_ascii_app.
  unfold show_hex. by rewrite hex_loop_ascii.
Qed.

Lemma show_ipv6_ascii (s : list N) : is_ascii (show_ipv6 s) = true.
Proof.
  unfold show_ipv6. destruct (to_ipv4_mapped s) as [o|].
  { by rewrite is_ascii_app, show_ipv4_ascii. }
  destruct (zero_span _ _ _ _) as [start len]. destruct (1 <? len).
  - by rewrite !is_ascii_app, !fmt_subslice_ascii.
  - apply fmt_subslice_ascii.
Qed.
