(* ===== verification/Net6.v ===== *)
(** * IPv6 addresses: what is displayed is read back

    The client prints the address of a SOCKS5 request ([Display]) and the server
    parses it ([FromStr]); both are [std::net]'s, as [Net] has them.  For every
    address the two are inverse: the compressed run of zeros, the printed
    groups and the form of an IPv4-mapped address included. *)
From S2P Require Import Prelude Utf8 Text Net.

(** ** Groups of hexadecimal digits *)

Lemma to_digit_hex (d : N) :
  (d < 16)%N → to_digit 16 (if (d <? 10)%N then u8_of (48 + d) else u8_of (87 + d)) = Some d.
Proof.
  intros Hd. assert (E : forallb (λ d, bool_decide (to_digit 16 (if (d <? 10)%N then u8_of (48 + d) else u8_of (87 + d)) = Some d))
    [0;1;2;3;4;5;6;7;8;9;10;11;12;13;14;15]%N = true) by (vm_compute; reflexivity).
  rewrite forallb_forall in E. specialize (E d). rewrite bool_decide_eq_true in E. apply E. cbn. lia.
Qed.

(** The digits [hex_loop] puts in front, and what a reader makes of them. *)
Lemma hex_loop_read (fuel : nat) (n : N) (acc : bytes) :
  (n < 16 ^ N.of_nat (S fuel))%N →
  ∃ ds, hex_loop (S fuel) n acc = ds ++ acc ∧ 1 ≤ length ds ≤ S fuel ∧
    ∀ a k rest, read_digits 16 a k (ds ++ rest) = read_digits 16 (a * 16 ^ N.of_nat (length ds) + n) (k + length ds) rest.
Proof.
  revert n acc. induction fuel as [|f IH]; intros n acc Hn; cbn [hex_loop];
    set (c := if (n mod 16 <? 10)%N then _ else _);
    assert (Hc : to_digit 16 c = Some (n mod 16)%N) by (apply to_digit_hex; by apply N.mod_lt).
  - assert (n < 16)%N by (change (16 ^ N.of_nat 1)%N with 16%N in Hn; done).
    rewrite N.mod_small in Hc by done.
    assert (hex_loop 0 (n / 16) (c :: acc) = [c] ++ acc) as E by done.
    exists [c]. split; [by destruct (n <? 16)%N|]. split; [cbn; lia|].
    intros a k rest. cbn [app read_digits length]. rewrite Hc. f_equal; lia.
  - destruct (n <? 16)%N eqn:E.
    + exists [c]. split; [done|]. split; [cbn; lia|]. intros a k rest. cbn [app read_digits length]. rewrite Hc.
      rewrite N.mod_small by blia. f_equal; lia.
    + destruct (IH (n / 16)%N (c :: acc)) as (ds & Eds & Hl & Hr).
      { rewrite Nat2N.inj_succ, N.pow_succ_r' in Hn. apply N.Div0.div_lt_upper_bound. lia. }
      exists (ds ++ [c]). rewrite <- app_assoc. split; [exact Eds|]. rewrite length_app. cbn [length]. split; [lia|].
      intros a k rest. rewrite <- app_assoc, Hr. cbn [app read_digits]. rewrite Hc.
      rewrite Nat2N.inj_add, N.pow_add_r. change (16 ^ N.of_nat 1)%N with 16%N.
      pose proof (N.div_mod n 16 ltac:(lia)) as Hd. f_equal; lia.
Qed.

Lemma read_group_show (g : N) (rest : bytes) :
  (g ≤ U16_MAX)%N → stops 16 rest → read_number 16 4 true U16_MAX (show_hex g ++ rest) = Some (g, rest).
Proof.
  intros Hg Hs. unfold show_hex. destruct (hex_loop_read 3 g []) as (ds & -> & Hl & Hr).
  { unfold U16_MAX in Hg. change (16 ^ N.of_nat 4)%N with 65536%N. lia. }
  unfold read_number. rewrite <- app_assoc. cbn [app]. rewrite Hr, read_digits_stop by done.
  rewrite N.mul_0_l, N.add_0_l. cbn [Nat.add].
  destruct (4 <? length ds) eqn:E4; [exfalso; blia|]. destruct (length ds =? 0) eqn:E0; [exfalso; blia|].
  destruct (U16_MAX <? g)%N eqn:E; [exfalso; blia|done].
Qed.

(** ** Texts without a dot hold no IPv4 address *)

Lemma read_digits_rest (radix acc : N) (n : nat) (s : bytes) :
  ∃ ds, s = ds ++ snd (read_digits radix acc n s).
Proof.
  revert acc n. induction s as [|b s IH]; intros acc n; cbn [read_digits]; [by exists []|].
  destruct (to_digit radix b) as [d|]; [|by exists []].
  destruct (IH (acc * radix + d)%N (S n)) as [ds E]. exists (b :: ds). cbn. by f_equal.
Qed.

Lemma read_octet_rest (s t : bytes) (v : N) : read_octet s = Some (v, t) → ∃ ds, s = ds ++ t.
Proof.
  unfold read_octet, read_number. pose proof (read_digits_rest 10 0 0 s) as Hd.
  destruct (read_digits 10 0 0 s) as [[w n] u]. intros H. repeat case_match; simplify_eq; exact Hd.
Qed.

Lemma no_dot_no_ipv4 (s : bytes) : x2e ∉ s → read_ipv4_addr s = None.
Proof.
  intros Hs. unfold read_ipv4_addr. cbn [read_octets]. unfold read_separator at 1. cbn [Nat.ltb Nat.leb].
  destruct (read_octet s) as [[v t]|] eqn:E; [|done]. apply read_octet_rest in E as [ds ->].
  unfold read_separator at 1. cbn [Nat.ltb Nat.leb]. destruct t as [|b t]; [done|]. cbn [read_given_char].
  rewrite bool_decide_eq_false_2; [done|]. intros ->. apply Hs, elem_of_app. right. left.
Qed.

Lemma no_dot_separated (i : nat) (s : bytes) : x2e ∉ s → read_separator x3a i read_ipv4_addr s = None.
Proof.
  intros Hs. unfold read_separator. destruct (0 <? i); [|by apply no_dot_no_ipv4].
  destruct s as [|b t]; [done|]. cbn [read_given_char]. case_bool_decide; [|done].
  apply no_dot_no_ipv4. intros Ht. apply Hs. by right.
Qed.

(** ** A row of groups *)

(** The groups [gs] as they are printed when [i] groups precede them. *)
Definition row (i : nat) (gs : list N) : bytes :=
  match i with O => fmt_subslice gs | _ => concat (map (λ g, x3a :: show_hex g) gs) end.

(** Text at which a row of groups ends: no further separator and group. *)
Definition row_ends (i : nat) (rest : bytes) : Prop :=
  stops 16 rest ∧ read_separator x3a i (read_number 16 4 true U16_MAX) rest = None.

Lemma hex_no_dot (g : N) : x2e ∉ show_hex g.
Proof.
  assert (H : ∀ fuel n acc, x2e ∉ acc → x2e ∉ hex_loop fuel n acc).
  { induction fuel as [|f IH]; intros n acc Ha; [done|]. cbn [hex_loop]. set (c := if (n mod 16 <? 10)%N then _ else _).
    assert (Hc : c ≠ x2e).
    { intros E. pose proof (to_digit_hex (n mod 16)%N ltac:(by apply N.mod_lt)) as Hd. fold c in Hd. by rewrite E in Hd. }
    destruct (n <? 16)%N; [|apply IH]; rewrite not_elem_of_cons; split; congruence. }
  apply H. apply not_elem_of_nil.
Qed.

Lemma row_no_dot (i : nat) (gs : list N) : x2e ∉ row i gs.
Proof.
  assert (H : ∀ gs, x2e ∉ concat (map (λ g, x3a :: show_hex g) gs)).
  { clear. induction gs as [|g gs IH]; [apply not_elem_of_nil|]. cbn. rewrite not_elem_of_cons, not_elem_of_app.
    split_and!; [done|apply hex_no_dot|exact IH]. }
  destruct i; [|apply H]. destruct gs as [|g gs]; [apply not_elem_of_nil|]. cbn. rewrite not_elem_of_app.
  split; [apply hex_no_dot|apply H].
Qed.

Lemma row_next (i : nat) (g : N) (gs : list N) (rest : bytes) :
  (g ≤ U16_MAX)%N → stops 16 rest →
  read_separator x3a i (read_number 16 4 true U16_MAX) (row i (g :: gs) ++ rest) = Some (g, row (S i) gs ++ rest).
Proof.
  intros Hg Hr. assert (Hs : stops 16 (row (S i) gs ++ rest)) by (by destruct gs).
  unfold read_separator. destruct i as [|i]; cbn [Nat.ltb Nat.leb row fmt_subslice map concat].
  - rewrite <- app_assoc. by apply read_group_show.
  - cbn [app read_given_char]. rewrite bool_decide_eq_true_2 by done. rewrite <- app_assoc. by apply read_group_show.
Qed.

Lemma read_row (n i : nat) (gs : list N) (rest : bytes) :
  length gs ≤ n → Forall (λ g, g ≤ U16_MAX)%N gs → x2e ∉ rest →
  row_ends (i + length gs) rest → read_groups n i (row i gs ++ rest) = (gs, false, rest).
Proof.
  intros Hl Hf Hd He. revert i gs Hl Hf He. induction n as [|n IH]; intros i gs Hl Hf He.
  { destruct gs; [by destruct i|cbn in Hl; lia]. }
  cbn [read_groups].
  assert (E4 : (if 0 <? n then read_separator x3a i read_ipv4_addr (row i gs ++ rest) else None) = None).
  { destruct (0 <? n); [|done]. apply no_dot_separated. rewrite not_elem_of_app. split; [apply row_no_dot|done]. }
  rewrite E4. destruct gs as [|g gs].
  - assert (E : row i [] ++ rest = rest) by (by destruct i). rewrite E. destruct He as [_ He].
    cbn [length] in He. rewrite Nat.add_0_r in He. by rewrite He.
  - apply Forall_cons in Hf as [Hg Hf]. rewrite row_next by (done || apply He).
    rewrite IH; [done|cbn in Hl; lia|done|]. cbn [length] in He. by rewrite Nat.add_succ_r in He.
Qed.

Lemma row_ends_nil (i : nat) : row_ends i [].
Proof. split; [done|]. unfold read_separator. by destruct (0 <? i). Qed.

Lemma row_ends_zeros (i : nat) (rest : bytes) : row_ends i (bs "::" ++ rest).
Proof. split; [done|]. unfold read_separator. by destruct (0 <? i). Qed.

(** ** The run of zeros *)

Definition zeros_at (s : list N) (span : nat * nat) : Prop :=
  fst span + snd span ≤ length s ∧ ∀ k, fst span ≤ k < fst span + snd span → s !! k = Some 0%N.

Lemma zero_span_ok (t pre : list N) (cur longest : nat * nat) :
  zeros_at (pre ++ t) longest → zeros_at (pre ++ t) cur → (snd cur = 0 ∨ fst cur + snd cur = length pre) →
  zeros_at (pre ++ t) (zero_span (length pre) cur longest t).
Proof.
  revert pre cur longest. induction t as [|g t IH]; intros pre cur longest Hl Hc Hcur; cbn [zero_span]; [done|].
  assert (E : pre ++ g :: t = (pre ++ [g]) ++ t) by (by rewrite <- app_assoc).
  assert (Elen : S (length pre) = length (pre ++ [g])) by (rewrite length_app; cbn; lia).
  destruct (g =? 0)%N eqn:Eg; cbv zeta.
  - apply N.eqb_eq in Eg as ->. set (cur' := (if snd cur =? 0 then length pre else fst cur, S (snd cur))).
    assert (Hc' : zeros_at (pre ++ 0%N :: t) cur').
    { destruct Hc as [Hc1 Hc2]. split.
      - rewrite length_app. cbn. destruct (snd cur =? 0) eqn:E0; [|]; blia.
      - intros k Hk. cbn in Hk. destruct (decide (k = length pre)) as [->|Hne].
        + by apply list_lookup_middle.
        + apply Hc2. destruct (snd cur =? 0) eqn:E0; blia. }
    rewrite Elen, E in *. apply IH; [by destruct (snd longest <? snd cur')|done|].
    right. cbn. rewrite <- Elen. destruct (snd cur =? 0) eqn:E0; blia.
  - rewrite Elen, E in *. apply IH; [done| |by left]. split; [cbn; lia|]. cbn. intros k Hk. lia.
Qed.

Lemma lookup_repeat {A : Type} (a : A) (n k : nat) : k < n → repeat a n !! k = Some a.
Proof. revert k. induction n as [|n IH]; intros [|k] Hk; [lia|lia|done|]. cbn. apply IH. lia. Qed.

Lemma zeros_split (s : list N) (start len : nat) :
  zeros_at s (start, len) → s = take start s ++ repeat 0%N len ++ drop (start + len) s.
Proof.
  intros [Hl Hz]. cbn in *. rewrite <- (take_drop start s) at 1. f_equal.
  rewrite <- (take_drop len (drop start s)) at 1. rewrite drop_drop. f_equal. apply list_eq. intros k.
  destruct (decide (k < len)) as [Hk|Hk].
  - rewrite lookup_take_lt by done. rewrite lookup_drop, Hz by lia. symmetry. by apply lookup_repeat.
  - rewrite lookup_take_ge by lia. symmetry. apply lookup_ge_None. rewrite repeat_length. lia.
Qed.

(** ** Reading back *)

Lemma read_ipv4_show (o : list byte) (rest : bytes) :
  length o = 4 → stops 10 rest → read_ipv4_addr (show_ipv4 o ++ rest) = Some (o, rest).
Proof.
  destruct o as [|a [|b [|c [|d [|? ?]]]]]; intros Hl Hs; try done.
  unfold read_ipv4_addr. cbn [show_ipv4 map concat]. rewrite app_nil_r. repeat (rewrite <- app_assoc; cbn [app]).
  cbn [read_octets]. unfold read_separator. cbn [Nat.ltb Nat.leb].
  rewrite read_octet_show by done. cbn [read_given_char]. rewrite bool_decide_eq_true_2 by done.
  rewrite read_octet_show by done. cbn [read_given_char]. rewrite bool_decide_eq_true_2 by done.
  rewrite read_octet_show by done. cbn [read_given_char]. rewrite bool_decide_eq_true_2 by done.
  rewrite read_octet_show by done. by rewrite !u8_of_u8.
Qed.

(** One round of [read_groups]. *)
Lemma read_groups_ipv4 (m i : nat) (s t : bytes) (a b c d : byte) :
  0 < m → read_separator x3a i read_ipv4_addr s = Some ([a; b; c; d], t) →
  read_groups (S m) i s = ([u16_from_be_bytes a b; u16_from_be_bytes c d], true, t).
Proof. intros Hm Hr. cbn [read_groups]. destruct (0 <? m) eqn:E; [by rewrite Hr|exfalso; blia]. Qed.

Lemma read_groups_hex (m i : nat) (s t : bytes) (g : N) :
  read_separator x3a i read_ipv4_addr s = None →
  read_separator x3a i (read_number 16 4 true U16_MAX) s = Some (g, t) →
  read_groups (S m) i s = (let '(gs, v, u) := read_groups m (S i) t in (g :: gs, v, u)).
Proof. intros H4 Hr. cbn [read_groups]. rewrite H4, Hr. by destruct (0 <? m). Qed.

(** An IPv4-mapped address, in its own form. *)
Lemma read_mapped_text (t : bytes) (a b c d : byte) :
  read_ipv4_addr t = Some ([a; b; c; d], []) →
  read_ipv6_addr (bs "::ffff:" ++ t) =
    Some ([0; 0; 0; 0; 0; 65535; u16_from_be_bytes a b; u16_from_be_bytes c d]%N, []).
Proof.
  intros Ht. assert (E5 : read_groups 6 1 (x3a :: t) = ([u16_from_be_bytes a b; u16_from_be_bytes c d], true, [])).
  { apply read_groups_ipv4; [lia|]. unfold read_separator. cbn [Nat.ltb Nat.leb read_given_char].
    by rewrite bool_decide_eq_true_2. }
  assert (E : read_groups 7 0 (bs "ffff:" ++ t) =
    ([65535%N; u16_from_be_bytes a b; u16_from_be_bytes c d], true, [])).
  { rewrite (read_groups_hex 6 0 (bs "ffff:" ++ t) (x3a :: t) 65535); [by rewrite E5|reflexivity|reflexivity]. }
  change (read_ipv6_addr (bs "::ffff:" ++ t)) with
    (let '(tail, _, u) := read_groups 7 0 (bs "ffff:" ++ t) in
     Some (repeat 0%N (8 - 0 - length tail) ++ tail, u)). by rewrite E.
Qed.

Lemma read_mapped (g h : N) : (g ≤ U16_MAX)%N → (h ≤ U16_MAX)%N →
  read_ipv6_addr (bs "::ffff:" ++ show_ipv4 (u16_to_be_bytes g ++ u16_to_be_bytes h)) =
    Some ([0; 0; 0; 0; 0; 65535; g; h]%N, []).
Proof.
  intros Hg Hh. pose proof (read_ipv4_show (u16_to_be_bytes g ++ u16_to_be_bytes h) [] eq_refl I) as Hr.
  rewrite app_nil_r in Hr. apply read_mapped_text in Hr. rewrite Hr. by rewrite !u16_be_roundtrip.
Qed.

Lemma to_ipv4_mapped_Some (s : list N) (o : list byte) :
  to_ipv4_mapped s = Some o →
  ∃ g h, s = [0; 0; 0; 0; 0; 65535; g; h]%N ∧ o = u16_to_be_bytes g ++ u16_to_be_bytes h.
Proof. unfold to_ipv4_mapped. intros H. repeat case_match; simplify_eq. eauto. Qed.

Lemma read_show_ipv6 (s : list N) :
  wf_ip (V6 s) → read_ipv6_addr (show_ipv6 s) = Some (s, []).
Proof.
  intros [Hl Hf]. unfold show_ipv6. destruct (to_ipv4_mapped s) as [o|] eqn:Em.
  { apply to_ipv4_mapped_Some in Em as (g & h & -> & ->). rewrite !Forall_cons in Hf. apply read_mapped; apply Hf. }
  destruct (zero_span 0 (0, 0) (0, 0) s) as [start len] eqn:Ez.
  assert (Hz : zeros_at s (start, len)).
  { rewrite <- Ez. apply (zero_span_ok s [] (0, 0) (0, 0)); [| |by left]; (split; cbn; [lia|intros; lia]). }
  pose proof Hz as [Hb _]. cbn in Hb. unfold read_ipv6_addr. destruct (1 <? len) eqn:E1.
  - apply Nat.ltb_lt in E1. pose proof (zeros_split s start len Hz) as Es.
    set (head := take start s) in *. set (tail := drop (start + len) s) in *.
    assert (Hhl : length head = start) by (unfold head; rewrite length_take; lia).
    assert (Htl : length tail = 8 - (start + len)) by (unfold tail; rewrite length_drop; lia).
    assert (Hfh : Forall (λ g, g ≤ U16_MAX)%N head) by (by apply Forall_take).
    assert (Hft : Forall (λ g, g ≤ U16_MAX)%N tail) by (by apply Forall_drop).
    change (fmt_subslice head) with (row 0 head). rewrite read_row; [|lia|done| |apply row_ends_zeros].
    2:{ change (fmt_subslice tail) with (row 0 tail). rewrite not_elem_of_app. split; [|apply row_no_dot].
        cbn. rewrite !not_elem_of_cons. split_and!; [done|done|apply not_elem_of_nil]. }
    rewrite Hhl. destruct (start =? 8) eqn:E8; [exfalso; blia|]. change (bs "::" ++ fmt_subslice tail) with (x3a :: x3a :: fmt_subslice tail).
    do 2 (cbn [read_given_char]; rewrite bool_decide_eq_true_2 by done). cbv iota zeta. rewrite <- (app_nil_r (fmt_subslice tail)). change (fmt_subslice tail) with (row 0 tail).
    rewrite read_row; [|lia|done|apply not_elem_of_nil|apply row_ends_nil].
    rewrite Htl. replace (8 - start - (8 - (start + len))) with len by lia. by rewrite <- Es.
  - rewrite <- (app_nil_r (fmt_subslice s)). change (fmt_subslice s) with (row 0 s).
    rewrite read_row; [|lia|done|apply not_elem_of_nil|apply row_ends_nil]. by rewrite Hl.
Qed.

(** A displayed IPv6 address is not taken for an IPv4 address. *)
Lemma show_ipv6_not_ipv4 (s : list N) : read_ipv4_addr (show_ipv6 s) = None.
Proof.
  unfold show_ipv6. destruct (to_ipv4_mapped s) as [o|]; [reflexivity|].
  destruct (zero_span 0 (0, 0) (0, 0) s) as [start len]. apply no_dot_no_ipv4.
  destruct (1 <? len); [|apply (row_no_dot 0)]. rewrite !not_elem_of_app.
  split_and!; [apply (row_no_dot 0)| |apply (row_no_dot 0)].
  cbn. rewrite !not_elem_of_cons. split_and!; [done|done|apply not_elem_of_nil].
Qed.

(** [Display] then [parse] of an IPv6 address. *)
Lemma parse_show_ipv6 (s : list N) : wf_ip (V6 s) → parse_ip (show_ipv6 s) = Some (V6 s).
Proof. intros Hs. unfold parse_ip, read_ip_addr. by rewrite show_ipv6_not_ipv4, read_show_ipv6. Qed.

Lemma segments_wf (o : list byte) : length o = 16 → wf_ip (V6 (segments_of o)).
Proof.
  intros Hl. do 17 (destruct o as [|? o]; try done). split; [done|]. repeat constructor; apply u16_from_be_bound.
Qed.

(** The characters of a displayed IPv6 address. *)
Definition addr_char (b : byte) : bool :=
  match to_digit 16 b with Some _ => true | None => bool_decide (b = x3a) || bool_decide (b = x2e) end.

Lemma show_ipv6_chars (s : list N) : forallb addr_char (show_ipv6 s) = true.
Proof.
  assert (Hhex : ∀ fuel n acc, forallb addr_char acc = true → forallb addr_char (hex_loop fuel n acc) = true).
  { induction fuel as [|f IH]; intros n acc Ha; [done|]. cbn [hex_loop]. set (c := if (n mod 16 <? 10)%N then _ else _).
    assert (Hc : addr_char c = true).
    { unfold addr_char. pose proof (to_digit_hex (n mod 16)%N ltac:(by apply N.mod_lt)) as Hd. fold c in Hd. by rewrite Hd. }
    destruct (n <? 16)%N; [|apply IH]; cbn; by rewrite Hc, Ha. }
  assert (Hrest : ∀ gs, forallb addr_char (concat (map (λ g, x3a :: show_hex g) gs)) = true).
  { induction gs as [|g gs IH]; [done|]. cbn [map concat app forallb]. rewrite forallb_app, IH, andb_true_r. by apply Hhex. }
  assert (Hsub : ∀ gs, forallb addr_char (fmt_subslice gs) = true).
  { intros [|g gs]; [done|]. cbn [fmt_subslice]. rewrite forallb_app, Hrest, andb_true_r. by apply Hhex. }
  assert (Hdec : ∀ n, forallb addr_char (show_dec n) = true).
  { intros n. pose proof (show_dec_digits n) as Hd. rewrite forallb_forall in *. intros b Hb%Hd. by byte_cases b. }
  unfold show_ipv6. destruct (to_ipv4_mapped s) as [o|].
  - rewrite forallb_app. apply andb_true_iff. split; [reflexivity|]. destruct o as [|a r]; [done|].
    cbn [show_ipv4]. rewrite forallb_app, Hdec. cbn [andb]. induction r as [|b r IH]; [done|].
    cbn [map concat app forallb]. rewrite forallb_app, Hdec. exact IH.
  - destruct (zero_span _ _ _ _) as [start len]. destruct (1 <? len); rewrite ?forallb_app, ?Hsub; done.
Qed.
