(* ===== verification/Frame.v ===== *)
(** * The mux wire format ([core-lib/src/frame.rs])

    [Frame], its errors, [encode] and [decode], byte for byte; the round trip
    in both directions, and which buffers [decode] refuses and why. *)
From S2P Require Import Prelude Utf8 Text.

(** [pub enum Frame]; ids are [u32]s, strings are UTF-8 ([wf_frame]). *)
Inductive Frame : Type :=
| Hello (token : bytes)
| Open (id : N) (dest : bytes)
| OpenAck (id : N) (ok : bool)
| Data (id : N) (payload : bytes)
| Close (id : N).

(** [pub enum FrameError] *)
Inductive FrameError : Type :=
| TooShort
| UnknownType (t : byte)
| InvalidUtf8.

#[export] Instance frame_eq_dec : EqDecision Frame.
Proof. solve_decision. Defined.

#[export] Instance frame_error_eq_dec : EqDecision FrameError.
Proof. solve_decision. Defined.

(** [{:#04x}] of a [u8]. *)
Definition hex_digit (n : N) : byte := if (n <? 10)%N then u8_of (48 + n) else u8_of (87 + n).
Definition show_hex04 (b : byte) : bytes :=
  bs "0x" ++ [hex_digit (u8 b / 16)%N; hex_digit (u8 b mod 16)%N].

(** [impl fmt::Display for FrameError] *)
Definition frame_error_display (e : FrameError) : bytes :=
  match e with
  | TooShort => bs "frame too short"
  | UnknownType t => bs "unknown frame type: " ++ show_hex04 t
  | InvalidUtf8 => bs "invalid utf-8 in frame payload"
  end.

Definition TYPE_OPEN : byte := x01.
Definition TYPE_OPEN_ACK : byte := x02.
Definition TYPE_DATA : byte := x03.
Definition TYPE_CLOSE : byte := x04.
Definition TYPE_HELLO : byte := x10.

(** [Frame::encode] *)
Definition encode (f : Frame) : bytes :=
  match f with
  | Hello token => [TYPE_HELLO] ++ u32_to_be_bytes 0 ++ token
  | Open id dest => [TYPE_OPEN] ++ u32_to_be_bytes id ++ dest
  | OpenAck id ok => [TYPE_OPEN_ACK] ++ u32_to_be_bytes id ++ [if ok then x00 else x01]
  | Data id payload => [TYPE_DATA] ++ u32_to_be_bytes id ++ payload
  | Close id => [TYPE_CLOSE] ++ u32_to_be_bytes id
  end.

(** [std::str::from_utf8(payload).map_err(|_| InvalidUtf8)?.to_string()] *)
Definition from_utf8 (payload : bytes) : result bytes FrameError :=
  if utf8_valid payload then Ok payload else Err InvalidUtf8.

(** [Frame::decode]: the length test is the pattern's last case. *)
Definition decode (buf : bytes) : result Frame FrameError :=
  match buf with
  | frame_type :: b1 :: b2 :: b3 :: b4 :: payload =>
      let id := u32_from_be_bytes b1 b2 b3 b4 in
      if bool_decide (frame_type = TYPE_HELLO) then
        let? token := from_utf8 payload in Ok (Hello token)
      else if bool_decide (frame_type = TYPE_OPEN) then
        let? dest := from_utf8 payload in Ok (Open id dest)
      else if bool_decide (frame_type = TYPE_OPEN_ACK) then
        match payload with
        | [] => Err TooShort
        | status :: _ => Ok (OpenAck id (bool_decide (status = x00)))
        end
      else if bool_decide (frame_type = TYPE_DATA) then Ok (Data id payload)
      else if bool_decide (frame_type = TYPE_CLOSE) then Ok (Close id)
      else Err (UnknownType frame_type)
  | _ => Err TooShort
  end.

(** What the Rust types guarantee of a frame value: a [u32] id, UTF-8 text. *)
Definition wf_frame (f : Frame) : Prop :=
  match f with
  | Hello token => utf8_valid token = true
  | Open id dest => (id ≤ U32_MAX)%N ∧ utf8_valid dest = true
  | OpenAck id _ | Data id _ | Close id => (id ≤ U32_MAX)%N
  end.

(** The stream a frame belongs to; [None] for the session's HELLO. *)
Definition frame_stream (f : Frame) : option N :=
  match f with
  | Hello _ => None
  | Open id _ | OpenAck id _ | Data id _ | Close id => Some id
  end.

(** The buffers [encode] produces, among those [decode] accepts: HELLO carries
    stream id 0, OPEN_ACK exactly one status byte 0 or 1, CLOSE no payload. *)
Definition canonical (buf : bytes) : bool :=
  match buf with
  | t :: b1 :: b2 :: b3 :: b4 :: payload =>
      if bool_decide (t = TYPE_HELLO) then bool_decide ([b1; b2; b3; b4] = [x00; x00; x00; x00])
      else if bool_decide (t = TYPE_OPEN_ACK) then
        bool_decide (payload = [x00]) || bool_decide (payload = [x01])
      else if bool_decide (t = TYPE_CLOSE) then bool_decide (payload = [])
      else true
  | _ => false
  end.

(** ** Lemmas *)

(** Run [decode] on a buffer whose type byte is known. *)
Ltac unfold_types :=
  unfold TYPE_HELLO, TYPE_OPEN, TYPE_OPEN_ACK, TYPE_DATA, TYPE_CLOSE in *.

Ltac run_decode :=
  unfold_types;
  repeat match goal with
  | |- context [bool_decide (?a = ?b :> byte)] =>
      first [ rewrite (bool_decide_eq_true_2 (a = b)) by congruence
            | rewrite (bool_decide_eq_false_2 (a = b)) by congruence ]
  end.

Lemma from_utf8_ok (s : bytes) : utf8_valid s = true → from_utf8 s = Ok s.
Proof. unfold from_utf8. by intros ->. Qed.

Lemma decode_id (id : N) (b1 b2 b3 b4 : byte) :
  (id ≤ U32_MAX)%N → u32_to_be_bytes id = [b1; b2; b3; b4] →
  u32_from_be_bytes b1 b2 b3 b4 = id.
Proof. apply u32_be_roundtrip. Qed.

(** Every encoding starts with the type byte and four id bytes. *)
Lemma encode_cons (f : Frame) :
  ∃ t b1 b2 b3 b4 p, encode f = t :: b1 :: b2 :: b3 :: b4 :: p ∧
    u32_to_be_bytes (default 0%N (frame_stream f)) = [b1; b2; b3; b4].
Proof. destruct f; repeat eexists. Qed.

Lemma encode_length (f : Frame) :
  length (encode f) = 5 +
    match f with
    | Hello s | Open _ s | Data _ s => length s
    | OpenAck _ _ => 1
    | Close _ => 0
    end.
Proof. by destruct f. Qed.

Lemma decode_encode_aux (f : Frame) : wf_frame f → decode (encode f) = Ok f.
Proof.
  destruct f as [tok|id d|id ok|id p|id]; simpl; [intros Hs|intros [Hid Hs]|intros Hid..];
    run_decode; rewrite ?from_utf8_ok by done; simpl;
    rewrite ?(u32_be_roundtrip id) by done; try done.
  by destruct ok.
Qed.

Lemma decode_wf_aux (buf : bytes) (f : Frame) : decode buf = Ok f → wf_frame f.
Proof.
  unfold decode, from_utf8. intros H. repeat case_match; simplify_eq/=;
    auto with echo.
Qed.

Lemma decode_short (buf : bytes) : length buf < 5 → decode buf = Err TooShort.
Proof. destruct buf as [|t [|b1 [|b2 [|b3 [|b4 p]]]]]; simpl; done || lia. Qed.

(** ** Properties *)

(** C13: what one side encodes the other decodes to the same frame: for every
    frame of every kind a Rust program can build. *)
Theorem decode_encode (f : Frame) : wf_frame f → decode (encode f) = Ok f.
Proof. apply decode_encode_aux. Qed.

Lemma decode_encode_witness :
  decode (encode (Open 3735928559 (bs "example.com:443")))
  = Ok (Open 3735928559 (bs "example.com:443")).
Proof. apply decode_encode. split; [discriminate | reflexivity]. Defined.

(** The exact conditions under which [decode] refuses a buffer. *)
Definition decode_error_spec (buf : bytes) (e : FrameError) : Prop :=
  match e with
  | TooShort => length buf < 5 ∨ (length buf = 5 ∧ head buf = Some TYPE_OPEN_ACK)
  | UnknownType t =>
      5 ≤ length buf ∧ head buf = Some t ∧
      t ≠ TYPE_OPEN ∧ t ≠ TYPE_OPEN_ACK ∧ t ≠ TYPE_DATA ∧ t ≠ TYPE_CLOSE ∧ t ≠ TYPE_HELLO
  | InvalidUtf8 =>
      5 ≤ length buf ∧ (head buf = Some TYPE_OPEN ∨ head buf = Some TYPE_HELLO) ∧
      utf8_valid (drop 5 buf) = false
  end.

(** C21: [decode] fails exactly on short buffers, OPEN_ACK without a status
    byte, unknown type bytes and invalid UTF-8 text, with the matching error. *)
Theorem decode_err_iff (buf : bytes) (e : FrameError) :
  decode buf = Err e ↔ decode_error_spec buf e.
Proof.
  destruct (decide (length buf < 5)) as [Hs|Hl].
  { rewrite decode_short by done. destruct e; simpl; split; intros; simplify_eq; lia || auto. }
  destruct buf as [|t [|b1 [|b2 [|b3 [|b4 p]]]]]; simpl in Hl; try lia.
  simpl. unfold from_utf8. repeat case_bool_decide; subst;
    [destruct (utf8_valid p) eqn:Hu | destruct (utf8_valid p) eqn:Hu | destruct p | | |];
    destruct e; simpl; rewrite ?drop_0; unfold_types; intuition (lia || congruence).
Qed.

(** The wire layout, byte by byte, as the protocol describes it: a type byte,
    four id bytes with the most significant first, and the payload; a HELLO's
    id bytes mean nothing, an OPEN_ACK says yes with status 0 (bytes after the
    status mean nothing), and what follows a CLOSE means nothing. *)
Definition layout (f : Frame) (buf : bytes) : Prop :=
  ∃ t b1 b2 b3 b4 payload,
    buf = t :: b1 :: b2 :: b3 :: b4 :: payload ∧
    let id := (16777216 * u8 b1 + 65536 * u8 b2 + 256 * u8 b3 + u8 b4)%N in
    match f with
    | Hello token => u8 t = 16%N ∧ payload = token ∧ utf8_valid payload = true
    | Open i dest => u8 t = 1%N ∧ i = id ∧ payload = dest ∧ utf8_valid payload = true
    | OpenAck i ok =>
        u8 t = 2%N ∧ i = id ∧ ∃ status, head payload = Some status ∧ (ok = true ↔ u8 status = 0%N)
    | Data i p => u8 t = 3%N ∧ i = id ∧ payload = p
    | Close i => u8 t = 4%N ∧ i = id
    end.

Lemma u8_iff (b c : byte) : u8 b = u8 c ↔ b = c.
Proof. split; [apply u8_inj | by intros ->]. Qed.

Lemma u32_from_be_spec (b1 b2 b3 b4 : byte) :
  u32_from_be_bytes b1 b2 b3 b4 = (16777216 * u8 b1 + 65536 * u8 b2 + 256 * u8 b3 + u8 b4)%N.
Proof. unfold u32_from_be_bytes. lia. Qed.

Lemma from_utf8_ok_iff (s r : bytes) : from_utf8 s = Ok r ↔ s = r ∧ utf8_valid s = true.
Proof. unfold from_utf8. destruct (utf8_valid s); naive_solver. Qed.

(** A decoded frame is well formed: its id fits in 32 bits and its text is
    UTF-8. *)
Lemma decode_wf (buf : bytes) (f : Frame) : decode buf = Ok f → wf_frame f.
Proof. apply decode_wf_aux. Qed.

(** C22: [decode] accepts exactly the buffers laid out as the protocol says,
    and returns the frame they spell: the type byte 1, 2, 3, 4 or 16 names the
    kind, the next four bytes are the stream id with the most significant
    first, and every byte after them is the payload — kept whole in a DATA,
    text that must be UTF-8 in an OPEN or a HELLO, a status byte in an
    OPEN_ACK (0 accepts, anything else refuses). *)
Theorem decode_ok_iff (buf : bytes) (f : Frame) : decode buf = Ok f ↔ layout f buf.
Proof.
  split.
  - destruct buf as [|t [|b1 [|b2 [|b3 [|b4 p]]]]]; try done. simpl. intros Hd.
    exists t, b1, b2, b3, b4, p. split; [done|]. rewrite <-u32_from_be_spec.
    repeat case_bool_decide; subst; simplify_eq; try done;
      [destruct (from_utf8 p) eqn:Hu; simplify_eq/=; apply from_utf8_ok_iff in Hu as [-> Hu]; done..|].
    destruct p as [|st p]; simplify_eq/=. split_and!; [done..|]. exists st. split; [done|].
    rewrite bool_decide_eq_true, (u8_iff st x00). done.
  - intros (t & b1 & b2 & b3 & b4 & p & -> & Hf). simpl. rewrite <-u32_from_be_spec in Hf.
    destruct f as [tok|i d|i ok|i p'|i].
    + destruct Hf as (->%(u8_iff t x10) & -> & Hu). run_decode.
      by rewrite from_utf8_ok.
    + destruct Hf as (->%(u8_iff t x01) & -> & -> & Hu). run_decode.
      by rewrite from_utf8_ok.
    + destruct Hf as (->%(u8_iff t x02) & -> & st & Hst & Hok). run_decode.
      destruct p; simplify_eq/=. do 2 f_equal. apply eq_true_iff_eq.
      rewrite bool_decide_eq_true, Hok. symmetry. apply (u8_iff st x00).
    + destruct Hf as (->%(u8_iff t x03) & -> & ->). by run_decode.
    + destruct Hf as (->%(u8_iff t x04) & ->). by run_decode.
Qed.

(** re-encoding a decoded frame gives back the received bytes exactly for
    the canonical buffers; the others (stray HELLO id, other OPEN_ACK status or
    trailing bytes, CLOSE payload) are accepted but normalised. *)
Theorem encode_decode (buf : bytes) (f : Frame) :
  decode buf = Ok f → (encode f = buf ↔ canonical buf = true).
Proof.
  destruct buf as [|t [|b1 [|b2 [|b3 [|b4 p]]]]]; try done.
  unfold decode, from_utf8, canonical, encode. intros Hd.
  pose proof (u32_be_of_from b1 b2 b3 b4) as Hbe.
  injection Hbe as E1 E2 E3 E4.
  repeat case_bool_decide; subst; try (unfold_types; congruence).
  all: try destruct (utf8_valid p); try destruct p as [|st p]; simplify_eq/=;
    rewrite ?E1, ?E2, ?E3, ?E4; try done.
  all: try change (u8_of _) with x00.
  all: try case_bool_decide; split; intros; simplify_eq/=; done || by rewrite u32_be_of_from.
Qed.

Lemma encode_decode_witness :
  decode [x02; x00; x00; x00; x07; x02] = Ok (OpenAck 7 false) ∧
  (encode (OpenAck 7 false) = [x02; x00; x00; x00; x07; x02] ↔ false = true).
Proof.
  split; [reflexivity | apply (encode_decode [x02; x00; x00; x00; x07; x02]); reflexivity].
Defined.
