(* ===== verification/HostCode.v ===== *)
(** * The legacy host encoding ([core-lib/src/lib.rs])

    [encode_host] and [decode_host]: base64 with one random character at the
    golden-ratio position, whose index both compute in [f64].  The products
    are modelled exactly, with the rounding of the hardware. *)
From S2P Require Import Prelude Utf8 Text.

(** ** The position, in [f64]

    A finite [f64] that is an integer is that integer; [round53] is the
    rounding of an integer to 53 significant bits, ties to even. *)
Definition round53 (m : N) : N :=
  if (m <? 2 ^ 53)%N then m
  else
    let p := (2 ^ (N.log2 m - 52))%N in
    let q := (m / p)%N in
    let r := (m mod p)%N in
    let up := if (2 * r <? p)%N then false else if (p <? 2 * r)%N then true else N.odd q in
    ((if up then q + 1 else q) * p)%N.

(** The [f64] nearest to 0.618 is [golden] / 2^53. *)
Definition golden : N := 5566449139429933.

(** [(len as f64 * 0.618).floor() as usize]: the product of the significands,
    rounded, in units of 2^-53. *)
Definition golden_index (len : N) : N := (round53 (round53 len * golden) / 2 ^ 53)%N.

(** ** Base64 *)

(** [BASE64_STANDARD]: ASCII text from which the bytes can be read back. *)
Class Base64 := {
  b64_encode : bytes → bytes;
  b64_decode : bytes → option bytes;
  b64_ascii s : is_ascii (b64_encode s) = true;
  b64_round_trip s : b64_decode (b64_encode s) = Some s
}.

(** A concrete instance, for evaluating examples: two letters per byte. *)
Definition nibble (n : N) : byte := u8_of (65 + n).

Fixpoint pairs_encode (s : bytes) : bytes :=
  match s with [] => [] | b :: t => nibble (u8 b / 16) :: nibble (u8 b mod 16) :: pairs_encode t end.

Fixpoint pairs_decode (s : bytes) : option bytes :=
  match s with
  | [] => Some []
  | a :: b :: t => t' ← pairs_decode t; Some (u8_of ((u8 a - 65) * 16 + (u8 b - 65)) :: t')
  | _ => None
  end.

#[local] Obligation Tactic := idtac.
Program Definition demo_base64 : Base64 := {| b64_encode := pairs_encode; b64_decode := pairs_decode |}.
Next Obligation.
  induction s as [|b t IH]; [done|]. cbn. apply andb_true_iff. split; [by byte_cases b|].
  apply andb_true_iff. split; [by byte_cases b|done].
Qed.
Next Obligation. induction s as [|b t IH]; [done|]. cbn -[u8_of]. rewrite IH. cbn -[u8_of]. do 2 f_equal. by byte_cases b. Qed.

(** ** The two functions; [None] is a panic *)

Section HostCode.
Context `{Base64}.

Definition charset : bytes := bs "ABCDEFGHIJKLMNOPQRSTUVWXYZabcdefghijklmnopqrstuvwxyz0123456789".

(** [String::insert] of an ASCII character, and [String::remove]. *)
Definition string_insert (s : bytes) (i : nat) (c : byte) : option bytes :=
  a ← str_to s i; b ← str_from s i; Some (a ++ c :: b).

Definition string_remove (s : bytes) (i : nat) : option bytes :=
  a ← str_to s i; b ← str_from s i;
  match utf8_chars b with [] => None | ch :: _ => Some (a ++ drop (length ch) b) end.

(** [encode_host]; [random] is the outcome of [random_range(0..charset.len())]. *)
Definition encode_host (random : nat) (host : bytes) : option bytes :=
  let encoded := b64_encode host in
  let idx := N.to_nat (golden_index (N.of_nat (length encoded))) in
  c ← charset !! random;
  string_insert encoded idx c.

(** [decode_host]; on the empty string [s.len() - 1] overflows, and whether that
    is checked or wraps, the call panics. *)
Definition decode_host (encoded_host : bytes) : option bytes :=
  match length encoded_host with
  | O => None
  | S n =>
      s ← string_remove encoded_host (N.to_nat (golden_index (N.of_nat n)));
      bytes ← b64_decode s;
      if utf8_valid bytes then Some bytes else None
  end.

(** ** Lemmas: rounding *)

Lemma pow_parts (m : N) :
  (2 ^ 53 ≤ m)%N → ∃ h, (2 ^ (N.log2 m - 52) = 2 * h ∧ 0 < h ∧ 2 ^ 53 * h ≤ m ∧ m < 2 ^ 54 * h)%N.
Proof.
  intros Hm. assert (Hl : (53 ≤ N.log2 m)%N) by (apply N.log2_le_pow2; lia).
  destruct (N.log2_spec m ltac:(lia)) as [Hlo Hhi]. exists (2 ^ (N.log2 m - 53))%N.
  assert (E : (2 ^ (N.log2 m - 52) = 2 * 2 ^ (N.log2 m - 53))%N).
  { rewrite <- N.pow_succ_r'. f_equal. lia. }
  assert (E1 : (2 ^ N.log2 m = 2 ^ 53 * 2 ^ (N.log2 m - 53))%N) by (rewrite <- N.pow_add_r; f_equal; lia).
  rewrite N.pow_succ_r', E1 in Hhi. rewrite E1 in Hlo.
  split_and!; [done| |done|change (2 ^ 54)%N with (2 * 2 ^ 53)%N; lia].
  assert (2 ^ (N.log2 m - 53) ≠ 0)%N by (by apply N.pow_nonzero). lia.
Qed.

(** Rounding is off by at most half a unit in the last place. *)
Lemma round53_error (m : N) : (2 ^ 53 * round53 m ≤ (2 ^ 53 + 1) * m)%N.
Proof.
  unfold round53. destruct (N.ltb_spec m (2 ^ 53)) as [Hs|Hm]; [lia|].
  destruct (pow_parts m Hm) as (h & E & Hh & Hlo & _). rewrite E.
  pose proof (N.div_mod m (2 * h) ltac:(lia)) as Hd. pose proof (N.mod_lt m (2 * h) ltac:(lia)) as Hr.
  set (q := (m / (2 * h))%N) in *. set (r := (m mod (2 * h))%N) in *. cbv zeta.
  destruct (N.ltb_spec (2 * r) (2 * h)) as [Hlt|Hge]; [nia|].
  destruct (if (2 * h <? 2 * r)%N then true else N.odd q); nia.
Qed.

(** It does not go below a representable number that is close enough. *)
Lemma round53_reaches (m h k : N) :
  (2 ^ 53 ≤ m → 2 ^ (N.log2 m - 52) = 2 * h → k * (2 * h) < m + h → k * (2 * h) ≤ round53 m)%N.
Proof.
  intros Hm E Hk. unfold round53. destruct (N.ltb_spec m (2 ^ 53)) as [Hs|_]; [lia|].
  assert (Hh : (0 < h)%N) by (assert (2 ^ (N.log2 m - 52) ≠ 0)%N by (by apply N.pow_nonzero); lia). rewrite E.
  pose proof (N.div_mod m (2 * h) ltac:(lia)) as Hd. pose proof (N.mod_lt m (2 * h) ltac:(lia)) as Hr.
  set (q := (m / (2 * h))%N) in *. set (r := (m mod (2 * h))%N) in *. cbv zeta.
  destruct (N.le_gt_cases k q) as [Hkq|Hkq].
  - destruct (if (2 * r <? 2 * h)%N then false else if (2 * h <? 2 * r)%N then true else N.odd q); nia.
  - assert (k = q + 1)%N as -> by nia.
    rewrite (proj2 (N.ltb_ge (2 * r) (2 * h))), (proj2 (N.ltb_lt (2 * h) (2 * r))) by nia. lia.
Qed.

Lemma round53_error_half (m h : N) :
  (2 ^ 53 ≤ m → 2 ^ (N.log2 m - 52) = 2 * h → round53 m ≤ m + h)%N.
Proof.
  intros Hm E. unfold round53. destruct (N.ltb_spec m (2 ^ 53)) as [Hs|_]; [lia|].
  assert (Hh : (0 < h)%N) by (assert (2 ^ (N.log2 m - 52) ≠ 0)%N by (by apply N.pow_nonzero); lia). rewrite E.
  pose proof (N.div_mod m (2 * h) ltac:(lia)) as Hd. pose proof (N.mod_lt m (2 * h) ltac:(lia)) as Hr.
  set (q := (m / (2 * h))%N) in *. set (r := (m mod (2 * h))%N) in *. cbv zeta.
  destruct (N.ltb_spec (2 * r) (2 * h)) as [Hlt|Hge]; [nia|].
  destruct (if (2 * h <? 2 * r)%N then true else N.odd q); nia.
Qed.

Lemma golden_index_le (len : N) : (golden_index len ≤ len)%N.
Proof.
  unfold golden_index. pose proof (round53_error len) as H1.
  pose proof (round53_error (round53 len * golden)) as H2. apply N.Div0.div_le_upper_bound.
  unfold golden in *. lia.
Qed.

Lemma golden_index_exact (len : N) : (len < 2 ^ 43 → golden_index len = 618 * len / 1000)%N.
Proof.
  intros Hlen. unfold golden_index. assert (E : round53 len = len).
  { unfold round53. by rewrite (proj2 (N.ltb_lt len (2 ^ 53))) by lia. }
  rewrite E. set (x := (len * golden)%N).
  assert (E1 : (618 * len / 1000 = 309 * len / 500)%N).
  { replace (618 * len)%N with (2 * (309 * len))%N by lia. change 1000%N with (2 * 500)%N. by rewrite N.Div0.div_mul_cancel_l. }
  rewrite E1. pose proof (N.div_mod (309 * len) 500 ltac:(lia)) as Hd. pose proof (N.mod_lt (309 * len) 500 ltac:(lia)) as Hr.
  set (q := (309 * len / 500)%N) in *. set (r := ((309 * len) mod 500)%N) in *.
  assert (Hgoal : (2 ^ 53 * q ≤ round53 x ∧ round53 x < 2 ^ 53 * q + 2 ^ 53)%N).
  2:{ symmetry. apply (N.div_unique _ _ _ (round53 x - 2 ^ 53 * q)%N); lia. }
  destruct (N.lt_ge_cases x (2 ^ 53)) as [Hs|Hx].
  { unfold round53. rewrite (proj2 (N.ltb_lt x (2 ^ 53))) by lia. subst x. unfold golden in *. lia. }
  destruct (pow_parts x Hx) as (h & Eh & Hh & Hlo & Hhi).
  assert (Hp : (∃ t, 2 ^ 53 = t * (2 * h))%N).
  { exists (2 ^ (53 - (N.log2 x - 52)))%N. rewrite <- Eh, <- N.pow_add_r. f_equal.
    assert (N.log2 x < 105)%N by (apply N.log2_lt_pow2; [lia|]; subst x; unfold golden; lia). lia. }
  destruct Hp as [t Ht]. pose proof (round53_error_half x h Hx Eh) as Hup.
  assert (Hdown : (q * t * (2 * h) < x + h → q * t * (2 * h) ≤ round53 x)%N) by (by apply round53_reaches).
  replace (q * t * (2 * h))%N with (2 ^ 53 * q)%N in Hdown by (rewrite Ht; lia).
  subst x. unfold golden in *. clear E E1 Eh Hx t Ht. split; [apply Hdown|]; destruct (N.eq_0_gt_0_cases r); lia.
Qed.

(** A cut inside an ASCII text is between characters. *)
Lemma ascii_cut (s : bytes) (i : nat) :
  is_ascii s = true → i ≤ length s → str_to s i = Some (take i s) ∧ str_from s i = Some (drop i s).
Proof.
  intros Ha Hi. assert (Hv : utf8_valid (drop i s) = true).
  { apply utf8_valid_ascii. unfold is_ascii in *. rewrite forallb_forall in *. intros b Hb. apply Ha.
    rewrite <- (take_drop i s). apply in_or_app. by right. }
  pose proof (str_to_app (take i s) (drop i s) Hv) as H1. pose proof (str_from_app (take i s) (drop i s) Hv) as H2.
  rewrite take_drop, length_take_le in H1, H2 by lia. done.
Qed.

(** ** Properties *)

(** C40: The position [encode_host] and [decode_host] compute in floating point is
    inside the text, whatever its length; and for texts below 2^43 bytes the
    rounded product loses nothing: it is the whole part of 0.618 times the
    length. *)
Theorem golden_index_bounds (len : N) :
  (golden_index len ≤ len)%N ∧ ((len < 2 ^ 43)%N → golden_index len = (618 * len / 1000)%N).
Proof. split; [apply golden_index_le|apply golden_index_exact]. Qed.

(** Every host survives: whatever character was drawn, [encode_host] does not
    panic and [decode_host] gives the host back. *)
Theorem host_round_trip (random : nat) (host : bytes) (Hr : random < 62) (Hv : utf8_valid host = true) :
  ∃ e, encode_host random host = Some e ∧ decode_host e = Some host.
Proof.
  assert (Hc : ∃ c, charset !! random = Some c ∧ is_ascii_byte c = true).
  { do 62 (destruct random as [|random]; [eexists; by split|]). lia. }
  destruct Hc as (c & Hc & Hca). unfold encode_host. rewrite Hc. cbn [mbind option_bind].
  set (e := b64_encode host). set (i := N.to_nat (golden_index (N.of_nat (length e)))).
  assert (Hi : i ≤ length e) by (pose proof (golden_index_le (N.of_nat (length e))); lia).
  assert (Ha : is_ascii e = true) by apply b64_ascii. destruct (ascii_cut e i Ha Hi) as [Ht Hf].
  exists (take i e ++ c :: drop i e). unfold string_insert. rewrite Ht, Hf. split; [done|].
  unfold decode_host. assert (Hlen : length (take i e ++ c :: drop i e) = S (length e)).
  { rewrite length_app. cbn. rewrite length_take, length_drop. lia. }
  rewrite Hlen. fold i. unfold string_remove.
  assert (Ha' : is_ascii (take i e ++ c :: drop i e) = true).
  { unfold is_ascii in *. rewrite forallb_app. cbn. rewrite Hca. rewrite <- (take_drop i e), forallb_app in Ha. done. }
  destruct (ascii_cut _ i Ha' ltac:(lia)) as [-> ->]. cbn [mbind option_bind].
  assert (Hti : length (take i e) = i) by (rewrite length_take; lia).
  rewrite take_app_le, drop_app_ge, Hti, Nat.sub_diag by lia. cbn [drop].
  assert (Hch : utf8_chars (c :: drop i e) = [c] :: utf8_chars (drop i e)).
  { assert (Hd : is_ascii (drop i e) = true).
    { unfold is_ascii in *. rewrite <- (take_drop i e), forallb_app in Ha. by apply andb_true_iff in Ha as [_ ?]. }
    rewrite !ascii_chars; [done|done|]. cbn. by rewrite Hca. }
  rewrite Hch. cbn [length drop mbind option_bind]. rewrite take_take, Nat.min_id, drop_0, take_drop.
  unfold e. rewrite b64_round_trip. cbn [mbind option_bind]. by rewrite Hv.
Qed.

End HostCode.

(** ** Witnesses *)

#[local] Existing Instance demo_base64.

(** A reader that does not know the encoding panics on a foreign text: the
    empty one, one that is no base64, one cut inside a character. *)
Example decode_host_panics :
  decode_host [] = None ∧ decode_host (bs "abcd") = None ∧ decode_host (repeat xc3 8) = None.
Proof. vm_compute. done. Qed.

Lemma host_round_trip_witness :
  ∃ e, encode_host 17 (bs "example.com:443") = Some e ∧ decode_host e = Some (bs "example.com:443").
Proof. apply (host_round_trip 17); [lia|vm_compute; reflexivity]. Defined.

(** 309 = 0.618 * 500 exactly, although 0.618 is rounded down in binary. *)
Lemma golden_index_bounds_witness : golden_index 500 = (618 * 500 / 1000)%N ∧ golden_index 500 = 309%N.
Proof. split; [apply (golden_index_bounds 500); lia|vm_compute; reflexivity]. Defined.
