(* ===== verification/GeoSite.v ===== *)
(** * GeoSite rules ([client/src/geosite.rs])

    The domain matcher and its loader.  The regex engine and the protobuf
    decoder are third-party crates: the interfaces [RegexEngine] and
    [GeoSiteDecoder]; reading files is the interface [FileSystem]. *)
From S2P Require Import Prelude Utf8 Text.

(** [std::fs::read] and [Path::is_file], for some state of the disk. *)
Class FileSystem := {
  io_error : Type;
  fs_read : bytes → result bytes io_error;
  is_file : bytes → bool
}.

(** The [regex] crate: compiling a pattern fails with a message. *)
Class RegexEngine := {
  Regex : Type;
  regex_new : bytes → result Regex bytes;
  is_match : Regex → bytes → bool
}.

(** The protobuf messages of [geosite_rs], as far as the source reads them. *)
Record SiteDomain := { d_type : Z; d_value : bytes }.
Record SiteEntry := { s_country_code : bytes; s_domain : list SiteDomain }.

(** A decoded [value] is a Rust [String]. *)
Class GeoSiteDecoder := {
  decode_geosite : bytes → result (list SiteEntry) bytes;
  decode_geosite_utf8 c es e d :
    decode_geosite c = Ok es → e ∈ es → d ∈ s_domain e → utf8_valid (d_value d) = true
}.

Section GeoSite.
Context `{UnicodeCase} `{FileSystem} `{RegexEngine} `{GeoSiteDecoder}.

(** [pub enum GeoSiteError] *)
Inductive GeoSiteError : Type :=
| SiteIo (e : io_error)
| SiteDecode (msg : bytes)
| SiteTagNotFound (tag : bytes)
| SiteInvalidRegex (pattern source : bytes).

(** [impl fmt::Display for GeoSiteError]; the text of an I/O error is the
    standard library's. *)
Definition geosite_error_display (show_io : io_error → bytes) (e : GeoSiteError) : bytes :=
  match e with
  | SiteIo e => bs "failed to read geosite dat: " ++ show_io e
  | SiteDecode msg => bs "failed to decode geosite dat: " ++ msg
  | SiteTagNotFound tag => bs "tag '" ++ tag ++ bs "' not found in geosite dat"
  | SiteInvalidRegex pattern source => bs "invalid regex '" ++ pattern ++ bs "' in geosite dat: " ++ source
  end.

(** [pub struct GeoSiteMatcher] *)
Record GeoSiteMatcher := {
  domains : list bytes;
  fulls : list bytes;
  keywords : list bytes;
  regexes : list Regex
}.

(** [#[derive(Default)]] *)
Definition matcher_default : GeoSiteMatcher :=
  {| domains := []; fulls := []; keywords := []; regexes := [] |}.

(** One suffix rule: [host == &d[1..] || host.ends_with(d)]; the slice panics
    when byte 1 is not a character boundary of [d]. *)
Definition domain_rule (host d : bytes) : option bool :=
  match str_from d 1 with
  | None => None
  | Some apex => Some (str_eqb host apex || ends_with host d)
  end.

(** [GeoSiteMatcher::matches]; [None] is a panic. *)
Definition site_matches (m : GeoSiteMatcher) (host : bytes) : option bool :=
  if existsb (λ f, str_eqb f host) (fulls m) then Some true
  else if existsb (λ k, contains host k) (keywords m) then Some true
  else
    match any_opt (domain_rule host) (domains m) with
    | None => None
    | Some true => Some true
    | Some false =>
        if existsb (λ r, is_match r host) (regexes m) then Some true else Some false
    end.

(** The body of the inner loop: one rule of an entry. *)
Definition push_domain (m : GeoSiteMatcher) (d : SiteDomain) : result GeoSiteMatcher GeoSiteError :=
  let value := to_lowercase (d_value d) in
  match d_type d with
  | 2%Z => Ok {| domains := domains m ++ [bs "." ++ value]; fulls := fulls m;
                 keywords := keywords m; regexes := regexes m |}
  | 3%Z => Ok {| domains := domains m; fulls := fulls m ++ [value];
                 keywords := keywords m; regexes := regexes m |}
  | 0%Z => Ok {| domains := domains m; fulls := fulls m;
                 keywords := keywords m ++ [value]; regexes := regexes m |}
  | 1%Z =>
      let? re := map_err (regex_new value) (λ e, SiteInvalidRegex value e) in
      Ok {| domains := domains m; fulls := fulls m;
            keywords := keywords m; regexes := regexes m ++ [re] |}
  | _ => Ok m
  end.

Fixpoint push_domains (m : GeoSiteMatcher) (ds : list SiteDomain)
  : result GeoSiteMatcher GeoSiteError :=
  match ds with
  | [] => Ok m
  | d :: ds' => let? m' := push_domain m d in push_domains m' ds'
  end.

(** [list.entry.iter().find(|e| e.country_code.to_uppercase() == tag_upper)] *)
Definition find_site (entries : list SiteEntry) (tag : bytes) : option SiteEntry :=
  List.find (λ e, str_eqb (to_uppercase (s_country_code e)) (to_uppercase tag)) entries.

(** The outer loop, over the requested tags. *)
Fixpoint push_tags (entries : list SiteEntry) (m : GeoSiteMatcher) (tags : list bytes)
  : result GeoSiteMatcher GeoSiteError :=
  match tags with
  | [] => Ok m
  | tag :: tags' =>
      let? entry := ok_or (find_site entries tag) (SiteTagNotFound tag) in
      let? m' := push_domains m (s_domain entry) in
      push_tags entries m' tags'
  end.

(** [load_geosite_dat] *)
Definition load_geosite_dat (path : bytes) (tags : list bytes)
  : result GeoSiteMatcher GeoSiteError :=
  let? content := map_err (fs_read path) SiteIo in
  let? entries := map_err (decode_geosite content) SiteDecode in
  push_tags entries matcher_default tags.

(** ** Specifications *)

(** What the four kinds of rule mean. *)
Definition site_spec (m : GeoSiteMatcher) (host : bytes) : Prop :=
  host ∈ fulls m
  ∨ (∃ k, k ∈ keywords m ∧ ∃ a b, host = a ++ k ++ b)
  ∨ (∃ v, bs "." ++ v ∈ domains m ∧ (host = v ∨ ∃ sub, host = sub ++ bs "." ++ v))
  ∨ (∃ r, r ∈ regexes m ∧ is_match r host = true).

(** The invariant of [domains]: a leading dot, then UTF-8 text. *)
Definition wf_matcher (m : GeoSiteMatcher) : Prop :=
  Forall (λ d, ∃ v, d = bs "." ++ v ∧ utf8_valid v = true) (domains m).

(** What a rule accepts once [push_domain] has lower-cased it. *)
Definition pushed_rule_matches (d : SiteDomain) (host : bytes) : Prop :=
  let value := to_lowercase (d_value d) in
  match d_type d with
  | 2%Z => host = value ∨ ∃ sub, host = sub ++ bs "." ++ value
  | 3%Z => host = value
  | 0%Z => ∃ a b, host = a ++ value ++ b
  | 1%Z => ∃ r, regex_new value = Ok r ∧ is_match r host = true
  | _ => False
  end.

(** What one rule of the file means: a [Domain] matches itself and its
    subdomains, a [Full] itself, a [Plain] what contains it — names, compared
    in lower case — and a [Regex] what the pattern written in the file matches. *)
Definition rule_matches (d : SiteDomain) (host : bytes) : Prop :=
  let name := to_lowercase (d_value d) in
  match d_type d with
  | 2%Z => host = name ∨ ∃ sub, host = sub ++ bs "." ++ name
  | 3%Z => host = name
  | 0%Z => ∃ a b, host = a ++ name ++ b
  | 1%Z => ∃ r, regex_new (d_value d) = Ok r ∧ is_match r host = true
  | _ => False
  end.

(** Some rule of some requested tag applies: to what the file says, and to what
    the loader makes of it. *)
Definition tags_match (entries : list SiteEntry) (tags : list bytes) (host : bytes) : Prop :=
  ∃ tag e d, tag ∈ tags ∧ find_site entries tag = Some e ∧ d ∈ s_domain e ∧ rule_matches d host.

(** The regex rules of the requested tags that lower-casing leaves alone. *)
Definition lower_case_regexes (entries : list SiteEntry) (tags : list bytes) : Prop :=
  ∀ tag e d, tag ∈ tags → find_site entries tag = Some e → d ∈ s_domain e →
    d_type d = 1%Z → to_lowercase (d_value d) = d_value d.

Definition pushed_tags_match (entries : list SiteEntry) (tags : list bytes) (host : bytes) : Prop :=
  ∃ tag e d, tag ∈ tags ∧ find_site entries tag = Some e ∧ d ∈ s_domain e ∧ pushed_rule_matches d host.

(** ** Lemmas *)

Lemma existsb_elem {A : Type} (p : A → bool) (l : list A) :
  existsb p l = true ↔ ∃ a, a ∈ l ∧ p a = true.
Proof. rewrite existsb_exists. setoid_rewrite list_elem_of_In. done. Qed.

(** The suffix test of a well-formed rule, as a boolean. *)
Definition domain_test (host d : bytes) : bool := str_eqb host (drop 1 d) || ends_with host d.

Lemma domain_rule_wf (host v : bytes) :
  utf8_valid v = true →
  domain_rule host (bs "." ++ v) = Some (domain_test host (bs "." ++ v)).
Proof.
  intros Hv. unfold domain_rule, domain_test.
  pose proof (str_from_app (bs ".") v Hv) as E. change (length (bs ".")) with 1 in E.
  by rewrite E.
Qed.

Lemma domain_test_iff (host v : bytes) :
  domain_test host (bs "." ++ v) = true ↔ host = v ∨ ∃ sub, host = sub ++ bs "." ++ v.
Proof. unfold domain_test. by rewrite orb_true_iff, str_eqb_eq, ends_with_iff. Qed.

Lemma any_domain_rule (m : GeoSiteMatcher) (host : bytes) :
  wf_matcher m →
  any_opt (domain_rule host) (domains m) = Some (existsb (domain_test host) (domains m)).
Proof.
  intros Hwf. apply any_opt_total. intros d Hd.
  unfold wf_matcher in Hwf. rewrite Forall_forall in Hwf.
  destruct (Hwf d Hd) as (v & -> & Hv). by apply domain_rule_wf.
Qed.

(** Every panic-free run agrees with the specification. *)
Lemma site_matches_aux (m : GeoSiteMatcher) (host : bytes) :
  wf_matcher m → ∃ b, site_matches m host = Some b ∧ (b = true ↔ site_spec m host).
Proof.
  intros Hwf. unfold site_matches, site_spec. rewrite any_domain_rule by done.
  destruct (existsb (λ f, str_eqb f host) (fulls m)) eqn:Ef.
  { exists true. split; [done|]. split; [|done]. intros _. left.
    apply existsb_elem in Ef as (f & Hf & ->%str_eqb_eq). done. }
  destruct (existsb (λ k, contains host k) (keywords m)) eqn:Ek.
  { exists true. split; [done|]. split; [|done]. intros _. right; left.
    apply existsb_elem in Ek as (k & Hk & Hc%contains_iff). eauto. }
  destruct (existsb (domain_test host) (domains m)) eqn:Ed.
  { exists true. split; [done|]. split; [|done]. intros _. right; right; left.
    apply existsb_elem in Ed as (d & Hd & Ht).
    unfold wf_matcher in Hwf. rewrite Forall_forall in Hwf.
    destruct (Hwf d Hd) as (v & -> & _). apply domain_test_iff in Ht. eauto. }
  destruct (existsb (λ r, is_match r host) (regexes m)) eqn:Er.
  { exists true. split; [done|]. split; [|done]. intros _. right; right; right.
    by apply existsb_elem in Er. }
  exists false. split; [done|]. split; [done|].
  rewrite <- not_true_iff_false, existsb_elem in Ef, Ek, Ed.
  intros [Hf|[(k & Hk & Hc)|[(v & Hv & Hs)|(r & Hr & Hm)]]]; exfalso.
  - apply Ef. exists host. split; [done | by apply str_eqb_eq].
  - apply Ek. exists k. split; [done | by apply contains_iff].
  - apply Ed. exists (bs "." ++ v). split; [done | by apply domain_test_iff].
  - apply not_true_iff_false in Er. apply Er, existsb_elem. eauto.
Qed.

Lemma elem_snoc {A : Type} (l : list A) (x a : A) : x ∈ l ++ [a] ↔ x ∈ l ∨ x = a.
Proof. by rewrite elem_of_app, list_elem_of_singleton. Qed.

Lemma ex_snoc {A B : Type} (f : B → A) (l : list A) (b : B) (P : B → Prop) :
  (∀ x y, f x = f y → x = y) →
  (∃ x, f x ∈ l ++ [f b] ∧ P x) ↔ (∃ x, f x ∈ l ∧ P x) ∨ P b.
Proof.
  intros Hf. setoid_rewrite elem_snoc. split.
  - intros (x & [Hx|Hx%Hf] & HP); [eauto | subst; auto].
  - intros [(x & Hx & HP)|HP]; eauto.
Qed.

(** Adding one rule adds exactly its hosts, and keeps the invariant. *)
Lemma push_domain_spec (m m' : GeoSiteMatcher) (d : SiteDomain) :
  push_domain m d = Ok m' →
  ∀ host, site_spec m' host ↔ site_spec m host ∨ pushed_rule_matches d host.
Proof.
  unfold push_domain, pushed_rule_matches. set (v := to_lowercase (d_value d)). intros Hp host.
  assert (Hid : ∀ P, (P ↔ P ∨ False)) by tauto.
  destruct (d_type d) as [|p|p]; [|destruct p as [[]|[]|]|];
    try (injection Hp as <-; exact (Hid _)).
  - injection Hp as <-. unfold site_spec; simpl.
    rewrite (ex_snoc (λ k, k)) by done. tauto.
  - injection Hp as <-. unfold site_spec; simpl. rewrite elem_snoc. tauto.
  - injection Hp as <-. unfold site_spec; simpl.
    rewrite (ex_snoc (λ k, bs "." ++ k)) by (intros; simplify_eq/=; done). tauto.
  - destruct (regex_new v) as [re|e]; simpl in Hp; [injection Hp as <- | done].
    unfold site_spec; simpl. rewrite (ex_snoc (λ k, k)) by done.
    assert ((∃ r : Regex, Ok (E:=bytes) re = Ok r ∧ is_match r host = true)
            ↔ is_match re host = true) as ->.
    { split; [by intros (? & [= ->] & ?) | eauto]. }
    tauto.
Qed.

Lemma push_domain_wf (m m' : GeoSiteMatcher) (d : SiteDomain) :
  utf8_valid (d_value d) = true → push_domain m d = Ok m' → wf_matcher m → wf_matcher m'.
Proof.
  unfold push_domain, wf_matcher. intros Hv Hp Hwf.
  destruct (d_type d) as [|p|p]; [|destruct p as [[]|[]|]|]; simpl in Hp; simplify_eq/=; try done.
  - apply Forall_app. split; [done|]. constructor; [|done].
    eexists. split; [done | by apply to_lowercase_valid].
  - destruct (regex_new _) as [re|e]; simpl in Hp; by simplify_eq/=.
Qed.

Lemma push_domains_spec (ds : list SiteDomain) (m m' : GeoSiteMatcher) :
  push_domains m ds = Ok m' →
  (∀ host, site_spec m' host ↔ site_spec m host ∨ ∃ d, d ∈ ds ∧ pushed_rule_matches d host)
  ∧ ((∀ d, d ∈ ds → utf8_valid (d_value d) = true) → wf_matcher m → wf_matcher m').
Proof.
  revert m. induction ds as [|d ds IH]; intros m; simpl.
  - intros [= ->]. split; [|done]. intros host.
    split; [auto | intros [?|(? & ?%elem_of_nil & _)]; done].
  - destruct (push_domain m d) as [m1|e] eqn:Ed; simpl; [|done].
    intros [Hs Hw]%IH. split.
    + intros host. rewrite Hs, (push_domain_spec m m1 d) by done.
      setoid_rewrite elem_of_cons. naive_solver.
    + intros Hv Hm. apply Hw; [intros; apply Hv; by right|].
      eapply push_domain_wf; eauto. apply Hv. left.
Qed.

Lemma push_tags_spec (entries : list SiteEntry) (tags : list bytes) (m m' : GeoSiteMatcher) :
  push_tags entries m tags = Ok m' →
  (∀ host, site_spec m' host ↔ site_spec m host ∨ pushed_tags_match entries tags host)
  ∧ ((∀ e d, e ∈ entries → d ∈ s_domain e → utf8_valid (d_value d) = true) →
     wf_matcher m → wf_matcher m').
Proof.
  revert m. induction tags as [|tag tags IH]; intros m; simpl.
  - intros [= ->]. split; [|done]. intros host. unfold pushed_tags_match.
    split; [auto | intros [?|(? & ? & ? & ?%elem_of_nil & _)]; done].
  - destruct (find_site entries tag) as [e|] eqn:Ef; simpl; [|done].
    destruct (push_domains m (s_domain e)) as [m1|err] eqn:Ed; simpl; [|done].
    apply push_domains_spec in Ed as [Hs1 Hw1]. intros [Hs Hw]%IH. split.
    + intros host. rewrite Hs, Hs1. unfold pushed_tags_match. setoid_rewrite elem_of_cons.
      split; intros Hx.
      { destruct Hx as [[?|(d & Hd & Hr)]|(t & e' & d & Ht & He & Hd & Hr)]; [by left| |].
        - right. exists tag, e, d. auto.
        - right. exists t, e', d. auto. }
      destruct Hx as [?|(t & e' & d & [->|Ht] & He & Hd & Hr)]; [auto| |right; exists t, e', d; auto].
      left; right. rewrite Ef in He. simplify_eq. eauto.
    + intros Hv Hm. apply Hw; [done|]. apply Hw1; [|done].
      intros d. apply Hv. unfold find_site in Ef. apply find_some in Ef as [Hin _].
      by apply list_elem_of_In.
Qed.

(** When the tags can all be loaded. *)
Definition tags_loadable (entries : list SiteEntry) (tags : list bytes) : Prop :=
  ∀ tag, tag ∈ tags → ∃ e, find_site entries tag = Some e ∧
    ∀ d, d ∈ s_domain e → d_type d = 1%Z → ∃ r, regex_new (to_lowercase (d_value d)) = Ok r.

Lemma push_domain_ok (m : GeoSiteMatcher) (d : SiteDomain) :
  (∃ m', push_domain m d = Ok m') ↔
  (d_type d = 1%Z → ∃ r, regex_new (to_lowercase (d_value d)) = Ok r).
Proof.
  unfold push_domain.
  destruct (d_type d) as [|p|p]; [|destruct p as [[]|[]|]|]; simpl;
    try (split; intros; [done | by eexists]).
  destruct (regex_new _) as [re|e]; simpl; split; intros Hp.
  - eauto.
  - eauto.
  - by destruct Hp.
  - by destruct (Hp eq_refl).
Qed.

Lemma push_domains_ok (ds : list SiteDomain) (m : GeoSiteMatcher) :
  (∃ m', push_domains m ds = Ok m') ↔
  ∀ d, d ∈ ds → d_type d = 1%Z → ∃ r, regex_new (to_lowercase (d_value d)) = Ok r.
Proof.
  revert m. induction ds as [|d ds IH]; intros m; simpl.
  - split; [by intros _ d ?%elem_of_nil | by eexists].
  - pose proof (push_domain_ok m d) as Hd.
    destruct (push_domain m d) as [m1|e]; simpl.
    + rewrite IH. setoid_rewrite elem_of_cons. split; [|naive_solver].
      intros Hds d' [->|?]; [|eauto]. apply Hd. eauto.
    + split; [by intros []|]. intros Hds. exfalso.
      destruct (proj2 Hd); [|done]. apply Hds. left.
Qed.

Lemma push_tags_ok (entries : list SiteEntry) (tags : list bytes) (m : GeoSiteMatcher) :
  (∃ m', push_tags entries m tags = Ok m') ↔ tags_loadable entries tags.
Proof.
  unfold tags_loadable. revert m. induction tags as [|tag tags IH]; intros m; simpl.
  - split; [by intros _ t ?%elem_of_nil | by eexists].
  - setoid_rewrite elem_of_cons.
    destruct (find_site entries tag) as [e|] eqn:Ef; simpl.
    + pose proof (push_domains_ok (s_domain e) m) as Hd.
      destruct (push_domains m (s_domain e)) as [m1|err]; simpl.
      * rewrite IH. split; [|naive_solver]. intros Ht t [->|?]; [|auto].
        exists e. split; [done|]. apply Hd. eauto.
      * split; [by intros []|]. intros Ht. exfalso.
        destruct (Ht tag (or_introl eq_refl)) as (e' & He & Hr). simplify_eq.
        by destruct (proj2 Hd Hr).
    + split; [by intros []|]. intros Ht. exfalso.
      destruct (Ht tag (or_introl eq_refl)) as (e' & He & _). congruence.
Qed.

(** The default matcher matches nothing. *)
Lemma site_spec_default (host : bytes) : ¬ site_spec matcher_default host.
Proof.
  unfold site_spec, matcher_default. simpl.
  intros [?%elem_of_nil|[(? & ?%elem_of_nil & _)|[(? & ?%elem_of_nil & _)|(? & ?%elem_of_nil & _)]]];
    done.
Qed.

(** Lower-casing changes the meaning of no rule but a regex. *)
Lemma pushed_tags_match_iff (entries : list SiteEntry) (tags : list bytes) (host : bytes) :
  lower_case_regexes entries tags →
  pushed_tags_match entries tags host ↔ tags_match entries tags host.
Proof.
  intros Hl. unfold pushed_tags_match, tags_match.
  assert (Hr : ∀ tag e d, tag ∈ tags → find_site entries tag = Some e → d ∈ s_domain e →
    pushed_rule_matches d host ↔ rule_matches d host).
  { intros tag e d Ht He Hd. specialize (Hl tag e d Ht He Hd).
    unfold pushed_rule_matches, rule_matches.
    destruct (decide (d_type d = 1%Z)) as [E | E]; [by rewrite E, Hl|].
    destruct (d_type d) as [|[|[]|]|]; done. }
  split; intros (tag & e & d & Ht & He & Hd & Hm); exists tag, e, d; split_and!; try done;
    by apply (Hr tag e d Ht He Hd).
Qed.

Lemma load_geosite_inv (path : bytes) (tags : list bytes) (m : GeoSiteMatcher) :
  load_geosite_dat path tags = Ok m →
  ∃ content entries, fs_read path = Ok content ∧ decode_geosite content = Ok entries ∧
    push_tags entries matcher_default tags = Ok m.
Proof.
  unfold load_geosite_dat. destruct (fs_read path) as [c|]; simpl; [|done].
  destruct (decode_geosite c) as [es|] eqn:Ed; simpl; [|done]. eauto 6.
Qed.

(** ** Properties *)

(** C39: a matcher that loads never panics, and when the regex rules of the
    requested tags have no upper-case letter it accepts exactly the hosts that
    some rule of some requested tag describes: equal to or below a [Domain],
    equal to a [Full], containing a [Plain], matched by a [Regex] as the file
    writes it. For a regex rule with an upper-case letter the second half is
    false of the code ([regex_rule_lowercased]): it is lower-cased before it is
    compiled, so [\S] becomes [\s]. *)
Theorem load_geosite_correct (path : bytes) (tags : list bytes) (m : GeoSiteMatcher) :
  load_geosite_dat path tags = Ok m →
  (∀ host, ∃ b, site_matches m host = Some b) ∧
  ∃ content entries, fs_read path = Ok content ∧ decode_geosite content = Ok entries ∧
    (lower_case_regexes entries tags →
     ∀ host, site_matches m host = Some true ↔ tags_match entries tags host).
Proof.
  intros (c & es & Hc & He & Hp)%load_geosite_inv.
  apply push_tags_spec in Hp as [Hs Hw].
  assert (Hm : ∀ host, ∃ b, site_matches m host = Some b ∧ (b = true ↔ pushed_tags_match es tags host)).
  { intros host. destruct (site_matches_aux m host) as (b & Hb & Hiff).
    - apply Hw; [|constructor]. intros e d. by eapply decode_geosite_utf8.
    - exists b. split; [done|]. rewrite Hiff, Hs. pose proof (site_spec_default host). tauto. }
  split; [naive_solver|]. exists c, es. split_and!; [done..|]. intros Hl host.
  rewrite <-pushed_tags_match_iff by done. destruct (Hm host) as (b & -> & <-). naive_solver.
Qed.

(** loading succeeds exactly when the file can be read and decoded, every
    requested tag is present, and every regex rule of those tags compiles. *)
Theorem load_geosite_ok_iff (path : bytes) (tags : list bytes) :
  (∃ m, load_geosite_dat path tags = Ok m) ↔
  ∃ content entries, fs_read path = Ok content ∧ decode_geosite content = Ok entries ∧
    tags_loadable entries tags.
Proof.
  split.
  - intros [m (c & es & Hc & He & Hp)%load_geosite_inv]. exists c, es.
    split_and!; [done..|]. apply (push_tags_ok es tags matcher_default). eauto.
  - intros (c & es & Hc & He & Ht). unfold load_geosite_dat. rewrite Hc. simpl. rewrite He. simpl.
    by apply push_tags_ok.
Qed.
(** regex rules are lower-cased before they are compiled, so an escape
    class such as [\S] (not a space) reaches the engine as [\s] (a space),
    whatever the engine. *)
Theorem regex_rule_lowercased (m : GeoSiteMatcher) :
  push_domain m {| d_type := 1; d_value := bs "^\S+$" |}
  = (let? re := map_err (regex_new (bs "^\s+$")) (λ e, SiteInvalidRegex (bs "^\s+$") e) in
     Ok {| domains := domains m; fulls := fulls m;
           keywords := keywords m; regexes := regexes m ++ [re] |}).
Proof. reflexivity. Qed.
End GeoSite.

(** ** A concrete disk, engine and decoder, for the witnesses *)

Definition demo_case : UnicodeCase := caseless.

Definition demo_disk : FileSystem :=
  {| io_error := bytes;
     fs_read p := if str_eqb p (bs "dlc.dat") then Ok (bs "sites") else Err (bs "not found");
     is_file p := str_eqb p (bs "dlc.dat") |}.

(** An engine whose patterns are plain text, found anywhere; [*] is malformed. *)
Definition demo_engine : RegexEngine :=
  {| Regex := bytes;
     regex_new p := if str_eqb p (bs "*") then Err (bs "repetition operator missing") else Ok p;
     is_match r h := contains h r |}.

Definition demo_sites : list SiteEntry :=
  [ {| s_country_code := bs "CN";
       s_domain := [ {| d_type := 2; d_value := bs "Baidu.com" |};
                     {| d_type := 3; d_value := bs "exact.cn" |};
                     {| d_type := 0; d_value := bs "tieba" |};
                     {| d_type := 1; d_value := bs "qq" |} ] |} ].

Lemma demo_sites_utf8 : Forall (λ e, Forall (λ d, utf8_valid (d_value d) = true) (s_domain e)) demo_sites.
Proof. repeat constructor. Qed.

#[program] Definition demo_site_decoder : GeoSiteDecoder :=
  {| decode_geosite _ := Ok demo_sites |}.
Next Obligation.
  simpl. intros _ es e d [= <-] He Hd.
  pose proof (proj1 (Forall_forall _ _) demo_sites_utf8 e He) as Hf.
  by apply (proj1 (Forall_forall _ _) Hf).
Qed.

#[local] Existing Instances demo_case demo_disk demo_engine demo_site_decoder.

Definition demo_matcher : GeoSiteMatcher :=
  {| domains := [bs ".baidu.com"]; fulls := [bs "exact.cn"];
     keywords := [bs "tieba"]; regexes := [bs "qq"] |}.

Lemma demo_lower_case : lower_case_regexes demo_sites [bs "cn"].
Proof.
  intros tag e d ->%list_elem_of_singleton He Hd. injection He as <-. unfold demo_sites in Hd; cbn [s_domain] in Hd.
  rewrite !elem_of_cons, elem_of_nil in Hd.
  destruct Hd as [-> | [-> | [-> | [-> | []]]]]; done.
Qed.

Lemma load_geosite_correct_witness :
  load_geosite_dat (bs "dlc.dat") [bs "cn"] = Ok demo_matcher ∧
  site_matches demo_matcher (bs "www.baidu.com") = Some true ∧
  site_matches demo_matcher (bs "notbaidu.com") = Some false ∧
  lower_case_regexes demo_sites [bs "cn"] ∧
  (∀ host, ∃ b, site_matches demo_matcher host = Some b) ∧
  ∃ content entries, fs_read (bs "dlc.dat") = Ok content ∧ decode_geosite content = Ok entries ∧
    (lower_case_regexes entries [bs "cn"] →
     ∀ host, site_matches demo_matcher host = Some true ↔ tags_match entries [bs "cn"] host).
Proof.
  split; [vm_compute; reflexivity|]. split; [vm_compute; reflexivity|].
  split; [vm_compute; reflexivity|]. split; [exact demo_lower_case|].
  apply (load_geosite_correct (bs "dlc.dat") [bs "cn"]). vm_compute. reflexivity.
Defined.

Lemma load_geosite_ok_iff_witness :
  (∃ m, load_geosite_dat (bs "dlc.dat") [bs "cn"] = Ok m) ↔
  ∃ content entries, fs_read (bs "dlc.dat") = Ok content ∧ decode_geosite content = Ok entries ∧
    tags_loadable entries [bs "cn"].
Proof. apply (load_geosite_ok_iff (bs "dlc.dat") [bs "cn"]). Defined.
