(* ===== verification/GeoIp.v ===== *)
(** * GeoIP ranges ([client/src/geoip.rs])

    The loader of CIDR ranges.  Networks are the [ipnet] crate's, behind the
    interface [IpNets] with its documented laws; the protobuf decoder is the
    interface [GeoIpDecoder]. *)
From S2P Require Import Prelude Utf8 Text Net GeoSite.

(** [ipnet]: a network has an address and a prefix length of at most 32 or 128,
    and contains the addresses of its family with the same leading bits. *)
Class IpNets := {
  IpNet : Type;
  v4net_new : list byte → N → option IpNet;
  v6net_new : list N → N → option IpNet;
  net_contains : IpNet → IpAddr → bool;
  v4net_new_ok a p : is_Some (v4net_new a p) ↔ (p ≤ 32)%N;
  v6net_new_ok a p : is_Some (v6net_new a p) ↔ (p ≤ 128)%N;
  v4net_contains a p n ip : v4net_new a p = Some n →
    net_contains n ip = match ip with
      | V4 b => (v4_value a / 2 ^ (32 - p) =? v4_value b / 2 ^ (32 - p))%N
      | V6 _ => false
      end;
  v6net_contains a p n ip : v6net_new a p = Some n →
    net_contains n ip = match ip with
      | V4 _ => false
      | V6 s => (v6_value a / 2 ^ (128 - p) =? v6_value s / 2 ^ (128 - p))%N
      end
}.

(** The protobuf messages of [geosite_rs], as far as the source reads them. *)
Record Cidr := { c_ip : bytes; c_prefix : N }.
Record IpEntry := { i_country_code : bytes; i_cidr : list Cidr }.

Class GeoIpDecoder := {
  decode_geoip : bytes → result (list IpEntry) bytes
}.

Section GeoIp.
Context `{UnicodeCase} `{FileSystem} `{IpNets} `{GeoIpDecoder}.

(** [pub enum GeoIpError] *)
Inductive GeoIpError : Type :=
| IpIo (e : io_error)
| IpDecode (msg : bytes)
| IpTagNotFound (tag : bytes)
| IpInvalidCidr (ip_len : nat).

(** [impl fmt::Display for GeoIpError] *)
Definition geoip_error_display (show_io : io_error → bytes) (e : GeoIpError) : bytes :=
  match e with
  | IpIo e => bs "failed to read geoip dat: " ++ show_io e
  | IpDecode msg => bs "failed to decode geoip dat: " ++ msg
  | IpTagNotFound tag => bs "tag '" ++ tag ++ bs "' not found in geoip dat"
  | IpInvalidCidr ip_len => bs "unexpected IP byte length: " ++ show_dec (N.of_nat ip_len)
  end.

(** One range: the address bytes, and the prefix [as u8]. *)
Definition parse_cidr (c : Cidr) : result IpNet GeoIpError :=
  let prefix := (c_prefix c mod 256)%N in
  if length (c_ip c) =? 4 then
    ok_or (v4net_new (c_ip c) prefix) (IpInvalidCidr 4)
  else if length (c_ip c) =? 16 then
    ok_or (v6net_new (segments_of (c_ip c)) prefix) (IpInvalidCidr 16)
  else Err (IpInvalidCidr (length (c_ip c))).

(** The inner loop, pushing on [acc]. *)
Fixpoint push_cidrs (acc : list IpNet) (cs : list Cidr) : result (list IpNet) GeoIpError :=
  match cs with
  | [] => Ok acc
  | c :: cs' => let? net := parse_cidr c in push_cidrs (acc ++ [net]) cs'
  end.

Definition find_ip (entries : list IpEntry) (tag : bytes) : option IpEntry :=
  List.find (λ e, str_eqb (to_uppercase (i_country_code e)) (to_uppercase tag)) entries.

(** The outer loop. *)
Fixpoint push_ip_tags (entries : list IpEntry) (acc : list IpNet) (tags : list bytes)
  : result (list IpNet) GeoIpError :=
  match tags with
  | [] => Ok acc
  | tag :: tags' =>
      let? entry := ok_or (find_ip entries tag) (IpTagNotFound tag) in
      let? acc' := push_cidrs acc (i_cidr entry) in
      push_ip_tags entries acc' tags'
  end.

(** [load_geoip_dat] *)
Definition load_geoip_dat (path : bytes) (tags : list bytes) : result (list IpNet) GeoIpError :=
  let? content := map_err (fs_read path) IpIo in
  let? entries := map_err (decode_geoip content) IpDecode in
  push_ip_tags entries [] tags.

(** ** Specification: the addresses one range of the file covers *)
Definition cidr_covers (c : Cidr) (ip : IpAddr) : Prop :=
  let p := (c_prefix c mod 256)%N in
  match ip with
  | V4 b => length (c_ip c) = 4 ∧ (p ≤ 32)%N ∧
            (v4_value (c_ip c) / 2 ^ (32 - p) = v4_value b / 2 ^ (32 - p))%N
  | V6 s => length (c_ip c) = 16 ∧ (p ≤ 128)%N ∧
            (v6_value (segments_of (c_ip c)) / 2 ^ (128 - p) = v6_value s / 2 ^ (128 - p))%N
  end.

Definition cidr_valid (c : Cidr) : Prop :=
  (length (c_ip c) = 4 ∧ (c_prefix c mod 256 ≤ 32)%N) ∨
  (length (c_ip c) = 16 ∧ (c_prefix c mod 256 ≤ 128)%N).

Definition ip_tags_cover (entries : list IpEntry) (tags : list bytes) (ip : IpAddr) : Prop :=
  ∃ tag e c, tag ∈ tags ∧ find_ip entries tag = Some e ∧ c ∈ i_cidr e ∧ cidr_covers c ip.

Definition nets_cover (nets : list IpNet) (ip : IpAddr) : Prop :=
  ∃ n, n ∈ nets ∧ net_contains n ip = true.

(** ** Lemmas *)

Lemma parse_cidr_covers (c : Cidr) (n : IpNet) (ip : IpAddr) :
  parse_cidr c = Ok n → net_contains n ip = true ↔ cidr_covers c ip.
Proof.
  unfold parse_cidr, cidr_covers. intros Hp.
  destruct (length (c_ip c) =? 4) eqn:E4; [|destruct (length (c_ip c) =? 16) eqn:E16; [|done]].
  - apply Nat.eqb_eq in E4.
    destruct (v4net_new _ _) as [n'|] eqn:En; simpl in Hp; [injection Hp as <- | done].
    assert (c_prefix c mod 256 ≤ 32)%N by (eapply v4net_new_ok; eauto).
    rewrite (v4net_contains _ _ _ _ En). destruct ip; [rewrite N.eqb_eq; tauto|].
    split; [done | lia].
  - apply Nat.eqb_eq in E16.
    destruct (v6net_new _ _) as [n'|] eqn:En; simpl in Hp; [injection Hp as <- | done].
    assert (c_prefix c mod 256 ≤ 128)%N by (eapply v6net_new_ok; eauto).
    rewrite (v6net_contains _ _ _ _ En). destruct ip; [split; [done | lia]|].
    rewrite N.eqb_eq; tauto.
Qed.

Lemma parse_cidr_ok (c : Cidr) : (∃ n, parse_cidr c = Ok n) ↔ cidr_valid c.
Proof.
  unfold parse_cidr, cidr_valid.
  destruct (length (c_ip c) =? 4) eqn:E4; [|destruct (length (c_ip c) =? 16) eqn:E16].
  - apply Nat.eqb_eq in E4. pose proof (v4net_new_ok (c_ip c) (c_prefix c mod 256)) as Hn.
    destruct (v4net_new _ _); simpl; split; intros Hx.
    + left. split; [done|]. by apply Hn.
    + eauto.
    + by destruct Hx.
    + exfalso. destruct Hx as [[_ Hx]|[? _]]; [|lia]. apply Hn in Hx. by destruct Hx.
  - apply Nat.eqb_neq in E4. apply Nat.eqb_eq in E16.
    pose proof (v6net_new_ok (segments_of (c_ip c)) (c_prefix c mod 256)) as Hn.
    destruct (v6net_new _ _); simpl; split; intros Hx.
    + right. split; [done|]. by apply Hn.
    + eauto.
    + by destruct Hx.
    + exfalso. destruct Hx as [[? _]|[_ Hx]]; [lia|]. apply Hn in Hx. by destruct Hx.
  - apply Nat.eqb_neq in E4, E16. split; [by intros [] | lia].
Qed.

Lemma nets_cover_snoc (nets : list IpNet) (n : IpNet) (ip : IpAddr) :
  nets_cover (nets ++ [n]) ip ↔ nets_cover nets ip ∨ net_contains n ip = true.
Proof. unfold nets_cover. by rewrite (ex_snoc (λ x, x)). Qed.

Lemma push_cidrs_spec (cs : list Cidr) (acc nets : list IpNet) (ip : IpAddr) :
  push_cidrs acc cs = Ok nets →
  nets_cover nets ip ↔ nets_cover acc ip ∨ ∃ c, c ∈ cs ∧ cidr_covers c ip.
Proof.
  revert acc. induction cs as [|c cs IH]; intros acc; simpl.
  - intros [= ->]. split; [auto | intros [?|(? & ?%elem_of_nil & _)]; done].
  - destruct (parse_cidr c) as [n|e] eqn:Ec; simpl; [|done]. intros Hp.
    rewrite (IH _ Hp), nets_cover_snoc, (parse_cidr_covers c n ip Ec).
    setoid_rewrite elem_of_cons. split.
    + intros [[?|?]|(c' & ? & ?)]; eauto.
    + intros [?|(c' & [->|?] & ?)]; eauto.
Qed.

Lemma push_ip_tags_spec (entries : list IpEntry) (tags : list bytes) (acc nets : list IpNet)
    (ip : IpAddr) :
  push_ip_tags entries acc tags = Ok nets →
  nets_cover nets ip ↔ nets_cover acc ip ∨ ip_tags_cover entries tags ip.
Proof.
  unfold ip_tags_cover. revert acc. induction tags as [|tag tags IH]; intros acc; simpl.
  - intros [= ->]. split; [auto | intros [?|(? & ? & ? & ?%elem_of_nil & _)]; done].
  - destruct (find_ip entries tag) as [e|] eqn:Ef; simpl; [|done].
    destruct (push_cidrs acc (i_cidr e)) as [acc'|] eqn:Ec; simpl; [|done]. intros Hp.
    rewrite (IH _ Hp), (push_cidrs_spec _ _ _ ip Ec). setoid_rewrite elem_of_cons. split.
    + intros [[?|(c & ? & ?)]|(t & e' & c & ? & ? & ? & ?)]; [eauto | |]; right;
        eauto 10.
    + intros [?|(t & e' & c & [->|?] & He & ? & ?)]; [eauto | |]; [|eauto 10].
      left; right. rewrite Ef in He. injection He as <-. eauto.
Qed.

Lemma push_cidrs_ok (cs : list Cidr) (acc : list IpNet) :
  (∃ nets, push_cidrs acc cs = Ok nets) ↔ Forall cidr_valid cs.
Proof.
  revert acc. induction cs as [|c cs IH]; intros acc; simpl.
  - split; [constructor | eauto].
  - pose proof (parse_cidr_ok c) as Hc. rewrite Forall_cons.
    destruct (parse_cidr c) as [n|e]; simpl.
    + rewrite IH. split; [|tauto]. intros ?. split; [|done]. apply Hc. eauto.
    + split; [by intros []|]. intros [Hv _]. by destruct (proj2 Hc Hv).
Qed.

Lemma push_ip_tags_ok (entries : list IpEntry) (tags : list bytes) (acc : list IpNet) :
  (∃ nets, push_ip_tags entries acc tags = Ok nets) ↔
  Forall (λ tag, ∃ e, find_ip entries tag = Some e ∧ Forall cidr_valid (i_cidr e)) tags.
Proof.
  revert acc. induction tags as [|tag tags IH]; intros acc; simpl.
  - split; [constructor | eauto].
  - rewrite Forall_cons. destruct (find_ip entries tag) as [e|] eqn:Ef; simpl.
    + pose proof (push_cidrs_ok (i_cidr e) acc) as Hc.
      destruct (push_cidrs acc (i_cidr e)) as [acc'|err]; simpl.
      * rewrite IH. split; [|tauto]. intros ?. split; [|done]. exists e.
        split; [done|]. apply Hc. eauto.
      * split; [by intros []|]. intros [(e' & He & Hv) _]. injection He as <-.
        by destruct (proj2 Hc Hv).
    + split; [by intros []|]. by intros [(e' & He & _) _].
Qed.

(** ** Properties *)

(** loading GeoIP data succeeds exactly when the file is readable and
    decodable, the tags are all there and their ranges are well formed; the
    networks loaded then cover exactly the addresses of the tags' ranges. *)
Theorem load_geoip_correct (path : bytes) (tags : list bytes) :
  ((∃ nets, load_geoip_dat path tags = Ok nets) ↔
   ∃ content entries, fs_read path = Ok content ∧ decode_geoip content = Ok entries ∧
     Forall (λ tag, ∃ e, find_ip entries tag = Some e ∧ Forall cidr_valid (i_cidr e)) tags)
  ∧ (∀ content entries nets, fs_read path = Ok content → decode_geoip content = Ok entries →
     load_geoip_dat path tags = Ok nets →
     ∀ ip, nets_cover nets ip ↔ ip_tags_cover entries tags ip).
Proof.
  unfold load_geoip_dat. split.
  - destruct (fs_read path) as [c|e]; simpl; [|split; [by intros [] | by intros (? & ? & ? & _)]].
    destruct (decode_geoip c) as [es|e] eqn:Ed; simpl.
    + rewrite push_ip_tags_ok. split; [eauto 6|].
      intros (c' & es' & Hc & He & Ht). injection Hc as <-. rewrite Ed in He. by injection He as <-.
    + split; [by intros []|]. intros (c' & es' & Hc & He & _). injection Hc as <-. congruence.
  - intros c es nets -> He. simpl. rewrite He. simpl. intros Hp ip.
    rewrite (push_ip_tags_spec _ _ _ _ ip Hp). unfold nets_cover.
    split; [|auto]. by intros [(n & ?%elem_of_nil & _)|?].
Qed.

(** the prefix length is truncated to eight bits before it is checked, so
    an out-of-range prefix 256 + p is accepted as p. *)
Theorem cidr_prefix_truncated (ip : bytes) (p : N) :
  (p < 256)%N →
  parse_cidr {| c_ip := ip; c_prefix := (256 + p)%N |} = parse_cidr {| c_ip := ip; c_prefix := p |}.
Proof.
  intros Hp. unfold parse_cidr. simpl c_prefix. simpl c_ip.
  by replace ((256 + p) mod 256)%N with (p mod 256)%N by dlia.
Qed.
End GeoIp.

(** ** A concrete [ipnet], for the witnesses *)

Inductive demo_net : Type :=
| Net4 (a : list byte) (p : N)
| Net6 (a : list N) (p : N).

Definition demo_contains (n : demo_net) (ip : IpAddr) : bool :=
  match n, ip with
  | Net4 a p, V4 b => (v4_value a / 2 ^ (32 - p) =? v4_value b / 2 ^ (32 - p))%N
  | Net6 a p, V6 s => (v6_value a / 2 ^ (128 - p) =? v6_value s / 2 ^ (128 - p))%N
  | _, _ => false
  end.

Lemma some_if_le (A : Type) (x : A) (p m : N) :
  is_Some (if (p <=? m)%N then Some x else None) ↔ (p ≤ m)%N.
Proof.
  destruct (p <=? m)%N eqn:E; split; intros Hx; try blia; [eauto | by destruct Hx].
Qed.

#[program] Definition demo_nets : IpNets :=
  {| IpNet := demo_net;
     v4net_new a p := if (p <=? 32)%N then Some (Net4 a p) else None;
     v6net_new a p := if (p <=? 128)%N then Some (Net6 a p) else None;
     net_contains := demo_contains |}.
Next Obligation. intros. apply some_if_le. Qed.
Next Obligation. intros. apply some_if_le. Qed.
Next Obligation. simpl. intros a p n ip Hn. destruct (p <=? 32)%N; [|done]. by injection Hn as <-. Qed.
Next Obligation. simpl. intros a p n ip Hn. destruct (p <=? 128)%N; [|done]. by injection Hn as <-. Qed.

Lemma cidr_prefix_truncated_witness :
  (8 < 256)%N ∧
  @parse_cidr demo_disk demo_nets {| c_ip := [x0a; x00; x00; x00]; c_prefix := 264 |}
  = @parse_cidr demo_disk demo_nets {| c_ip := [x0a; x00; x00; x00]; c_prefix := 8 |}.
Proof.
  split; [lia|].
  apply (@cidr_prefix_truncated demo_disk demo_nets [x0a; x00; x00; x00] 8). lia.
Defined.
