(* ===== verification/Routing.v ===== *)
(** * Routing rules ([client/src/lib.rs], [HostPattern] and [RoutingConfig])

    Host patterns, the bypass decision with its priorities, and the two ways
    the handlers split a [host:port] text. *)
From S2P Require Import Prelude Utf8 Text Net GeoSite GeoIp.

(** [pub struct HostPattern] *)
Record HostPattern := { p_host : bytes; p_port : option N }.

#[export] Instance host_pattern_eq_dec : EqDecision HostPattern.
Proof. solve_decision. Defined.

(** [split_host_port]: brackets are stripped, a bad port becomes 80. *)
Definition is_bracket (c : byte) : bool := bool_decide (c = x5b) || bool_decide (c = x5d).

Definition split_host_port (addr : bytes) : bytes * N :=
  match rsplit_once addr x3a with
  | Some (h, p) => (trim_matches is_bracket h, default 80%N (parse_u16 p))
  | None => (addr, 80%N)
  end.

(** The HTTP handlers' own split: brackets are kept. *)
Definition http_host_port (host : bytes) : bytes * N :=
  match rsplit_once host x3a with
  | Some (h, p) => (h, default 80%N (parse_u16 p))
  | None => (host, 80%N)
  end.

(** [HostPattern::matches]; [None] is a panic of one of the slices. *)
Definition pattern_matches (r : HostPattern) (host : bytes) (port : N) : option bool :=
  if match p_port r with Some p => negb (p =? port)%N | None => false end then Some false
  else if starts_with (p_host r) (bs "*.") then
    match str_from (p_host r) 2 with
    | None => None
    | Some suffix =>
        if ends_with host suffix && (length suffix <? length host) then
          match str_to host (length host - length suffix) with
          | None => None
          | Some front => Some (ends_with front (bs "."))
          end
        else Some false
    end
  else Some (str_eqb (p_host r) host).

Section Routing.
Context `{UnicodeCase} `{RegexEngine} `{IpNets}.

(** [HostPattern::parse] *)
Definition pattern_parse (s : bytes) : HostPattern :=
  let s := to_lowercase s in
  match rsplit_once s x3a with
  | Some (h, p) =>
      match parse_u16 p with
      | Some port => {| p_host := h; p_port := Some port |}
      | None => {| p_host := s; p_port := None |}
      end
  | None => {| p_host := s; p_port := None |}
  end.

(** [pub struct RoutingConfig] *)
Record RoutingConfig := {
  proxy : list HostPattern;
  bypass : list HostPattern;
  bypass_geosite : option GeoSiteMatcher;
  bypass_cidrs : list IpNet
}.

Definition routing_default : RoutingConfig :=
  {| proxy := []; bypass := []; bypass_geosite := None; bypass_cidrs := [] |}.

(** [RoutingConfig::should_bypass]; [None] is a panic. *)
Definition should_bypass (c : RoutingConfig) (host : bytes) (port : N) : option bool :=
  let h := to_lowercase host in
  match any_opt (λ r, pattern_matches r h port) (proxy c) with
  | None => None
  | Some true => Some false
  | Some false =>
  match any_opt (λ r, pattern_matches r h port) (bypass c) with
  | None => None
  | Some true => Some true
  | Some false =>
  match match bypass_geosite c with
        | Some gs => site_matches gs h
        | None => Some false
        end with
  | None => None
  | Some true => Some true
  | Some false =>
      match parse_ip h with
      | Some ip => if existsb (λ n, net_contains n ip) (bypass_cidrs c) then Some true else Some false
      | None => Some false
      end
  end end end.

(** ** Specification *)

(** The documented meaning of a pattern. *)
Definition pattern_spec (r : HostPattern) (host : bytes) (port : N) : Prop :=
  (∀ p, p_port r = Some p → p = port) ∧
  match strip_prefix (p_host r) (bs "*.") with
  | Some suffix => ∃ sub, host = sub ++ bs "." ++ suffix
  | None => host = p_host r
  end.

Definition some_pattern (rs : list HostPattern) (host : bytes) (port : N) : Prop :=
  ∃ r, r ∈ rs ∧ pattern_spec r host port.

(** What the Rust types and the loaders guarantee of a configuration. *)
Definition wf_pattern (r : HostPattern) : Prop := utf8_valid (p_host r) = true.

Definition wf_routing (c : RoutingConfig) : Prop :=
  Forall wf_pattern (proxy c) ∧ Forall wf_pattern (bypass c) ∧
  from_option wf_matcher True (bypass_geosite c).

(** The five rules in their order of priority. *)
Definition bypass_spec (c : RoutingConfig) (h : bytes) (port : N) : Prop :=
  ¬ some_pattern (proxy c) h port ∧
  (some_pattern (bypass c) h port
   ∨ (∃ gs, bypass_geosite c = Some gs ∧ site_spec gs h)
   ∨ (∃ ip, parse_ip h = Some ip ∧ nets_cover (bypass_cidrs c) ip)).

(** ** Lemmas *)

(** The wildcard test, as a boolean. *)
Definition pattern_test (r : HostPattern) (host : bytes) (port : N) : bool :=
  match p_port r with Some p => (p =? port)%N | None => true end &&
  match strip_prefix (p_host r) (bs "*.") with
  | Some suffix => ends_with host (bs "." ++ suffix)
  | None => str_eqb (p_host r) host
  end.

Lemma pattern_test_iff (r : HostPattern) (host : bytes) (port : N) :
  pattern_test r host port = true ↔ pattern_spec r host port.
Proof.
  unfold pattern_test, pattern_spec. rewrite andb_true_iff.
  assert ((match p_port r with Some p => (p =? port)%N | None => true end) = true
          ↔ ∀ p, p_port r = Some p → p = port) as ->.
  { destruct (p_port r) as [q|]; [rewrite N.eqb_eq|]; naive_solver. }
  destruct (strip_prefix _ _).
  - by rewrite ends_with_iff.
  - rewrite str_eqb_eq. by split; intros [? ->].
Qed.

Lemma wildcard_suffix_valid (s suffix : bytes) :
  utf8_valid s = true → s = bs "*." ++ suffix → utf8_valid suffix = true.
Proof. intros Hv ->. by rewrite utf8_valid_app_l in Hv. Qed.

Lemma pattern_matches_total (r : HostPattern) (host : bytes) (port : N) :
  wf_pattern r → pattern_matches r host port = Some (pattern_test r host port).
Proof.
  intros Hwf. unfold pattern_matches, pattern_test.
  assert ((match p_port r with Some p => negb (p =? port)%N | None => false end)
    = negb (match p_port r with Some p => (p =? port)%N | None => true end)) as ->
    by by destruct (p_port r).
  destruct (match p_port r with Some p => (p =? port)%N | None => true end);
    cbn [negb andb]; [|done].
  unfold strip_prefix. destruct (starts_with (p_host r) (bs "*.")) eqn:Es; [|done].
  apply starts_with_iff in Es as [suffix Hs].
  pose proof (wildcard_suffix_valid _ _ Hwf Hs) as Hv. rewrite Hs.
  pose proof (str_from_app (bs "*.") suffix Hv) as Ef.
  change (length (bs "*.")) with 2 in *. rewrite Ef.
  change 2 with (length (bs "*.")). rewrite drop_app_length.
  destruct (ends_with host suffix) eqn:Ee; simpl.
  - apply ends_with_iff in Ee as [front ->]. rewrite length_app.
    replace (length front + length suffix - length suffix) with (length front) by lia.
    rewrite str_to_app by done.
    destruct (length suffix <? length front + length suffix) eqn:El.
    + f_equal. apply eq_bool_prop_intro. rewrite !Is_true_true, !ends_with_iff. split.
      * intros [t ->]. exists t. by rewrite <- app_assoc.
      * intros [t Ht]. exists t. apply (app_inv_tail suffix). rewrite Ht.
        by rewrite <- app_assoc.
    + f_equal. symmetry. apply not_true_iff_false. rewrite ends_with_iff. intros [t Ht].
      apply (f_equal length) in Ht. rewrite !length_app in Ht. simpl in Ht.
      apply Nat.ltb_ge in El. lia.
  - f_equal. symmetry. apply not_true_iff_false. rewrite ends_with_iff. intros [t Ht].
    apply not_true_iff_false in Ee. apply Ee, ends_with_iff.
    exists (t ++ bs "."). by rewrite <- app_assoc.
Qed.

Lemma any_pattern (rs : list HostPattern) (host : bytes) (port : N) :
  Forall wf_pattern rs →
  any_opt (λ r, pattern_matches r host port) rs
  = Some (existsb (λ r, pattern_test r host port) rs).
Proof.
  intros Hwf. apply any_opt_total. intros r Hr. apply pattern_matches_total.
  by apply (proj1 (Forall_forall _ _) Hwf).
Qed.

Lemma existsb_pattern (rs : list HostPattern) (host : bytes) (port : N) :
  existsb (λ r, pattern_test r host port) rs = true ↔ some_pattern rs host port.
Proof. rewrite existsb_elem. unfold some_pattern. by setoid_rewrite pattern_test_iff. Qed.

(** Parsed patterns are UTF-8, so the slices of [matches] are always legal. *)
Lemma pattern_parse_wf (s : bytes) : utf8_valid s = true → wf_pattern (pattern_parse s).
Proof.
  intros Hv%to_lowercase_valid. unfold wf_pattern, pattern_parse.
  destruct (rsplit_once (to_lowercase s) x3a) as [[h p]|] eqn:E; [|done].
  destruct (parse_u16 p); [|done]. simpl.
  apply rsplit_once_Some in E as [E _]. rewrite E in Hv.
  by apply utf8_valid_split_ascii in Hv as [].
Qed.

Lemma to_ascii_lowercase_app (a b : bytes) :
  to_ascii_lowercase (a ++ b) = to_ascii_lowercase a ++ to_ascii_lowercase b.
Proof. apply map_app. Qed.

Lemma to_ascii_lowercase_digits (s : bytes) :
  forallb is_digit s = true → to_ascii_lowercase s = s.
Proof.
  induction s as [|b s IH]; [done|]. simpl. intros [Hb Hs]%andb_true_iff.
  rewrite IH by done. f_equal. revert Hb. by destruct b.
Qed.

Lemma ascii_lower_colon (b : byte) : ascii_lower_byte b = x3a → b = x3a.
Proof. by destruct b. Qed.

Lemma to_lowercase_host_port (h : bytes) (port : N) :
  is_ascii h = true →
  to_lowercase (h ++ x3a :: show_dec port) = to_ascii_lowercase h ++ x3a :: show_dec port.
Proof.
  intros Hh. rewrite to_lowercase_ascii.
  - rewrite to_ascii_lowercase_app. simpl.
    by rewrite (to_ascii_lowercase_digits (show_dec port)) by auto with echo.
  - rewrite is_ascii_app, Hh. simpl. apply show_dec_ascii.
Qed.

Lemma parse_u16_show (port : N) : (port ≤ U16_MAX)%N → parse_u16 (show_dec port) = Some port.
Proof. intros Hp. by apply parse_show_dec. Qed.

Lemma rsplit_once_port (h : bytes) (port : N) :
  rsplit_once (h ++ x3a :: show_dec port) x3a = Some (h, show_dec port).
Proof. apply rsplit_once_app. by apply show_dec_no. Qed.

Lemma trim_matches_wrap (p : byte → bool) (a : bytes) (c d : byte) :
  forallb (λ b, negb (p b)) a = true → p c = true → p d = true →
  trim_matches p (c :: a ++ [d]) = a.
Proof.
  intros Ha Hc Hd. unfold trim_matches, drop_while_end. simpl. rewrite Hc.
  destruct a as [|b a']; simpl; [by rewrite Hd|].
  simpl in Ha. apply andb_true_iff in Ha as [Hb Ha]. rewrite (negb_true_iff _) in Hb.
  rewrite Hb. change (b :: a' ++ [d]) with ((b :: a') ++ [d]).
  rewrite rev_app_distr. cbn [rev app drop_while]. rewrite Hd.
  rewrite drop_while_none; [by rewrite rev_app_distr, rev_involutive|].
  rewrite forallb_app. simpl. rewrite Hb. simpl. rewrite andb_true_r.
  rewrite forallb_forall in *. intros x Hx%in_rev. auto.
Qed.

Lemma should_bypass_aux (c : RoutingConfig) (host : bytes) (port : N) :
  wf_routing c →
  ∃ b, should_bypass c host port = Some b ∧ (b = true ↔ bypass_spec c (to_lowercase host) port).
Proof.
  intros (Hp & Hb & Hg). unfold should_bypass, bypass_spec. set (h := to_lowercase host).
  rewrite !any_pattern by done.
  pose proof (existsb_pattern (proxy c) h port) as Hpi.
  destruct (existsb _ (proxy c)); [exists false; naive_solver|].
  pose proof (existsb_pattern (bypass c) h port) as Hbi.
  destruct (existsb _ (bypass c)); [exists true; naive_solver|].
  assert (∃ g, match bypass_geosite c with Some gs => site_matches gs h | None => Some false end
    = Some g ∧ (g = true ↔ ∃ gs, bypass_geosite c = Some gs ∧ site_spec gs h)) as (g & -> & Hgs).
  { destruct (bypass_geosite c) as [gs|]; [|exists false; naive_solver].
    destruct (site_matches_aux gs h Hg) as (g & Hm & Hi). exists g. naive_solver. }
  destruct g; [exists true; naive_solver|].
  destruct (parse_ip h) as [ip|]; [|exists false; naive_solver].
  destruct (existsb (λ n, net_contains n ip) (bypass_cidrs c)) eqn:En.
  - exists true. split; [done|]. apply existsb_elem in En as (n & Hn & Hc).
    split; [|done]. intros _. split; [by intros ?%Hpi|].
    right; right. exists ip. split; [done|]. by exists n.
  - exists false. split; [done|]. split; [done|].
    intros (_ & [Hs%Hbi|[Hs%Hgs|(ip' & Hip & n & Hn & Hc)]]); [done..|].
    injection Hip as <-. apply not_true_iff_false in En. destruct En.
    apply existsb_elem. eauto.
Qed.

(** ** Properties *)

(** [HostPattern::matches] never panics on a UTF-8 pattern and decides
    the documented rule: the port agrees when one is given, and the host is
    equal to the pattern or, for [*.suffix], some text then a dot and the suffix. *)
Theorem pattern_matches_correct (r : HostPattern) (host : bytes) (port : N) :
  wf_pattern r →
  ∃ b, pattern_matches r host port = Some b ∧ (b = true ↔ pattern_spec r host port).
Proof.
  intros Hwf. exists (pattern_test r host port).
  split; [by apply pattern_matches_total | apply pattern_test_iff].
Qed.

(** C30: [should_bypass] never panics on a well-formed configuration, and is
    true exactly when no proxy rule applies and an explicit bypass rule, the
    GeoSite rules or a CIDR range (for an IP literal) does, on the lower-cased
    host: the documented priority order. *)
Theorem should_bypass_correct (c : RoutingConfig) (host : bytes) (port : N) :
  wf_routing c →
  ∃ b, should_bypass c host port = Some b ∧ (b = true ↔ bypass_spec c (to_lowercase host) port).
Proof. apply should_bypass_aux. Qed.

(** [HostPattern::parse] reads back what it documents: an ASCII host with
    a port gives that (lower-cased) host and port, a host without a colon
    matches any port. *)
Theorem pattern_parse_correct (h : bytes) (port : N) :
  is_ascii h = true → (port ≤ U16_MAX)%N →
  pattern_parse (h ++ bs ":" ++ show_dec port)
    = {| p_host := to_ascii_lowercase h; p_port := Some port |}
  ∧ (x3a ∉ h → pattern_parse h = {| p_host := to_ascii_lowercase h; p_port := None |}).
Proof.
  intros Hh Hp. unfold pattern_parse. split.
  - change (bs ":" ++ show_dec port) with (x3a :: show_dec port).
    rewrite to_lowercase_host_port by done. rewrite rsplit_once_port.
    by rewrite parse_u16_show by done.
  - intros Hc. rewrite to_lowercase_ascii by done.
    rewrite (proj2 (rsplit_once_None _ _)); [done|].
    rewrite list_elem_of_In. unfold to_ascii_lowercase. rewrite in_map_iff.
    intros (b & Hb%ascii_lower_colon & Hin). subst b. by apply Hc, list_elem_of_In.
Qed.

(** an IPv6 literal used as a pattern is read as a host and a port: the
    pattern [::1] matches the address [::1] on no port. *)
Theorem ipv6_pattern_misparsed (port : N) :
  pattern_parse (bs "::1") = {| p_host := bs ":"; p_port := Some 1%N |} ∧
  pattern_matches (pattern_parse (bs "::1")) (bs "::1") port = Some false.
Proof.
  assert (pattern_parse (bs "::1") = {| p_host := bs ":"; p_port := Some 1%N |}) as Hp
    by reflexivity.
  rewrite Hp. split; [done|]. unfold pattern_matches. cbn [p_port p_host].
  by destruct (1 =? port)%N.
Qed.

(** the HTTP handlers keep the brackets of an IPv6 target, so no CIDR
    range ever applies to one, while the SOCKS path strips them. *)
Theorem http_ipv6_never_geoip (c : RoutingConfig) (a : bytes) (port : N) :
  let target := bs "[" ++ a ++ bs "]:" ++ show_dec port in
  is_ascii a = true → forallb (λ b, negb (is_bracket b)) a = true → (port ≤ U16_MAX)%N →
  proxy c = [] → bypass c = [] → bypass_geosite c = None →
  should_bypass c (fst (http_host_port target)) (snd (http_host_port target)) = Some false
  ∧ split_host_port target = (a, port).
Proof.
  intros target Ha Hb Hp E1 E2 E3.
  assert (target = (x5b :: a ++ [x5d]) ++ x3a :: show_dec port) as Et.
  { unfold target. simpl. by rewrite <- app_assoc. }
  unfold http_host_port, split_host_port. rewrite Et, rsplit_once_port, parse_u16_show by done.
  rewrite trim_matches_wrap by done. split; [|done]. simpl fst.
  unfold should_bypass. rewrite E1, E2, E3. simpl any_opt.
  rewrite to_lowercase_ascii.
  - change (to_ascii_lowercase (x5b :: a ++ [x5d]))
      with (x5b :: to_ascii_lowercase (a ++ [x5d])).
    by rewrite parse_ip_bracket.
  - change (x5b :: a ++ [x5d]) with ([x5b] ++ a ++ [x5d]). by rewrite !is_ascii_app, Ha.
Qed.
End Routing.

(** ** Witnesses, at a small configuration *)

#[local] Existing Instances demo_case demo_engine demo_nets.

Definition demo_routing : RoutingConfig :=
  {| proxy := [ pattern_parse (bs "github.com") ];
     bypass := [ pattern_parse (bs "*.lan"); pattern_parse (bs "GitHub.com") ];
     bypass_geosite := Some demo_matcher;
     bypass_cidrs := [ Net4 [xc0; xa8; x00; x00] 16 ] |}.

Lemma demo_routing_wf : wf_routing demo_routing.
Proof.
  split_and!; [repeat constructor..|]. repeat constructor. by exists (bs "baidu.com").
Qed.

Lemma pattern_matches_correct_witness :
  wf_pattern (pattern_parse (bs "*.example.com")) ∧
  pattern_matches (pattern_parse (bs "*.example.com")) (bs "foo.example.com") 80 = Some true ∧
  ∃ b, pattern_matches (pattern_parse (bs "*.example.com")) (bs "notexample.com") 80 = Some b ∧
    (b = true ↔ pattern_spec (pattern_parse (bs "*.example.com")) (bs "notexample.com") 80).
Proof.
  split; [reflexivity|]. split; [reflexivity|].
  apply (pattern_matches_correct (pattern_parse (bs "*.example.com"))). reflexivity.
Defined.

Lemma should_bypass_correct_witness :
  should_bypass demo_routing (bs "GitHub.com") 443 = Some false ∧
  should_bypass demo_routing (bs "nas.lan") 80 = Some true ∧
  should_bypass demo_routing (bs "www.baidu.com") 443 = Some true ∧
  should_bypass demo_routing (bs "192.168.1.1") 80 = Some true ∧
  ∃ b, should_bypass demo_routing (bs "1.2.3.4") 80 = Some b ∧
    (b = true ↔ bypass_spec demo_routing (to_lowercase (bs "1.2.3.4")) 80).
Proof.
  split; [vm_compute; reflexivity|]. split; [vm_compute; reflexivity|].
  split; [vm_compute; reflexivity|]. split; [vm_compute; reflexivity|].
  apply (should_bypass_correct demo_routing (bs "1.2.3.4") 80). exact demo_routing_wf.
Defined.

Lemma pattern_parse_correct_witness :
  pattern_parse (bs "Example.com:8080") = {| p_host := bs "example.com"; p_port := Some 8080%N |}.
Proof.
  apply (pattern_parse_correct (bs "Example.com") 8080); [reflexivity | discriminate].
Defined.

Lemma http_ipv6_never_geoip_witness :
  let c := {| proxy := []; bypass := []; bypass_geosite := None;
              bypass_cidrs := [ Net6 [0; 0; 0; 0; 0; 0; 0; 1]%N 128 ] |} in
  should_bypass c (bs "::1") 443 = Some true ∧
  (should_bypass c (fst (http_host_port (bs "[::1]:443")))
     (snd (http_host_port (bs "[::1]:443"))) = Some false
   ∧ split_host_port (bs "[::1]:443") = (bs "::1", 443%N)).
Proof.
  split; [vm_compute; reflexivity|].
  apply (http_ipv6_never_geoip _ (bs "::1") 443); try reflexivity. discriminate.
Defined.
