(* ===== verification/UnitTests.v ===== *)
(** * The repository's unit tests, on the model

    The [#[cfg(test)]] modules of [core-lib/src/frame.rs],
    [client/src/lib.rs], [client/src/geosite.rs] and [client/src/geoip.rs]:
    each test is a boolean, true when all its assertions hold. *)
From S2P Require Import Prelude Utf8 Text Net Frame GeoSite GeoIp Routing.

Definition holds (o : option bool) : bool := bool_decide (o = Some true).
Definition refutes (o : option bool) : bool := bool_decide (o = Some false).

Module FrameTests.

Definition round_trip (frame : Frame) : bool :=
  match decode (encode frame) with Ok decoded => bool_decide (frame = decoded) | Err _ => false end.

Definition hello_round_trip : bool := round_trip (Hello (bs "550e8400-e29b-41d4-a716-446655440000")).
Definition open_round_trip : bool := round_trip (Open 42 (bs "example.com:443")).
Definition open_ack_ok_round_trip : bool := round_trip (OpenAck 42 true).
Definition open_ack_fail_round_trip : bool := round_trip (OpenAck 99 false).
Definition data_round_trip : bool :=
  round_trip (Data 1 (bs "GET / HTTP/1.1" ++ [x0d; x0a; x0d; x0a])).
Definition data_empty_payload_round_trip : bool := round_trip (Data 5 []).
Definition close_round_trip : bool := round_trip (Close 7).
Definition stream_id_preserved : bool :=
  let id := 3735928559%N in round_trip (Close id) && round_trip (Open id (bs "h:1")).

Definition decode_fails (buf : bytes) (e : FrameError) : bool :=
  match decode buf with Err e' => bool_decide (e' = e) | Ok _ => false end.

Definition too_short_returns_error : bool := decode_fails [x01; x00] TooShort && decode_fails [] TooShort.
Definition open_ack_missing_status_byte : bool := decode_fails [TYPE_OPEN_ACK; x00; x00; x00; x01] TooShort.
Definition unknown_type_returns_error : bool := decode_fails [xff; x00; x00; x00; x01] (UnknownType xff).
Definition invalid_utf8_open : bool := decode_fails ([TYPE_OPEN; x00; x00; x00; x01] ++ [xff]) InvalidUtf8.

Definition all : list bool :=
  [hello_round_trip; open_round_trip; open_ack_ok_round_trip; open_ack_fail_round_trip; data_round_trip;
   data_empty_payload_round_trip; close_round_trip; stream_id_preserved; too_short_returns_error;
   open_ack_missing_status_byte; unknown_type_returns_error; invalid_utf8_open].

End FrameTests.

Module RoutingTests.
Section RoutingTests.
Context `{UnicodeCase, RegexEngine, IpNets}.

Definition pat (s : bytes) : HostPattern := pattern_parse s.

Definition config (proxy bypass : list bytes) : RoutingConfig :=
  {| proxy := map pat proxy; bypass := map pat bypass; bypass_geosite := None; bypass_cidrs := [] |}.

Definition geosite_only (domains : list bytes) : option GeoSiteMatcher :=
  Some {| domains := map (λ s, bs "." ++ s) domains; fulls := []; keywords := []; regexes := [] |}.

Definition geosite_config (domains : list bytes) : RoutingConfig :=
  {| proxy := []; bypass := []; bypass_geosite := geosite_only domains; bypass_cidrs := [] |}.

(** [cfg.bypass_cidrs.push(IpNet::from_str("192.168.0.0/16").unwrap())] *)
Definition push_lan (cfg : RoutingConfig) : option RoutingConfig :=
  n ← v4net_new [xc0; xa8; x00; x00] 16;
  Some {| proxy := proxy cfg; bypass := bypass cfg; bypass_geosite := bypass_geosite cfg;
          bypass_cidrs := bypass_cidrs cfg ++ [n] |}.

Definition wildcard_subdomain : bool :=
  let r := pat (bs "*.example.com") in
  holds (pattern_matches r (bs "foo.example.com") 80) && holds (pattern_matches r (bs "foo.example.com") 443) &&
  refutes (pattern_matches r (bs "example.com") 80) && refutes (pattern_matches r (bs "notexample.com") 80).

Definition port_specific_rule : bool :=
  let r := pat (bs "example.com:8080") in
  holds (pattern_matches r (bs "example.com") 8080) && refutes (pattern_matches r (bs "example.com") 80).

Definition proxy_overrides_bypass : bool :=
  refutes (should_bypass (config [bs "github.com"] [bs "github.com"]) (bs "github.com") 443).

Definition bypass_host_rule : bool :=
  let cfg := config [] [bs "localhost"; bs "127.0.0.1"] in
  holds (should_bypass cfg (bs "localhost") 80) && holds (should_bypass cfg (bs "127.0.0.1") 80) &&
  refutes (should_bypass cfg (bs "example.com") 80).

Definition cidr_bypass : bool :=
  match push_lan (config [] []) with
  | Some cfg => holds (should_bypass cfg (bs "192.168.1.1") 80) && refutes (should_bypass cfg (bs "1.2.3.4") 80)
  | None => false
  end.

Definition proxy_overrides_cidr : bool :=
  match push_lan (config [bs "192.168.1.1"] []) with
  | Some cfg => refutes (should_bypass cfg (bs "192.168.1.1") 80)
  | None => false
  end.

Definition default_routing_proxies_everything : bool :=
  refutes (should_bypass routing_default (bs "example.com") 443) &&
  refutes (should_bypass routing_default (bs "1.2.3.4") 80).

Definition geosite_domain_bypassed : bool :=
  let cfg := geosite_config [bs "baidu.com"; bs "alicdn.com"] in
  holds (should_bypass cfg (bs "baidu.com") 443) && holds (should_bypass cfg (bs "www.baidu.com") 443) &&
  holds (should_bypass cfg (bs "g.alicdn.com") 443) && refutes (should_bypass cfg (bs "google.com") 443).

Definition proxy_rule_overrides_geosite : bool :=
  let cfg rules := {| proxy := map pat rules; bypass := []; bypass_geosite := geosite_only [bs "baidu.com"];
                      bypass_cidrs := [] |} in
  let cfg1 := cfg [bs "baidu.com"] in
  let cfg2 := cfg [bs "baidu.com"; bs "*.baidu.com"] in
  refutes (should_bypass cfg1 (bs "baidu.com") 443) && holds (should_bypass cfg1 (bs "www.baidu.com") 443) &&
  refutes (should_bypass cfg2 (bs "baidu.com") 443) && refutes (should_bypass cfg2 (bs "www.baidu.com") 443).

Definition all : list bool :=
  [wildcard_subdomain; port_specific_rule; proxy_overrides_bypass; bypass_host_rule; cidr_bypass;
   proxy_overrides_cidr; default_routing_proxies_everything; geosite_domain_bypassed;
   proxy_rule_overrides_geosite].

End RoutingTests.
End RoutingTests.

Module GeoTests.
Section GeoTests.
Context `{UnicodeCase, FileSystem, RegexEngine, GeoSiteDecoder, IpNets, GeoIpDecoder}.

(** [Regex::new(s).unwrap()] for each of [regexes] *)
Definition matcher (domains fulls keywords regexes : list bytes) : option GeoSiteMatcher :=
  rs ← mapM (λ s, res_ok (regex_new s)) regexes;
  Some {| domains := map (λ s, bs "." ++ s) domains; fulls := fulls; keywords := keywords; regexes := rs |}.

(** The assertions of one test: hosts that match and hosts that do not. *)
Definition decides (m : option GeoSiteMatcher) (yes no : list bytes) : bool :=
  match m with
  | Some m => forallb (λ h, holds (site_matches m h)) yes && forallb (λ h, refutes (site_matches m h)) no
  | None => false
  end.

Definition domain_suffix_matches_apex_and_subdomain : bool :=
  decides (matcher [bs "foo.com"] [] [] [])
    [bs "foo.com"; bs "bar.foo.com"; bs "deep.bar.foo.com"] [bs "notfoo.com"; bs "xfoo.com"].

Definition full_domain_matches_exactly : bool :=
  decides (matcher [] [bs "www.foo.com"] [] []) [bs "www.foo.com"] [bs "foo.com"; bs "bar.foo.com"].

Definition keyword_matches_substring : bool :=
  decides (matcher [] [] [bs "baidu"] [])
    [bs "www.baidu.com"; bs "baidu.com"; bs "tieba.baidu.com"] [bs "notba-idu.com"].

Definition regex_matches_pattern : bool :=
  decides (matcher [] [] [] [bs "^.*\.cn$"]) [bs "example.cn"; bs "sub.example.cn"] [bs "example.com"].

Definition missing_geosite_returns_io_error : bool :=
  match load_geosite_dat (bs "nonexistent.dat") [bs "cn"] with Err (SiteIo _) => true | _ => false end.

Definition missing_geoip_returns_io_error : bool :=
  match load_geoip_dat (bs "nonexistent.dat") [bs "cn"] with Err (IpIo _) => true | _ => false end.

Definition all : list bool :=
  [domain_suffix_matches_apex_and_subdomain; full_domain_matches_exactly; keyword_matches_substring;
   regex_matches_pattern; missing_geosite_returns_io_error; missing_geoip_returns_io_error].

End GeoTests.
End GeoTests.

(** ** The tests pass

    On a disk without the files, with the libraries' instances of the other
    files and a regex engine that knows the form of pattern the tests use. *)
#[local] Existing Instances demo_case demo_nets demo_site_decoder.

(** The pattern of the tests: anything without a newline that ends with [.cn]. *)
Definition suffix_engine : RegexEngine :=
  {| Regex := bytes;
     regex_new p :=
       if starts_with p (bs "^.*\.") && ends_with p (bs "$")
       then Ok (bs "." ++ take (length p - 6) (drop 5 p))
       else Err (bs "unknown form of pattern");
     is_match r h := ends_with h r && negb (bool_decide (x0a ∈ h)) |}.

Definition empty_disk : FileSystem :=
  {| io_error := bytes; fs_read _ := Err (bs "No such file or directory"); is_file _ := false |}.

Definition no_ip_decoder : GeoIpDecoder := {| decode_geoip _ := Err (bs "empty") |}.

#[local] Existing Instances suffix_engine empty_disk no_ip_decoder.

(** Every assertion of the unit tests holds of the model. *)
Theorem unit_tests_pass :
  forallb id FrameTests.all = true ∧ forallb id RoutingTests.all = true ∧ forallb id GeoTests.all = true.
Proof. split_and!; vm_compute; reflexivity. Qed.
