(* ===== verification/Sock.v ===== *)
(** * A TCP connection as a handler sees it

    The bytes that will arrive on the connection and how the stream ends, the
    bytes written so far, and how many more writes succeed: what the
    environment decides is data, so that a handler is a function.  [Tcp] is the
    state monad of the parsing code, whose [?] on an error or a [None] makes
    the function return [None] ([Fail]). *)
From S2P Require Import Prelude Utf8 Text.

Inductive stream_end : Type :=
| Eof        (** the peer closes: [read] returns 0 *)
| ReadErr    (** [read] returns an error *)
| Pending.   (** nothing more ever arrives: [read] waits *)

Record sock := {
  rx : bytes;
  rx_end : stream_end;
  tx : bytes;
  tx_left : option nat   (** [None]: every write succeeds *)
}.

Inductive outcome (A : Type) : Type :=
| Val (a : A)     (** goes on with a value *)
| Fail            (** the function returns [None] *)
| Block           (** waits for bytes that never come *)
| Panic           (** a slice off a character boundary *)
| Exhausted.      (** the model's fuel ran out: excluded by a theorem *)
Arguments Val {A} a.
Arguments Fail {A}.
Arguments Block {A}.
Arguments Panic {A}.
Arguments Exhausted {A}.

Definition Tcp (A : Type) : Type := sock → outcome A * sock.

Definition tret {A : Type} (a : A) : Tcp A := λ s, (Val a, s).
Definition tfail {A : Type} : Tcp A := λ s, (Fail, s).

Definition tbind {A B : Type} (m : Tcp A) (k : A → Tcp B) : Tcp B := λ s,
  match m s with
  | (Val a, s') => k a s'
  | (Fail, s') => (Fail, s')
  | (Block, s') => (Block, s')
  | (Panic, s') => (Panic, s')
  | (Exhausted, s') => (Exhausted, s')
  end.

Notation "'let!' x ':=' m 'in' k" := (tbind m (λ x, k))
  (at level 10, x binder, k at level 200) : echo_scope.

(** A pure step that may panic. *)
Definition tslice {A : Type} (o : option A) : Tcp A := λ s,
  match o with Some a => (Val a, s) | None => (Panic, s) end.

(** [stream.read_exact(&mut [0; n]).await.ok()?] *)
Definition read_exact (n : nat) : Tcp bytes := λ s,
  if n <=? length (rx s) then
    (Val (take n (rx s)),
     {| rx := drop n (rx s); rx_end := rx_end s; tx := tx s; tx_left := tx_left s |})
  else
    let s' := {| rx := []; rx_end := rx_end s; tx := tx s; tx_left := tx_left s |} in
    match rx_end s with
    | Pending => (Block, s')
    | _ => (Fail, s')
    end.

(** [stream.write_all(data).await.is_ok()] *)
Definition write_all (data : bytes) : Tcp bool := λ s,
  match tx_left s with
  | Some O => (Val false, s)
  | Some (S n) =>
      (Val true, {| rx := rx s; rx_end := rx_end s; tx := tx s ++ data; tx_left := Some n |})
  | None =>
      (Val true, {| rx := rx s; rx_end := rx_end s; tx := tx s ++ data; tx_left := None |})
  end.

(** [let _ = stream.write_all(data).await] *)
Definition write_ignore (data : bytes) : Tcp unit := let! _ := write_all data in tret tt.

(** [stream.write_all(data).await.ok()?] *)
Definition write_or_fail (data : bytes) : Tcp unit :=
  let! ok := write_all data in if ok then tret tt else tfail.

(** [reader.read_line(&mut line).await.ok()?]: up to and including the next
    newline, or to the end of the stream; the text must be UTF-8. *)
Definition read_line : Tcp bytes := λ s,
  let take_line line rest :=
    let s' := {| rx := rest; rx_end := rx_end s; tx := tx s; tx_left := tx_left s |} in
    if utf8_valid line then (Val line, s') else (Fail, s') in
  match split_once (rx s) x0a with
  | Some (l, rest) => take_line (l ++ [x0a]) rest
  | None =>
      match rx_end s with
      | Eof => take_line (rx s) []
      | ReadErr => (Fail, {| rx := []; rx_end := rx_end s; tx := tx s; tx_left := tx_left s |})
      | Pending => (Block, {| rx := []; rx_end := rx_end s; tx := tx s; tx_left := tx_left s |})
      end
  end.

(** ** Lemmas *)

Lemma tbind_val {A B : Type} (m : Tcp A) (k : A → Tcp B) (s s' : sock) (a : A) :
  m s = (Val a, s') → tbind m k s = k a s'.
Proof. unfold tbind. by intros ->. Qed.

Lemma tbind_inv {A B : Type} (m : Tcp A) (k : A → Tcp B) (s s' : sock) (b : B) :
  tbind m k s = (Val b, s') → ∃ a s1, m s = (Val a, s1) ∧ k a s1 = (Val b, s').
Proof. unfold tbind. destruct (m s) as [[a| | | |] s1]; naive_solver. Qed.

Definition with_rx (s : sock) (r : bytes) : sock :=
  {| rx := r; rx_end := rx_end s; tx := tx s; tx_left := tx_left s |}.

Lemma read_exact_app (p rest : bytes) (s : sock) :
  rx s = p ++ rest → read_exact (length p) s = (Val p, with_rx s rest).
Proof.
  intros Hs. unfold read_exact, with_rx. rewrite Hs, length_app.
  destruct (length p <=? length p + length rest) eqn:E; [|exfalso; blia].
  by rewrite take_app_length, drop_app_length.
Qed.

Lemma read_exact_inv (n : nat) (s s' : sock) (p : bytes) :
  read_exact n s = (Val p, s') → length p = n ∧ ∃ r, rx s = p ++ r ∧ s' = with_rx s r.
Proof.
  unfold read_exact. destruct (n <=? length (rx s)) eqn:E.
  - intros [= <- <-]. rewrite length_take. split; [blia|].
    exists (drop n (rx s)). by rewrite take_drop.
  - by destruct (rx_end s).
Qed.

Lemma read_line_inv (s s' : sock) (l : bytes) :
  read_line s = (Val l, s') →
  utf8_valid l = true ∧ ∃ r, rx s = l ++ r ∧ s' = with_rx s r.
Proof.
  unfold read_line. destruct (split_once (rx s) x0a) as [[h t]|] eqn:E.
  - apply split_once_Some in E as [E _]. case_match eqn:Hv; [|done].
    intros [= <- <-]. split; [done|]. exists t. by rewrite E, <- app_assoc.
  - destruct (rx_end s) eqn:Ee; [|done..]. case_match eqn:Hv; [|done].
    intros [= <- <-]. split; [done|]. exists []. unfold with_rx. by rewrite app_nil_r, Ee.
Qed.

Lemma read_line_app (l rest : bytes) (s : sock) :
  rx s = l ++ x0a :: rest → x0a ∉ l → utf8_valid (l ++ [x0a]) = true →
  read_line s = (Val (l ++ [x0a]), with_rx s rest).
Proof.
  intros Hs Hl Hv. unfold read_line. rewrite Hs.
  rewrite (proj2 (split_once_Some _ l rest x0a)) by done. by rewrite Hv.
Qed.

Lemma with_rx_twice (s : sock) (a b : bytes) : with_rx (with_rx s a) b = with_rx s b.
Proof. done. Qed.

Lemma rx_with_rx (s : sock) (a : bytes) : rx (with_rx s a) = a.
Proof. done. Qed.

(** Read exactly the next [n] bytes of a known prefix. *)
Lemma read_exact_run {A : Type} (n : nat) (p rest : bytes) (k : bytes → Tcp A) (s : sock) :
  length p = n → tbind (read_exact n) k (with_rx s (p ++ rest)) = k p (with_rx s rest).
Proof.
  intros <-. apply tbind_val. by rewrite (read_exact_app p rest).
Qed.

Definition wrote (s : sock) (data : bytes) : sock :=
  {| rx := rx s; rx_end := rx_end s; tx := tx s ++ data;
     tx_left := match tx_left s with Some (S n) => Some n | o => o end |}.

Lemma write_all_ok (data : bytes) (s : sock) :
  tx_left s ≠ Some 0 → write_all data s = (Val true, wrote s data).
Proof. intros H. unfold write_all, wrote. by destruct (tx_left s) as [[|n]|]. Qed.

Lemma write_ignore_run {A : Type} (data : bytes) (k : unit → Tcp A) (s : sock) :
  tx_left s ≠ Some 0 → tbind (write_ignore data) k s = k tt (wrote s data).
Proof.
  intros H. apply tbind_val. unfold write_ignore.
  by rewrite (tbind_val _ _ _ _ _ (write_all_ok data s H)).
Qed.

Lemma write_or_fail_run {A : Type} (data : bytes) (k : unit → Tcp A) (s : sock) :
  tx_left s ≠ Some 0 → tbind (write_or_fail data) k s = k tt (wrote s data).
Proof.
  intros H. apply tbind_val. unfold write_or_fail.
  by rewrite (tbind_val _ _ _ _ _ (write_all_ok data s H)).
Qed.

Lemma write_or_fail_inv (data : bytes) (u : unit) (s s' : sock) :
  write_or_fail data s = (Val u, s') → tx_left s ≠ Some 0 ∧ s' = wrote s data.
Proof.
  unfold write_or_fail, tbind, write_all, wrote, tret, tfail.
  destruct (tx_left s) as [[|n]|]; naive_solver.
Qed.

Lemma with_rx_id (s : sock) : with_rx s (rx s) = s.
Proof. by destruct s. Qed.

Lemma wrote_with_rx (s : sock) (d r : bytes) : wrote (with_rx s r) d = with_rx (wrote s d) r.
Proof. done. Qed.

Lemma tx_left_with_rx (s : sock) (r : bytes) : tx_left (with_rx s r) = tx_left s.
Proof. done. Qed.

(** ** Total steps

    A step finishes when it returns, whatever the connection does, unless the
    peer keeps the connection open without sending what is awaited; it never
    panics and never runs out of fuel. *)
Definition ends {A : Type} (e : stream_end) (o : outcome A) : Prop :=
  match o with
  | Val _ | Fail => True
  | Block => e = Pending
  | Panic | Exhausted => False
  end.

Definition well_ended {A : Type} (e : stream_end) (r : outcome A * sock) : Prop :=
  rx_end (snd r) = e ∧ ends e (fst r).

Definition finishes {A : Type} (m : Tcp A) : Prop := ∀ s, well_ended (rx_end s) (m s).

Lemma finishes_ret {A : Type} (a : A) : finishes (tret a).
Proof. done. Qed.

Lemma finishes_fail {A : Type} : finishes (tfail (A:=A)).
Proof. done. Qed.

Lemma finishes_bind {A B : Type} (m : Tcp A) (k : A → Tcp B) :
  finishes m → (∀ a, finishes (k a)) → finishes (tbind m k).
Proof.
  intros Hm Hk s. destruct (Hm s) as [He Ho]. unfold tbind.
  destruct (m s) as [[a| | | |] s1]; cbn in *; try done.
  destruct (Hk a s1) as [He1 Ho1]. rewrite He in *. by split.
Qed.

Lemma finishes_if {A : Type} (b : bool) (m1 m2 : Tcp A) :
  finishes m1 → finishes m2 → finishes (if b then m1 else m2).
Proof. by destruct b. Qed.

Lemma finishes_read_exact (n : nat) : finishes (read_exact n).
Proof.
  intros s. unfold read_exact. destruct (_ <=? _); [done|]. by destruct (rx_end s) eqn:E.
Qed.

Lemma finishes_write_all (d : bytes) : finishes (write_all d).
Proof. intros s. unfold write_all. by destruct (tx_left s) as [[|n]|]. Qed.

Lemma finishes_read_line : finishes read_line.
Proof.
  intros s. unfold read_line. destruct (split_once _ _) as [[l r]|].
  - by destruct (utf8_valid _).
  - destruct (rx_end s) eqn:E; cbn; [|done..]. by destruct (utf8_valid _).
Qed.

#[export] Hint Resolve finishes_ret finishes_fail finishes_bind finishes_if
  finishes_read_exact finishes_write_all finishes_read_line : echo.
#[export] Hint Extern 1 (finishes (write_ignore _)) => unfold write_ignore : echo.
#[export] Hint Extern 1 (finishes (write_or_fail _)) => unfold write_or_fail : echo.
