(* ===== verification/Socks5.v ===== *)
(** * The SOCKS5 front end ([client/src/lib.rs])

    The greeting and CONNECT parser, and its replies, against a reference
    encoding of SOCKS5 requests (RFC 1928). *)
From S2P Require Import Prelude Utf8 Text Net Sock Routing.

Definition SOCKS5_VERSION : byte := x05.
Definition SOCKS5_AUTH_NO_AUTH : byte := x00.
Definition SOCKS5_AUTH_NO_ACCEPTABLE : byte := xff.
Definition SOCKS5_CMD_CONNECT : byte := x01.
Definition SOCKS5_ATYP_IPV4 : byte := x01.
Definition SOCKS5_ATYP_DOMAIN : byte := x03.
Definition SOCKS5_ATYP_IPV6 : byte := x04.
Definition SOCKS5_REP_SUCCESS : byte := x00.
Definition SOCKS5_REP_GENERAL_FAILURE : byte := x01.
Definition SOCKS5_REP_CMD_NOT_SUPPORTED : byte := x07.
Definition SOCKS5_REP_ATYP_NOT_SUPPORTED : byte := x08.

(** [socks5_reply] *)
Definition socks5_reply (rep : byte) : bytes :=
  [SOCKS5_VERSION; rep; x00; SOCKS5_ATYP_IPV4; x00; x00; x00; x00; x00; x00].

Definition byte_at (i : nat) (s : bytes) : byte := nth i s x00.

(** The greeting: version, the offered methods, and the method selection. *)
Definition socks5_greeting : Tcp unit :=
  let! hdr := read_exact 2 in
  if negb (bool_decide (byte_at 0 hdr = SOCKS5_VERSION)) then tfail
  else
    let nmethods := N.to_nat (u8 (byte_at 1 hdr)) in
    let! methods := read_exact nmethods in
    if bool_decide (SOCKS5_AUTH_NO_AUTH ∈ methods) then
      write_or_fail [SOCKS5_VERSION; SOCKS5_AUTH_NO_AUTH]
    else
      let! _ := write_ignore [SOCKS5_VERSION; SOCKS5_AUTH_NO_ACCEPTABLE] in tfail.

(** [match atyp]: the address as text. *)
Definition socks5_host (atyp : byte) : Tcp bytes :=
  if bool_decide (atyp = SOCKS5_ATYP_IPV4) then
    let! addr := read_exact 4 in tret (show_ipv4 addr)
  else if bool_decide (atyp = SOCKS5_ATYP_IPV6) then
    let! addr := read_exact 16 in tret (bs "[" ++ show_ipv6 (segments_of addr) ++ bs "]")
  else if bool_decide (atyp = SOCKS5_ATYP_DOMAIN) then
    let! len := read_exact 1 in
    let! domain := read_exact (N.to_nat (u8 (byte_at 0 len))) in
    if utf8_valid domain then tret domain else tfail
  else
    let! _ := write_ignore (socks5_reply SOCKS5_REP_ATYP_NOT_SUPPORTED) in tfail.

(** The request: VER CMD RSV ATYP, the address, the port. *)
Definition socks5_request : Tcp bytes :=
  let! req := read_exact 4 in
  if negb (bool_decide (byte_at 0 req = SOCKS5_VERSION)) then tfail
  else
    let cmd := byte_at 1 req in
    let atyp := byte_at 3 req in
    if negb (bool_decide (cmd = SOCKS5_CMD_CONNECT)) then
      let! _ := write_ignore (socks5_reply SOCKS5_REP_CMD_NOT_SUPPORTED) in tfail
    else
      let! host := socks5_host atyp in
      let! port_bytes := read_exact 2 in
      let port := u16_from_be_bytes (byte_at 0 port_bytes) (byte_at 1 port_bytes) in
      tret (host ++ bs ":" ++ show_dec port).

(** [parse_socks5_request] *)
Definition parse_socks5_request : Tcp bytes :=
  let! _ := socks5_greeting in socks5_request.

(** ** Reference encoding of what a SOCKS5 client sends *)

Inductive socks_addr : Type :=
| SocksV4 (o : bytes)
| SocksV6 (o : bytes)
| SocksDomain (d : bytes).

Definition wf_socks_addr (a : socks_addr) : Prop :=
  match a with
  | SocksV4 o => length o = 4
  | SocksV6 o => length o = 16
  | SocksDomain d => length d ≤ 255 ∧ utf8_valid d = true
  end.

Definition socks_addr_bytes (a : socks_addr) : bytes :=
  match a with
  | SocksV4 o => SOCKS5_ATYP_IPV4 :: o
  | SocksV6 o => SOCKS5_ATYP_IPV6 :: o
  | SocksDomain d => SOCKS5_ATYP_DOMAIN :: u8_of (N.of_nat (length d)) :: d
  end.

Definition socks_addr_text (a : socks_addr) : bytes :=
  match a with
  | SocksV4 o => show_ipv4 o
  | SocksV6 o => bs "[" ++ show_ipv6 (segments_of o) ++ bs "]"
  | SocksDomain d => d
  end.

Definition greeting_bytes (methods : bytes) : bytes :=
  SOCKS5_VERSION :: u8_of (N.of_nat (length methods)) :: methods.

(** The reserved byte [rsv] is zero in the standard; the parser ignores it. *)
Definition request_bytes (cmd rsv : byte) (a : socks_addr) (port : N) : bytes :=
  [SOCKS5_VERSION; cmd; rsv] ++ socks_addr_bytes a ++ u16_to_be_bytes port.

Definition socks_target (a : socks_addr) (port : N) : bytes :=
  socks_addr_text a ++ bs ":" ++ show_dec port.

(** ** Lemmas *)

Lemma nat_of_u8_len (l : bytes) :
  length l ≤ 255 → N.to_nat (u8 (u8_of (N.of_nat (length l)))) = length l.
Proof. intros Hl. rewrite u8_u8_of, N.mod_small by lia. lia. Qed.

Lemma greeting_run (methods rest : bytes) (s : sock) :
  length methods ≤ 255 → SOCKS5_AUTH_NO_AUTH ∈ methods → tx_left s ≠ Some 0 →
  socks5_greeting (with_rx s (greeting_bytes methods ++ rest)) =
  (Val tt, with_rx (wrote s [SOCKS5_VERSION; SOCKS5_AUTH_NO_AUTH]) rest).
Proof.
  intros Hl Hm Hw. unfold socks5_greeting, greeting_bytes.
  change ((SOCKS5_VERSION :: u8_of (N.of_nat (length methods)) :: methods) ++ rest)
    with ([SOCKS5_VERSION; u8_of (N.of_nat (length methods))] ++ (methods ++ rest)).
  rewrite read_exact_run by done. cbn [byte_at nth].
  rewrite bool_decide_eq_true_2 by done. cbn [negb].
  rewrite nat_of_u8_len by done. rewrite read_exact_run by done.
  rewrite bool_decide_eq_true_2 by done. unfold write_or_fail, write_all, tbind, tret, with_rx, wrote.
  cbn. by destruct (tx_left s) as [[|n]|].
Qed.

Lemma greeting_inv (u : unit) (s s' : sock) :
  socks5_greeting s = (Val u, s') →
  ∃ methods r, length methods ≤ 255 ∧ SOCKS5_AUTH_NO_AUTH ∈ methods ∧ tx_left s ≠ Some 0 ∧
    rx s = greeting_bytes methods ++ r ∧
    s' = with_rx (wrote s [SOCKS5_VERSION; SOCKS5_AUTH_NO_AUTH]) r.
Proof.
  unfold socks5_greeting. intros (hdr & s1 & H1 & H)%tbind_inv.
  apply read_exact_inv in H1 as (Hl & r1 & Hs & ->).
  destruct hdr as [|v [|n [|]]]; try done. cbn [byte_at nth] in H.
  case_bool_decide as Hv; cbn [negb] in H; [subst v|done].
  apply tbind_inv in H as (methods & s2 & H2 & H).
  apply read_exact_inv in H2 as (Hml & r & Hs2 & ->). cbn [rx with_rx] in Hs2.
  case_bool_decide as Hm.
  - apply write_or_fail_inv in H as [Hw ->].
    exists methods, r. pose proof (u8_bound n). split_and!; [lia|done|done| |done].
    rewrite Hs, Hs2. unfold greeting_bytes. rewrite Hml, N2Nat.id, u8_of_u8. done.
  - apply tbind_inv in H as (? & ? & _ & H). done.
Qed.

Lemma host_run (a : socks_addr) (rest : bytes) (s : sock) :
  wf_socks_addr a →
  ∃ atyp, socks_addr_bytes a = atyp :: tail (socks_addr_bytes a) ∧
    socks5_host atyp (with_rx s (tail (socks_addr_bytes a) ++ rest)) =
    (Val (socks_addr_text a), with_rx s rest).
Proof.
  destruct a as [o|o|d]; cbn [wf_socks_addr socks_addr_bytes socks_addr_text tail].
  - intros Hl. exists SOCKS5_ATYP_IPV4. split; [done|]. unfold socks5_host. simpl.
    by rewrite read_exact_run.
  - intros Hl. exists SOCKS5_ATYP_IPV6. split; [done|]. unfold socks5_host. simpl.
    by rewrite read_exact_run.
  - intros [Hl Hu]. exists SOCKS5_ATYP_DOMAIN. split; [done|]. unfold socks5_host. simpl.
    change (u8_of (N.of_nat (length d)) :: d ++ rest)
      with ([u8_of (N.of_nat (length d))] ++ (d ++ rest)).
    rewrite read_exact_run by done. cbn [byte_at nth].
    rewrite nat_of_u8_len by done. rewrite read_exact_run by done. by rewrite Hu.
Qed.

Lemma host_inv (atyp : byte) (t : bytes) (s s' : sock) :
  socks5_host atyp s = (Val t, s') →
  ∃ a r, wf_socks_addr a ∧ t = socks_addr_text a ∧
    atyp :: rx s = socks_addr_bytes a ++ r ∧ s' = with_rx s r.
Proof.
  unfold socks5_host. repeat case_bool_decide; subst.
  - intros (o & s1 & (Hl & r & Hs & ->)%read_exact_inv & [= <- <-])%tbind_inv.
    exists (SocksV4 o), r. rewrite Hs. done.
  - intros (o & s1 & (Hl & r & Hs & ->)%read_exact_inv & [= <- <-])%tbind_inv.
    exists (SocksV6 o), r. rewrite Hs. done.
  - intros (n & s1 & (Hn & r1 & Hs & ->)%read_exact_inv & Hk)%tbind_inv.
    apply tbind_inv in Hk as (d & s2 & (Hd & r & Hs2 & ->)%read_exact_inv & Hk).
    destruct (utf8_valid d) eqn:Hu; [|done]. injection Hk as <- <-. cbn [rx with_rx] in Hs2.
    destruct n as [|b [|]]; try done. cbn [byte_at nth] in Hd. pose proof (u8_bound b).
    exists (SocksDomain d), r. split_and!; [split; [lia|done]|done| |done].
    rewrite Hs, Hs2. cbn [socks_addr_bytes]. rewrite Hd, N2Nat.id, u8_of_u8. done.
  - intros (? & ? & _ & Hf)%tbind_inv. done.
Qed.

Lemma request_run (rsv : byte) (a : socks_addr) (port : N) (rest : bytes) (s : sock) :
  wf_socks_addr a → (port ≤ U16_MAX)%N →
  socks5_request (with_rx s (request_bytes SOCKS5_CMD_CONNECT rsv a port ++ rest)) =
  (Val (socks_target a port), with_rx s rest).
Proof.
  intros Ha Hp. destruct (host_run a (u16_to_be_bytes port ++ rest) s Ha) as (atyp & Hb & Hh).
  unfold socks5_request, request_bytes. rewrite Hb.
  change (([SOCKS5_VERSION; SOCKS5_CMD_CONNECT; rsv] ++ (atyp :: tail (socks_addr_bytes a))
    ++ u16_to_be_bytes port) ++ rest) with ([SOCKS5_VERSION; SOCKS5_CMD_CONNECT; rsv; atyp] ++
      ((tail (socks_addr_bytes a) ++ u16_to_be_bytes port) ++ rest)).
  rewrite read_exact_run by done. cbn [byte_at nth].
  rewrite !bool_decide_eq_true_2 by done. cbn [negb]. rewrite <- app_assoc.
  rewrite (tbind_val _ _ _ _ _ Hh). rewrite read_exact_run by done.
  cbn [u16_to_be_bytes byte_at nth]. by rewrite u16_be_roundtrip.
Qed.

Lemma request_inv (t : bytes) (s s' : sock) :
  socks5_request s = (Val t, s') →
  ∃ rsv a port r, wf_socks_addr a ∧ (port ≤ U16_MAX)%N ∧ t = socks_target a port ∧
    rx s = request_bytes SOCKS5_CMD_CONNECT rsv a port ++ r ∧ s' = with_rx s r.
Proof.
  unfold socks5_request. intros (req & s1 & (Hl & r1 & Hs & ->)%read_exact_inv & H)%tbind_inv.
  destruct req as [|v [|c [|rsv [|atyp [|]]]]]; try done. cbn [byte_at nth] in H.
  case_bool_decide as Hv; cbn [negb] in H; [subst v|done].
  case_bool_decide as Hc; cbn [negb] in H; [subst c|by apply tbind_inv in H as (? & ? & _ & H)].
  apply tbind_inv in H as (h & s2 & Hh & H). apply host_inv in Hh as (a & r2 & Ha & -> & Hr & ->).
  apply tbind_inv in H as (p & s3 & (Hp & r & Hs3 & ->)%read_exact_inv & [= <- <-]).
  destruct p as [|p0 [|p1 [|]]]; try done. cbn [byte_at nth rx with_rx] in *.
  exists rsv, a, (u16_from_be_bytes p0 p1), r. split_and!; [done|apply u16_from_be_bound|done| |done].
  rewrite Hs. unfold request_bytes.
  assert (u16_to_be_bytes (u16_from_be_bytes p0 p1) = [p0; p1]) as ->.
  { unfold u16_to_be_bytes, u16_from_be_bytes. pose proof (u8_bound p0). pose proof (u8_bound p1).
    repeat f_equal; apply u8_inj; rewrite u8_u8_of; dlia. }
  rewrite Hs3 in Hr. cbn. do 3 f_equal. by rewrite Hr, <- app_assoc.
Qed.

(** ** Properties *)

Lemma parse_socks5_request_spec (s s' : sock) (t : bytes) :
  parse_socks5_request s = (Val t, s') ↔
  ∃ methods rsv a port r,
    length methods ≤ 255 ∧ SOCKS5_AUTH_NO_AUTH ∈ methods ∧ wf_socks_addr a ∧
    (port ≤ U16_MAX)%N ∧ tx_left s ≠ Some 0 ∧
    rx s = greeting_bytes methods ++ request_bytes SOCKS5_CMD_CONNECT rsv a port ++ r ∧
    t = socks_target a port ∧
    s' = with_rx (wrote s [SOCKS5_VERSION; SOCKS5_AUTH_NO_AUTH]) r.
Proof.
  unfold parse_socks5_request. split.
  - intros (u & s1 & Hg & Hq)%tbind_inv.
    apply greeting_inv in Hg as (methods & r1 & Hl & Hm & Hw & Hs & ->).
    apply request_inv in Hq as (rsv & a & port & r & Ha & Hp & -> & Hr & ->).
    cbn [rx with_rx] in Hr. subst r1. exists methods, rsv, a, port, r. by split_and!.
  - intros (methods & rsv & a & port & r & Hl & Hm & Ha & Hp & Hw & Hs & -> & ->).
    rewrite <- (with_rx_id s) at 1. rewrite Hs.
    rewrite (tbind_val _ _ _ _ _ (greeting_run methods _ s Hl Hm Hw)).
    by apply request_run.
Qed.

(** C32: [parse_socks5_request] accepts exactly the inputs that start with a
    greeting offering NO_AUTH followed by a CONNECT request for an IPv4, IPv6
    or UTF-8 domain address (any reserved byte); it then has written the method
    selection [05 00] and nothing else, has consumed exactly those bytes, and
    returns ["host:port"], IPv6 in brackets. *)
Theorem parse_socks5_request_iff (s s' : sock) (t : bytes) :
  parse_socks5_request s = (Val t, s') ↔
  ∃ methods rsv a port r,
    length methods ≤ 255 ∧ SOCKS5_AUTH_NO_AUTH ∈ methods ∧ wf_socks_addr a ∧
    (port ≤ U16_MAX)%N ∧ tx_left s ≠ Some 0 ∧
    rx s = greeting_bytes methods ++ request_bytes SOCKS5_CMD_CONNECT rsv a port ++ r ∧
    t = socks_target a port ∧
    s' = with_rx (wrote s [SOCKS5_VERSION; SOCKS5_AUTH_NO_AUTH]) r.
Proof. by apply parse_socks5_request_spec. Qed.

(** The refusals of [parse_socks5_request]: a greeting without NO_AUTH is
    answered [05 FF]; after an accepted greeting, a command other than CONNECT
    is answered with reply code 07 and an unknown address type with code 08;
    a wrong version byte ends the connection with nothing written for it. *)
Theorem socks5_refusals (methods rest : bytes) (cmd rsv atyp v n : byte) (s : sock)
  (Hl : length methods ≤ 255) (Hw : tx_left s = None) :
  let accepted := wrote s [SOCKS5_VERSION; SOCKS5_AUTH_NO_AUTH] in
  let hello := greeting_bytes methods in
  (SOCKS5_AUTH_NO_AUTH ∉ methods →
   parse_socks5_request (with_rx s (hello ++ rest)) =
   (Fail, with_rx (wrote s [SOCKS5_VERSION; SOCKS5_AUTH_NO_ACCEPTABLE]) rest)) ∧
  (SOCKS5_AUTH_NO_AUTH ∈ methods → cmd ≠ SOCKS5_CMD_CONNECT →
   parse_socks5_request (with_rx s (hello ++ [SOCKS5_VERSION; cmd; rsv; atyp] ++ rest)) =
   (Fail, with_rx (wrote accepted (socks5_reply SOCKS5_REP_CMD_NOT_SUPPORTED)) rest)) ∧
  (SOCKS5_AUTH_NO_AUTH ∈ methods →
   atyp ∉ [SOCKS5_ATYP_IPV4; SOCKS5_ATYP_DOMAIN; SOCKS5_ATYP_IPV6] →
   parse_socks5_request
     (with_rx s (hello ++ [SOCKS5_VERSION; SOCKS5_CMD_CONNECT; rsv; atyp] ++ rest)) =
   (Fail, with_rx (wrote accepted (socks5_reply SOCKS5_REP_ATYP_NOT_SUPPORTED)) rest)) ∧
  (v ≠ SOCKS5_VERSION →
   parse_socks5_request (with_rx s ([v; n] ++ rest)) = (Fail, with_rx s rest)) ∧
  (SOCKS5_AUTH_NO_AUTH ∈ methods → v ≠ SOCKS5_VERSION →
   parse_socks5_request (with_rx s (hello ++ [v; cmd; rsv; atyp] ++ rest)) =
   (Fail, with_rx accepted rest)).
Proof.
  assert (Hw0 : tx_left s ≠ Some 0) by (rewrite Hw; done).
  assert (Hwa : tx_left (wrote s [SOCKS5_VERSION; SOCKS5_AUTH_NO_AUTH]) ≠ Some 0)
    by (cbn; rewrite Hw; done).
  cbn zeta. unfold parse_socks5_request. split_and!.
  - intros Hm. unfold socks5_greeting, greeting_bytes.
    change ((SOCKS5_VERSION :: u8_of (N.of_nat (length methods)) :: methods) ++ rest)
      with ([SOCKS5_VERSION; u8_of (N.of_nat (length methods))] ++ (methods ++ rest)).
    unfold tbind at 1. rewrite read_exact_run by done. cbn [byte_at nth].
    rewrite bool_decide_eq_true_2 by done. cbn [negb]. rewrite nat_of_u8_len by done.
    rewrite read_exact_run by done. rewrite bool_decide_eq_false_2 by done.
    by rewrite write_ignore_run.
  - intros Hm Hc. rewrite (tbind_val _ _ _ _ _ (greeting_run methods _ s Hl Hm Hw0)).
    unfold socks5_request. rewrite read_exact_run by done. cbn [byte_at nth].
    rewrite bool_decide_eq_true_2 by done. rewrite bool_decide_eq_false_2 by done. cbn [negb].
    by rewrite write_ignore_run.
  - intros Hm Ha. rewrite (tbind_val _ _ _ _ _ (greeting_run methods _ s Hl Hm Hw0)).
    unfold socks5_request. rewrite read_exact_run by done. cbn [byte_at nth].
    rewrite !bool_decide_eq_true_2 by done. cbn [negb]. unfold socks5_host.
    rewrite !elem_of_cons in Ha. rewrite !bool_decide_eq_false_2 by tauto.
    unfold tbind at 1. by rewrite write_ignore_run.
  - intros Hv. unfold tbind at 1, socks5_greeting. rewrite read_exact_run by done.
    cbn [byte_at nth]. by rewrite bool_decide_eq_false_2.
  - intros Hm Hv. rewrite (tbind_val _ _ _ _ _ (greeting_run methods _ s Hl Hm Hw0)).
    unfold socks5_request. rewrite read_exact_run by done. cbn [byte_at nth].
    by rewrite bool_decide_eq_false_2.
Qed.

(** [parse_socks5_request] always finishes: it neither panics nor runs on,
    and it waits only while the client keeps the connection open without
    sending the bytes of the message it started. *)
Theorem parse_socks5_request_finishes : finishes parse_socks5_request.
Proof.
  unfold parse_socks5_request, socks5_greeting, socks5_request, socks5_host. cbn zeta.
  repeat (apply finishes_bind; [|intros]) || apply finishes_if || eauto 6 with echo.
Qed.

Definition demo_sock (input : bytes) : sock :=
  {| rx := input; rx_end := Eof; tx := []; tx_left := None |}.

Lemma socks5_refusals_witness :
  parse_socks5_request (with_rx (demo_sock []) (greeting_bytes [x02] ++ bs "x")) =
  (Fail, with_rx (wrote (demo_sock []) [x05; xff]) (bs "x")).
Proof.
  apply (socks5_refusals [x02] (bs "x") x02 x00 x01 x04 x01 (demo_sock [])).
  - simpl. lia.
  - reflexivity.
  - apply (bool_decide_unpack _). vm_compute. exact I.
Defined.

(** A CONNECT to example.com:443, and one to [::1]:80. *)
Example socks5_demo :
  parse_socks5_request (demo_sock (greeting_bytes [x00; x02] ++
    request_bytes x01 x00 (SocksDomain (bs "example.com")) 443 ++ bs "rest")) =
    (Val (bs "example.com:443"), {| rx := bs "rest"; rx_end := Eof; tx := [x05; x00]; tx_left := None |}) ∧
  fst (parse_socks5_request (demo_sock (greeting_bytes [x00] ++
    request_bytes x01 x00 (SocksV6 (replicate 15 x00 ++ [x01])) 80))) = Val (bs "[::1]:80").
Proof. split; vm_compute; reflexivity. Qed.
