(* ===== verification/Http.v ===== *)
(** * The HTTP front end's request reader ([client/src/lib.rs])

    [parse_request_header]: the header block is read line by line and
    forwarded as it is; the reader picks the target out of the [Host] header
    and the body length out of [Content-Length].  The reference is the list of
    the block's lines. *)
From S2P Require Import Prelude Utf8 Text Sock.

Definition MAX_HEADER_BYTES : N := 65536.
Definition MAX_CONTENT_LENGTH : N := 67108864.

Definition CRLF : bytes := [x0d; x0a].

(** The locals of the loop. *)
Record header_state := {
  headers : bytes;
  host : bytes;
  content_length : N
}.

Definition no_headers : header_state := {| headers := []; host := []; content_length := 0 |}.

(** [line[name.len()..].trim().trim_end_matches("\r\n").trim_end_matches('\n')]:
    [None] when the slice would panic. *)
Definition header_value (name line : bytes) : option bytes :=
  option_map (λ v, trim_end_matches (trim_end_matches (trim v) CRLF) [x0a])
    (str_from line (length name)).

(** [if !host.contains(':') { host.push_str(":80") }] *)
Definition with_port (h : bytes) : bytes :=
  if contains h (bs ":") then h else h ++ bs ":80".

(** One header line: the body of the loop after the line is read. *)
Definition on_header_line (st : header_state) (line : bytes) : Tcp header_state :=
  if (MAX_HEADER_BYTES <? N.of_nat (length (headers st) + length line))%N then tfail
  else
    let headers' := headers st ++ line in
    let lower := to_ascii_lowercase line in
    let! host' :=
      if starts_with lower (bs "host:") then
        let! v := tslice (header_value (bs "host:") line) in tret (with_port v)
      else tret (host st) in
    let! length' :=
      if starts_with lower (bs "content-length:") then
        let! v := tslice (header_value (bs "content-length:") line) in
        let n := match parse_usize v with Some n => n | None => 0%N end in
        if (MAX_CONTENT_LENGTH <? n)%N then tfail else tret n
      else tret (content_length st) in
    tret {| headers := headers'; host := host'; content_length := length' |}.

(** The loop; every round but the last consumes at least one byte. *)
Fixpoint header_loop (fuel : nat) (st : header_state) : Tcp header_state :=
  match fuel with
  | O => λ s, (Exhausted, s)
  | S f =>
      let! line := read_line in
      if length line =? 0 then tret st
      else
        let! st' := on_header_line st line in
        if str_eqb line CRLF then tret st' else header_loop f st'
  end.

Definition read_request (fuel : nat) : Tcp (bytes * bytes * bytes) :=
  let! st := header_loop fuel no_headers in
  if (0 <? content_length st)%N then
    let! body := read_exact (N.to_nat (content_length st)) in
    tret (host st, headers st, body)
  else tret (host st, headers st, []).

(** [parse_request_header].  The [BufReader] is dropped on return with the
    bytes it has read ahead of the parser; how many those are is up to the
    reader and the network ([ahead]), and the connection continues after them. *)
Definition parse_request_header (ahead : nat) : Tcp (bytes * bytes * bytes) := λ s,
  let (o, s') := read_request (S (length (rx s))) s in (o, with_rx s' (drop ahead (rx s'))).

(** ** The reference: lines *)

(** The last line named [name] in a block, without its name. *)
Definition named (name line : bytes) : bool := starts_with (to_ascii_lowercase line) name.

Definition field (name line : bytes) : bytes := trim (drop (length name) line).

Definition last_field (name : bytes) (ls : list bytes) : option bytes :=
  foldl (λ acc l, if named name l then Some (field name l) else acc) None ls.

Definition block_host (ls : list bytes) : bytes :=
  match last_field (bs "host:") ls with Some v => with_port v | None => [] end.

Definition length_value (v : bytes) : N :=
  match parse_usize v with Some n => n | None => 0%N end.

Definition block_length (ls : list bytes) : N :=
  match last_field (bs "content-length:") ls with Some v => length_value v | None => 0%N end.

(** Every [Content-Length] line of the block is within the limit. *)
Definition lengths_ok (ls : list bytes) : Prop :=
  Forall (λ l, named (bs "content-length:") l = true →
    (length_value (field (bs "content-length:") l) ≤ MAX_CONTENT_LENGTH)%N) ls.

(** A complete header line other than the terminator. *)
Definition is_line (l : bytes) : Prop :=
  ∃ t, l = t ++ [x0a] ∧ x0a ∉ t ∧ utf8_valid l = true ∧ l ≠ CRLF.

(** ** Lemmas: header lines *)

Lemma ascii_split (p line : bytes) :
  is_ascii p = true → starts_with (to_ascii_lowercase line) p = true →
  utf8_valid line = true →
  ∃ q v, line = q ++ v ∧ length q = length p ∧ utf8_valid v = true.
Proof.
  revert line. induction p as [|b p IH]; intros line Hp Hs Hv.
  { by exists [], line. }
  destruct line as [|c line]; [done|]. apply starts_with_iff in Hs as [t Ht].
  cbn [to_ascii_lowercase map app] in Ht. injection Ht as Hb Ht.
  unfold is_ascii in Hp. cbn [forallb] in Hp. apply andb_true_iff in Hp as [Ha Hp].
  assert (Hc : (u8 c < 128)%N).
  { rewrite <- Hb, <- ascii_lower_ascii in Ha. unfold is_ascii_byte in Ha. blia. }
  rewrite utf8_valid_ascii_cons in Hv by done.
  destruct (IH line) as (q & v & -> & Hl & Hu); [done| |done|].
  { apply starts_with_iff. by exists t. }
  exists (c :: q), v. split_and!; [done|cbn; lia|done].
Qed.

Lemma header_value_named (name line : bytes) :
  is_ascii name = true → named name line = true → utf8_valid line = true →
  header_value name line = Some (field name line) ∧ utf8_valid (field name line) = true.
Proof.
  unfold named, header_value, field. intros Ha Hn Hv.
  destruct (ascii_split name line Ha Hn Hv) as (q & v & -> & Hq & Hu).
  rewrite <- Hq, str_from_app, drop_app_length by done. cbn [option_map].
  destruct (trim_text v Hu) as [Ht He]. split; [|done].
  rewrite (trim_end_matches_id (trim v) CRLF), trim_end_matches_id; [done|done|].
  apply not_true_iff_false. intros [u Hw]%ends_with_iff. apply not_true_iff_false in He.
  apply He, ends_with_iff. exists (u ++ [x0d]). rewrite Hw. unfold CRLF. by rewrite <- app_assoc.
Qed.

(** What a line does to the locals when it passes the limits. *)
Definition line_state (st : header_state) (line : bytes) : header_state :=
  {| headers := headers st ++ line;
     host := if named (bs "host:") line then with_port (field (bs "host:") line) else host st;
     content_length := if named (bs "content-length:") line
       then length_value (field (bs "content-length:") line) else content_length st |}.

Definition line_ok (st : header_state) (line : bytes) : bool :=
  (N.of_nat (length (headers st ++ line)) <=? MAX_HEADER_BYTES)%N &&
  (negb (named (bs "content-length:") line) ||
   (length_value (field (bs "content-length:") line) <=? MAX_CONTENT_LENGTH)%N).

Lemma on_header_line_eq (st : header_state) (line : bytes) (s : sock) :
  utf8_valid line = true →
  on_header_line st line s =
  if line_ok st line then (Val (line_state st line), s) else (Fail, s).
Proof.
  intros Hv. unfold on_header_line, line_ok, line_state. rewrite <- length_app.
  rewrite N.leb_antisym. destruct (_ <? _)%N; cbn [negb andb]; [done|].
  fold (named (bs "host:") line). fold (named (bs "content-length:") line).
  destruct (named (bs "host:") line) eqn:Hh;
    [destruct (header_value_named (bs "host:") line eq_refl Hh Hv) as [-> _]|];
    (destruct (named (bs "content-length:") line) eqn:Hc;
     [destruct (header_value_named (bs "content-length:") line eq_refl Hc Hv) as [-> _]|]);
    unfold tbind, tret, tslice, tfail; cbn [negb orb]; try done;
    fold (length_value (field (bs "content-length:") line)); rewrite N.leb_antisym;
    by destruct (_ <? _)%N.
Qed.

Lemma block_state_headers (ls : list bytes) (st : header_state) :
  headers (foldl line_state st ls) = headers st ++ concat ls.
Proof.
  revert st. induction ls as [|l ls IH]; intros st; cbn; [by rewrite app_nil_r|].
  rewrite IH. cbn. by rewrite app_assoc.
Qed.

Lemma line_state_nil (st : header_state) : line_state st [] = st.
Proof. destruct st. unfold line_state. cbn. by rewrite app_nil_r. Qed.

(** ** Lemmas: the loop *)

(** The lines of a block: complete lines, then the empty line [CRLF] or
    whatever is left when the stream ends. *)
Definition block (e : stream_end) (ls : list bytes) (r : bytes) : Prop :=
  ∃ ls0 t, ls = ls0 ++ [t] ∧ Forall is_line ls0 ∧
    (t = CRLF ∨ (x0a ∉ t ∧ utf8_valid t = true ∧ e = Eof ∧ r = [])).

Fixpoint lines_ok (st : header_state) (ls : list bytes) : Prop :=
  match ls with
  | [] => True
  | l :: ls' => (l = [] ∨ line_ok st l = true) ∧ lines_ok (line_state st l) ls'
  end.

Lemma read_line_cases (s s' : sock) (l : bytes) :
  read_line s = (Val l, s') →
  utf8_valid l = true ∧
  ((∃ t r, l = t ++ [x0a] ∧ x0a ∉ t ∧ rx s = l ++ r ∧ s' = with_rx s r) ∨
   (x0a ∉ l ∧ rx s = l ∧ rx_end s = Eof ∧ s' = with_rx s [])).
Proof.
  unfold read_line. destruct (split_once (rx s) x0a) as [[h t]|] eqn:E.
  - apply split_once_Some in E as [E Hn]. case_match eqn:Hv; [|done].
    intros [= <- <-]. split; [done|]. left. exists h, t. by rewrite E, <- app_assoc.
  - apply split_once_None in E. destruct (rx_end s) eqn:Ee; [|done..].
    case_match eqn:Hv; [|done]. intros [= <- <-]. split; [done|]. right.
    unfold with_rx. by rewrite Ee.
Qed.

Lemma read_line_eof (s : sock) (t : bytes) :
  x0a ∉ t → utf8_valid t = true → rx_end s = Eof →
  read_line (with_rx s t) = (Val t, with_rx s []).
Proof.
  intros Ht Hv He. unfold read_line. cbn [rx with_rx rx_end].
  rewrite (proj2 (split_once_None t x0a)) by done. unfold with_rx. by rewrite He, Hv.
Qed.

Lemma read_line_run (h rest : bytes) (s : sock) :
  x0a ∉ h → utf8_valid (h ++ [x0a]) = true →
  read_line (with_rx s ((h ++ [x0a]) ++ rest)) = (Val (h ++ [x0a]), with_rx s rest).
Proof.
  intros Hn Hv. rewrite (read_line_app h rest (with_rx s ((h ++ [x0a]) ++ rest))); [done| |done..].
  cbn. by rewrite <- app_assoc.
Qed.

Lemma is_line_not_nil (l : bytes) : is_line l → l ≠ [] ∧ l ≠ CRLF ∧ utf8_valid l = true.
Proof. intros (t & -> & _ & Hv & Hn). split_and!; [by destruct t|done|done]. Qed.

Lemma header_loop_inv (fuel : nat) (st st' : header_state) (s s' : sock) :
  header_loop fuel st s = (Val st', s') →
  ∃ ls r, block (rx_end s) ls r ∧ rx s = concat ls ++ r ∧ s' = with_rx s r ∧
    st' = foldl line_state st ls ∧ lines_ok st ls.
Proof.
  revert st s. induction fuel as [|f IH]; intros st s; [done|]. cbn [header_loop].
  intros (l & s1 & Hr & H)%tbind_inv. apply read_line_cases in Hr as [Hv Hr].
  destruct (length l =? 0) eqn:El.
  { destruct l; [|done]. injection H as <- <-.
    destruct Hr as [([|] & r & [=] & _)|(_ & Hs & He & ->)]; [].
    exists [[]], []. split_and!; [|by rewrite Hs|done|by cbn; rewrite line_state_nil|by repeat constructor].
    exists [], []. split_and!; [done|constructor|]. right. split_and!; [apply not_elem_of_nil|done..]. }
  apply tbind_inv in H as (st1 & s2 & Ho & H). rewrite on_header_line_eq in Ho by done.
  destruct (line_ok st l) eqn:Hok; [|done]. injection Ho as <- <-.
  unfold str_eqb in H. case_bool_decide as Hcr.
  { injection H as <- <-. subst l. destruct Hr as [(t & r & _ & _ & Hs & ->)|(Hn & _)].
    - exists [CRLF], r. split_and!; [|by rewrite Hs|done|done|cbn; auto].
      exists [], CRLF. split_and!; [done|constructor|by left].
    - exfalso. apply Hn. unfold CRLF. right. left. }
  apply IH in H as (ls & r' & (ls0 & t0 & -> & Hls & Ht0) & Hrx & -> & -> & Hoks).
  destruct Hr as [(t & r & Hl & Hn & Hs & ->)|(Hn & Hs & He & ->)].
  - exists (l :: ls0 ++ [t0]), r'. cbn [rx with_rx] in Hrx. split_and!; [|by rewrite Hs, Hrx, app_assoc|done|done|].
    + exists (l :: ls0), t0. split_and!; [done| |done]. constructor; [|done]. by exists t.
    + cbn [lines_ok]. auto.
  - cbn [rx with_rx] in Hrx. symmetry in Hrx. apply app_eq_nil in Hrx as [Hc ->].
    exists [l], []. split_and!; [|by rewrite Hs; cbn; rewrite !app_nil_r|done| |cbn; auto].
    + exists [], l. split_and!; [done|constructor|]. right. by split_and!.
    + rewrite concat_app in Hc. apply app_eq_nil in Hc as [Hc Ht]. cbn in Ht. rewrite app_nil_r in Ht.
      subst t0. destruct Hls as [|x ? Hx _]; [by cbn; rewrite line_state_nil|].
      apply is_line_not_nil in Hx as [Hx _]. by destruct x.
Qed.

Lemma header_loop_run (ls : list bytes) (r : bytes) (fuel : nat) (st : header_state) (s : sock) :
  block (rx_end s) ls r → lines_ok st ls → length (concat ls) < fuel →
  header_loop fuel st (with_rx s (concat ls ++ r)) = (Val (foldl line_state st ls), with_rx s r).
Proof.
  intros (ls0 & t & -> & Hls & Ht). revert st fuel.
  induction Hls as [|l ls0 Hl Hls IH]; intros st fuel Hok Hf; (destruct fuel as [|f]; [lia|]);
    cbn [header_loop app concat] in *.
  - destruct Hok as [Hok _]. rewrite app_nil_r in *. destruct Ht as [->|(Hn & Hv & He & ->)].
    + destruct Hok as [|Hok]; [done|]. change CRLF with ([x0d] ++ [x0a]) at 1.
      rewrite (tbind_val _ _ _ _ _ (read_line_run [x0d] r s
        ltac:(apply (bool_decide_unpack _); exact I) eq_refl)).
      cbn [app]. fold CRLF. cbn [length CRLF Nat.eqb]. unfold tbind. rewrite on_header_line_eq by done. by rewrite Hok.
    + rewrite app_nil_r. rewrite (tbind_val _ _ _ (with_rx s []) t) by (by apply read_line_eof).
      destruct t as [|b t]; [cbn; by rewrite line_state_nil|]. destruct Hok as [|Hok]; [done|].
      cbn [length Nat.eqb]. unfold tbind. rewrite on_header_line_eq, Hok by done.
      unfold str_eqb. case_bool_decide as Hc; [done|]. cbn in Hf. destruct f as [|f]; [lia|].
      cbn [header_loop]. rewrite (tbind_val _ _ _ (with_rx s []) [])
        by (apply read_line_eof; [apply not_elem_of_nil|done..]). done.
  - destruct Hl as (h & -> & Hh & Hv & Hcr). destruct Hok as [[Hok|Hok] Hoks]; [by destruct h|].
    rewrite <- app_assoc. rewrite (tbind_val _ _ _ _ _ (read_line_run h _ s Hh Hv)).
    rewrite (proj2 (Nat.eqb_neq _ 0)) by (rewrite length_app; cbn; lia).
    unfold tbind. rewrite on_header_line_eq, Hok by done. unfold str_eqb.
    rewrite bool_decide_eq_false_2 by done. apply IH; [done|].
    rewrite !length_app in Hf. cbn in Hf. lia.
Qed.

(** ** Lemmas: the loop computes the reference *)

Lemma loop_host (ls : list bytes) (st : header_state) (acc : option bytes) :
  host st = match acc with Some v => with_port v | None => [] end →
  host (foldl line_state st ls) =
  match foldl (λ acc l, if named (bs "host:") l then Some (field (bs "host:") l) else acc) acc ls with
  | Some v => with_port v | None => [] end.
Proof.
  revert st acc. induction ls as [|l ls IH]; intros st acc H; [done|]. cbn [foldl].
  apply IH. unfold line_state. cbn [host]. by destruct (named (bs "host:") l).
Qed.

Lemma loop_length (ls : list bytes) (st : header_state) (acc : option bytes) :
  content_length st = match acc with Some v => length_value v | None => 0%N end →
  content_length (foldl line_state st ls) =
  match foldl (λ acc l, if named (bs "content-length:") l then
    Some (field (bs "content-length:") l) else acc) acc ls with
  | Some v => length_value v | None => 0%N end.
Proof.
  revert st acc. induction ls as [|l ls IH]; intros st acc H; [done|]. cbn [foldl].
  apply IH. unfold line_state. cbn [content_length]. by destruct (named (bs "content-length:") l).
Qed.

Lemma lines_ok_iff (ls : list bytes) (st : header_state) :
  (N.of_nat (length (headers st)) ≤ MAX_HEADER_BYTES)%N →
  lines_ok st ls ↔
  (N.of_nat (length (headers st ++ concat ls)) ≤ MAX_HEADER_BYTES)%N ∧ lengths_ok ls.
Proof.
  revert st. induction ls as [|l ls IH]; intros st Hst; cbn [lines_ok concat].
  { rewrite app_nil_r. split; [split; [done|constructor]|done]. }
  unfold lengths_ok. rewrite Forall_cons. fold (lengths_ok ls). rewrite app_assoc.
  assert (Hl : l = [] ∨ line_ok st l = true ↔
    (N.of_nat (length (headers st ++ l)) ≤ MAX_HEADER_BYTES)%N ∧
    (named (bs "content-length:") l = true →
     (length_value (field (bs "content-length:") l) ≤ MAX_CONTENT_LENGTH)%N)).
  { unfold line_ok. rewrite andb_true_iff, orb_true_iff, negb_true_iff, !N.leb_le.
    destruct l as [|b l]; [rewrite app_nil_r; split; [done|by left]|].
    destruct (named _ _); split; [intros [?|[? [?|?]]]|intros [? ?]; right|
      intros [?|[? ?]]|intros [? ?]; right]; naive_solver. }
  rewrite Hl. split.
  - intros [[H1 H2] H3]. apply IH in H3 as [H3 H4]; [|done]. by split_and!.
  - intros [H1 [H2 H3]].
    assert (N.of_nat (length (headers st ++ l)) ≤ MAX_HEADER_BYTES)%N.
    { rewrite length_app in H1. lia. }
    split; [done|]. apply IH; [done|]. by split.
Qed.

Lemma loop_result (ls : list bytes) :
  foldl line_state no_headers ls =
  {| headers := concat ls; host := block_host ls; content_length := block_length ls |}.
Proof.
  pose proof (block_state_headers ls no_headers) as H1. pose proof (loop_host ls no_headers None eq_refl) as H2.
  pose proof (loop_length ls no_headers None eq_refl) as H3.
  destruct (foldl line_state no_headers ls). cbn in *. by subst.
Qed.

(** ** Properties *)

Lemma parse_request_header_spec (ahead : nat) (s s' : sock) (h hd b : bytes) :
  parse_request_header ahead s = (Val (h, hd, b), s') ↔
  ∃ ls r, block (rx_end s) ls (b ++ r) ∧ rx s = concat ls ++ b ++ r ∧
    (N.of_nat (length (concat ls)) ≤ MAX_HEADER_BYTES)%N ∧ lengths_ok ls ∧
    h = block_host ls ∧ hd = concat ls ∧ N.of_nat (length b) = block_length ls ∧
    s' = with_rx s (drop ahead r).
Proof.
  unfold parse_request_header. split.
  - destruct (read_request _ s) as [o s1] eqn:E. intros [= -> <-]. unfold read_request in E.
    apply tbind_inv in E as (st & s2 & Hl & E).
    apply header_loop_inv in Hl as (ls & r & Hb & Hs & -> & -> & Hok).
    rewrite loop_result in E. cbn [content_length host headers] in E.
    apply lines_ok_iff in Hok as [Hm Hc]; [|done].
    destruct (0 <? block_length ls)%N eqn:E0.
    + apply tbind_inv in E as (b0 & s3 & (Hbl & r' & Hr & ->)%read_exact_inv & [= <- <- <- <-]).
      cbn [rx with_rx] in Hr. subst r. exists ls, r'. split_and!; [done..|lia|done].
    + injection E as <- <- <- <-. exists ls, r. split_and!; [done..| |done]. cbn. blia.
  - intros (ls & r & Hb & Hs & Hm & Hc & -> & -> & Hbl & ->).
    assert (Hf : length (concat ls) < S (length (rx s))) by (rewrite Hs, length_app; lia).
    revert Hf. generalize (S (length (rx s))). intros fuel Hf.
    rewrite <- (with_rx_id s) at 1. rewrite Hs. unfold read_request.
    rewrite (tbind_val _ _ _ _ _ (header_loop_run ls (b ++ r) fuel no_headers s Hb
      (proj2 (lines_ok_iff ls no_headers (N.le_0_l _)) (conj Hm Hc)) Hf)).
    rewrite loop_result. cbn [content_length host headers].
    destruct (0 <? block_length ls)%N eqn:E0.
    + rewrite read_exact_run by lia. done.
    + assert (b = []) as -> by (destruct b; [done|cbn in Hbl; blia]). done.
Qed.

(** C31: [parse_request_header] succeeds exactly on an input that starts with a
    header block of at most 64 KiB, ended by an empty line or by the end of the
    stream, followed by the announced body of at most 64 MiB; it returns the
    block verbatim, the body, and the value of the block's last [Host] line
    (with [":80"] when it has no colon), consumes exactly those bytes, and
    drops what the buffered reader had read ahead. *)
Theorem parse_request_header_iff (ahead : nat) (s s' : sock) (h hd b : bytes) :
  parse_request_header ahead s = (Val (h, hd, b), s') ↔
  ∃ ls r, block (rx_end s) ls (b ++ r) ∧ rx s = concat ls ++ b ++ r ∧
    (N.of_nat (length (concat ls)) ≤ MAX_HEADER_BYTES)%N ∧ lengths_ok ls ∧
    h = block_host ls ∧ hd = concat ls ∧ N.of_nat (length b) = block_length ls ∧
    s' = with_rx s (drop ahead r).
Proof. by apply parse_request_header_spec. Qed.

Lemma block_valid (e : stream_end) (ls : list bytes) (r : bytes) :
  block e ls r → Forall (λ l, utf8_valid l = true) ls.
Proof.
  intros (ls0 & t & -> & Hls & Ht). apply Forall_app. split.
  - eapply Forall_impl; [exact Hls|]. intros l Hl. by apply is_line_not_nil in Hl as (_ & _ & Hv).
  - constructor; [|constructor]. by destruct Ht as [->|(_ & Hv & _)].
Qed.

Lemma last_field_valid (name : bytes) (ls : list bytes) (acc : option bytes) :
  is_ascii name = true → Forall (λ l, utf8_valid l = true) ls →
  (∀ v, acc = Some v → utf8_valid v = true) →
  ∀ v, foldl (λ acc l, if named name l then Some (field name l) else acc) acc ls = Some v →
  utf8_valid v = true.
Proof.
  intros Ha Hls. revert acc. induction Hls as [|l ls Hl _ IH]; intros acc Hacc v; [apply Hacc|].
  cbn [foldl]. apply IH. destruct (named name l) eqn:Hn; [|done]. intros w [= <-].
  by apply header_value_named.
Qed.

Lemma parse_request_header_wf (ahead : nat) (s s' : sock) (h hd b : bytes)
  (Hval : parse_request_header ahead s = (Val (h, hd, b), s')) :
  utf8_valid hd = true ∧ utf8_valid h = true ∧ (h = [] ∨ x3a ∈ h) ∧
  (N.of_nat (length hd) ≤ MAX_HEADER_BYTES)%N ∧
  (N.of_nat (length b) ≤ MAX_CONTENT_LENGTH)%N ∧ tx s' = tx s ∧
  ∃ r, rx s = hd ++ b ++ r.
Proof.
  apply parse_request_header_spec in Hval as (ls & r & Hb & Hs & Hm & Hc & -> & -> & Hbl & ->).
  pose proof (block_valid _ _ _ Hb) as Hv. split_and!; [| | |done| |done|by exists r].
  - clear -Hv. induction Hv as [|l ls Hl _ IH]; [done|]. cbn [concat]. by rewrite utf8_valid_app_l.
  - unfold block_host. destruct (last_field _ ls) as [v|] eqn:E; [|done].
    apply last_field_valid in E; [|done..]. unfold with_port.
    destruct (contains _ _); [done|]. by rewrite utf8_valid_app_l.
  - unfold block_host. destruct (last_field _ ls) as [v|] eqn:E; [|by left]. right.
    unfold with_port. destruct (contains _ _) eqn:Ec.
    + apply contains_iff in Ec as (p & q & ->). apply elem_of_mid.
    + apply elem_of_app. right. left.
  - rewrite Hbl. unfold block_length. destruct (last_field _ ls) as [v|] eqn:E; [|done].
    clear -Hc E. unfold last_field in E. revert E.
    assert (Ha : ∀ w, @None bytes = Some w → (length_value w ≤ MAX_CONTENT_LENGTH)%N) by done.
    revert Ha. generalize (@None bytes). induction Hc as [|l ls Hl _ IH]; intros o Ho; cbn [foldl].
    + apply Ho.
    + apply IH. destruct (named _ l) eqn:En; [|done]. intros w [= <-]. by apply Hl.
Qed.

(** Whatever [parse_request_header] returns is well formed: headers and
    host are UTF-8, the host is empty or contains a colon, the sizes are within
    the limits, and nothing was written to the client. *)
Theorem parse_request_header_output (ahead : nat) (s s' : sock) (h hd b : bytes)
  (Hval : parse_request_header ahead s = (Val (h, hd, b), s')) :
  utf8_valid hd = true ∧ utf8_valid h = true ∧ (h = [] ∨ x3a ∈ h) ∧
  (N.of_nat (length hd) ≤ MAX_HEADER_BYTES)%N ∧
  (N.of_nat (length b) ≤ MAX_CONTENT_LENGTH)%N ∧ tx s' = tx s ∧
  ∃ r, rx s = hd ++ b ++ r.
Proof. by eapply parse_request_header_wf. Qed.

Lemma parse_request_header_output_witness :
  let input := bs "GET / HTTP/1.1" ++ CRLF ++ bs "HOST: a.b" ++ CRLF ++ CRLF ++ bs "tail" in
  let s := {| rx := input; rx_end := Pending; tx := []; tx_left := None |} in
  utf8_valid (bs "a.b:80") = true.
Proof.
  intros input s.
  apply (parse_request_header_output 0 s (with_rx s (bs "tail")) (bs "a.b:80")
    (bs "GET / HTTP/1.1" ++ CRLF ++ bs "HOST: a.b" ++ CRLF ++ CRLF) []).
  vm_compute. reflexivity.
Defined.

Lemma header_loop_finishes (fuel : nat) (st : header_state) (s : sock) :
  length (rx s) < fuel → well_ended (rx_end s) (header_loop fuel st s).
Proof.
  revert st s. induction fuel as [|f IH]; intros st s Hf; [lia|]. cbn [header_loop].
  destruct (finishes_read_line s) as [He Ho]. unfold tbind at 1.
  destruct (read_line s) as [[l| | | |] s1] eqn:Hl; cbn in He, Ho; try done.
  destruct (length l =? 0) eqn:El; [by split|].
  apply read_line_inv in Hl as (Hv & r & Hs & ->). unfold tbind.
  rewrite on_header_line_eq by done. destruct (line_ok st l); [|done].
  destruct (str_eqb l CRLF); [done|]. apply (IH _ (with_rx s r)). cbn. rewrite Hs, length_app in Hf. blia.
Qed.

Lemma read_request_finishes (s : sock) :
  well_ended (rx_end s) (read_request (S (length (rx s))) s).
Proof.
  unfold read_request, tbind at 1.
  pose proof (header_loop_finishes (S (length (rx s))) no_headers s (Nat.lt_succ_diag_r _)) as [He Ho].
  destruct (header_loop _ _ _) as [[st| | | |] s1]; cbn in He, Ho; try done.
  rewrite <- He. destruct (0 <? content_length st)%N; [|done].
  apply finishes_bind; auto with echo.
Qed.

(** The bytes that have arrived are the beginning of a request that is not
    complete: header lines without the empty line that ends the block, and
    perhaps the beginning of one more; or a whole block and fewer bytes than
    its body has. What has arrived is within the limits. *)
Definition unfinished (input : bytes) : Prop :=
  ∃ ls r, input = concat ls ++ r ∧
    (N.of_nat (length (concat ls)) ≤ MAX_HEADER_BYTES)%N ∧ lengths_ok ls ∧
    ((Forall is_line ls ∧ x0a ∉ r) ∨
     (∃ ls0, ls = ls0 ++ [CRLF] ∧ Forall is_line ls0 ∧ (N.of_nat (length r) < block_length ls)%N)).

Lemma read_line_waits (s : sock) : rx_end s = Pending → x0a ∉ rx s → fst (read_line s) = Block.
Proof. unfold read_line. intros He Hn%split_once_None. by rewrite Hn, He. Qed.

Lemma first_line (ls : list bytes) (r h t : bytes) :
  concat ls ++ r = h ++ x0a :: t → x0a ∉ h → Forall is_line ls → x0a ∉ r →
  ∃ ls', ls = (h ++ [x0a]) :: ls' ∧ t = concat ls' ++ r.
Proof.
  intros E Hh Hls Hr. destruct Hls as [|l ls (u & -> & Hu & _) _].
  - cbn in E. subst r. by destruct Hr; apply elem_of_mid.
  - exists ls. cbn [concat] in E. rewrite <-!app_assoc in E. cbn [app] in E.
    pose proof (proj2 (split_once_Some _ _ _ _) (conj E Hh)) as E1.
    pose proof (proj2 (split_once_Some _ u (concat ls ++ r) x0a) (conj eq_refl Hu)) as E2.
    rewrite E1 in E2. by injection E2 as -> ->.
Qed.

Lemma header_loop_blocks (fuel : nat) (st : header_state) (s : sock) :
  rx_end s = Pending → length (rx s) < fuel →
  fst (header_loop fuel st s) = Block ↔
  ∃ ls r, rx s = concat ls ++ r ∧ Forall is_line ls ∧ x0a ∉ r ∧ lines_ok st ls.
Proof.
  intros He. revert st s He. induction fuel as [|f IH]; intros st s He Hf; [lia|]. cbn [header_loop].
  unfold tbind at 1. destruct (split_once (rx s) x0a) as [[h t]|] eqn:Es.
  2: { apply split_once_None in Es. pose proof (read_line_waits s He Es) as Hb.
       destruct (read_line s) as [o s1]. cbn in Hb. subst o. split; [|done].
       intros _. exists [], (rx s). by split_and!. }
  pose proof Es as [Ers Hh]%split_once_Some. unfold read_line. rewrite Es.
  assert (Hinv : ∀ ls r, rx s = concat ls ++ r → Forall is_line ls → x0a ∉ r →
    ∃ ls', ls = (h ++ [x0a]) :: ls' ∧ t = concat ls' ++ r ∧ is_line (h ++ [x0a])).
  { intros ls r E Hls Hr. destruct (first_line ls r h t) as (ls' & -> & ->); [congruence|done..|].
    exists ls'. split_and!; [done..|by inversion Hls]. }
  destruct (utf8_valid (h ++ [x0a])) eqn:Hv.
  2: { split; [done|]. intros (ls & r & E & Hls & Hr & _).
       destruct (Hinv ls r E Hls Hr) as (_ & _ & _ & (u & _ & _ & Hu & _)). congruence. }
  assert (El : (length (h ++ [x0a]) =? 0) = false) by (rewrite length_app; cbn; blia).
  rewrite El. unfold tbind. rewrite on_header_line_eq by done.
  destruct (line_ok st (h ++ [x0a])) eqn:Hok.
  2: { split; [done|]. intros (ls & r & E & Hls & Hr & Hoks).
       destruct (Hinv ls r E Hls Hr) as (ls' & -> & _). destruct Hoks as [[?|?] _]; [by destruct h|congruence]. }
  unfold str_eqb. case_bool_decide as Hc.
  { split; [done|]. intros (ls & r & E & Hls & Hr & _).
    by destruct (Hinv ls r E Hls Hr) as (_ & _ & _ & (u & _ & _ & _ & Hu)). }
  change {| rx := t; rx_end := rx_end s; tx := tx s; tx_left := tx_left s |} with (with_rx s t).
  rewrite IH; [|done|cbn; rewrite Ers, length_app in Hf; cbn in Hf; lia]. cbn [rx with_rx]. split.
  - intros (ls & r & -> & Hls & Hr & Hoks). exists ((h ++ [x0a]) :: ls), r. cbn [concat].
    split_and!; [by rewrite Ers, <-!app_assoc| |done|cbn; auto]. constructor; [by exists h|done].
  - intros (ls & r & E & Hls & Hr & Hoks). destruct (Hinv ls r E Hls Hr) as (ls' & -> & -> & _).
    exists ls', r. inversion Hls. by destruct Hoks.
Qed.

Lemma read_request_blocks (s : sock) :
  fst (read_request (S (length (rx s))) s) = Block ↔ rx_end s = Pending ∧ unfinished (rx s).
Proof.
  pose proof (read_request_finishes s) as [_ Hend]. revert Hend. unfold read_request. split.
  - intros HB. rewrite HB in Hend. cbn in Hend. split; [done|]. unfold tbind in HB.
    destruct (header_loop _ _ s) as [[st| | | |] s1] eqn:Hl; try done.
    + apply header_loop_inv in Hl as (ls & r & (ls0 & t & -> & Hls & Ht) & Hs & -> & -> & Hok).
      rewrite loop_result in HB. cbn [content_length] in HB. apply lines_ok_iff in Hok as [Hm Hc]; [|done].
      destruct Ht as [-> | (_ & _ & He & _)]; [|congruence].
      exists (ls0 ++ [CRLF]), r. split_and!; [done..|]. right. exists ls0. split_and!; [done..|].
      destruct (0 <? _)%N; [|done]. unfold tbind, read_exact in HB. cbn [rx with_rx] in HB.
      destruct (_ <=? length r) eqn:El; [done|]. blia.
    + assert (HB' : fst (header_loop (S (length (rx s))) no_headers s) = Block) by by rewrite Hl.
      apply header_loop_blocks in HB' as (ls & r & Hs & Hls & Hr & Hok); [|done|lia].
      apply lines_ok_iff in Hok as [Hm Hc]; [|done]. exists ls, r. by split_and!; auto.
  - intros [He (ls & r & Hs & Hm & Hc & Hor)].
    assert (Hok : lines_ok no_headers ls) by by apply lines_ok_iff.
    destruct Hor as [[Hls Hr] | (ls0 & -> & Hls & Hlen)].
    + assert (HB : fst (header_loop (S (length (rx s))) no_headers s) = Block).
      { apply header_loop_blocks; [done|lia|]. by exists ls, r. }
      unfold tbind. by destruct (header_loop _ _ s) as [[] ?].
    + assert (Hb : block (rx_end s) (ls0 ++ [CRLF]) r) by (exists ls0, CRLF; auto).
      assert (Hf : length (concat (ls0 ++ [CRLF])) < S (length (rx s))) by (rewrite Hs, length_app; lia).
      revert Hf. generalize (S (length (rx s))). intros fuel Hf. rewrite <-(with_rx_id s), Hs.
      rewrite (tbind_val _ _ _ _ _ (header_loop_run _ r fuel no_headers s Hb Hok Hf)), loop_result.
      cbn [content_length]. rewrite (proj2 (N.ltb_lt _ _)) by lia. unfold tbind, read_exact. cbn [rx with_rx rx_end].
      rewrite (proj2 (Nat.leb_gt _ _)) by lia. by rewrite He.
Qed.

(** C38: reading a request always finishes, and it waits for the application
    only when it has to: the slices never panic, the loop ends, and it blocks
    exactly when the application keeps the connection open, sends nothing
    more, and what it has sent is an unfinished request within the limits: a
    header block without its empty line, or a body shorter than announced. A
    complete request is never waited on. *)
Theorem parse_request_header_finishes (ahead : nat) :
  finishes (parse_request_header ahead) ∧
  ∀ s, fst (parse_request_header ahead s) = Block ↔ rx_end s = Pending ∧ unfinished (rx s).
Proof.
  split.
  - intros s. unfold parse_request_header. pose proof (read_request_finishes s) as H.
    by destruct (read_request _ s) as [o s'].
  - intros s. rewrite <-read_request_blocks. unfold parse_request_header.
    by destruct (read_request _ s) as [o s'].
Qed.

(** Bytes the client sends right after its request (early TLS data after
    CONNECT, a pipelined request) and that the buffered reader has already
    taken from the socket are lost to the tunnel. *)
Theorem pipelined_bytes_lost (ahead : nat) (s s' : sock) (h hd b r : bytes)
  (Hval : parse_request_header ahead s = (Val (h, hd, b), s'))
  (Hrx : rx s = hd ++ b ++ r) (Hahead : length r ≤ ahead) :
  rx s' = [].
Proof.
  apply parse_request_header_spec in Hval as (ls & r' & _ & Hs & _ & _ & _ & -> & _ & ->).
  rewrite Hs in Hrx. rewrite !app_assoc in Hrx. apply app_inv_head in Hrx as ->.
  cbn. by apply drop_ge.
Qed.

Lemma pipelined_bytes_lost_witness :
  let hello := bs "client hello" in
  let s := {| rx := bs "CONNECT a:1 HTTP/1.1" ++ CRLF ++ bs "Host: a:1" ++ CRLF ++ CRLF ++ hello;
              rx_end := Pending; tx := []; tx_left := None |} in
  rx (snd (parse_request_header 12 s)) = [].
Proof.
  intros hello s.
  apply (pipelined_bytes_lost 12 s _ (bs "a:1")
    (bs "CONNECT a:1 HTTP/1.1" ++ CRLF ++ bs "Host: a:1" ++ CRLF ++ CRLF) [] hello).
  - vm_compute. reflexivity.
  - vm_compute. reflexivity.
  - vm_compute. lia.
Defined.

(** Limits and odd inputs: a bare newline does not end the block, the last
    [Host] wins, an unreadable length counts as zero. *)
Example http_demo :
  let run input := fst (parse_request_header 0
    {| rx := input; rx_end := Eof; tx := []; tx_left := None |}) in
  run [] = Val ([], [], []) ∧
  run (bs "POST / HTTP/1.1" ++ CRLF ++ bs "Host: x" ++ CRLF ++ bs "hOsT:  y:81 " ++ [x0a] ++
       bs "Content-Length: 3" ++ CRLF ++ CRLF ++ bs "abcdef") =
    Val (bs "y:81", bs "POST / HTTP/1.1" ++ CRLF ++ bs "Host: x" ++ CRLF ++ bs "hOsT:  y:81 " ++
         [x0a] ++ bs "Content-Length: 3" ++ CRLF ++ CRLF, bs "abc") ∧
  run (bs "Content-Length: 67108865" ++ CRLF ++ CRLF) = Fail ∧
  run (bs "Content-Length: -1" ++ CRLF ++ [x0a] ++ CRLF ++ bs "x") =
    Val ([], bs "Content-Length: -1" ++ CRLF ++ [x0a] ++ CRLF, []).
Proof. vm_compute. by split_and!. Qed.
