(* ===== verification/Task.v ===== *)
(** * Asynchronous tasks

    A task of either program ([task::spawn] of an [async] function) is a
    structured program over the calls it makes to the rest of the system.
    What a call returns is the environment's choice: channels, sockets, timers
    and the peer decide it.  The file gives tasks a step relation, an
    executable run against a script of answers, and a weakest-precondition
    calculus for protocols, with its soundness. *)
From S2P Require Import Prelude Frame.

(** ** Calls and answers *)

(** The awaits and the calls on shared state of the code. *)
Inductive call : Type :=
| ParseHttp                      (** [parse_request_header(tcp)] *)
| ParseSocks                     (** [parse_socks5_request(&mut tcp)] *)
| Snapshot                       (** [shared_mux.lock().unwrap().clone()] *)
| Register (id : N)              (** [registry.register(id)] *)
| Unregister (id : N)            (** [registry.close(id)] *)
| InsertAck (id : N)             (** [pending_acks.lock().unwrap().insert(id, ack_tx)] *)
| Send (f : Frame)               (** [frame_tx.send(f).await] *)
| RecvAck (timeout : option N)   (** [ack_rx.recv().await], in seconds when bounded *)
| DataRecv                       (** [data_rx.recv().await] *)
| Connect (dest : bytes)         (** [TcpStream::connect(dest).await] *)
| TcpRead                        (** [tcp_reader.read(&mut buf).await], 8192 bytes *)
| TcpWrite (d : bytes)           (** [tcp_writer.write_all(d).await] *)
| UpRead                         (** [read] on the direct upstream connection *)
| UpWrite (d : bytes).           (** [write_all] on the direct upstream connection *)

Inductive answer : Type :=
| AOk                            (** [Ok(())], [Some(conn)], or a call without result *)
| AErr                           (** [Err(_)] or [None] *)
| ABytes (d : bytes)             (** [Ok(n)] with the bytes read, or [Ok(data)] *)
| AFlag (ok : bool)              (** [Ok(v)] of the acknowledgement *)
| ATimeout                       (** the deadline passed *)
| AHost (h : bytes)              (** a SOCKS5 target *)
| ARequest (h hd b : bytes).     (** an HTTP request: host, headers, body *)

(** [!r.is_err()] *)
Definition is_ok (a : answer) : bool := match a with AErr | ATimeout => false | _ => true end.

(** [recv().await.unwrap_or(false)], and [match timeout(..) { Ok(Ok(v)) => v, _ => false }] *)
Definition ack_value (a : answer) : bool := match a with AFlag v => v | _ => false end.

(** ** Programs *)

Inductive prog : Type :=
| Return
| Crash                                       (** a panic *)
| Do (c : call) (k : answer → prog)
| Spawn (child k : prog)                      (** [task::spawn(child)], detached *)
| Loop (body k : prog)                        (** [loop { body } k] *)
| Break
| Continue.

Notation "'let*' x ':=' c 'in' k" := (Do c (λ x, k))
  (at level 10, x binder, k at level 200) : echo_scope.

(** A task in progress: what it does next, and the loops it is in (body and
    what follows the loop), innermost first. *)
Definition config : Type := prog * list (prog * prog).

Inductive label : Type :=
| LCall (c : call) (a : answer)
| LSpawn (child : prog)
| LTau.

Inductive step : config → label → config → Prop :=
| step_do c k a st : step (Do c k, st) (LCall c a) (k a, st)
| step_spawn p k st : step (Spawn p k, st) (LSpawn p) (k, st)
| step_loop b k st : step (Loop b k, st) LTau (b, (b, k) :: st)
| step_break b k st : step (Break, (b, k) :: st) LTau (k, st)
| step_continue b k st : step (Continue, (b, k) :: st) LTau (b, (b, k) :: st).

Inductive steps : config → list label → config → Prop :=
| steps_refl cf : steps cf [] cf
| steps_step cf l cf' ls cf'' : step cf l cf' → steps cf' ls cf'' → steps cf (l :: ls) cf''.

(** The executable run against a script of answers: the labels of the run and
    where it stands when the fuel or the script is used up. *)
Fixpoint run (fuel : nat) (cf : config) (env : list answer) : list label * config :=
  match fuel with
  | O => ([], cf)
  | S f =>
      match cf with
      | (Do c k, st) =>
          match env with
          | [] => ([], cf)
          | a :: env' => let (ls, cf') := run f (k a, st) env' in (LCall c a :: ls, cf')
          end
      | (Spawn p k, st) => let (ls, cf') := run f (k, st) env in (LSpawn p :: ls, cf')
      | (Loop b k, st) => let (ls, cf') := run f (b, (b, k) :: st) env in (LTau :: ls, cf')
      | (Break, (b, k) :: st) => let (ls, cf') := run f (k, st) env in (LTau :: ls, cf')
      | (Continue, (b, k) :: st) =>
          let (ls, cf') := run f (b, (b, k) :: st) env in (LTau :: ls, cf')
      | _ => ([], cf)
      end
  end.

Lemma run_steps (fuel : nat) (cf cf' : config) (env : list answer) (ls : list label) :
  run fuel cf env = (ls, cf') → steps cf ls cf'.
Proof.
  revert cf env ls. induction fuel as [|f IH]; intros cf env ls; cbn [run].
  { intros [= <- <-]. constructor. }
  assert (Hs : ∀ cf1 l env1, step cf l cf1 →
    (let (ls', cf2) := run f cf1 env1 in (l :: ls', cf2)) = (ls, cf') → steps cf ls cf').
  { intros cf1 l env1 Hst. destruct (run f cf1 env1) as [ls' cf2] eqn:E.
    intros [= <- <-]. econstructor; [exact Hst|]. by eapply IH. }
  destruct cf as [[| |c k|p k|b k| |] st].
  - intros [= <- <-]; constructor.
  - intros [= <- <-]; constructor.
  - destruct env as [|a env]; [intros [= <- <-]; constructor|]. apply Hs. constructor.
  - apply Hs. constructor.
  - apply Hs. constructor.
  - destruct st as [|[b k] st]; [intros [= <- <-]; constructor|]. apply Hs. constructor.
  - destruct st as [|[b k] st]; [intros [= <- <-]; constructor|]. apply Hs. constructor.
Qed.

(** What a run did: its calls, in order. *)
Definition calls_of (ls : list label) : list (call * answer) :=
  omap (λ l, match l with LCall c a => Some (c, a) | _ => None end) ls.

(** The frames a run handed to the session's writer. *)
Definition frames_of (ls : list label) : list Frame :=
  omap (λ l, match l with LCall (Send f) a => if is_ok a then Some f else None | _ => None end) ls.

(** ** Protocols

    A protocol says which call may be made in which state and where its answer
    leads; which child may be spawned; and where the task may return. *)
Record protocol := {
  pstate : Type;
  p_call : pstate → call → answer → option pstate;
  p_spawn : pstate → prog → pstate → Prop;
  p_end : pstate → Prop;
  p_answer : call → answer → Prop   (** the answers the environment can give *)
}.

Section Protocol.
Context (P : protocol).

Notation pred := (pstate P → Prop).

(** The weakest precondition of [p]; [B] and [C] are what [break] and
    [continue] must establish. *)
Fixpoint wp (p : prog) (B C : pred) (q : pstate P) : Prop :=
  match p with
  | Return => p_end P q
  | Crash => False
  | Do c k => ∀ a, p_answer P c a → ∃ q', p_call P q c a = Some q' ∧ wp (k a) B C q'
  | Spawn p' k => ∃ q', p_spawn P q p' q' ∧ wp k B C q'
  | Loop b k => ∃ I : pred, I q ∧ ∀ q', I q' → wp b (wp k B C) I q'
  | Break => B q
  | Continue => C q
  end.

(** [break] and [continue] outside a loop do not occur in a program. *)
Definition nowhere : pred := λ _, False.

Definition follows (p : prog) (q : pstate P) : Prop := wp p nowhere nowhere q.

(** The loops a task is in, with their invariants. *)
Fixpoint stack_ok (st : list (prog * prog)) (B C : pred) : Prop :=
  match st with
  | [] => ∀ q, ¬ B q ∧ ¬ C q
  | (b, k) :: st' => ∃ B' C', stack_ok st' B' C' ∧
      (∀ q, B q → wp k B' C' q) ∧ (∀ q, C q → wp b B C q)
  end.

Definition config_ok (cf : config) (q : pstate P) : Prop :=
  ∃ B C, stack_ok (snd cf) B C ∧ wp (fst cf) B C q.

Lemma follows_config (p : prog) (q : pstate P) : follows p q → config_ok (p, []) q.
Proof. intros H. exists nowhere, nowhere. split; [|done]. cbn. intros ?. split; intros []. Qed.

(** The state after a label the environment can produce. *)
Definition advance (q : pstate P) (l : label) (q' : pstate P) : Prop :=
  match l with
  | LCall c a => p_call P q c a = Some q'
  | LSpawn p => p_spawn P q p q'
  | LTau => q' = q
  end.

Definition possible (l : label) : Prop :=
  match l with LCall c a => p_answer P c a | _ => True end.

Lemma config_ok_step (cf cf' : config) (l : label) (q : pstate P) :
  config_ok cf q → step cf l cf' → possible l → ∃ q', advance q l q' ∧ config_ok cf' q'.
Proof.
  intros (B & C & Hst & Hw) Hstep Hp. destruct Hstep; cbn in *.
  - destruct (Hw a Hp) as (q' & Hq & Hw'). exists q'. split; [done|]. by exists B, C.
  - destruct Hw as (q' & Hq & Hw'). exists q'. split; [done|]. by exists B, C.
  - destruct Hw as (I & HI & Hb). exists q. split; [done|]. exists (wp k B C), I.
    split; [|by apply Hb]. exists B, C. split_and!; [done|done|]. intros q'. apply Hb.
  - destruct Hst as (B' & C' & Hst & HB & _). exists q. split; [done|].
    exists B', C'. split; [done|]. by apply HB.
  - destruct Hst as (B' & C' & Hst & HB & HC). exists q. split; [done|].
    exists B, C. split; [by exists B', C'|]. by apply HC.
Qed.

(** A trace of the protocol, from [q] to [q']. *)
Inductive accepts : pstate P → list label → pstate P → Prop :=
| accepts_nil q : accepts q [] q
| accepts_cons q l q1 ls q' : advance q l q1 → accepts q1 ls q' → accepts q (l :: ls) q'.

(** Soundness: every run of a program that follows the protocol is accepted,
    however the environment answers; where it stands it can go on, or it has
    returned in a final state of the protocol. *)
Lemma config_ok_steps (cf cf' : config) (ls : list label) (q : pstate P) :
  config_ok cf q → steps cf ls cf' → Forall possible ls →
  ∃ q', accepts q ls q' ∧ config_ok cf' q'.
Proof.
  intros Hok Hs. revert q Hok. induction Hs as [cf|cf l cf1 ls cf2 Hstep _ IH]; intros q Hok Hl.
  - exists q. split; [constructor|done].
  - apply Forall_cons in Hl as [Hl Hls].
    destruct (config_ok_step _ _ _ _ Hok Hstep Hl) as (q1 & Ha & Hok1).
    destruct (IH q1 Hok1 Hls) as (q' & Hacc & Hok'). exists q'. split; [by econstructor|done].
Qed.

Lemma config_ok_progress (cf : config) (q : pstate P) :
  config_ok cf q →
  (fst cf = Return ∧ p_end P q) ∨ (∃ c k, fst cf = Do c k) ∨
  (∃ l cf', step cf l cf' ∧ ∀ c a, l ≠ LCall c a).
Proof.
  intros (B & C & Hst & Hw). destruct cf as [[| |c k|p k|b k| |] st]; cbn in *.
  - by left.
  - done.
  - right. left. by exists c, k.
  - right. right. exists (LSpawn p), (k, st). split; [constructor|done].
  - right. right. exists LTau, (b, (b, k) :: st). split; [constructor|done].
  - right. right. destruct st as [|[b k] st]; [by destruct (Hst q)|].
    exists LTau, (k, st). split; [constructor|done].
  - right. right. destruct st as [|[b k] st]; [by destruct (Hst q)|].
    exists LTau, (b, (b, k) :: st). split; [constructor|done].
Qed.

(** What following a protocol means for the runs of a program: every run is a
    trace of the protocol; it does not panic; where it stops short of a call
    it has returned, in a final state. *)
Definition refines (p : prog) (q : pstate P) : Prop :=
  ∀ ls cf, steps (p, []) ls cf → Forall possible ls →
  ∃ q', accepts q ls q' ∧ fst cf ≠ Crash ∧ (fst cf = Return → p_end P q') ∧
    (fst cf = Return ∨ (∃ c k, fst cf = Do c k) ∨
     ∃ l cf', step cf l cf' ∧ ∀ c a, l ≠ LCall c a).

Lemma follows_refines (p : prog) (q : pstate P) : follows p q → refines p q.
Proof.
  intros Hf ls cf Hs Hl.
  destruct (config_ok_steps _ _ _ _ (follows_config p q Hf) Hs Hl) as (q' & Ha & Hok).
  exists q'. pose proof (config_ok_progress _ _ Hok) as Hp.
  destruct Hok as (B & C & _ & Hw). split_and!; [done| | |].
  - intros Hc. by rewrite Hc in Hw.
  - intros Hr. by rewrite Hr in Hw.
  - destruct Hp as [[? _]|[?|?]]; auto.
Qed.

End Protocol.

(** The bytes a run read from the local connection, and wrote to it. *)
Definition reads_of (ls : list label) : bytes :=
  concat (omap (λ l, match l with LCall TcpRead (ABytes d) => Some d | _ => None end) ls).

Definition writes_of (ls : list label) : list bytes :=
  omap (λ l, match l with LCall (TcpWrite d) _ => Some d | _ => None end) ls.
