(* ===== verification/Relay.v ===== *)
(** * The two halves of a stream's relay

    The client ([client/src/lib.rs], [do_mux_relay]) and the server
    ([server/src/lib.rs], [handle_open]) pump a stream with the same two loops;
    on the server the local connection is the one to the destination. *)
From S2P Require Import Prelude Frame Task.

(** The spawned write task: [data_rx] to the local connection. *)
Definition write_task : prog :=
  Loop (let* r := DataRecv in
        match r with
        | ABytes data =>
            let* w := TcpWrite data in if is_ok w then Continue else Break
        | _ => Break
        end)
  Return.

(** The read loop: the local connection to DATA frames. *)
Definition read_loop (id : N) (k : prog) : prog :=
  Loop (let* r := TcpRead in
        match r with
        | ABytes (b :: t) =>
            let* w := Send (Data id (b :: t)) in if is_ok w then Continue else Break
        | _ => Break
        end)
  k.
