(* ===== verification/Channel.v ===== *)
(** * Bounded channels

    What the programs rely on of [async_channel]: a bounded FIFO queue whose
    senders wait while it is full and fail once it is closed, and whose
    receiver drains what is queued before it fails.  A channel is closed when
    its last sender or its last receiver is dropped. *)
From S2P Require Import Prelude.

Class ChannelLib := {
  chan : Type → Type;
  bounded {A : Type} : nat → chan A;
  queued {A : Type} : chan A → list A;
  capacity {A : Type} : chan A → nat;
  is_closed {A : Type} : chan A → bool;
  push {A : Type} : A → chan A → option (chan A);   (** a send that is accepted now *)
  pull {A : Type} : chan A → option (A * chan A);   (** a receive that is served now *)
  shut {A : Type} : chan A → chan A;

  bounded_spec {A : Type} (n : nat) :
    queued (bounded (A:=A) n) = [] ∧ capacity (bounded (A:=A) n) = n ∧
    is_closed (bounded (A:=A) n) = false;
  push_spec {A : Type} (a : A) (c c' : chan A) :
    push a c = Some c' →
    is_closed c = false ∧ length (queued c) < capacity c ∧
    queued c' = queued c ++ [a] ∧ capacity c' = capacity c ∧ is_closed c' = false;
  push_ready {A : Type} (a : A) (c : chan A) :
    is_closed c = false → length (queued c) < capacity c → is_Some (push a c);
  pull_spec {A : Type} (a : A) (c c' : chan A) :
    pull c = Some (a, c') →
    queued c = a :: queued c' ∧ capacity c' = capacity c ∧ is_closed c' = is_closed c;
  pull_ready {A : Type} (c : chan A) : queued c ≠ [] → is_Some (pull c);
  shut_spec {A : Type} (c : chan A) :
    queued (shut c) = queued c ∧ capacity (shut c) = capacity c ∧ is_closed (shut c) = true
}.

(** A concrete instance, for evaluating examples. *)
Record queue_chan (A : Type) := { q_items : list A; q_cap : nat; q_closed : bool }.
Arguments q_items {A} _.
Arguments q_cap {A} _.
Arguments q_closed {A} _.

Program Definition queue_channels : ChannelLib :=
  {| chan := queue_chan;
     bounded A n := {| q_items := []; q_cap := n; q_closed := false |};
     queued A := q_items; capacity A := q_cap; is_closed A := q_closed;
     push A a c :=
       if negb (q_closed c) && (length (q_items c) <? q_cap c) then
         Some {| q_items := q_items c ++ [a]; q_cap := q_cap c; q_closed := q_closed c |}
       else None;
     pull A c :=
       match q_items c with
       | [] => None
       | a :: q => Some (a, {| q_items := q; q_cap := q_cap c; q_closed := q_closed c |})
       end;
     shut A c := {| q_items := q_items c; q_cap := q_cap c; q_closed := true |} |}.
Next Obligation. done. Qed.
Next Obligation.
  intros A a c c' H. cbn -[Nat.ltb] in *. destruct (q_closed c) eqn:Ec; [done|].
  cbn -[Nat.ltb] in H. destruct (length (q_items c) <? q_cap c) eqn:El; [|done]. injection H as <-. cbn. split_and!; try done. blia.
Qed.
Next Obligation.
  intros A a c Hc Hl. cbn -[Nat.ltb] in *. rewrite Hc. cbn -[Nat.ltb].
  rewrite (proj2 (Nat.ltb_lt _ _) Hl). by eexists.
Qed.
Next Obligation.
  intros A a c c' H. cbn in *. destruct (q_items c); [done|]. by injection H as <- <-.
Qed.
Next Obligation. intros A c H. cbn in *. destruct (q_items c); [done|]. by eexists. Qed.
Next Obligation. done. Qed.

(** ** The transport

    What the programs rely on of a WebSocket over TCP: [ws_sink.send(m).await]
    completes when the transport has taken the message, and it takes it when
    what the peer has not read yet leaves room ([has_room]); a transport with
    nothing under way takes a message.  How much it holds is the system's
    choice. *)
Class Transport := {
  has_room : list bytes → bool;
  room_empty : has_room [] = true
}.

(** One that holds [n] messages more than the first, and the narrowest of these,
    with which the examples run. *)
Definition transport_of (n : nat) : Transport :=
  {| has_room l := length l <? S n; room_empty := eq_refl |}.
Definition one_message : Transport := transport_of 0.

Section Lemmas.
Context `{ChannelLib} {A : Type}.

Lemma push_queued (a : A) (c c' : chan A) : push a c = Some c' → queued c' = queued c ++ [a].
Proof. intros Hp. by apply push_spec in Hp as (_ & _ & Hq & _). Qed.

Lemma shut_queued (c : chan A) : queued (shut c) = queued c.
Proof. by destruct (shut_spec c) as (Hq & _). Qed.

Lemma shut_closed (c : chan A) : is_closed (shut c) = true.
Proof. by destruct (shut_spec c) as (_ & _ & Hc). Qed.

Lemma shut_capacity (c : chan A) : capacity (shut c) = capacity c.
Proof. by destruct (shut_spec c) as (_ & Hc & _). Qed.

(** A closed channel refuses, and drains to the end. *)
Lemma push_closed (a : A) (c : chan A) : is_closed c = true → push a c = None.
Proof.
  intros Hc. destruct (push a c) as [c'|] eqn:E; [|done]. apply push_spec in E as [E _]. congruence.
Qed.

Lemma push_full (a : A) (c : chan A) : capacity c ≤ length (queued c) → push a c = None.
Proof.
  intros Hc. destruct (push a c) as [c'|] eqn:E; [|done]. apply push_spec in E as (_ & E & _). lia.
Qed.

Lemma pull_empty (c : chan A) : queued c = [] → pull c = None.
Proof.
  intros Hq. destruct (pull c) as [[a c']|] eqn:E; [|done]. apply pull_spec in E as [E _]. congruence.
Qed.

End Lemmas.

#[export] Hint Rewrite @shut_queued @shut_closed @shut_capacity : echo_rw.
