(* ===== verification/Registry.v ===== *)
(** * The stream registry ([core-lib/src/session.rs])

    [StreamRegistry]: the map from stream ids to the senders of the streams'
    data channels.  The channels themselves are a shared store, since the
    receiving ends live in other tasks, and a [route] that waits for room
    holds a sender of its own.  A channel closes when its last sender goes. *)
From S2P Require Import Prelude Channel.

Section Registry.
Context `{ChannelLib}.

(** [frame_channel]: the channel of the mux writer loop. *)
Definition frame_channel (A : Type) (cap : nat) : chan A := bounded cap.

(** [StreamRegistry.inner], the store, and the sender a pending [route] holds
    with the payload it carries. *)
Record streams := {
  inner : gmap N nat;
  heap : gmap nat (chan bytes);
  fresh : nat;
  held : option (nat * bytes)
}.

(** [StreamRegistry::new] *)
Definition registry_new : streams :=
  {| inner := ∅; heap := ∅; fresh := 0; held := None |}.

Definition in_use (s : streams) (r : nat) : bool :=
  bool_decide (map_Exists (λ _ r', r' = r) (inner s)) ||
  match held s with Some (r', _) => r' =? r | None => false end.

Definition set_heap (s : streams) (h : gmap nat (chan bytes)) : streams :=
  {| inner := inner s; heap := h; fresh := fresh s; held := held s |}.

(** Drop a sender of channel [r] that is no longer in [s]: when it was the
    last one the channel closes. *)
Definition drop_sender (r : nat) (s : streams) : streams :=
  if in_use s r then s else set_heap s (alter shut r (heap s)).

Definition with_inner (s : streams) (m : gmap N nat) : streams :=
  {| inner := m; heap := heap s; fresh := fresh s; held := held s |}.

(** The sender [insert] or [remove] returns is dropped. *)
Definition drop_old (old : option nat) (s : streams) : streams :=
  match old with Some r => drop_sender r s | None => s end.

(** [StreamRegistry::register]: the receiving end and the state after. *)
Definition register (id : N) (s : streams) : nat * streams :=
  let r := fresh s in
  let s' := {| inner := <[id := r]> (inner s); heap := <[r := bounded 32]> (heap s);
               fresh := S r; held := held s |} in
  (r, drop_old (inner s !! id) s').

(** [StreamRegistry::route], up to its await: look up and clone the sender. *)
Definition route_start (id : N) (data : bytes) (s : streams) : streams :=
  match inner s !! id with
  | Some r => {| inner := inner s; heap := heap s; fresh := fresh s; held := Some (r, data) |}
  | None => s
  end.

(** [let _ = tx.send(data).await]: [None] while the channel is full. *)
Definition route_finish (s : streams) : option streams :=
  match held s with
  | None => Some s
  | Some (r, data) =>
      let released := {| inner := inner s; heap := heap s; fresh := fresh s; held := None |} in
      match heap s !! r with
      | None => Some released
      | Some c =>
          if is_closed c then Some (drop_sender r released)
          else match push data c with
               | Some c' => Some (drop_sender r (set_heap released (<[r := c']> (heap s))))
               | None => None
               end
      end
  end.

(** The future of a pending [route] is dropped at its await: the payload is gone
    and so is the sender. *)
Definition abandon (s : streams) : streams :=
  match held s with
  | Some (r, _) => drop_sender r {| inner := inner s; heap := heap s; fresh := fresh s; held := None |}
  | None => s
  end.

(** [StreamRegistry::close] *)
Definition close (id : N) (s : streams) : streams :=
  drop_old (inner s !! id) (with_inner s (delete id (inner s))).

(** [StreamRegistry::close_all] *)
Definition close_all (s : streams) : streams :=
  foldr (λ r, drop_sender r) (with_inner s ∅) (map snd (map_to_list (inner s))).

(** The stream task's side: [data_rx.recv()], and dropping the receiver. *)
Definition receive (r : nat) (s : streams) : option (bytes * streams) :=
  c ← heap s !! r; '(d, c') ← pull c; Some (d, set_heap s (<[r := c']> (heap s))).

Definition drop_receiver (r : nat) (s : streams) : streams := set_heap s (alter shut r (heap s)).

(** ** Lemmas *)

Definition queue_at (s : streams) (r : nat) : option (list bytes) := queued <$> heap s !! r.

Lemma queue_alter_shut (h : gmap nat (chan bytes)) (r r' : nat) :
  queued <$> alter shut r h !! r' = queued <$> h !! r'.
Proof.
  destruct (decide (r = r')) as [->|Hn].
  - rewrite lookup_alter. destruct (h !! r') as [c|]; simpl; [|by case_decide].
    case_decide; simpl; [|done]. by rewrite shut_queued.
  - by rewrite lookup_alter_ne.
Qed.

Lemma in_use_iff (s : streams) (r : nat) :
  in_use s r = true ↔ (∃ i, inner s !! i = Some r) ∨ (∃ d, held s = Some (r, d)).
Proof.
  unfold in_use. rewrite orb_true_iff, bool_decide_eq_true. unfold map_Exists.
  destruct (held s) as [[r' d]|]; [rewrite Nat.eqb_eq|]; naive_solver.
Qed.

Lemma in_use_false (s : streams) (r : nat) :
  in_use s r = false ↔ (∀ i, inner s !! i ≠ Some r) ∧ (∀ d, held s ≠ Some (r, d)).
Proof. rewrite <- not_true_iff_false, in_use_iff. naive_solver. Qed.

(** The invariant; the channels of [l] may have lost their last sender
    without being closed yet. *)
Record wf_but (l : list nat) (s : streams) : Prop := {
  wf_inj i j r : inner s !! i = Some r → inner s !! j = Some r → i = j;
  wf_bound r : in_use s r = true → r < fresh s;
  wf_heap r : r < fresh s ↔ is_Some (heap s !! r);
  wf_cap r c : heap s !! r = Some c → capacity c = 32 ∧ length (queued c) ≤ 32;
  wf_closed r c : heap s !! r = Some c → in_use s r = false → r ∈ l ∨ is_closed c = true
}.

(** No two streams share a channel, channels hold at most 32 payloads, and a
    channel without a sender is closed. *)
Definition wf_streams (s : streams) : Prop := wf_but [] s.

Lemma alter_shut_inv (h : gmap nat (chan bytes)) (r r' : nat) (c : chan bytes) :
  alter shut r h !! r' = Some c →
  ∃ c0, h !! r' = Some c0 ∧ capacity c = capacity c0 ∧ queued c = queued c0 ∧
    ((r = r' ∧ is_closed c = true) ∨ (r ≠ r' ∧ c = c0)).
Proof.
  destruct (decide (r = r')) as [->|Hn].
  - rewrite lookup_alter_Some. intros [(_ & c0 & Hc & ->)|[? _]]; [|done].
    exists c0. rewrite shut_capacity, shut_queued, shut_closed. split_and!; [done..|by left].
  - rewrite lookup_alter_ne by done. intros Hc. exists c. split_and!; [done..|by right].
Qed.

Lemma wf_set_shut (l : list nat) (r : nat) (s : streams) :
  wf_but (r :: l) s → wf_but l (set_heap s (alter shut r (heap s))).
Proof.
  intros [Hi Hb Hh Hc Hx]. split; cbn.
  - exact Hi.
  - exact Hb.
  - intros r'. rewrite Hh. unfold is_Some. setoid_rewrite lookup_alter_Some.
    split; [intros [c Hr]|intros [c Hr]].
    + destruct (decide (r = r')) as [->|Hn]; [exists (shut c)|exists c]; naive_solver.
    + naive_solver.
  - intros r' c (c0 & Hr & -> & -> & _)%alter_shut_inv. by apply (Hc r').
  - intros r' c (c0 & Hr & _ & _ & [[_ ?]|[Hn ->]])%alter_shut_inv Hu; [by right|].
    destruct (Hx r' c0 Hr Hu) as [[->|?]%elem_of_cons|?]; [done|by left|by right].
Qed.

Lemma wf_drop_sender (l : list nat) (r : nat) (s : streams) :
  wf_but (r :: l) s → wf_but l (drop_sender r s).
Proof.
  intros Hwf. unfold drop_sender. destruct (in_use s r) eqn:Eu; [|by apply wf_set_shut].
  destruct Hwf as [Hi Hb Hh Hc Hx]. split; [done..|].
  intros r' c Hr Hu. destruct (Hx r' c Hr Hu) as [[->|?]%elem_of_cons|?]; [congruence|by left|by right].
Qed.

Lemma drop_sender_same (r : nat) (s : streams) :
  inner (drop_sender r s) = inner s ∧ fresh (drop_sender r s) = fresh s ∧
  held (drop_sender r s) = held s ∧ ∀ r', queue_at (drop_sender r s) r' = queue_at s r'.
Proof.
  unfold drop_sender. destruct (in_use s r); [done|]. split_and!; [done..|].
  intros r'. unfold queue_at. cbn. apply queue_alter_shut.
Qed.

Lemma drop_old_same (o : option nat) (s : streams) :
  inner (drop_old o s) = inner s ∧ held (drop_old o s) = held s ∧
  ∀ r', queue_at (drop_old o s) r' = queue_at s r'.
Proof. destruct o as [r|]; cbn; [|done]. destruct (drop_sender_same r s) as (? & _ & ? & ?). done. Qed.

Lemma foldr_drop_same (l : list nat) (s : streams) :
  let s' := foldr (λ r, drop_sender r) s l in
  inner s' = inner s ∧ held s' = held s ∧ ∀ r', queue_at s' r' = queue_at s r'.
Proof.
  induction l as [|r l (IHi & IHh & IHq)]; cbn; [done|].
  destruct (drop_sender_same r (foldr (λ r, drop_sender r) s l)) as (-> & _ & -> & Hq).
  split_and!; [done..|]. intros r'. by rewrite Hq.
Qed.

(** ** Every operation keeps the invariant *)

Lemma wf_register (id : N) (s : streams) : wf_streams s → wf_streams (snd (register id s)).
Proof.
  intros [Hi Hb Hh Hc Hx]. unfold register. cbn [snd].
  assert (Hf : ∀ i r, inner s !! i = Some r → r < fresh s).
  { intros i r Hr. apply Hb, in_use_iff. eauto. }
  assert (Hwf : wf_but (option_list (inner s !! id))
    {| inner := <[id := fresh s]> (inner s); heap := <[fresh s := bounded 32]> (heap s);
       fresh := S (fresh s); held := held s |}).
  { split; cbn.
    - intros i j r. rewrite !lookup_insert_Some.
      intros [[<- <-]|[Hni Hr1]] [[<- E]|[Hnj Hr2]]; try done.
      + apply Hf in Hr2. lia.
      + subst r. apply Hf in Hr1. lia.
      + by eapply Hi.
    - intros r [(i & Hr)|(d & Hr)]%in_use_iff; cbn in Hr.
      + rewrite lookup_insert_Some in Hr. destruct Hr as [[_ <-]|[_ Hr]]; [lia|]. apply Hf in Hr. lia.
      + assert (r < fresh s); [|lia]. apply Hb, in_use_iff. eauto.
    - intros r. destruct (decide (r = fresh s)) as [->|Hn].
      + rewrite lookup_insert_eq. split; [eauto|lia].
      + rewrite lookup_insert_ne by done. rewrite <- Hh. lia.
    - intros r c. rewrite lookup_insert_Some. intros [[<- <-]|[_ Hr]]; [|by eapply Hc].
      destruct (bounded_spec (A:=bytes) 32) as (-> & -> & _). cbn. lia.
    - intros r c. rewrite lookup_insert_Some, in_use_false. cbn.
      intros [[<- _]|[Hn Hr]] [Hu1 Hu2].
      + destruct (Hu1 id). by rewrite lookup_insert_eq.
      + destruct (in_use s r) eqn:Eu.
        * left. apply in_use_iff in Eu as [(i & Hri)|(d & Hd)]; [|by destruct (Hu2 d)].
          destruct (decide (i = id)) as [->|Hni]; [rewrite Hri; left|].
          destruct (Hu1 i). by rewrite lookup_insert_ne.
        * destruct (Hx r c Hr Eu) as [[]%elem_of_nil|?]. by right. }
  destruct (inner s !! id) as [r|]; [|done]. by apply wf_drop_sender.
Qed.

Lemma wf_close (id : N) (s : streams) : wf_streams s → wf_streams (close id s).
Proof.
  intros [Hi Hb Hh Hc Hx]. unfold close.
  assert (Hwf : wf_but (option_list (inner s !! id)) (with_inner s (delete id (inner s)))).
  { split; cbn.
    - intros i j r [_ H1]%lookup_delete_Some [_ H2]%lookup_delete_Some. by eapply Hi.
    - intros r [(i & Hr)|(d & Hr)]%in_use_iff; cbn in Hr; [apply lookup_delete_Some in Hr as [_ Hr]|];
        apply Hb, in_use_iff; eauto.
    - exact Hh.
    - exact Hc.
    - intros r c Hr [Hu1 Hu2]%in_use_false. cbn in *. destruct (in_use s r) eqn:Eu.
      + left. apply in_use_iff in Eu as [(i & Hri)|(d & Hd)]; [|by destruct (Hu2 d)].
        destruct (decide (i = id)) as [->|Hni]; [rewrite Hri; left|].
        destruct (Hu1 i). by rewrite lookup_delete_ne.
      + destruct (Hx r c Hr Eu) as [[]%elem_of_nil|?]. by right. }
  destruct (inner s !! id) as [r|]; [|done]. by apply wf_drop_sender.
Qed.

Lemma wf_foldr_drop (l k : list nat) (s : streams) :
  wf_but (l ++ k) s → wf_but k (foldr (λ r, drop_sender r) s l).
Proof.
  revert k. induction l as [|r l IH]; intros k Hwf; cbn; [done|].
  apply wf_drop_sender, IH. destruct Hwf as [Hi Hb Hh Hc Hx]. split; try done.
  intros r' c Hr Hu. destruct (Hx r' c Hr Hu) as [Hin|?]; [left|by right].
  rewrite elem_of_app, elem_of_cons. cbn in Hin. rewrite elem_of_cons, elem_of_app in Hin. tauto.
Qed.

Lemma wf_close_all (s : streams) : wf_streams s → wf_streams (close_all s).
Proof.
  intros [Hi Hb Hh Hc Hx]. unfold close_all. apply wf_foldr_drop. split; cbn.
  - intros i j r Hr. by rewrite lookup_empty in Hr.
  - intros r [(i & Hr)|(d & Hr)]%in_use_iff; cbn in Hr; [by rewrite lookup_empty in Hr|].
    apply Hb, in_use_iff. eauto.
  - exact Hh.
  - exact Hc.
  - intros r c Hr [Hu1 Hu2]%in_use_false. cbn in *. rewrite app_nil_r.
    destruct (in_use s r) eqn:Eu.
    + left. apply in_use_iff in Eu as [(i & Hri)|(d & Hd)]; [|by destruct (Hu2 d)].
      apply list_elem_of_fmap. exists (i, r). split; [done|]. by apply elem_of_map_to_list.
    + destruct (Hx r c Hr Eu) as [[]%elem_of_nil|?]. by right.
Qed.

Lemma wf_route_start (id : N) (d : bytes) (s : streams) :
  held s = None → wf_streams s → wf_streams (route_start id d s).
Proof.
  intros Hn Hwf. unfold route_start. destruct (inner s !! id) as [r|] eqn:Er; [|done].
  destruct Hwf as [Hi Hb Hh Hc Hx]. split; cbn; try done.
  - intros r' [(i & Hr)|(d' & [= <- <-])]%in_use_iff; apply Hb, in_use_iff; eauto.
  - intros r' c Hr [Hu1 Hu2]%in_use_false. cbn in *. apply (Hx r' c Hr), in_use_false.
    split; [done|]. intros d'. by rewrite Hn.
Qed.

(** Giving up the held sender leaves only its channel to be closed. *)
Lemma wf_release (s : streams) (r : nat) (d : bytes) (h : gmap nat (chan bytes)) :
  held s = Some (r, d) → wf_streams s →
  (∀ r', is_Some (h !! r') ↔ is_Some (heap s !! r')) →
  (∀ r' c, h !! r' = Some c → capacity c = 32 ∧ length (queued c) ≤ 32) →
  (∀ r' c, r' ≠ r → h !! r' = Some c → heap s !! r' = Some c) →
  wf_but [r] {| inner := inner s; heap := h; fresh := fresh s; held := None |}.
Proof.
  intros Hd [Hi Hb Hh Hc Hx] Hdom Hcap Hsame. split; cbn.
  - exact Hi.
  - intros r' [(i & Hr)|(d' & Hr)]%in_use_iff; cbn in Hr; [|done]. apply Hb, in_use_iff. eauto.
  - intros r'. by rewrite Hdom.
  - exact Hcap.
  - intros r' c Hr [Hu _]%in_use_false. cbn in *.
    destruct (decide (r' = r)) as [->|Hn]; [left; left|].
    destruct (Hx r' c) as [[]%elem_of_nil|?]; [by apply Hsame| |by right].
    apply in_use_false. split; [done|]. intros d'. rewrite Hd. intros [= <- _]. done.
Qed.

Lemma wf_route_finish (s s' : streams) : wf_streams s → route_finish s = Some s' → wf_streams s'.
Proof.
  intros Hwf. unfold route_finish. destruct (held s) as [[r d]|] eqn:Hd; [|by intros [= <-]].
  assert (Hr : is_Some (heap s !! r)).
  { apply (wf_heap _ _ Hwf), (wf_bound _ _ Hwf), in_use_iff. eauto. }
  destruct Hr as [c Hr]. rewrite Hr. destruct (is_closed c) eqn:Ec.
  { intros [= <-]. apply wf_drop_sender. eapply wf_release; [exact Hd|done..|by apply Hwf|done]. }
  destruct (push d c) as [c'|] eqn:Ep; [|done]. intros [= <-]. apply wf_drop_sender.
  apply push_spec in Ep as (_ & Hl & Hq & Hk & _). destruct (wf_cap _ _ Hwf r c Hr) as [Hcap _].
  apply (wf_release s r d (<[r := c']> (heap s))); [done|done|..].
  - intros r'. destruct (decide (r = r')) as [<-|Hn]; [rewrite lookup_insert_eq, Hr; by split|].
    by rewrite lookup_insert_ne.
  - intros r' c0. rewrite lookup_insert_Some. intros [[<- <-]|[_ H0]]; [|by eapply wf_cap].
    rewrite Hq, length_app. cbn. lia.
  - intros r' c0 Hn. by rewrite lookup_insert_ne.
Qed.

Lemma wf_abandon (s : streams) : wf_streams s → wf_streams (abandon s).
Proof.
  intros Hwf. unfold abandon. destruct (held s) as [[r d]|] eqn:Hd; [|done]. apply wf_drop_sender.
  eapply wf_release; [exact Hd|done..|by apply Hwf|done].
Qed.

Lemma wf_receive (r : nat) (d : bytes) (s s' : streams) :
  wf_streams s → receive r s = Some (d, s') → wf_streams s'.
Proof.
  intros Hwf. unfold receive. destruct (heap s !! r) as [c|] eqn:Hr; [|done]. cbn.
  destruct (pull c) as [[d' c']|] eqn:Ep; [|done]. cbn. intros [= <- <-].
  apply pull_spec in Ep as (Hq & Hk & Hcl). destruct Hwf as [Hi Hb Hh Hc Hx]. split; cbn.
  - exact Hi.
  - exact Hb.
  - intros r'. rewrite Hh. destruct (decide (r = r')) as [<-|Hn].
    + rewrite lookup_insert_eq, Hr. by split.
    + by rewrite lookup_insert_ne.
  - intros r' c0. rewrite lookup_insert_Some. intros [[<- <-]|[_ H0]]; [|by eapply Hc].
    destruct (Hc r c Hr) as [? Hl]. rewrite Hq in Hl. cbn in Hl. rewrite Hk. split; [done|lia].
  - intros r' c0. rewrite lookup_insert_Some. intros [[<- <-]|[_ H0]] Hu; [|by eapply Hx].
    rewrite Hcl. by apply (Hx r).
Qed.

Lemma wf_drop_receiver (r : nat) (s : streams) : wf_streams s → wf_streams (drop_receiver r s).
Proof.
  intros [Hi Hb Hh Hc Hx]. apply wf_set_shut. split; [done..|].
  intros r' c Hr Hu. destruct (Hx r' c Hr Hu) as [[]%elem_of_nil|?]. by right.
Qed.

(** ** The abstract registry: a queue of payloads for every open stream *)

Definition abs (s : streams) : gmap N (list bytes) := omap (queue_at s) (inner s).

Lemma abs_lookup (s : streams) (id : N) : abs s !! id = inner s !! id ≫= queue_at s.
Proof. unfold abs. by rewrite lookup_omap. Qed.

Lemma abs_same (s s' : streams) :
  inner s' = inner s → (∀ r, queue_at s' r = queue_at s r) → abs s' = abs s.
Proof.
  intros Hi Hq. apply map_eq. intros id. rewrite !abs_lookup, Hi.
  destruct (inner s !! id); cbn; [apply Hq|done].
Qed.

Lemma abs_close_all (s : streams) : abs (close_all s) = ∅.
Proof.
  unfold close_all.
  destruct (foldr_drop_same (map snd (map_to_list (inner s))) (with_inner s ∅)) as (Hi & _ & Hq).
  rewrite (abs_same _ _ Hi Hq). apply map_eq. intros i. rewrite abs_lookup. cbn. by rewrite !lookup_empty.
Qed.

(** The operations, one at a time; a second [route] starts only after the
    first has finished, since one reader task calls it. *)
Inductive reg_step : streams → streams → Prop :=
| rs_register id s : reg_step s (snd (register id s))
| rs_route_start id d s : held s = None → reg_step s (route_start id d s)
| rs_route_finish s s' : route_finish s = Some s' → reg_step s s'
| rs_abandon s : reg_step s (abandon s)
| rs_close id s : reg_step s (close id s)
| rs_close_all s : reg_step s (close_all s)
| rs_receive r d s s' : receive r s = Some (d, s') → reg_step s s'
| rs_drop_receiver r s : reg_step s (drop_receiver r s).

Lemma wf_registry_new : wf_streams registry_new.
Proof.
  split; cbn.
  - intros i j r Hr. by rewrite lookup_empty in Hr.
  - intros r [(i & Hr)|(d & Hr)]%in_use_iff; cbn in Hr; [by rewrite lookup_empty in Hr|done].
  - intros r. rewrite lookup_empty. split; [lia|by intros []].
  - intros r c Hr. by rewrite lookup_empty in Hr.
  - intros r c Hr. by rewrite lookup_empty in Hr.
Qed.

Lemma wf_reg_step (s s' : streams) : reg_step s s' → wf_streams s → wf_streams s'.
Proof.
  destruct 1; [apply wf_register|by apply wf_route_start|intros ?; by eapply wf_route_finish|apply wf_abandon|
    apply wf_close|apply wf_close_all|intros ?; by eapply wf_receive|apply wf_drop_receiver].
Qed.

(** ** Properties *)

(** C20: In every state the registry can reach, no two streams share a channel,
    every data channel holds at most its 32 payloads, and a channel that has
    lost its last sender is closed, so its receiver cannot wait forever. *)
Theorem registry_invariant (s : streams) (Hreach : rtc reg_step registry_new s) :
  (∀ i j r, inner s !! i = Some r → inner s !! j = Some r → i = j) ∧
  (∀ r c, heap s !! r = Some c → length (queued c) ≤ 32) ∧
  (∀ r c, heap s !! r = Some c → in_use s r = false → is_closed c = true).
Proof.
  assert (Hwf : wf_streams s).
  { assert (Hk : ∀ s0 s1, rtc reg_step s0 s1 → wf_streams s0 → wf_streams s1).
    { induction 1 as [|s0 s1 s2 Hst _ IH]; [done|]. intros H0. by eapply IH, wf_reg_step. }
    by eapply Hk, wf_registry_new. }
  destruct Hwf as [Hi _ _ Hc Hx]. split_and!; [exact Hi| |].
  - intros r c Hr. by apply (Hc r).
  - intros r c Hr Hu. by destruct (Hx r c Hr Hu) as [[]%elem_of_nil|?].
Qed.

(** C19: [register], [close] and [close_all] implement the abstract registry:
    an empty queue for the new stream (replacing a stale one), the stream's
    removal, the removal of all; no other stream's queue changes. *)
Theorem registry_refines (id : N) (s : streams) (Hwf : wf_streams s) :
  abs (snd (register id s)) = <[id := []]> (abs s) ∧
  abs (close id s) = delete id (abs s) ∧ abs (close_all s) = ∅.
Proof.
  split_and!.
  - unfold register. cbn [snd].
    destruct (drop_old_same (inner s !! id) {| inner := <[id := fresh s]> (inner s);
      heap := <[fresh s := bounded 32]> (heap s); fresh := S (fresh s); held := held s |}) as (Hi & _ & Hq).
    rewrite (abs_same _ _ Hi Hq). apply map_eq. intros i. rewrite abs_lookup. cbn [inner].
    destruct (decide (i = id)) as [->|Hn].
    + rewrite !lookup_insert_eq. unfold queue_at. cbn. rewrite lookup_insert_eq. cbn.
      by destruct (bounded_spec (A:=bytes) 32) as (-> & _).
    + rewrite !lookup_insert_ne, abs_lookup by done. destruct (inner s !! i) as [r|] eqn:Er; [|done].
      unfold queue_at. cbn. rewrite lookup_insert_ne; [done|].
      assert (r < fresh s); [|lia]. apply (wf_bound _ _ Hwf), in_use_iff. eauto.
  - unfold close. destruct (drop_old_same (inner s !! id) (with_inner s (delete id (inner s)))) as (Hi & _ & Hq).
    rewrite (abs_same _ _ Hi Hq). apply map_eq. intros i. rewrite abs_lookup. cbn [inner with_inner].
    destruct (decide (i = id)) as [->|Hn]; [by rewrite !lookup_delete_eq|].
    by rewrite !lookup_delete_ne, abs_lookup by done.
  - apply abs_close_all.
Qed.

(** C18: [route] on every branch: an unknown stream's payload is dropped; a
    stream whose receiver is gone changes nothing; an open stream's payload
    goes to the end of its own queue and no other; and the call waits exactly
    while that queue holds 32 payloads. *)
Theorem route_correct (id : N) (d : bytes) (s : streams)
  (Hwf : wf_streams s) (Hidle : held s = None) :
  match inner s !! id with
  | None => route_finish (route_start id d s) = Some s
  | Some r => ∃ c, heap s !! r = Some c ∧
      if is_closed c then
        ∃ s', route_finish (route_start id d s) = Some s' ∧ abs s' = abs s ∧ held s' = None
      else if length (queued c) <? 32 then
        ∃ s', route_finish (route_start id d s) = Some s' ∧
          abs s' = <[id := queued c ++ [d]]> (abs s) ∧ held s' = None
      else route_finish (route_start id d s) = None
  end.
Proof.
  unfold route_start. destruct (inner s !! id) as [r|] eqn:Er.
  2:{ unfold route_finish. by rewrite Hidle. }
  assert (Hr : is_Some (heap s !! r)).
  { apply (wf_heap _ _ Hwf), (wf_bound _ _ Hwf), in_use_iff. eauto. }
  destruct Hr as [c Hr]. exists c. split; [done|]. unfold route_finish. cbn [held heap inner fresh].
  rewrite Hr. destruct (is_closed c) eqn:Ec.
  { eexists. split; [reflexivity|].
    destruct (drop_sender_same r {| inner := inner s; heap := heap s; fresh := fresh s; held := None |})
      as (Hi & _ & Hh & Hq). split; [by apply abs_same|done]. }
  destruct (wf_cap _ _ Hwf r c Hr) as [Hcap _]. destruct (length (queued c) <? 32) eqn:El.
  - destruct (push_ready d c Ec) as [c' Hp]; [rewrite Hcap; blia|]. rewrite Hp.
    apply push_queued in Hp. eexists. split; [reflexivity|].
    match goal with |- abs (drop_sender r ?t) = _ ∧ _ => set (s1 := t) end.
    destruct (drop_sender_same r s1) as (Hi & _ & Hh & Hq). split; [|by rewrite Hh].
    rewrite (abs_same s1 _ Hi Hq). apply map_eq. intros i. rewrite abs_lookup. cbn [inner s1 set_heap].
    destruct (decide (i = id)) as [->|Hn].
    + rewrite lookup_insert_eq, Er. unfold queue_at. cbn. rewrite lookup_insert_eq. cbn. by rewrite Hp.
    + rewrite lookup_insert_ne, abs_lookup by done. destruct (inner s !! i) as [r'|] eqn:Er'; [|done].
      unfold queue_at. cbn. rewrite lookup_insert_ne; [done|].
      intros <-. apply Hn. by apply (wf_inj _ _ Hwf i id r).
  - rewrite push_full; [done|]. rewrite Hcap. blia.
Qed.

(** The receiving task: take [n] payloads. *)
Fixpoint drain (n : nat) (r : nat) (s : streams) : list bytes * streams :=
  match n with
  | O => ([], s)
  | S n' =>
      match receive r s with
      | Some (d, s') => let (ds, s'') := drain n' r s' in (d :: ds, s'')
      | None => ([], s)
      end
  end.

Lemma drain_queue (q : list bytes) (r : nat) (s : streams) :
  queue_at s r = Some q →
  ∃ s', drain (length q) r s = (q, s') ∧ queue_at s' r = Some [] ∧ inner s' = inner s ∧
    (is_closed <$> heap s' !! r) = (is_closed <$> heap s !! r).
Proof.
  revert s. induction q as [|d q IH]; intros s Hq; cbn [drain length]; [by exists s|].
  unfold queue_at in Hq. destruct (heap s !! r) as [c|] eqn:Hr; [|done]. injection Hq as Hq.
  destruct (pull_ready c) as [[d' c'] Hp]; [by rewrite Hq|]. unfold receive. rewrite Hr. cbn. rewrite Hp. cbn.
  apply pull_spec in Hp as (Hc & _ & Hcl). rewrite Hq in Hc. injection Hc as <- Hc'.
  destruct (IH (set_heap s (<[r := c']> (heap s)))) as (s' & Hd & Hq' & Hi & Hx).
  { unfold queue_at. cbn. by rewrite lookup_insert_eq, Hc'. }
  cbn in Hd, Hx. rewrite Hd. exists s'. split_and!; [done..|].
  rewrite Hx, lookup_insert_eq. cbn. by rewrite Hcl.
Qed.

(** After [close] nothing queued is lost and nothing is added: the stream's
    receiver still takes every queued payload in order, then its channel is
    closed and empty, and further payloads for the stream are dropped. *)
Theorem close_drains (id : N) (r : nat) (q : list bytes) (d : bytes) (s : streams)
  (Hwf : wf_streams s) (Hidle : held s = None) (Hid : inner s !! id = Some r)
  (Hq : queue_at s r = Some q) :
  (∃ s', drain (length q) r (close id s) = (q, s') ∧ receive r s' = None ∧
     (is_closed <$> heap s' !! r) = Some true) ∧
  route_start id d (close id s) = close id s.
Proof.
  assert (Hu : in_use (with_inner s (delete id (inner s))) r = false).
  { apply in_use_false. cbn. rewrite Hidle. split; [|done].
    intros i [Hn Hi]%lookup_delete_Some. by apply Hn, (wf_inj _ _ Hwf id i r). }
  unfold close. rewrite Hid. cbn [drop_old]. unfold drop_sender. rewrite Hu. split.
  - set (s1 := set_heap _ _).
    assert (Hq1 : queue_at s1 r = Some q).
    { unfold queue_at. cbn. rewrite queue_alter_shut. exact Hq. }
    destruct (drain_queue q r s1 Hq1) as (s' & Hd & He & _ & Hx). exists s'. split_and!; [done| |].
    + unfold receive. unfold queue_at in He. destruct (heap s' !! r) as [c|]; [|done]. cbn.
      injection He as He. by rewrite pull_empty.
    + rewrite Hx. unfold queue_at in Hq. cbn. destruct (heap s !! r) as [c|] eqn:Hr; [|done].
      rewrite lookup_alter_eq, Hr. cbn. by rewrite shut_closed.
  - unfold route_start. cbn. by rewrite lookup_delete_eq.
Qed.

End Registry.

(** ** Witnesses *)

#[local] Existing Instance queue_channels.

Definition demo_streams : streams := snd (register 7 (snd (register 3 registry_new))).

Lemma demo_streams_wf : wf_streams demo_streams.
Proof. apply wf_register, wf_register, wf_registry_new. Qed.

Definition demo_busy : streams :=
  default registry_new (route_finish (route_start 3 (bs "ab") demo_streams)).

Lemma demo_busy_wf : wf_streams demo_busy.
Proof.
  apply (wf_route_finish (route_start 3 (bs "ab") demo_streams)); [|vm_compute; reflexivity].
  apply wf_route_start; [vm_compute; reflexivity|apply demo_streams_wf].
Qed.

Lemma registry_invariant_witness :
  ∃ c, heap demo_streams !! 0 = Some c ∧ length (queued c) ≤ 32.
Proof.
  eexists. split; [vm_compute; reflexivity|].
  apply (registry_invariant demo_streams) with (r := 0).
  - eapply rtc_l; [apply (rs_register 3)|]. eapply rtc_l; [apply (rs_register 7)|]. apply rtc_refl.
  - vm_compute. reflexivity.
Defined.

Lemma registry_refines_witness :
  abs (close 3 demo_streams) = delete 3%N (abs demo_streams) ∧ abs demo_streams !! 7%N = Some [].
Proof. split; [apply (registry_refines 3 demo_streams demo_streams_wf)|vm_compute; reflexivity]. Defined.

Lemma route_correct_witness :
  ∃ c, heap demo_streams !! 0 = Some c ∧
    if is_closed c then
      ∃ s', route_finish (route_start 3 (bs "ab") demo_streams) = Some s' ∧
        abs s' = abs demo_streams ∧ held s' = None
    else if length (queued c) <? 32 then
      ∃ s', route_finish (route_start 3 (bs "ab") demo_streams) = Some s' ∧
        abs s' = <[3%N := queued c ++ [bs "ab"]]> (abs demo_streams) ∧ held s' = None
    else route_finish (route_start 3 (bs "ab") demo_streams) = None.
Proof.
  exact (route_correct 3 (bs "ab") demo_streams demo_streams_wf eq_refl).
Defined.

Lemma close_drains_witness :
  ∃ s', drain 1 0 (close 3 demo_busy) = ([bs "ab"], s') ∧ receive 0 s' = None ∧
    (is_closed <$> heap s' !! 0) = Some true.
Proof.
  apply (close_drains 3 0 [bs "ab"] (bs "x") demo_busy).
  - exact demo_busy_wf.
  - vm_compute. reflexivity.
  - vm_compute. reflexivity.
  - vm_compute. reflexivity.
Defined.
