(* ===== verification/Flow.v ===== *)
(** * What the registry's operations leave alone

    Facts on single operations of [Registry] that the arguments about payloads
    under way need: which operations move no payload ([quiet]), that a channel
    with a sender closes only with its receiver ([alive]), that channels stay
    and closed ones stay closed ([grows]), and the stream map after each. *)
From S2P Require Import Prelude Channel Registry.

Section Flow.
Context `{ChannelLib}.

(** The payload a pending [route] holds for channel [r]. *)
Definition held_for (s : streams) (r : nat) : list bytes :=
  match held s with Some (r', d) => if r' =? r then [d] else [] | None => [] end.
(** ** Lemmas: the channel a new stream gets *)

Lemma fresh_heap (s : streams) : wf_streams s → heap s !! fresh s = None.
Proof.
  intros Hwf. destruct (heap s !! fresh s) as [c|] eqn:E; [|done].
  assert (fresh s < fresh s); [|lia]. apply (wf_heap _ _ Hwf). by rewrite E.
Qed.

Lemma fresh_unused (s : streams) : wf_streams s → ∀ i r, inner s !! i = Some r → fresh s ≠ r.
Proof.
  intros Hwf i r Hr. assert (r < fresh s); [|lia]. apply (wf_bound _ _ Hwf), in_use_iff. eauto.
Qed.

Lemma inner_register (i : N) (s : streams) :
  inner (snd (register i s)) = <[i := fresh s]> (inner s).
Proof.
  unfold register. cbn [snd]. by destruct (drop_old_same (inner s !! i)
    {| inner := <[i := fresh s]> (inner s); heap := <[fresh s := bounded 32]> (heap s);
       fresh := S (fresh s); held := held s |}) as (-> & _).
Qed.

(** ** Lemmas: registry steps that move no payload *)

Definition quiet (s s' : streams) : Prop :=
  held s' = held s ∧
  ∀ r, match heap s !! r, heap s' !! r with
       | Some c, Some c' => queued c' = queued c
       | None, None => True
       | _, _ => False
       end.

Lemma quiet_refl (s s' : streams) : heap s' = heap s → held s' = held s → quiet s s'.
Proof. intros Hh Hd. split; [done|]. intros r. rewrite Hh. by destruct (heap s !! r). Qed.

Lemma quiet_trans (s1 s2 s3 : streams) : quiet s1 s2 → quiet s2 s3 → quiet s1 s3.
Proof.
  intros [Hh1 H1] [Hh2 H2]. split; [congruence|]. intros r. specialize (H1 r). specialize (H2 r).
  destruct (heap s1 !! r), (heap s2 !! r), (heap s3 !! r); try done. congruence.
Qed.

Lemma quiet_shut (s : streams) (r : nat) : quiet s (set_heap s (alter shut r (heap s))).
Proof.
  split; [done|]. intros r'. cbn. destruct (decide (r = r')) as [<-|Hn].
  - rewrite lookup_alter_eq. destruct (heap s !! r) as [c|]; [|done]. apply shut_queued.
  - rewrite lookup_alter_ne by done. by destruct (heap s !! r').
Qed.

Lemma quiet_drop_sender (s : streams) (r : nat) : quiet s (drop_sender r s).
Proof. unfold drop_sender. destruct (in_use s r); [by apply quiet_refl|apply quiet_shut]. Qed.

Lemma quiet_close (id : N) (s : streams) : quiet s (close id s).
Proof.
  unfold close. eapply quiet_trans; [by apply (quiet_refl s (with_inner s (delete id (inner s))))|].
  destruct (inner s !! id); [apply quiet_drop_sender|by apply quiet_refl].
Qed.

Lemma quiet_close_all (s : streams) : quiet s (close_all s).
Proof.
  unfold close_all. eapply quiet_trans; [by apply (quiet_refl s (with_inner s ∅))|].
  induction (map snd (map_to_list (inner s))) as [|r l IH]; cbn [foldr]; [by apply quiet_refl|].
  eapply quiet_trans; [exact IH|apply quiet_drop_sender].
Qed.

Lemma route_start_heap (i : N) (d : bytes) (s : streams) : heap (route_start i d s) = heap s.
Proof. unfold route_start. by destruct (inner s !! i). Qed.

(** ** Lemmas: a channel that has a sender closes only with its receiver *)

Definition alive (gone : gset nat) (s : streams) : Prop :=
  ∀ r c, heap s !! r = Some c → in_use s r = true → r ∉ gone → is_closed c = false.

Lemma alive_shrink (gone : gset nat) (s s' : streams) :
  heap s' = heap s → (∀ r, in_use s' r = true → in_use s r = true) → alive gone s → alive gone s'.
Proof. intros Hh Hu Ha r c. rewrite Hh. intros Hc Hr. by apply (Ha r c Hc), Hu. Qed.

Lemma alive_drop_sender (gone : gset nat) (r : nat) (s : streams) :
  alive gone s → alive gone (drop_sender r s).
Proof.
  intros Ha. unfold drop_sender. destruct (in_use s r) eqn:Eu; [done|]. intros r' c Hc Hr.
  apply (Ha r' c); [|done]. cbn in Hc. rewrite lookup_alter_ne in Hc; [done|].
  intros ->. change (in_use s r' = true) in Hr. congruence.
Qed.

Lemma alive_close (gone : gset nat) (i : N) (s : streams) : alive gone s → alive gone (close i s).
Proof.
  intros Ha. unfold close. assert (Hs : alive gone (with_inner s (delete i (inner s)))).
  { apply (alive_shrink gone s); [done| |done]. intros r. rewrite !in_use_iff. cbn.
    intros [(j & [_ Hj]%lookup_delete_Some)|?]; [left; by exists j|by right]. }
  destruct (inner s !! i); [by apply alive_drop_sender|done].
Qed.

Lemma alive_close_all (gone : gset nat) (s : streams) : alive gone s → alive gone (close_all s).
Proof.
  intros Ha. unfold close_all. assert (Hs : alive gone (with_inner s ∅)).
  { apply (alive_shrink gone s); [done| |done]. intros r. rewrite !in_use_iff. cbn.
    intros [(j & Hj)|?]; [by rewrite lookup_empty in Hj|by right]. }
  induction (map snd (map_to_list (inner s))) as [|r l IH]; cbn [foldr]; [done|by apply alive_drop_sender].
Qed.

Lemma alive_register (gone : gset nat) (i : N) (s : streams) :
  wf_streams s → alive gone s → alive gone (snd (register i s)).
Proof.
  intros Hwf Ha. unfold register. cbn [snd]. set (s1 := {| inner := _; heap := _ |}).
  assert (Hs1 : alive gone s1).
  { intros r c. cbn. rewrite lookup_insert_Some. intros [[<- <-]|[Hn Hc]].
    - intros _ _. by destruct (bounded_spec (A:=bytes) 32) as (_ & _ & ->).
    - intros [(j & Hj)|(d & Hd)]%in_use_iff; cbn in *; apply (Ha r c Hc), in_use_iff; [|eauto].
      apply lookup_insert_Some in Hj as [[_ ?]|[_ Hj]]; [done|eauto]. }
  destruct (inner s !! i); [by apply alive_drop_sender|done].
Qed.

Lemma alive_route_start (gone : gset nat) (i : N) (d : bytes) (s : streams) :
  alive gone s → alive gone (route_start i d s).
Proof.
  intros Ha. unfold route_start. destruct (inner s !! i) as [r|] eqn:Er; [|done].
  apply (alive_shrink gone s); [done| |done]. intros r'. rewrite !in_use_iff. cbn.
  intros [?|(d' & [= <- _])]; [by left|eauto].
Qed.

Lemma alive_set (gone : gset nat) (r : nat) (c c' : chan bytes) (s : streams) :
  heap s !! r = Some c → is_closed c' = is_closed c → alive gone s →
  alive gone (set_heap s (<[r := c']> (heap s))).
Proof.
  intros Hr Hc Ha r' c0. cbn. rewrite lookup_insert_Some. intros [[<- <-]|[_ Hx]].
  - rewrite Hc. by apply Ha.
  - by apply Ha.
Qed.

Lemma alive_route_finish (gone : gset nat) (s s' : streams) :
  route_finish s = Some s' → alive gone s → alive gone s'.
Proof.
  intros Hr Ha. unfold route_finish in Hr. destruct (held s) as [[r d]|] eqn:Hd; [|by injection Hr as <-].
  assert (Hrel : ∀ t, held t = Some (r, d) → alive gone t →
    alive gone {| inner := inner t; heap := heap t; fresh := fresh t; held := None |}).
  { intros t Ht. apply alive_shrink; [done|]. intros r'. rewrite !in_use_iff. cbn.
    intros [?|(d' & ?)]; [by left|done]. }
  destruct (heap s !! r) as [c|] eqn:Hc; [|injection Hr as <-; by apply Hrel].
  destruct (is_closed c) eqn:Ec; [injection Hr as <-; by apply alive_drop_sender, Hrel|].
  destruct (push d c) as [c'|] eqn:Ep; [|done]. injection Hr as <-.
  apply push_spec in Ep as (_ & _ & _ & _ & Hcl). apply alive_drop_sender.
  apply (Hrel (set_heap s (<[r := c']> (heap s)))); [done|]. apply (alive_set gone r c); [done|congruence|done].
Qed.

Lemma alive_abandon (gone : gset nat) (s : streams) : alive gone s → alive gone (abandon s).
Proof.
  intros Ha. unfold abandon. destruct (held s) as [[r d]|] eqn:Hd; [|done]. apply alive_drop_sender.
  apply (alive_shrink gone s); [done| |done]. intros r'. rewrite !in_use_iff. cbn. intros [?|(d' & ?)]; [by left|done].
Qed.

(** ** Lemmas: channels stay, and closed ones stay closed *)

Definition grows (s s' : streams) : Prop :=
  ∀ r c, heap s !! r = Some c →
    ∃ c', heap s' !! r = Some c' ∧ (is_closed c = true → is_closed c' = true).

Definition closed_at (r : nat) (s : streams) : Prop :=
  ∃ c, heap s !! r = Some c ∧ is_closed c = true.

#[local] Instance grows_preorder : PreOrder grows.
Proof.
  split; [intros s r c Hc; eauto|]. intros s1 s2 s3 H1 H2 r c Hc.
  destruct (H1 r c Hc) as (c2 & Hc2 & ?). destruct (H2 r c2 Hc2) as (c3 & Hc3 & ?). eauto.
Qed.

Lemma grows_closed (r : nat) (s s' : streams) : grows s s' → closed_at r s → closed_at r s'.
Proof. intros Hg (c & Hc & Hcl). destruct (Hg r c Hc) as (c' & Hc' & ?). exists c'. auto. Qed.

Lemma grows_dom (r : nat) (s s' : streams) : grows s s' → is_Some (heap s !! r) → is_Some (heap s' !! r).
Proof. intros Hg (c & Hc). destruct (Hg r c Hc) as (c' & Hc' & ?). eauto. Qed.

Lemma grows_heap (s s' : streams) : heap s' = heap s → grows s s'.
Proof. intros Hh r c Hc. rewrite Hh. eauto. Qed.

Lemma grows_shut (r : nat) (s : streams) : grows s (set_heap s (alter shut r (heap s))).
Proof.
  intros r' c Hc. cbn. destruct (decide (r = r')) as [->|Hn].
  - rewrite lookup_alter_eq, Hc. exists (shut c). by rewrite shut_closed.
  - rewrite lookup_alter_ne by done. eauto.
Qed.

Lemma grows_drop_sender (r : nat) (s : streams) : grows s (drop_sender r s).
Proof. unfold drop_sender. destruct (in_use s r); [done|apply grows_shut]. Qed.

Lemma grows_drop_old (o : option nat) (s : streams) : grows s (drop_old o s).
Proof. destruct o; [apply grows_drop_sender|done]. Qed.

Lemma grows_close (i : N) (s : streams) : grows s (close i s).
Proof. unfold close. etrans; [by apply (grows_heap s (with_inner s (delete i (inner s))))|apply grows_drop_old]. Qed.

Lemma grows_close_all (s : streams) : grows s (close_all s).
Proof.
  unfold close_all. etrans; [by apply (grows_heap s (with_inner s ∅))|].
  induction (map snd (map_to_list (inner s))) as [|r l IH]; cbn [foldr]; [done|].
  etrans; [exact IH|apply grows_drop_sender].
Qed.

Lemma grows_register (i : N) (s : streams) : wf_streams s → grows s (snd (register i s)).
Proof.
  intros Hwf. unfold register. cbn [snd]. etrans; [|apply grows_drop_old].
  intros r c Hc. cbn. rewrite lookup_insert_ne; [eauto|].
  intros <-. by rewrite fresh_heap in Hc.
Qed.

Lemma grows_set (r : nat) (c c' : chan bytes) (s : streams) :
  heap s !! r = Some c → is_closed c' = is_closed c → grows s (set_heap s (<[r := c']> (heap s))).
Proof.
  intros Hr Hc r' c0 H0. cbn. destruct (decide (r = r')) as [->|Hn].
  - rewrite lookup_insert_eq. exists c'. split; [done|congruence].
  - rewrite lookup_insert_ne by done. eauto.
Qed.

Lemma grows_route_finish (s s' : streams) : route_finish s = Some s' → grows s s'.
Proof.
  intros Hr. unfold route_finish in Hr. destruct (held s) as [[r' d]|]; [|by injection Hr as <-].
  set (rel := {| inner := inner s; heap := heap s; fresh := fresh s; held := None |}) in *.
  assert (Hrel : grows s rel) by by apply grows_heap.
  destruct (heap s !! r') as [c|] eqn:Ec; [|by injection Hr as <-].
  destruct (is_closed c) eqn:Ecl; [injection Hr as <-; etrans; [exact Hrel|apply grows_drop_sender]|].
  destruct (push d c) as [c'|] eqn:Ep; [|done]. injection Hr as <-.
  apply push_spec in Ep as (_ & _ & _ & _ & Hcl'). etrans; [exact Hrel|].
  etrans; [apply (grows_set r' c c' rel); [done|congruence]|apply grows_drop_sender].
Qed.

Lemma grows_abandon (s : streams) : grows s (abandon s).
Proof.
  unfold abandon. destruct (held s) as [[r d]|]; [|done].
  etrans; [|apply grows_drop_sender]. by apply grows_heap.
Qed.

(** ** Lemmas: the stream map *)

Lemma inner_close (i j : N) (r : nat) (s : streams) :
  inner (close i s) !! j = Some r → inner s !! j = Some r.
Proof.
  unfold close. destruct (drop_old_same (inner s !! i) (with_inner s (delete i (inner s)))) as (-> & _).
  cbn. by intros [_ ?]%lookup_delete_Some.
Qed.

Lemma inner_close_all (j : N) (r : nat) (s : streams) : inner (close_all s) !! j ≠ Some r.
Proof.
  unfold close_all.
  destruct (foldr_drop_same (map snd (map_to_list (inner s))) (with_inner s ∅)) as (-> & _).
  cbn. by rewrite lookup_empty.
Qed.

Lemma inner_route_finish (s s' : streams) : route_finish s = Some s' → inner s' = inner s.
Proof.
  unfold route_finish. destruct (held s) as [[r d]|]; [|by intros [= <-]].
  destruct (heap s !! r) as [c|]; [|by intros [= <-]].
  destruct (is_closed c).
  - intros [= <-]. by destruct (drop_sender_same r {| inner := inner s; heap := heap s; fresh := fresh s; held := None |}) as (-> & _).
  - destruct (push d c) as [c'|]; [|done]. intros [= <-].
    by destruct (drop_sender_same r (set_heap {| inner := inner s; heap := heap s; fresh := fresh s; held := None |} (<[r := c']> (heap s)))) as (-> & _).
Qed.

Lemma abandon_same (s : streams) : inner (abandon s) = inner s ∧ held (abandon s) = None.
Proof.
  unfold abandon. destruct (held s) as [[r d]|] eqn:Hd; [|done].
  by destruct (drop_sender_same r {| inner := inner s; heap := heap s; fresh := fresh s; held := None |}) as (-> & _ & -> & _).
Qed.

(** ** Lemmas: the payload a [route] holds *)

Lemma held_close (i : N) (s : streams) : held (close i s) = held s.
Proof. unfold close. by destruct (drop_old_same (inner s !! i) (with_inner s (delete i (inner s)))) as (_ & -> & _). Qed.

Lemma held_close_all (s : streams) : held (close_all s) = held s.
Proof. unfold close_all. by destruct (foldr_drop_same (map snd (map_to_list (inner s))) (with_inner s ∅)) as (_ & -> & _). Qed.

Lemma held_register (i : N) (s : streams) : held (snd (register i s)) = held s.
Proof.
  unfold register. cbn [snd]. by destruct (drop_old_same (inner s !! i)
    {| inner := <[i := fresh s]> (inner s); heap := <[fresh s := bounded 32]> (heap s);
       fresh := S (fresh s); held := held s |}) as (_ & -> & _).
Qed.

Lemma held_route_finish (s s' : streams) : route_finish s = Some s' → held s' = None.
Proof.
  unfold route_finish. destruct (held s) as [[r d]|] eqn:Eh; [|by intros [= <-]].
  destruct (heap s !! r) as [c|]; [|by intros [= <-]].
  destruct (is_closed c); [|destruct (push d c) as [c'|]; [|done]]; intros [= <-];
    match goal with |- held (drop_sender _ ?x) = _ => by destruct (drop_sender_same r x) as (_ & _ & -> & _) end.
Qed.

End Flow.
