(* ===== verification/Link.v ===== *)
(** * One direction of a session

    The messages on their way to one end, the frames its reader has taken from
    them, its registry, and what has become of every stream's payloads: the
    receiving half of a session, at either program.  The invariant says that
    payloads are neither lost, invented, reordered nor mixed up on the way
    from the wire to the task that takes them out. *)
From S2P Require Import Prelude Frame Channel Registry Flow.

Section Link.
Context `{ChannelLib}.

(** The frames of stream [id] in a sequence of frames, and their payloads. *)
Definition by_stream (id : N) (fs : list Frame) : list Frame :=
  filter (λ f, frame_stream f = Some id) fs.

Definition payloads (id : N) (fs : list Frame) : list bytes :=
  omap (λ f, match f with Data i b => if (i =? id)%N then Some b else None | _ => None end) fs.

(** The server's end of a session: the messages still to be read, those read
    (as frames), the registry; for every data channel the stream it was
    registered for, the payloads routed into it, those its write task has
    taken out, and whether that task has dropped the receiver; and the payload,
    with its channel, that the reader had in hand when it was dropped. *)
Record link := {
  wire : list bytes;
  taken : list Frame;
  reg : streams;
  owner : gmap nat N;
  routed : nat → list bytes;
  got : nat → list bytes;
  dead : gset nat;
  lost : option (nat * bytes)
}.

Definition upd (f : nat → list bytes) (r : nat) (l : list bytes) : nat → list bytes :=
  λ r', if r' =? r then l else f r'.
Definition link_init (fs : list Frame) : link :=
  {| wire := map encode fs; taken := []; reg := registry_new; owner := ∅;
     routed := λ _, []; got := λ _, []; dead := ∅; lost := None |}.

(** The transport takes a message that a writer loop sends ([World.ws_write]: when
    it has room for it). *)
Definition put_wire (l : link) (m : bytes) : link :=
  {| wire := wire l ++ [m]; taken := taken l; reg := reg l; owner := owner l;
     routed := routed l; got := got l; dead := dead l; lost := lost l |}.

Definition set_reg (l : link) (r : streams) : link :=
  {| wire := wire l; taken := taken l; reg := r; owner := owner l; routed := routed l;
     got := got l; dead := dead l; lost := lost l |}.

(** The reader has taken one message. *)
Definition take_one (l : link) (rest : list bytes) (f : Frame) (r : streams) : link :=
  {| wire := rest; taken := taken l ++ [f]; reg := r; owner := owner l; routed := routed l;
     got := got l; dead := dead l; lost := lost l |}.

(** The effect of routing a payload of stream [id] on the bookkeeping. *)
Definition log_route (l : link) (id : N) (d : bytes) : link :=
  {| wire := wire l; taken := taken l; reg := reg l; owner := owner l;
     routed := match inner (reg l) !! id with
               | Some r => upd (routed l) r (routed l r ++ [d])
               | None => routed l
               end;
     got := got l; dead := dead l; lost := lost l |}.

Definition log_owner (l : link) (r : nat) (id : N) : link :=
  {| wire := wire l; taken := taken l; reg := reg l; owner := <[r := id]> (owner l);
     routed := routed l;
     got := got l; dead := dead l; lost := lost l |}.

Definition log_drop (l : link) (r : nat) : link :=
  {| wire := wire l; taken := taken l; reg := reg l; owner := owner l;
     routed := routed l; got := got l; dead := {[r]} ∪ dead l; lost := lost l |}.
(** [register], with the bookkeeping of the new channel. *)
Definition open_link (i : N) (l : link) : link :=
  log_owner (set_reg l (snd (register i (reg l)))) (fst (register i (reg l))) i.

(** A write task takes a payload out of its channel. *)
Definition log_got (l : link) (r : nat) (d : bytes) (s : streams) : link :=
  {| wire := wire l; taken := taken l; reg := s; owner := owner l;
     routed := routed l; got := upd (got l) r (got l r ++ [d]); dead := dead l; lost := lost l |}.

(** The reader is dropped, with the [route] it may be in. *)
Definition cut_link (l : link) : link :=
  {| wire := wire l; taken := taken l; reg := abandon (reg l); owner := owner l; routed := routed l;
     got := got l; dead := dead l; lost := match held (reg l) with Some x => Some x | None => lost l end |}.

Definition lost_for (l : link) (r : nat) : list bytes :=
  match lost l with Some (r', d) => if r' =? r then [d] else [] | None => [] end.

(** ** Lemmas: sequences of frames *)

#[local] Arguments by_stream : simpl never.
#[local] Arguments payloads : simpl never.

Lemma payloads_app (id : N) (fs gs : list Frame) :
  payloads id (fs ++ gs) = payloads id fs ++ payloads id gs.
Proof. apply omap_app. Qed.

Lemma by_stream_app (id : N) (fs gs : list Frame) :
  by_stream id (fs ++ gs) = by_stream id fs ++ by_stream id gs.
Proof. apply filter_app. Qed.

Lemma payloads_by_stream (id : N) (fs : list Frame) : payloads id (by_stream id fs) = payloads id fs.
Proof.
  induction fs as [|f fs IH]; [done|]. unfold by_stream. rewrite filter_cons. case_decide as Hf.
  - unfold payloads in *. cbn. destruct f; try done. by rewrite <- IH.
  - destruct f as [t|i d|i ok|i d|i]; try exact IH.
    unfold payloads. cbn. destruct (i =? id)%N eqn:E; [|exact IH]. apply N.eqb_eq in E as ->. done.
Qed.
Lemma payloads_nil (i : N) (fs : list Frame) : by_stream i fs = [] → payloads i fs = [].
Proof. intros Hb. by rewrite <- payloads_by_stream, Hb. Qed.

Lemma payloads_other (i j : N) (d : bytes) : j ≠ i → payloads i [Data j d] = [].
Proof. intros Hn. unfold payloads. cbn. by rewrite (proj2 (N.eqb_neq j i)). Qed.

Lemma payloads_same (i : N) (d : bytes) : payloads i [Data i d] = [d].
Proof. unfold payloads. cbn. by rewrite N.eqb_refl. Qed.

Lemma payloads_map (i : N) (ds : list bytes) : payloads i (map (Data i) ds) = ds.
Proof. unfold payloads. induction ds as [|d ds IH]; [done|]. cbn. by rewrite N.eqb_refl, IH. Qed.

(** ** The invariant *)

Section Invariant.
(** The streams that are opened at most once. *)
Context (good : N → Prop).

(** Nothing is lost between [route] and the write task until the task drops
    the receiver, but what a dropped reader had in hand; afterwards what the
    task has taken is a prefix. *)
Definition carries (l : link) (r : nat) : Prop :=
  match heap (reg l) !! r with
  | Some c =>
      if decide (r ∈ dead l) then got l r ++ queued c `prefix_of` routed l r
      else got l r ++ queued c ++ held_for (reg l) r ++ lost_for l r = routed l r
  | None => got l r = [] ∧ routed l r = [] ∧ lost_for l r = []
  end.
Record link_ok (l : link) : Prop := {
  lo_reg : wf_streams (reg l);
  lo_owner i r : inner (reg l) !! i = Some r → owner l !! r = Some i;
  lo_carries r : carries l r;
  lo_once i r r' : good i → owner l !! r = Some i → owner l !! r' = Some i → r = r';
  lo_prefix i r : good i → owner l !! r = Some i → routed l r `prefix_of` payloads i (taken l);
  lo_all i r : good i → inner (reg l) !! i = Some r → routed l r = payloads i (taken l);
  lo_alive : alive (dead l) (reg l);
  lo_shut r : r ∈ dead l → closed_at r (reg l);
  lo_dom i r : owner l !! r = Some i → is_Some (heap (reg l) !! r)
}.

Lemma link_ok_init (fs : list Frame) : link_ok (link_init fs).
Proof.
  split; cbn; try by (intros; rewrite lookup_empty in *).
  - apply wf_registry_new.
  - intros r. unfold carries. cbn. by rewrite lookup_empty.
  - intros r c Hr. cbn in Hr. by rewrite lookup_empty in Hr.
  - intros r Hr. set_solver.
Qed.

(** Operations that neither open a stream nor route, and keep what each channel
    carries. *)
Lemma link_ok_reg (l : link) (s : streams) :
  link_ok l → wf_streams s → (∀ i r, inner s !! i = Some r → inner (reg l) !! i = Some r) →
  (∀ r, carries (set_reg l s) r) → alive (dead l) s → grows (reg l) s → link_ok (set_reg l s).
Proof.
  intros [H1 H2 H3 H4 H5 H6 H7 H8 H9] Hs Hi Hc Hal Hsh. split; cbn; try done.
  - intros i r Hr. by apply H2, Hi.
  - intros i r Hg Hr. by apply H6, Hi.
  - intros r Hr. by apply (grows_closed _ _ _ Hsh), H8.
  - intros i r Hr. by apply (grows_dom _ _ _ Hsh), (H9 i).
Qed.

Lemma carries_quiet (l : link) (s : streams) :
  (∀ r, carries l r) → quiet (reg l) s → ∀ r, carries (set_reg l s) r.
Proof.
  intros Hc [Hh Hq] r. specialize (Hc r). specialize (Hq r). unfold carries, held_for in *. cbn.
  rewrite Hh. by destruct (heap (reg l) !! r) as [c|], (heap s !! r) as [c'|]; rewrite ?Hq.
Qed.

(** Taking a frame that carries no payload. *)
Lemma link_ok_take (l : link) (rest : list bytes) (f : Frame) (s : streams) :
  (∀ i, payloads i [f] = []) → link_ok (set_reg l s) → link_ok (take_one l rest f s).
Proof.
  intros Hp [H1 H2 H3 H4 H5 H6 H7 H8 H9]. split; cbn in *; try done.
  - intros i r Hg Hr. rewrite payloads_app, Hp, app_nil_r. by apply H5.
  - intros i r Hg Hr. rewrite payloads_app, Hp, app_nil_r. by apply H6.
Qed.

Lemma link_ok_put (l : link) (m : bytes) : link_ok l → link_ok (put_wire l m).
Proof. by intros []; split. Qed.

Lemma link_ok_quiet (l : link) (s : streams) :
  link_ok l → wf_streams s → (∀ i r, inner s !! i = Some r → inner (reg l) !! i = Some r) →
  quiet (reg l) s → alive (dead l) s → grows (reg l) s →
  link_ok (set_reg l s).
Proof. intros Hok Hs Hi Hq Ha Hsh. apply link_ok_reg; [done..| |done|done]. apply carries_quiet; [apply Hok|done]. Qed.

Lemma link_ok_close (i : N) (l : link) : link_ok l → link_ok (set_reg l (close i (reg l))).
Proof.
  intros Hok. apply link_ok_quiet;
    [done|by apply wf_close, Hok|intros j r; apply inner_close|apply quiet_close|by apply alive_close, Hok|apply grows_close].
Qed.

Lemma link_ok_close_all (l : link) : link_ok l → link_ok (set_reg l (close_all (reg l))).
Proof.
  intros Hok. apply link_ok_quiet; [done|by apply wf_close_all, Hok| |apply quiet_close_all
    |by apply alive_close_all, Hok|apply grows_close_all].
  intros j r Hr. by destruct (inner_close_all j r (reg l)).
Qed.

Lemma link_ok_resume (l : link) (s : streams) :
  link_ok l → route_finish (reg l) = Some s → link_ok (set_reg l s).
Proof.
  intros Hok Hr. pose proof (inner_route_finish _ _ Hr) as Hi.
  apply link_ok_reg; [done|by eapply wf_route_finish; [apply Hok|]|by rewrite Hi| |by eapply alive_route_finish, Hok
    |by apply grows_route_finish].
  pose proof (lo_carries _ Hok) as Hc. unfold route_finish in Hr.
  destruct (held (reg l)) as [[r d]|] eqn:Hd; [|injection Hr as <-; exact Hc].
  assert (Hu : in_use (reg l) r = true) by (apply in_use_iff; eauto).
  destruct (heap (reg l) !! r) as [c|] eqn:Hh.
  2:{ exfalso. apply (wf_bound _ _ (lo_reg _ Hok)), (wf_heap _ _ (lo_reg _ Hok)) in Hu.
      rewrite Hh in Hu. by destruct Hu. }
  set (rel := {| inner := inner (reg l); heap := heap (reg l); fresh := fresh (reg l); held := None |}) in *.
  destruct (is_closed c) eqn:Ec.
  { injection Hr as <-. apply (carries_quiet (set_reg l rel)); [|apply quiet_drop_sender].
    assert (Hdead : r ∈ dead l).
    { destruct (decide (r ∈ dead l)) as [?|Hn]; [done|].
      pose proof (lo_alive _ Hok r c Hh Hu Hn). congruence. }
    intros r'. specialize (Hc r'). unfold carries, held_for in *. cbn. rewrite Hd in Hc.
    destruct (heap (reg l) !! r'); [|done]. destruct (decide (r' ∈ dead l)) as [?|Hn]; [done|].
    rewrite (proj2 (Nat.eqb_neq r r')) in Hc by (by intros ->). exact Hc. }
  destruct (push d c) as [c'|] eqn:Ep; [|done]. injection Hr as <-.
  set (s1 := set_heap _ _). apply (carries_quiet (set_reg l s1)); [|apply quiet_drop_sender].
  apply push_spec in Ep as (_ & _ & Hq & _ & _). intros r'. specialize (Hc r').
  unfold carries, held_for in *. cbn. rewrite Hd in Hc. destruct (decide (r = r')) as [<-|Hn].
  - rewrite lookup_insert_eq, Hq. rewrite Hh, Nat.eqb_refl in Hc.
    destruct (decide (r ∈ dead l)) as [Hdead|?]; [|by rewrite <- app_assoc in *].
    destruct (lo_shut _ Hok r Hdead) as (c0 & H0 & H1). congruence.
  - rewrite lookup_insert_ne by done. by rewrite (proj2 (Nat.eqb_neq r r')) in Hc.
Qed.

(** The reader is dropped, once. *)
Lemma link_ok_cut (l : link) : link_ok l → lost l = None → link_ok (cut_link l).
Proof.
  intros Hok Hlo. pose proof (lo_carries _ Hok) as Hc. destruct (abandon_same (reg l)) as [Hi _].
  assert (Hcut : ∀ r, carries (cut_link l) r).
  { unfold cut_link, abandon. destruct (held (reg l)) as [[r d]|] eqn:Hd; [|by destruct l].
    set (rel := {| inner := inner (reg l); heap := heap (reg l); fresh := fresh (reg l); held := None |}).
    set (l1 := {| wire := wire l; taken := taken l; reg := rel; owner := owner l; routed := routed l;
                  got := got l; dead := dead l; lost := Some (r, d) |}).
    apply (carries_quiet l1); [|apply quiet_drop_sender]. intros r'. specialize (Hc r').
    unfold carries, held_for, lost_for in *. cbn. rewrite Hlo, Hd in Hc.
    destruct (heap (reg l) !! r') eqn:Hh; [by rewrite app_nil_r in Hc|]. destruct Hc as (? & ? & _). split_and!; [done..|].
    destruct (Nat.eqb_spec r r') as [<-|]; [exfalso|done].
    assert (Hu : in_use (reg l) r = true) by (apply in_use_iff; eauto).
    apply (wf_bound _ _ (lo_reg _ Hok)), (wf_heap _ _ (lo_reg _ Hok)) in Hu. rewrite Hh in Hu. by destruct Hu. }
  destruct Hok as [H1 H2 H3 H4 H5 H6 H7 H8 H9]. split; cbn; rewrite ?Hi; try done.
  - by apply wf_abandon.
  - by apply alive_abandon.
  - intros r Hr. by apply (grows_closed _ _ _ (grows_abandon _)), H8.
  - intros i r Hr. by apply (grows_dom _ _ _ (grows_abandon _)), (H9 i).
Qed.

(** A fresh channel carries nothing, not even in a pending [route]. *)
Lemma held_for_fresh (s : streams) : wf_streams s → held_for s (fresh s) = [].
Proof.
  intros Hwf. unfold held_for. destruct (held s) as [[r d]|] eqn:Hd; [|done].
  assert (r < fresh s) by (apply (wf_bound _ _ Hwf), in_use_iff; eauto).
  by rewrite (proj2 (Nat.eqb_neq r (fresh s))) by lia.
Qed.

Lemma link_fresh (l : link) :
  link_ok l → got l (fresh (reg l)) = [] ∧ routed l (fresh (reg l)) = [] ∧ lost_for l (fresh (reg l)) = [].
Proof.
  intros Hok. pose proof (lo_carries _ Hok (fresh (reg l))) as Hc. unfold carries in Hc.
  by rewrite fresh_heap in Hc by apply Hok.
Qed.

Lemma carries_register (i : N) (l : link) :
  link_ok l → ∀ r, carries (set_reg l (snd (register i (reg l)))) r.
Proof.
  intros Hok. pose proof (held_for_fresh _ (lo_reg _ Hok)) as Hh. destruct (link_fresh l Hok) as (Hg & Hr & Hlo).
  unfold register. cbn [snd]. set (s1 := {| inner := _; heap := _ |}).
  assert (Hs1 : ∀ r, carries (set_reg l s1) r).
  { intros r. pose proof (lo_carries _ Hok r) as Hc. unfold carries in *. cbn.
    destruct (decide (fresh (reg l) = r)) as [<-|Hn].
    - rewrite lookup_insert_eq. destruct (bounded_spec (A:=bytes) 32) as (-> & _ & _).
      rewrite Hg, Hr. unfold held_for, lost_for in *. cbn. rewrite Hh, Hlo. by case_decide.
    - rewrite lookup_insert_ne by done. exact Hc. }
  destruct (inner (reg l) !! i) as [old|]; cbn [drop_old]; [|exact Hs1].
  exact (carries_quiet (set_reg l s1) _ Hs1 (quiet_drop_sender s1 old)).
Qed.

(** A stream that is opened at most once is opened before its first payload. *)
Lemma link_ok_open (l : link) (i : N) :
  link_ok l → (good i → (∀ r, owner l !! r ≠ Some i) ∧ payloads i (taken l) = []) →
  link_ok (open_link i l).
Proof.
  intros Hok Hnew. pose proof (carries_register i l Hok) as Hcr.
  pose proof (wf_register i _ (lo_reg _ Hok)) as Hwr.
  pose proof (alive_register _ i _ (lo_reg _ Hok) (lo_alive _ Hok)) as Har.
  pose proof (grows_register i _ (lo_reg _ Hok)) as Hgr.
  pose proof (inner_register i (reg l)) as Hi.
  pose proof (fresh_unused (reg l) (lo_reg _ Hok)) as Hfr.
  destruct (link_fresh l Hok) as (_ & Hrf & _). destruct Hok as [H1 H2 H3 H4 H5 H6 H7 H8 H9].
  split; cbn [open_link log_owner set_reg taken reg owner routed got dead fst]; try done.
  - intros j r. rewrite Hi, lookup_insert_Some. cbn [register fst].
    intros [[<- <-]|[Hn Hr]]; [by rewrite lookup_insert_eq|].
    rewrite lookup_insert_ne by (by apply (Hfr j)). by apply H2.
  - intros j r r' Hg. rewrite !lookup_insert_Some.
    intros [[<- Hx]|[Hn Hr]] [[<- Hx']|[Hn' Hr']]; [done| | |by apply (H4 j)]; subst j;
      by destruct (proj1 (Hnew Hg) _ ltac:(eassumption)).
  - intros j r Hg. rewrite lookup_insert_Some. cbn [register fst]. intros [[<- _]|[_ Hr]]; [|by apply H5].
    rewrite Hrf. apply prefix_nil.
  - intros j r Hg. rewrite Hi, lookup_insert_Some. intros [[-> <-]|[_ Hr]]; [|by apply H6].
    rewrite Hrf. symmetry. by apply Hnew.
  - intros r Hr. by apply (grows_closed _ _ _ Hgr), H8.
  - intros j r. rewrite lookup_insert_Some. cbn [register fst]. intros [[<- _]|[_ Hr]].
    + apply (wf_heap _ _ Hwr), (wf_bound _ _ Hwr), in_use_iff. left. exists i. rewrite Hi. apply lookup_insert_eq.
    + by apply (grows_dom _ _ _ Hgr), (H9 j).
Qed.

(** Taking a DATA frame. *)
Lemma link_ok_data (l : link) (rest : list bytes) (i : N) (d : bytes) :
  link_ok l → held (reg l) = None → lost l = None →
  link_ok (take_one (log_route l i d) rest (Data i d) (route_start i d (reg l))).
Proof.
  intros [H1 H2 H3 H4 H5 H6 H7 H8 H9] Hh Hlo. pose proof (wf_route_start i d _ Hh H1) as Hwr.
  assert (Hin : inner (route_start i d (reg l)) = inner (reg l))
    by (unfold route_start; by destruct (inner (reg l) !! i)).
  split; cbn [log_route take_one taken reg owner routed got dead]; try done.
  - intros j r. rewrite Hin. apply H2.
  - intros r. specialize (H3 r). unfold carries, log_route, take_one, route_start in *.
    cbn [reg routed got dead]. destruct (inner (reg l) !! i) as [r0|] eqn:Ei; [|exact H3].
    cbn [heap]. unfold upd, held_for, lost_for in *. cbn [held lost]. rewrite Hlo in *. rewrite Hh in H3. rewrite (Nat.eqb_sym r0 r).
    destruct (Nat.eqb_spec r r0) as [->|Hn]; [|exact H3].
    destruct (heap (reg l) !! r0) as [c|] eqn:Ec.
    + case_decide; [by apply prefix_app_r|]. rewrite !app_nil_r in *. by rewrite <- H3, app_assoc.
    + exfalso. assert (r0 < fresh (reg l)) as Hlt%(wf_heap _ _ H1).
      { apply (wf_bound _ _ H1), in_use_iff. by left; exists i. }
      rewrite Ec in Hlt. by destruct Hlt.
  - intros j r Hg Hr. rewrite payloads_app.
    destruct (inner (reg l) !! i) as [r0|] eqn:Ei; [|by apply prefix_app_r, H5].
    unfold upd. destruct (Nat.eqb_spec r r0) as [->|Hn]; [|by apply prefix_app_r, H5].
    pose proof (H2 _ _ Ei) as Ho. rewrite Hr in Ho. injection Ho as ->.
    rewrite (H6 i r0 Hg Ei), payloads_same. done.
  - intros j r Hg. rewrite Hin, payloads_app. intros Hr. destruct (decide (i = j)) as [->|Hn].
    + rewrite Hr. unfold upd. by rewrite Nat.eqb_refl, (H6 j r Hg Hr), payloads_same.
    + rewrite payloads_other, app_nil_r by done. rewrite <- (H6 j r Hg Hr).
      destruct (inner (reg l) !! i) as [r0|] eqn:Ei; [|done]. unfold upd.
      destruct (Nat.eqb_spec r r0) as [->|]; [|done]. by destruct Hn; apply (wf_inj _ _ H1 i j r0).
  - by apply alive_route_start.
  - intros r Hr. unfold closed_at. rewrite route_start_heap. by apply H8.
  - intros j r Hr. rewrite route_start_heap. by apply (H9 j).
Qed.

Lemma link_ok_receive (l : link) (r : nat) (d : bytes) (s : streams) :
  link_ok l → receive r (reg l) = Some (d, s) → link_ok (log_got l r d s).
Proof.
  intros Hok Hr. pose proof (wf_receive _ _ _ _ (lo_reg _ Hok) Hr) as Hws.
  destruct Hok as [H1 H2 H3 H4 H5 H6 H7 H8 H9].
  unfold receive in Hr. destruct (heap (reg l) !! r) as [c|] eqn:Ec; [|done]. cbn in Hr.
  destruct (pull c) as [[d' c']|] eqn:Ep; [|done]. cbn in Hr. injection Hr as <- <-.
  apply pull_spec in Ep as (Hq & _ & Hcl). split; try done.
  - intros r'. specialize (H3 r'). unfold carries, log_got, upd in *. cbn in *.
    destruct (decide (r = r')) as [<-|Hn].
    + rewrite lookup_insert_eq, Nat.eqb_refl. rewrite Ec, Hq in H3.
      unfold held_for in *. cbn. by case_decide; rewrite <- app_assoc.
    + rewrite lookup_insert_ne by done. by rewrite (proj2 (Nat.eqb_neq r' r)).
  - by apply (alive_set _ r c).
  - intros r' Hr'. by apply (grows_closed _ _ _ (grows_set r c c' _ Ec Hcl)), H8.
  - intros j r' Hr'. by apply (grows_dom _ _ _ (grows_set r c c' _ Ec Hcl)), (H9 j).
Qed.

Lemma link_ok_drop_receiver (l : link) (r : nat) :
  link_ok l → is_Some (heap (reg l) !! r) → link_ok (log_drop (set_reg l (drop_receiver r (reg l))) r).
Proof.
  intros Hok [c Hr]. pose proof (wf_drop_receiver r _ (lo_reg _ Hok)) as Hws.
  pose proof (carries_quiet l _ (lo_carries _ Hok) (quiet_shut (reg l) r)) as Hc.
  destruct Hok as [H1 H2 H3 H4 H5 H6 H7 H8 H9]. split; try done.
  - intros r'. specialize (Hc r'). unfold carries in *. cbn in *.
    destruct (alter shut r (heap (reg l)) !! r') as [c'|]; [|done].
    destruct (decide (r' ∈ dead l)), (decide (r' ∈ {[r]} ∪ dead l)); try done; [set_solver|].
    rewrite <- Hc. exists (held_for (set_heap (reg l) (alter shut r (heap (reg l)))) r' ++ lost_for l r').
    by rewrite <- app_assoc.
  - intros r' c'. cbn. intros Hc' Hu Hn. apply (H7 r' c'); [|done|set_solver].
    rewrite lookup_alter_ne in Hc'; [done|set_solver].
  - intros r'. cbn. rewrite elem_of_union, elem_of_singleton. intros [->|Hd].
    + exists (shut c). cbn. by rewrite lookup_alter_eq, Hr, shut_closed.
    + by apply (grows_closed _ _ _ (grows_shut r (reg l))), H8.
  - intros j r' Hr'. by apply (grows_dom _ _ _ (grows_shut r (reg l))), (H9 j).
Qed.

(** What comes out of a stream's channel is a prefix of the payloads that have
    arrived for the stream, and nothing of what was routed is missing while the
    receiver lives. *)
Lemma link_delivers (l : link) (i : N) (r : nat) (c : chan bytes) :
  link_ok l → good i → owner l !! r = Some i → heap (reg l) !! r = Some c →
  got l r `prefix_of` payloads i (taken l) ∧
  (r ∉ dead l → got l r ++ queued c ++ held_for (reg l) r ++ lost_for l r = routed l r).
Proof.
  intros Hok Hg Ho Hh. pose proof (lo_carries _ Hok r) as Hc. unfold carries in Hc. rewrite Hh in Hc.
  split; [|by intros Hn; rewrite decide_False in Hc].
  trans (routed l r); [|by apply (lo_prefix _ Hok)].
  trans (got l r ++ queued c); [by apply prefix_app_r|].
  case_decide; [done|]. rewrite <- Hc, app_assoc. by apply prefix_app_r.
Qed.

(** A reader that has not been dropped has lost nothing. *)
Lemma link_delivers_all (l : link) (r : nat) (c : chan bytes) :
  link_ok l → lost l = None → heap (reg l) !! r = Some c → r ∉ dead l →
  got l r ++ queued c ++ held_for (reg l) r = routed l r.
Proof.
  intros Hok Hlo Hh Hd. pose proof (lo_carries _ Hok r) as Hc. unfold carries in Hc. rewrite Hh in Hc.
  rewrite decide_False in Hc by done. unfold lost_for in Hc. by rewrite Hlo, app_nil_r in Hc.
Qed.

Lemma link_got_prefix (l : link) (i : N) (r : nat) :
  link_ok l → good i → owner l !! r = Some i → got l r `prefix_of` payloads i (taken l).
Proof.
  intros Hok Hg Ho. destruct (lo_dom _ Hok _ _ Ho) as [c Hc]. by eapply link_delivers.
Qed.

(** ** Channels keep their stream, and what was routed stays routed *)

Lemma open_link_owner (i j : N) (r : nat) (l : link) :
  link_ok l → owner l !! r = Some j → owner (open_link i l) !! r = Some j.
Proof.
  intros Hok Hr. cbn. rewrite lookup_insert_ne; [done|]. intros <-.
  apply (lo_dom _ Hok), (wf_heap _ _ (lo_reg _ Hok)) in Hr. lia.
Qed.

Lemma log_route_mono (l : link) (i : N) (d : bytes) (r : nat) :
  routed l r `prefix_of` routed (log_route l i d) r.
Proof.
  cbn. destruct (inner (reg l) !! i) as [r0|]; [|reflexivity].
  unfold upd. destruct (Nat.eqb_spec r r0) as [->|]; [by apply prefix_app_r|reflexivity].
Qed.

End Invariant.
End Link.
