(* ===== verification/Client.v ===== *)
(** * The client's connection handlers ([client/src/lib.rs])

    One program per handler, over the calls of [Task], in the order and with
    the early returns of the code.  [stream_id] is [id]; the handle of the
    local connection and of the stream's [data_rx] are implicit: a task has
    one of each. *)
From S2P Require Import Prelude Utf8 Text Frame GeoSite GeoIp Routing Sock Http Socks5 Task Relay.

Definition OPEN_ACK_TIMEOUT_SECS : N := 10.

Definition OK_200 : bytes :=
  bs "HTTP/1.1 200 Connection established" ++ CRLF ++ CRLF.
Definition BAD_GATEWAY : bytes :=
  bs "HTTP/1.1 502 Bad Gateway" ++ CRLF ++ bs "Content-Length: 0" ++ CRLF ++ CRLF.

(** ** Relays *)

(** [do_mux_relay], and the end of [handle_via_mux], which is the same code. *)
Definition do_mux_relay (id : N) : prog :=
  Spawn write_task
    (read_loop id
      (let* _ := Send (Close id) in
       let* _ := Unregister id in
       Return)).

(** [relay_tcp a b]: the spawned direction, local to upstream. *)
Definition a_to_b : prog :=
  Loop (let* r := TcpRead in
        match r with
        | ABytes (b :: t) => let* w := UpWrite (b :: t) in if is_ok w then Continue else Break
        | _ => Break
        end)
  Return.

Definition relay_tcp : prog :=
  Spawn a_to_b
    (Loop (let* r := UpRead in
           match r with
           | ABytes (b :: t) => let* w := TcpWrite (b :: t) in if is_ok w then Continue else Break
           | _ => Break
           end)
     Return).

(** ** Direct connections *)

(** [handle_direct] *)
Definition handle_direct (host : bytes) (is_connect : bool) (headers body : bytes) : prog :=
  let* c := Connect host in
  if is_ok c then
    if is_connect then
      let* w := TcpWrite OK_200 in
      if is_ok w then relay_tcp else Return
    else
      let* w := UpWrite (headers ++ body) in
      if is_ok w then relay_tcp else Return
  else
    let* _ := TcpWrite BAD_GATEWAY in Return.

(** [handle_socks_direct] *)
Definition handle_socks_direct (host : bytes) : prog :=
  let* c := Connect host in
  if is_ok c then
    let* _ := TcpWrite (socks5_reply SOCKS5_REP_SUCCESS) in relay_tcp
  else
    let* _ := TcpWrite (socks5_reply SOCKS5_REP_GENERAL_FAILURE) in Return.

(** ** Connections through the tunnel *)

(** [handle_via_mux] (no [timeout]) and [handle_via_mux_with_timeout], which
    differ in the wait for the acknowledgement only. *)
Definition open_via_mux (timeout : option N) (id : N)
    (host : bytes) (is_connect : bool) (headers body : bytes) : prog :=
  let* _ := Register id in
  let* _ := InsertAck id in
  let* s := Send (Open id host) in
  if negb (is_ok s) then let* _ := Unregister id in Return
  else
    let* r := RecvAck timeout in
    if negb (ack_value r) then
      let* _ := Unregister id in
      let* _ := TcpWrite BAD_GATEWAY in Return
    else if is_connect then
      let* w := TcpWrite OK_200 in
      if is_ok w then do_mux_relay id else let* _ := Unregister id in Return
    else
      let* w := Send (Data id (headers ++ body)) in
      if is_ok w then do_mux_relay id else let* _ := Unregister id in Return.

Definition handle_via_mux (id : N) (host : bytes) (is_connect : bool) (headers body : bytes) : prog :=
  open_via_mux None id host is_connect headers body.

Definition handle_via_mux_with_timeout (id : N) (host : bytes) (is_connect : bool)
    (headers body : bytes) : prog :=
  open_via_mux (Some OPEN_ACK_TIMEOUT_SECS) id host is_connect headers body.

(** [handle_socks_via_mux_with_timeout] *)
Definition handle_socks_via_mux_with_timeout (id : N) (host : bytes) : prog :=
  let* _ := Register id in
  let* _ := InsertAck id in
  let* s := Send (Open id host) in
  if negb (is_ok s) then
    let* _ := Unregister id in
    let* _ := TcpWrite (socks5_reply SOCKS5_REP_GENERAL_FAILURE) in Return
  else
    let* r := RecvAck (Some OPEN_ACK_TIMEOUT_SECS) in
    if negb (ack_value r) then
      let* _ := Unregister id in
      let* _ := TcpWrite (socks5_reply SOCKS5_REP_GENERAL_FAILURE) in Return
    else
      let* w := TcpWrite (socks5_reply SOCKS5_REP_SUCCESS) in
      if is_ok w then do_mux_relay id else let* _ := Unregister id in Return.

(** ** The handlers of accepted connections *)

Section Handlers.
Context `{UnicodeCase, RegexEngine, IpNets} (routing : RoutingConfig) (id : N).

(** [headers.starts_with("CONNECT ")] *)
Definition is_connect (headers : bytes) : bool := starts_with headers (bs "CONNECT ").

(** [handle_local_connection] *)
Definition handle_local_connection : prog :=
  let* r := ParseHttp in
  match r with
  | ARequest host headers body =>
      let (bare_host, port) := http_host_port host in
      match should_bypass routing bare_host port with
      | None => Crash
      | Some true => handle_direct host (is_connect headers) headers body
      | Some false => handle_via_mux id host (is_connect headers) headers body
      end
  | _ => Return
  end.

(** [handle_local_connection_resilient] *)
Definition handle_local_connection_resilient : prog :=
  let* r := ParseHttp in
  match r with
  | ARequest host headers body =>
      let (bare_host, port) := http_host_port host in
      match should_bypass routing bare_host port with
      | None => Crash
      | Some true => handle_direct host (is_connect headers) headers body
      | Some false =>
          let* conn := Snapshot in
          if is_ok conn then handle_via_mux_with_timeout id host (is_connect headers) headers body
          else let* _ := TcpWrite BAD_GATEWAY in Return
      end
  | _ => Return
  end.

(** [handle_socks_connection_resilient] *)
Definition handle_socks_connection_resilient : prog :=
  let* r := ParseSocks in
  match r with
  | AHost host =>
      let (bare_host, port) := split_host_port host in
      match should_bypass routing bare_host port with
      | None => Crash
      | Some true => handle_socks_direct host
      | Some false =>
          let* conn := Snapshot in
          if is_ok conn then handle_socks_via_mux_with_timeout id host
          else let* _ := TcpWrite (socks5_reply SOCKS5_REP_GENERAL_FAILURE) in Return
      end
  | _ => Return
  end.

End Handlers.

(** ** Streams the client gives up without telling the server *)

(** A stream the server has opened can be given up without a CLOSE frame:
    when the success reply cannot be written to the application, and when the
    acknowledgement comes after the deadline.  The server keeps the stream and
    its upstream connection. *)
Theorem accepted_stream_leaks (id : N) (h hd b : bytes) :
  let handler := handle_via_mux_with_timeout id h true hd b in
  (∃ ls, run 12 (handler, []) [AOk; AOk; AOk; AFlag true; AErr; AOk] = (ls, (Return, [])) ∧
     (RecvAck (Some 10%N), AFlag true) ∈ calls_of ls ∧ frames_of ls = [Open id h]) ∧
  (∃ ls, run 12 (handler, []) [AOk; AOk; AOk; ATimeout; AOk; AOk] = (ls, (Return, [])) ∧
     frames_of ls = [Open id h]).
Proof.
  cbn zeta. split; (eexists; split; [reflexivity|]).
  - split; [|reflexivity]. do 3 right. left.
  - reflexivity.
Qed.
