(* ===== verification/ClientProtocol.v ===== *)
(** * What the client promises for every local connection

    An abstract specification of a connection handler, independent of its
    code: the state machine of a tunnelled stream as the tunnel's peer and the
    local application see it, the one of a direct connection, and the
    connection's own life around them.  The handlers of [Client] are proved to
    refine it whatever the environment answers. *)
From S2P Require Import Prelude Utf8 Text Frame GeoSite GeoIp Routing Sock Http Socks5 Task Relay Client.

(** ** A tunnelled stream *)

(** What differs between the front ends. *)
Record plan := {
  pl_id : N;
  pl_dest : bytes;
  pl_timeout : option N;
  pl_confirm : option bytes;    (** the success reply the application awaits *)
  pl_first : option bytes;      (** the request to forward first *)
  pl_refuse : bytes;            (** the failure reply *)
  pl_refuse_send : bool;        (** is a failed OPEN send answered too? *)
  pl_lenient : bool             (** direct: is a failed success reply ignored? *)
}.

Inductive mux_phase : Type :=
| Idle | Registered | AckInserted
| Opened                          (** OPEN is on its way *)
| OpenFailed | Refused | Accepted
| Broken                          (** accepted, but the success step failed *)
| Confirmed
| Relaying (pending : option bytes)   (** a chunk read and not yet sent *)
| Draining | CloseSent
| Freed (reply_due : bool).       (** unregistered *)

(** Accept a write of exactly [d]. *)
Definition expect {A : Type} (d d' : bytes) (q : A) : option A :=
  if str_eqb d d' then Some q else None.

Definition for_stream {A : Type} (pl : plan) (id : N) (q : A) : option A :=
  if (id =? pl_id pl)%N then Some q else None.

Definition mux_call (pl : plan) (q : mux_phase) (c : call) (a : answer) : option mux_phase :=
  match q, c with
  | Idle, Register id => for_stream pl id Registered
  | Registered, InsertAck id => for_stream pl id AckInserted
  | AckInserted, Send (Open id d) =>
      if (id =? pl_id pl)%N then expect (pl_dest pl) d (if is_ok a then Opened else OpenFailed)
      else None
  | OpenFailed, Unregister id => for_stream pl id (Freed (pl_refuse_send pl))
  | Opened, RecvAck t =>
      if bool_decide (t = pl_timeout pl) then Some (if ack_value a then Accepted else Refused)
      else None
  | Refused, Unregister id => for_stream pl id (Freed true)
  | Freed true, TcpWrite d => expect (pl_refuse pl) d (Freed false)
  | Accepted, TcpWrite d =>
      match pl_confirm pl with
      | Some d' => expect d' d (if is_ok a then Confirmed else Broken)
      | None => None
      end
  | Accepted, Send (Data id d) =>
      match pl_first pl with
      | Some d' => if (id =? pl_id pl)%N then expect d' d (if is_ok a then Confirmed else Broken) else None
      | None => None
      end
  | Broken, Unregister id => for_stream pl id (Freed false)
  | Relaying None, TcpRead =>
      Some (match a with ABytes (b :: t) => Relaying (Some (b :: t)) | _ => Draining end)
  | Relaying (Some d), Send (Data id d') =>
      if (id =? pl_id pl)%N then expect d d' (if is_ok a then Relaying None else Draining) else None
  | Draining, Send (Close id) => for_stream pl id CloseSent
  | CloseSent, Unregister id => for_stream pl id (Freed false)
  | _, _ => None
  end.

(** ** A direct connection *)

Inductive direct_phase : Type :=
| DStart
| DRefused                        (** the target cannot be reached *)
| DUp                             (** connected *)
| DReady
| DRelaying (pending : option bytes)
| DEnd.

Definition direct_call (pl : plan) (q : direct_phase) (c : call) (a : answer) : option direct_phase :=
  match q, c with
  | DStart, Connect d => expect (pl_dest pl) d (if is_ok a then DUp else DRefused)
  | DRefused, TcpWrite d => expect (pl_refuse pl) d DEnd
  | DUp, TcpWrite d =>
      match pl_confirm pl with
      | Some d' => expect d' d (if is_ok a || pl_lenient pl then DReady else DEnd)
      | None => None
      end
  | DUp, UpWrite d =>
      match pl_first pl with
      | Some d' => expect d' d (if is_ok a then DReady else DEnd)
      | None => None
      end
  | DRelaying None, UpRead =>
      Some (match a with ABytes (b :: t) => DRelaying (Some (b :: t)) | _ => DEnd end)
  | DRelaying (Some d), TcpWrite d' =>
      expect d d' (if is_ok a then DRelaying None else DEnd)
  | _, _ => None
  end.

(** ** A local connection *)

Inductive phase : Type :=
| Start
| Asking (pl : plan)              (** wants the current session *)
| NoSession (pl : plan)
| Mux (pl : plan) (q : mux_phase)
| Direct (pl : plan) (q : direct_phase)
| Over.

(** A front end: the call that reads the request, how a request is planned and
    whether it bypasses the tunnel, and whether sessions come and go. *)
Record front_end := {
  fe_parse : call;
  fe_plan : answer → option (plan * bool);
  fe_resilient : bool;
  fe_answer : answer → Prop       (** what the parser can return *)
}.

Definition conn_call (fe : front_end) (q : phase) (c : call) (a : answer) : option phase :=
  match q, c with
  | Start, ParseHttp | Start, ParseSocks =>
      match fe_parse fe, c with
      | ParseHttp, ParseHttp | ParseSocks, ParseSocks =>
          Some (match fe_plan fe a with
                | None => Over
                | Some (pl, true) => Direct pl DStart
                | Some (pl, false) => if fe_resilient fe then Asking pl else Mux pl Idle
                end)
      | _, _ => None
      end
  | Asking pl, Snapshot => Some (if is_ok a then Mux pl Idle else NoSession pl)
  | NoSession pl, TcpWrite d => expect (pl_refuse pl) d Over
  | Mux pl q, _ => Mux pl <$> mux_call pl q c a
  | Direct pl q, _ => Direct pl <$> direct_call pl q c a
  | _, _ => None
  end.

(** The write task of a stream starts once, when the application has been
    told; and a direct connection's other direction likewise. *)
Inductive conn_spawn : phase → prog → phase → Prop :=
| spawn_writer pl : conn_spawn (Mux pl Confirmed) write_task (Mux pl (Relaying None))
| spawn_copy pl : conn_spawn (Direct pl DReady) a_to_b (Direct pl (DRelaying None)).

(** Where a handler may return: nothing is left registered and no reply is
    owed to the application. *)
Definition conn_end (q : phase) : Prop :=
  match q with
  | Over | Mux _ (Freed false) | Direct _ DEnd => True
  | _ => False
  end.

Definition local_protocol (fe : front_end) : protocol :=
  {| pstate := phase; p_call := conn_call fe; p_spawn := conn_spawn; p_end := conn_end;
     p_answer c a := match c with ParseHttp | ParseSocks => fe_answer fe a | _ => True end |}.

(** ** The three front ends *)

Section FrontEnds.
Context `{UnicodeCase, RegexEngine, IpNets} (routing : RoutingConfig) (id : N).

Definition http_plan (timeout : option N) (host headers body : bytes) : plan :=
  let connect := starts_with headers (bs "CONNECT ") in
  {| pl_id := id; pl_dest := host; pl_timeout := timeout;
     pl_confirm := if connect then Some OK_200 else None;
     pl_first := if connect then None else Some (headers ++ body);
     pl_refuse := BAD_GATEWAY; pl_refuse_send := false; pl_lenient := false |}.

Definition socks_plan (host : bytes) : plan :=
  {| pl_id := id; pl_dest := host; pl_timeout := Some 10%N;
     pl_confirm := Some (socks5_reply SOCKS5_REP_SUCCESS); pl_first := None;
     pl_refuse := socks5_reply SOCKS5_REP_GENERAL_FAILURE; pl_refuse_send := true;
     pl_lenient := true |}.

Definition bypasses (target : bytes * N) : bool :=
  match should_bypass routing (fst target) (snd target) with Some b => b | None => false end.

(** What the two parsers can answer. *)
Definition http_answer (a : answer) : Prop :=
  a = AErr ∨ ∃ ahead s s' h hd b,
    parse_request_header ahead s = (Val (h, hd, b), s') ∧ a = ARequest h hd b.

Definition socks_answer (a : answer) : Prop :=
  a = AErr ∨ ∃ s s' h, parse_socks5_request s = (Val h, s') ∧ a = AHost h.

Definition http_front (resilient : bool) : front_end :=
  {| fe_parse := ParseHttp;
     fe_plan := λ a, match a with
       | ARequest h hd b =>
           Some (http_plan (if resilient then Some 10%N else None) h hd b, bypasses (http_host_port h))
       | _ => None
       end;
     fe_resilient := resilient; fe_answer := http_answer |}.

Definition socks_front : front_end :=
  {| fe_parse := ParseSocks;
     fe_plan := λ a, match a with
       | AHost h => Some (socks_plan h, bypasses (split_host_port h))
       | _ => None
       end;
     fe_resilient := true; fe_answer := socks_answer |}.

End FrontEnds.

(** ** Lemmas *)

Lemma expect_same {A : Type} (d : bytes) (q : A) : expect d d q = Some q.
Proof. unfold expect, str_eqb. by rewrite bool_decide_eq_true_2. Qed.

Lemma for_stream_same {A : Type} (pl : plan) (q : A) : for_stream pl (pl_id pl) q = Some q.
Proof. unfold for_stream. by rewrite N.eqb_refl. Qed.

(** One call of a program against the protocol: compute the next phase. *)
Ltac proto_call :=
  let a := fresh "a" in let Ha := fresh "Ha" in
  intros a Ha; eexists; split;
  [ cbn [p_call local_protocol conn_call mux_call direct_call];
    rewrite ?N.eqb_refl, ?expect_same, ?for_stream_same, ?bool_decide_eq_true_2 by done; reflexivity
  | ].

Section Refinement.
#[local] Arguments wp : simpl never.
Context (fe : front_end).
Notation P := (local_protocol fe).

Lemma wp_mux_relay (pl : plan) (B C : phase → Prop) :
  wp P (do_mux_relay (pl_id pl)) B C (Mux pl Confirmed).
Proof.
  unfold do_mux_relay, read_loop. exists (Mux pl (Relaying None)). split; [constructor|].
  exists (λ q, q = Mux pl (Relaying None)). split; [done|]. intros q ->.
  assert (Hend : wp P (let* _ := Send (Close (pl_id pl)) in
    let* _ := Unregister (pl_id pl) in Return) B C (Mux pl Draining)).
  { proto_call. by proto_call. }
  proto_call. destruct a as [| |[|b t]| | | |]; try exact Hend.
  proto_call. destruct (is_ok a); [done|exact Hend].
Qed.

Lemma wp_direct_relay (pl : plan) (B C : phase → Prop) :
  wp P relay_tcp B C (Direct pl DReady).
Proof.
  unfold relay_tcp. exists (Direct pl (DRelaying None)). split; [constructor|].
  exists (λ q, q = Direct pl (DRelaying None)). split; [done|]. intros q ->.
  proto_call. destruct a as [| |[|b t]| | | |]; try done.
  proto_call. by destruct (is_ok a).
Qed.

Lemma wp_open_via_mux (id : N) (timeout : option N) (h hd b : bytes) (B C : phase → Prop) :
  wp P (open_via_mux timeout id h (is_connect hd) hd b) B C
    (Mux (http_plan id timeout h hd b) Idle).
Proof.
  set (pl := http_plan id timeout h hd b).
  assert (Hrel : ∀ B C, wp P (do_mux_relay id) B C (Mux pl Confirmed))
    by (intros; apply (wp_mux_relay pl)).
  unfold open_via_mux. change id with (pl_id pl). change h with (pl_dest pl).
  change timeout with (pl_timeout pl).
  proto_call. proto_call. proto_call. destruct (is_ok a1); cbn [negb]; [|by proto_call].
  proto_call. destruct (ack_value a2); cbn [negb].
  2:{ proto_call. change BAD_GATEWAY with (pl_refuse pl). by proto_call. }
  unfold is_connect. destruct (starts_with hd (bs "CONNECT ")) eqn:Ec.
  - intros a3 _. exists (Mux pl (if is_ok a3 then Confirmed else Broken)). split.
    { cbn [p_call local_protocol conn_call mux_call]. cbv [pl http_plan pl_confirm]. by rewrite Ec, expect_same. }
    destruct (is_ok a3); [apply Hrel|by proto_call].
  - intros a3 _. exists (Mux pl (if is_ok a3 then Confirmed else Broken)). split.
    { cbn [p_call local_protocol conn_call mux_call]. cbv [pl http_plan pl_first pl_id]. by rewrite Ec, expect_same, N.eqb_refl. }
    destruct (is_ok a3); [apply Hrel|by proto_call].
Qed.

Lemma wp_handle_direct (id : N) (timeout : option N) (h hd b : bytes) (B C : phase → Prop) :
  wp P (handle_direct h (is_connect hd) hd b) B C (Direct (http_plan id timeout h hd b) DStart).
Proof.
  set (pl := http_plan id timeout h hd b). unfold handle_direct.
  change h with (pl_dest pl). proto_call. destruct (is_ok a).
  2:{ change BAD_GATEWAY with (pl_refuse pl). by proto_call. }
  unfold is_connect. destruct (starts_with hd (bs "CONNECT ")) eqn:Ec; intros a1 _;
    (exists (Direct pl (if is_ok a1 then DReady else DEnd)); split;
     [cbn [p_call local_protocol conn_call direct_call]; cbv [pl http_plan pl_confirm pl_first pl_lenient];
      by rewrite Ec, expect_same, ?orb_false_r|]);
    (destruct (is_ok a1); [apply wp_direct_relay|done]).
Qed.

Lemma wp_socks_via_mux (id : N) (h : bytes) (B C : phase → Prop) :
  wp P (handle_socks_via_mux_with_timeout id h) B C (Mux (socks_plan id h) Idle).
Proof.
  set (pl := socks_plan id h).
  assert (Hrel : ∀ B C, wp P (do_mux_relay id) B C (Mux pl Confirmed))
    by (intros; apply (wp_mux_relay pl)).
  unfold handle_socks_via_mux_with_timeout. change id with (pl_id pl). change h with (pl_dest pl).
  change (socks5_reply SOCKS5_REP_GENERAL_FAILURE) with (pl_refuse pl).
  change (Some OPEN_ACK_TIMEOUT_SECS) with (pl_timeout pl).
  proto_call. proto_call. proto_call. destruct (is_ok a1); cbn [negb].
  2:{ proto_call. by proto_call. }
  proto_call. destruct (ack_value a2); cbn [negb]; [|proto_call; by proto_call].
  intros a3 _. exists (Mux pl (if is_ok a3 then Confirmed else Broken)). split.
  { cbn [p_call local_protocol conn_call mux_call]. cbv [pl pl_confirm socks_plan]. by rewrite expect_same. }
  destruct (is_ok a3); [apply Hrel|by proto_call].
Qed.

Lemma wp_socks_direct (id : N) (h : bytes) (B C : phase → Prop) :
  wp P (handle_socks_direct h) B C (Direct (socks_plan id h) DStart).
Proof.
  set (pl := socks_plan id h). unfold handle_socks_direct. change h with (pl_dest pl).
  change (socks5_reply SOCKS5_REP_GENERAL_FAILURE) with (pl_refuse pl).
  proto_call. destruct (is_ok a); [|by proto_call].
  intros a1 _. exists (Direct pl DReady). split.
  { cbn [p_call local_protocol conn_call direct_call]. cbv [pl pl_confirm socks_plan pl_lenient].
    by rewrite orb_true_r, expect_same. }
  apply wp_direct_relay.
Qed.

End Refinement.

Section Handlers.
Context `{UnicodeCase, RegexEngine, IpNets} (routing : RoutingConfig) (id : N).

Lemma bypass_case (t : bytes * N) :
  wf_routing routing → should_bypass routing (fst t) (snd t) = Some (bypasses routing t).
Proof.
  intros Hwf. unfold bypasses.
  by destruct (should_bypass_aux routing (fst t) (snd t) Hwf) as (b & -> & _).
Qed.

Lemma http_follows (resilient : bool) :
  wf_routing routing →
  follows (local_protocol (http_front routing id resilient))
    (if resilient then handle_local_connection_resilient routing id
     else handle_local_connection routing id) Start.
Proof.
  intros Hwf. unfold follows.
  assert (Hgo : ∀ p : bytes → bytes → bytes → prog, (∀ h hd b, wp (local_protocol (http_front routing id resilient)) (p h hd b) (nowhere _) (nowhere _)
      (if resilient then Asking (http_plan id (Some 10%N) h hd b) else Mux (http_plan id None h hd b) Idle)) →
    wp (local_protocol (http_front routing id resilient))
      (let* r := ParseHttp in match r with
       | ARequest h hd b => let (bare, port) := http_host_port h in
         match should_bypass routing bare port with
         | None => Crash
         | Some true => handle_direct h (is_connect hd) hd b
         | Some false => p h hd b
         end
       | _ => Return end) (nowhere _) (nowhere _) Start).
  { intros p Hp a _. destruct a as [| | | | | |h hd b]; try (exists Over; by split).
    pose proof (bypass_case (http_host_port h) Hwf) as Hb.
    destruct (http_host_port h) as [bare port] eqn:Ehp. cbn [fst snd] in Hb. rewrite Hb.
    destruct (bypasses routing (bare, port)) eqn:Ed.
    - eexists. split; [cbn; rewrite Ehp, Ed; reflexivity|]. apply wp_handle_direct.
    - eexists. split; [cbn; rewrite Ehp, Ed; reflexivity|]. specialize (Hp h hd b). by destruct resilient. }
  destruct resilient; apply Hgo; intros h hd b.
  - proto_call. destruct (is_ok a); [apply wp_open_via_mux|].
    change BAD_GATEWAY with (pl_refuse (http_plan id (Some 10%N) h hd b)). by proto_call.
  - apply wp_open_via_mux.
Qed.

Lemma socks_follows :
  wf_routing routing →
  follows (local_protocol (socks_front routing id)) (handle_socks_connection_resilient routing id) Start.
Proof.
  intros Hwf a _. destruct a as [| | | | |h|]; try (exists Over; by split).
  pose proof (bypass_case (split_host_port h) Hwf) as Hb.
  destruct (split_host_port h) as [bare port] eqn:Ehp. cbn [fst snd] in Hb. rewrite Hb.
  destruct (bypasses routing (bare, port)) eqn:Ed.
  - eexists. split; [cbn; rewrite Ehp, Ed; reflexivity|]. apply wp_socks_direct.
  - eexists. split; [cbn; rewrite Ehp, Ed; reflexivity|].
    proto_call. destruct (is_ok a); [apply wp_socks_via_mux|].
    change (socks5_reply SOCKS5_REP_GENERAL_FAILURE) with (pl_refuse (socks_plan id h)). by proto_call.
Qed.

(** ** Properties *)

(** C16: Both HTTP handlers refine the connection protocol, whatever the
    environment answers: the stream is registered before OPEN is sent, the
    reply to the application and the write task come after a positive
    OPEN_ACK only, every chunk read is sent unchanged before the next read,
    CLOSE is the stream's last frame, the stream is unregistered before the
    handler returns, a refusal is always answered, and nothing panics. *)
Theorem http_handlers_refine (Hwf : wf_routing routing) :
  refines (local_protocol (http_front routing id false)) (handle_local_connection routing id) Start ∧
  refines (local_protocol (http_front routing id true)) (handle_local_connection_resilient routing id) Start.
Proof.
  split; apply follows_refines.
  - by apply (http_follows false).
  - by apply (http_follows true).
Qed.

(** C17: The SOCKS5 handler refines the connection protocol with its own
    replies: code 00 on success, code 01 on every failure after the request. *)
Theorem socks_handler_refines (Hwf : wf_routing routing) :
  refines (local_protocol (socks_front routing id)) (handle_socks_connection_resilient routing id) Start.
Proof. apply follows_refines. by apply socks_follows. Qed.

End Handlers.
