(* ===== verification/ClientTraces.v ===== *)
(** * What a tunnelled connection puts on the wire and in the application's hands

    Consequences of the connection protocol for whole runs of the handlers:
    which frames a run has sent, that the upload is the application's bytes in
    order, and how often the application is answered. *)
From S2P Require Import Prelude Utf8 Text Net Frame GeoSite GeoIp Routing Sock Http Socks5 Task Relay.
From S2P Require Import Client ClientProtocol.

(** The frames of one stream: OPEN, data, and perhaps CLOSE. *)
Definition stream_frames (id : N) (dest : bytes) (ds : list bytes) (closed : bool) : list Frame :=
  Open id dest :: map (Data id) ds ++ (if closed then [Close id] else []).

(** The target a run was asked for, and the request bytes to forward first. *)
Definition request_of (ls : list label) : option (bytes * bytes) :=
  match ls with
  | LCall ParseHttp (ARequest h hd b) :: _ => Some (h, if is_connect hd then [] else hd ++ b)
  | LCall ParseSocks (AHost h) :: _ => Some (h, [])
  | _ => None
  end.

(** ** What the application sends, and what the handler sees of it

    [app_stream input ahead ls]: the answers that the run [ls] got on its local
    connection are those of a connection on which the application sends
    [input].  The request is parsed from [input]; what the handler reads
    afterwards is what the parser has left on the connection, in order, and the
    end of the stream is reported only when all of it has been read.  The HTTP
    parser goes through a [BufReader], which takes up to [ahead] bytes more than
    the request and is dropped with them. *)
Inductive app_stream (input : bytes) : nat → list label → Prop :=
| app_http ahead s s' h hd b ls :
    rx s = input → parse_request_header ahead s = (Val (h, hd, b), s') →
    reads_of ls `prefix_of` rx s' → (LCall TcpRead (ABytes []) ∈ ls → reads_of ls = rx s') →
    app_stream input ahead (LCall ParseHttp (ARequest h hd b) :: ls)
| app_socks s s' h ls :
    rx s = input → parse_socks5_request s = (Val h, s') →
    reads_of ls `prefix_of` rx s' → (LCall TcpRead (ABytes []) ∈ ls → reads_of ls = rx s') →
    app_stream input 0 (LCall ParseSocks (AHost h) :: ls).

(** [out] is taken from what the application sends: the request itself when it
    is forwarded ([first]), and then the bytes that follow the request, less at
    most [ahead] bytes right after the request that the parser had read ahead
    and that are gone ([Http.pipelined_bytes_lost]). *)
Definition comes_from (ls : list label) (first out : bytes) : Prop :=
  ∀ input ahead, app_stream input ahead ls →
    ∃ request gone rest, input = request ++ gone ++ rest ∧ length gone ≤ ahead ∧
      (first = request ∨ first = []) ∧ out `prefix_of` first ++ rest.

(** All of it. *)
Definition is_all_of (ls : list label) (first out : bytes) : Prop :=
  ∀ input ahead, app_stream input ahead ls → LCall TcpRead (ABytes []) ∈ ls →
    ∃ request gone rest, input = request ++ gone ++ rest ∧ length gone ≤ ahead ∧
      (first = request ∨ first = []) ∧ out = first ++ rest.

(** The replies the application of a run waits for: on success, if any, and on
    failure. *)
Definition replies_of (ls : list label) : option (option bytes * bytes) :=
  match ls with
  | LCall ParseHttp (ARequest h hd b) :: _ => Some (if is_connect hd then Some OK_200 else None, BAD_GATEWAY)
  | LCall ParseSocks (AHost h) :: _ =>
      Some (Some (socks5_reply SOCKS5_REP_SUCCESS), socks5_reply SOCKS5_REP_GENERAL_FAILURE)
  | _ => None
  end.

(** Did the session refuse a frame during the run? *)
Definition send_failed (ls : list label) : bool :=
  existsb (λ l, match l with LCall (Send _) a => negb (is_ok a) | _ => false end) ls.

(** Was the destination reached: the server acknowledged the OPEN, or the
    direct connection was made? *)
Definition reached (ls : list label) : bool :=
  existsb (λ l, match l with
    | LCall (RecvAck _) a => ack_value a
    | LCall (Connect _) a => is_ok a
    | _ => false
    end) ls.

(** Did the session refuse the OPEN itself? *)
Definition open_refused (ls : list label) : bool :=
  existsb (λ l, match l with LCall (Send (Open _ _)) a => negb (is_ok a) | _ => false end) ls.

Lemma app_stream_reads (input : bytes) (ahead : nat) (ls : list label) (dest first : bytes) :
  app_stream input ahead ls → request_of ls = Some (dest, first) →
  ∃ request gone rest, input = request ++ gone ++ rest ∧ length gone ≤ ahead ∧
    (first = request ∨ first = []) ∧ reads_of ls `prefix_of` rest ∧
    (LCall TcpRead (ABytes []) ∈ ls → reads_of ls = rest).
Proof.
  destruct 1 as [ahead s s' h hd b ls Hrx Hp Hpre Heof|s s' h ls Hrx Hp Hpre Heof]; intros Hreq;
    change (reads_of (_ :: ls)) with (reads_of ls).
  - apply parse_request_header_spec in Hp as (lines & r & _ & Hs & _ & _ & _ & -> & _ & ->).
    injection Hreq as _ <-. exists (concat lines ++ b), (take ahead r), (drop ahead r).
    rewrite take_drop, <-app_assoc. split_and!; [congruence|rewrite length_take; lia| |done|by intros [?|?%Heof]%elem_of_cons].
    destruct (is_connect _); auto.
  - apply parse_socks5_request_spec in Hp as (m & rsv & a & port & r & _ & _ & _ & _ & _ & Hs & _ & ->).
    injection Hreq as _ <-. exists (greeting_bytes m ++ request_bytes SOCKS5_CMD_CONNECT rsv a port), [], r.
    cbn [app length]. split_and!; [by rewrite <-Hrx, Hs, app_assoc|lia|by right|done|by intros [?|?%Heof]%elem_of_cons].
Qed.

Lemma reads_come_from (ls : list label) (dest first out : bytes) :
  request_of ls = Some (dest, first) → out `prefix_of` first ++ reads_of ls → comes_from ls first out.
Proof.
  intros Hreq Hout input ahead Hin.
  destruct (app_stream_reads _ _ _ _ _ Hin Hreq) as (request & gone & rest & ? & ? & ? & Hr & _).
  exists request, gone, rest. split_and!; [done..|]. etrans; [exact Hout|by apply prefix_app].
Qed.

Lemma reads_all_of (ls : list label) (dest first out : bytes) :
  request_of ls = Some (dest, first) → out = first ++ reads_of ls → is_all_of ls first out.
Proof.
  intros Hreq -> input ahead Hin Heof.
  destruct (app_stream_reads _ _ _ _ _ Hin Hreq) as (request & gone & rest & ? & ? & ? & _ & Hr).
  exists request, gone, rest. by rewrite Hr.
Qed.

(** ** Histories along the protocol *)

Section History.
Context (fe : front_end).
Notation P := (local_protocol fe).

Definition first_bytes (pl : plan) : bytes := default [] (pl_first pl).

(** What has been sent ([fs]) and read ([rd]) when a stream is in a phase, and
    whether a send has failed ([fl]). *)
Definition sent_ok (pl : plan) (fs : list Frame) (rd : bytes) (fl : bool) (q : mux_phase) : Prop :=
  let shape ds closed := fs = stream_frames (pl_id pl) (pl_dest pl) ds closed in
  match q with
  | Idle | Registered | AckInserted | OpenFailed => fs = [] ∧ rd = []
  | Opened | Refused | Accepted | Broken => shape [] false ∧ rd = []
  | Confirmed => ∃ ds, shape ds false ∧ concat ds = first_bytes pl ∧ rd = []
  | Relaying p => ∃ ds, shape ds false ∧ concat ds ++ default [] p = first_bytes pl ++ rd
  | Draining => ∃ ds lost, (lost = [] ∨ fl = true) ∧ shape ds false ∧
      concat ds ++ lost = first_bytes pl ++ rd
  | CloseSent | Freed _ =>
      (fs = [] ∧ rd = []) ∨
      ∃ ds closed lost, (closed = true → lost = [] ∨ fl = true) ∧ shape ds closed ∧
        concat ds ++ lost = first_bytes pl ++ rd
  end.

Definition hist_ok (pl : plan) (fs : list Frame) (rd : bytes) (fl : bool) (q : phase) : Prop :=
  match q with
  | Start => False
  | Mux pl' q' => pl' = pl ∧ sent_ok pl fs rd fl q'
  | Asking pl' | NoSession pl' | Direct pl' _ => pl' = pl ∧ fs = [] ∧ rd = []
  | Over => fs = [] ∧ rd = []
  end.

Lemma stream_frames_snoc (id : N) (dest : bytes) (ds : list bytes) (d : bytes) :
  stream_frames id dest ds false ++ [Data id d] = stream_frames id dest (ds ++ [d]) false.
Proof. unfold stream_frames. rewrite !app_nil_r, map_app. done. Qed.

Lemma stream_frames_close (id : N) (dest : bytes) (ds : list bytes) :
  stream_frames id dest ds false ++ [Close id] = stream_frames id dest ds true.
Proof. unfold stream_frames. by rewrite !app_nil_r. Qed.

Lemma expect_Some {A : Type} (d d' : bytes) (q q' : A) :
  expect d d' q = Some q' → d' = d ∧ q' = q.
Proof. unfold expect, str_eqb. case_bool_decide; naive_solver. Qed.

Lemma for_stream_Some {A : Type} (pl : plan) (id : N) (q q' : A) :
  for_stream pl id q = Some q' → id = pl_id pl ∧ q' = q.
Proof. unfold for_stream. destruct (id =? pl_id pl)%N eqn:E; [apply N.eqb_eq in E|]; naive_solver. Qed.

(** What a call adds to the history. *)
Definition sent_by (c : call) (a : answer) : list Frame := frames_of [LCall c a].
Definition failed_by (c : call) (a : answer) : bool := send_failed [LCall c a].
Definition read_by (c : call) (a : answer) : bytes := reads_of [LCall c a].

Ltac proto_inv Hq :=
  repeat (case_match; simplify_eq/=; try done);
  repeat match goal with
  | H : expect _ _ _ = Some _ |- _ => apply expect_Some in H as [-> ->]
  | H : for_stream _ _ _ = Some _ |- _ => apply for_stream_Some in H as [-> ->]
  | H : (_ =? _)%N = true |- _ => apply N.eqb_eq in H as ->
  end.

Lemma sent_ok_step (pl : plan) (fs : list Frame) (rd : bytes) (fl : bool) (q q' : mux_phase) (c : call) (a : answer) :
  (∀ d, pl_confirm pl = Some d → pl_first pl = None) →
  sent_ok pl fs rd fl q → mux_call pl q c a = Some q' →
  sent_ok pl (fs ++ sent_by c a) (rd ++ read_by c a) (fl || failed_by c a) q'.
Proof.
  intros Hpl Hs Hq. unfold sent_by, read_by, failed_by, send_failed, frames_of, reads_of.
  destruct q, c; try done; cbn [mux_call] in Hq; proto_inv Hq; cbn [sent_ok omap list_omap concat] in *.
  all: rewrite ?app_nil_r; try done.
  all: repeat match goal with
    | H : ∃ _, _ |- _ => let x := fresh "x" in destruct H as [x H]
    | H : _ ∧ _ |- _ => let H' := fresh "Hc" in destruct H as [H' H]
    end; subst; cbn [default] in *; rewrite ?app_nil_r, ?stream_frames_snoc,
    ?stream_frames_close, ?orb_false_r in *; try (by left); try (by split).
  all: cbn [negb existsb orb]; rewrite ?orb_false_r; try match goal with H : is_ok _ = _ |- _ => rewrite H end.
  all: cbn [negb]; rewrite ?orb_false_r, ?orb_true_r.
  all: try (right; eexists _, _, _; split; [|split; [reflexivity|]]; cbn; rewrite ?app_nil_r; done).
  all: try (eexists _, _; split; [|split; [reflexivity|]]; [|rewrite ?app_nil_r; done]; by left).
  all: try (eexists; split; [reflexivity|]).
  - split; [|done]. unfold first_bytes. rewrite H. cbn. by rewrite app_nil_r.
  - split; [|done]. unfold first_bytes. by rewrite (Hpl _ eq_refl).
  - rewrite concat_app. cbn. by rewrite !app_nil_r.
  - eexists x, _. split; [by right|]. by split.
  - by rewrite app_assoc, Hs.
  - right. eexists x, true, _. by split_and!.
  - right. eexists x, false, _. by split_and!.
  - by destruct Hs as [?|?]; [left|right].
  - by destruct Hs as [?|?]; [left|right].
Qed.

Lemma frames_of_cons (l : label) (ls : list label) :
  frames_of (l :: ls) = frames_of [l] ++ frames_of ls.
Proof. unfold frames_of. cbn. destruct l as [c a| |]; [|done..]. destruct c; try done. by destruct (is_ok a). Qed.

Lemma reads_of_cons (l : label) (ls : list label) :
  reads_of (l :: ls) = reads_of [l] ++ reads_of ls.
Proof.
  unfold reads_of. cbn. destruct l as [c a| |]; [|done..]. destruct c; try done.
  destruct a; try done. cbn. by rewrite app_nil_r.
Qed.

Lemma send_failed_cons (l : label) (ls : list label) :
  send_failed (l :: ls) = send_failed [l] || send_failed ls.
Proof. unfold send_failed. cbn [existsb]. by rewrite orb_false_r. Qed.

Lemma hist_ok_step (pl : plan) (fs : list Frame) (rd : bytes) (fl : bool) (q q' : phase) (l : label) :
  (∀ d, pl_confirm pl = Some d → pl_first pl = None) →
  hist_ok pl fs rd fl q → advance P q l q' →
  hist_ok pl (fs ++ frames_of [l]) (rd ++ reads_of [l]) (fl || send_failed [l]) q'.
Proof.
  intros Hpl Hh Ha. destruct l as [c a|p|].
  - cbn [advance p_call local_protocol] in Ha. destruct q as [|pl'|pl'|pl' s|pl' s|]; [done|..].
    + destruct c; try done. cbn in Ha. injection Ha as <-. destruct Hh as (-> & -> & ->).
      by destruct (is_ok a).
    + destruct c; try done. cbn in Ha. apply expect_Some in Ha as [-> ->].
      by destruct Hh as (-> & -> & ->).
    + destruct Hh as [-> Hs]. unfold conn_call in Ha.
      assert (∃ s', mux_call pl s c a = Some s' ∧ q' = Mux pl s') as (s' & Hc & ->).
      { destruct c; destruct (mux_call pl s _ a) eqn:E; cbn in Ha; try done; injection Ha as <-; eauto. }
      split; [done|]. by eapply sent_ok_step.
    + destruct Hh as (-> & -> & ->). unfold conn_call in Ha.
      assert (∃ s', direct_call pl s c a = Some s' ∧ q' = Direct pl s') as (s' & Hc & ->).
      { destruct c; destruct (direct_call pl s _ a) eqn:E; cbn in Ha; try done; injection Ha as <-; eauto. }
      split; [done|]. destruct s, c; try done; cbn in Hc; by repeat case_match.
    + by destruct c.
  - cbn [frames_of reads_of omap list_omap concat]. rewrite !app_nil_r.
    cbn in Ha. destruct Ha; destruct Hh as [-> Hh]; [|done].
    split; [done|]. destruct Hh as (ds & Hf & Hc & ->). exists ds. split; [done|].
    cbn. by rewrite !app_nil_r.
  - cbn in Ha. subst q'. cbn [frames_of reads_of omap list_omap concat send_failed existsb].
    by rewrite !app_nil_r, orb_false_r.
Qed.

Lemma hist_ok_run (pl : plan) (fs : list Frame) (rd : bytes) (fl : bool) (q q' : phase) (ls : list label) :
  (∀ d, pl_confirm pl = Some d → pl_first pl = None) →
  hist_ok pl fs rd fl q → accepts P q ls q' →
  hist_ok pl (fs ++ frames_of ls) (rd ++ reads_of ls) (fl || send_failed ls) q'.
Proof.
  intros Hpl Hh Ha. revert fs rd fl Hh.
  induction Ha as [q|q l q1 ls q' Hl _ IH]; intros fs rd fl Hh.
  - cbn. by rewrite !app_nil_r, orb_false_r.
  - rewrite (frames_of_cons l ls), (reads_of_cons l ls), (send_failed_cons l ls), !app_assoc, orb_assoc.
    by eapply IH, hist_ok_step.
Qed.

(** A phase's history, forgetting the phase. *)
Lemma hist_ok_sent (pl : plan) (fs : list Frame) (rd : bytes) (fl : bool) (q : phase) :
  hist_ok pl fs rd fl q →
  fs = [] ∨ ∃ ds closed lost, (closed = true → lost = [] ∨ fl = true) ∧
    fs = stream_frames (pl_id pl) (pl_dest pl) ds closed ∧
    concat ds ++ lost = first_bytes pl ++ rd.
Proof.
  destruct q as [|pl'|pl'|pl' s|pl' s|]; cbn; try naive_solver.
  intros [-> Hs]. destruct s; cbn in Hs;
    try (destruct Hs as [-> ->]; by left);
    try (destruct Hs as [-> ->]; right; by exists [], false, (first_bytes pl ++ []));
    try (destruct Hs as [[-> _]|(ds & cl & lost & Hl & -> & Hc)]; [by left|]; right; by exists ds, cl, lost).
  - destruct Hs as (ds & -> & Hc & ->). right. exists ds, false, []. by rewrite Hc, !app_nil_r.
  - destruct Hs as (ds & -> & Hc). right. by exists ds, false, (default [] pending).
  - destruct Hs as (ds & lost & Hl & -> & Hc). right. by exists ds, false, lost.
Qed.

(** ** Replies along the protocol *)

Definition confirmation (pl : plan) : list bytes := option_list (pl_confirm pl).

(** What has been written to the application in a phase; [g]: has the
    destination been reached; [o]: has the session refused the OPEN. *)
Definition mux_wrote (pl : plan) (ws : list bytes) (g o : bool) (q : mux_phase) : Prop :=
  match q with
  | Idle | Registered | AckInserted | Opened | Refused | Freed true => ws = [] ∧ g = false
  | OpenFailed => ws = [] ∧ g = false ∧ o = true
  | Accepted => ws = [] ∧ g = true
  | Broken | Confirmed | Relaying _ | Draining | CloseSent => ws = confirmation pl ∧ g = true
  | Freed false =>
      (ws = [pl_refuse pl] ∧ g = false) ∨ (ws = confirmation pl ∧ g = true) ∨
      (ws = [] ∧ g = false ∧ o = true ∧ pl_refuse_send pl = false)
  end.

Definition direct_wrote (pl : plan) (ws : list bytes) (g : bool) (q : direct_phase) : Prop :=
  match q with
  | DStart | DRefused => ws = [] ∧ g = false
  | DUp => ws = [] ∧ g = true
  | DReady | DRelaying _ => (∃ rest, ws = confirmation pl ++ rest) ∧ g = true
  | DEnd => (ws = [pl_refuse pl] ∧ g = false) ∨ ((∃ rest, ws = confirmation pl ++ rest) ∧ g = true)
  end.

Definition wrote_ok (pl : plan) (ws : list bytes) (g o : bool) (q : phase) : Prop :=
  match q with
  | Start => False
  | Asking pl' | NoSession pl' => pl' = pl ∧ ws = [] ∧ g = false
  | Mux pl' q' => pl' = pl ∧ mux_wrote pl ws g o q'
  | Direct pl' q' => pl' = pl ∧ direct_wrote pl ws g q'
  | Over => ws = [pl_refuse pl] ∧ g = false
  end.

(** A plan forwards a request or awaits a reply, not both. *)
Definition wf_plan (pl : plan) : Prop :=
  (∀ d, pl_confirm pl = Some d → pl_first pl = None) ∧
  (∀ d, pl_first pl = Some d → pl_confirm pl = None).

Lemma mux_wrote_step (pl : plan) (ws : list bytes) (g o : bool) (q q' : mux_phase) (c : call) (a : answer) :
  wf_plan pl → mux_wrote pl ws g o q → mux_call pl q c a = Some q' →
  mux_wrote pl (ws ++ writes_of [LCall c a]) (g || reached [LCall c a]) (o || open_refused [LCall c a]) q'.
Proof.
  intros [_ Hpl] Hs Hq. unfold reached, open_refused, writes_of.
  destruct q, c; try done; cbn [mux_call] in Hq; proto_inv Hq;
    cbn [mux_wrote omap list_omap existsb] in *; rewrite ?app_nil_r, ?orb_false_r.
  all: repeat match goal with H : is_ok _ = _ |- _ => rewrite H end; cbn [negb].
  all: unfold confirmation in *;
    try match goal with Hf : pl_first _ = Some _ |- _ => specialize (Hpl _ eq_refl) || specialize (Hpl _ Hf); rewrite Hpl end;
    try match goal with Hc : pl_confirm _ = Some _ |- _ => rewrite Hc end;
    rewrite ?orb_true_r; try match goal with |- context [pl_refuse_send ?p] => destruct (pl_refuse_send p) eqn:? end;
    naive_solver.
Qed.

Lemma direct_wrote_step (pl : plan) (ws : list bytes) (g : bool) (q q' : direct_phase) (c : call) (a : answer) :
  wf_plan pl → direct_wrote pl ws g q → direct_call pl q c a = Some q' →
  direct_wrote pl (ws ++ writes_of [LCall c a]) (g || reached [LCall c a]) q'.
Proof.
  intros [_ Hpl] Hs Hq. unfold writes_of.
  assert (Hc : ∀ d, pl_confirm pl = Some d → [d] = confirmation pl) by (intros d; unfold confirmation; by intros ->).
  assert (Hf : ∀ d, pl_first pl = Some d → [] = confirmation pl) by (intros d Hd; unfold confirmation; by rewrite (Hpl d Hd)).
  destruct q, c; try done; cbn [direct_call] in Hq; proto_inv Hq; unfold reached;
    cbn [direct_wrote omap list_omap existsb] in *; rewrite ?app_nil_r, ?orb_false_r;
    repeat match goal with H : is_ok _ = _ |- _ => rewrite H end; destruct_and?; subst; cbn [app orb];
    try (by split); try (by left); try (by right; split); try (by rewrite ?orb_true_r).
  - rewrite (Hc _ eq_refl). split; [by exists []; rewrite app_nil_r|done].
  - right. rewrite (Hc _ eq_refl). split; [by exists []; rewrite app_nil_r|done].
  - rewrite (Hf _ eq_refl). split; [by exists []; rewrite app_nil_r|done].
  - right. rewrite (Hf _ eq_refl). split; [by exists []; rewrite app_nil_r|done].
  - match goal with Hr : ∃ _, _ |- _ => destruct Hr as [rest ->] end. split; [|done]. exists (rest ++ [l]). by rewrite app_assoc.
  - right. match goal with Hr : ∃ _, _ |- _ => destruct Hr as [rest ->] end. split; [|done]. exists (rest ++ [l]). by rewrite app_assoc.
Qed.

Lemma writes_of_cons (l : label) (ls : list label) :
  writes_of (l :: ls) = writes_of [l] ++ writes_of ls.
Proof. unfold writes_of. cbn. destruct l as [c a| |]; [|done..]. by destruct c. Qed.

Lemma reached_cons (l : label) (ls : list label) : reached (l :: ls) = reached [l] || reached ls.
Proof. unfold reached. cbn [existsb]. by rewrite orb_false_r. Qed.

Lemma open_refused_cons (l : label) (ls : list label) :
  open_refused (l :: ls) = open_refused [l] || open_refused ls.
Proof. unfold open_refused. cbn [existsb]. by rewrite orb_false_r. Qed.

Lemma wrote_ok_step (pl : plan) (ws : list bytes) (g o : bool) (q q' : phase) (l : label) :
  wf_plan pl → wrote_ok pl ws g o q → advance P q l q' →
  wrote_ok pl (ws ++ writes_of [l]) (g || reached [l]) (o || open_refused [l]) q'.
Proof.
  intros Hpl Hh Ha. destruct l as [c a|p|].
  - cbn [advance p_call local_protocol] in Ha. destruct q as [|pl'|pl'|pl' s|pl' s|]; [done|..].
    + destruct c; try done. cbn in Ha. injection Ha as <-. destruct Hh as (-> & -> & ->).
      by destruct (is_ok a).
    + destruct c; try done. cbn in Ha. apply expect_Some in Ha as [-> ->].
      by destruct Hh as (-> & -> & ->).
    + destruct Hh as [-> Hs]. unfold conn_call in Ha.
      assert (∃ s', mux_call pl s c a = Some s' ∧ q' = Mux pl s') as (s' & Hc & ->).
      { destruct c; destruct (mux_call pl s _ a) eqn:E; cbn in Ha; try done; injection Ha as <-; eauto. }
      split; [done|]. by eapply mux_wrote_step.
    + destruct Hh as (-> & Hs). unfold conn_call in Ha.
      assert (∃ s', direct_call pl s c a = Some s' ∧ q' = Direct pl s') as (s' & Hc & ->).
      { destruct c; destruct (direct_call pl s _ a) eqn:E; cbn in Ha; try done; injection Ha as <-; eauto. }
      split; [done|]. by eapply direct_wrote_step.
    + by destruct c.
  - cbn [writes_of omap list_omap reached open_refused existsb]. rewrite !app_nil_r, !orb_false_r.
    cbn in Ha. by destruct Ha; destruct Hh as [-> Hh].
  - cbn in Ha. subst q'. cbn [writes_of omap list_omap reached open_refused existsb]. by rewrite !app_nil_r, !orb_false_r.
Qed.

Lemma wrote_ok_run (pl : plan) (ws : list bytes) (g o : bool) (q q' : phase) (ls : list label) :
  wf_plan pl → wrote_ok pl ws g o q → accepts P q ls q' →
  wrote_ok pl (ws ++ writes_of ls) (g || reached ls) (o || open_refused ls) q'.
Proof.
  intros Hpl Hh Ha. revert ws g o Hh. induction Ha as [q|q l q1 ls q' Hl _ IH]; intros ws g o Hh.
  - cbn. by rewrite !app_nil_r, !orb_false_r.
  - rewrite (writes_of_cons l ls), (reached_cons l ls), (open_refused_cons l ls), !app_assoc, !orb_assoc.
    by eapply IH, wrote_ok_step.
Qed.
End History.

(** ** The handlers *)

Section Handlers.
Context `{UnicodeCase, RegexEngine, IpNets} (routing : RoutingConfig) (id : N).

(** Every front end with its handler. *)
Definition handlers : list (front_end * prog) :=
  [(http_front routing id false, handle_local_connection routing id);
   (http_front routing id true, handle_local_connection_resilient routing id);
   (socks_front routing id, handle_socks_connection_resilient routing id)].

Lemma handlers_refine (fe : front_end) (p : prog) :
  wf_routing routing → (fe, p) ∈ handlers → refines (local_protocol fe) p Start.
Proof.
  intros Hwf Hin. apply follows_refines. unfold handlers in Hin.
  rewrite !elem_of_cons in Hin. destruct Hin as [[= -> ->]|[[= -> ->]|[[= -> ->]|[]%elem_of_nil]]].
  - by apply (http_follows routing id false).
  - by apply (http_follows routing id true).
  - by apply socks_follows.
Qed.

Lemma socks_target_valid (a : socks_addr) (port : N) :
  wf_socks_addr a → utf8_valid (socks_target a port) = true.
Proof.
  assert (Hp : utf8_valid (bs ":" ++ show_dec port) = true).
  { rewrite utf8_valid_app_l by done. apply utf8_valid_ascii, show_dec_ascii. }
  unfold socks_target. destruct a as [o|o|d]; cbn [socks_addr_text wf_socks_addr].
  - intros _. rewrite utf8_valid_app_l; [done|]. apply utf8_valid_ascii, show_ipv4_ascii.
  - intros _. rewrite utf8_valid_app_l; [done|].
    apply utf8_valid_ascii. by rewrite !is_ascii_app, show_ipv6_ascii.
  - intros [_ Hd]. by rewrite utf8_valid_app_l.
Qed.

Lemma http_answer_valid (h hd b : bytes) : http_answer (ARequest h hd b) → utf8_valid h = true.
Proof.
  intros [?|(ahead & s & s' & h' & hd' & b' & Hv & [= -> -> ->])]; [done|].
  by apply parse_request_header_wf in Hv as (_ & Hh & _).
Qed.

Lemma socks_answer_valid (h : bytes) : socks_answer (AHost h) → utf8_valid h = true.
Proof.
  intros [?|(s & s' & h' & Hv & [= ->])]; [done|].
  apply parse_socks5_request_spec in Hv as (m & rsv & a & port & r & _ & _ & Ha & _ & _ & _ & -> & _).
  by apply socks_target_valid.
Qed.

(** The first step of a run reads the request, which fixes the plan. *)
Lemma first_step (fe : front_end) (p : prog) (l : label) (cf : config) (q : phase) :
  (fe, p) ∈ handlers → step (p, []) l cf →
  advance (local_protocol fe) Start l q → possible (local_protocol fe) l →
  (q = Over ∧ ∀ ls, replies_of (l :: ls) = None) ∨
  ∃ pl, (hist_ok pl [] [] false q ∧ wrote_ok pl [] false false q) ∧ wf_plan pl ∧
    pl_id pl = id ∧ utf8_valid (pl_dest pl) = true ∧
    (∀ ls, request_of (l :: ls) = Some (pl_dest pl, first_bytes pl)) ∧
    (∀ ls, replies_of (l :: ls) = Some (pl_confirm pl, pl_refuse pl)) ∧
    (pl_refuse_send pl = false → pl_refuse pl = BAD_GATEWAY).
Proof.
  intros Hin Hst Ha Hp. unfold handlers in Hin. rewrite !elem_of_cons in Hin.
  assert (Hplan : ∀ t h hd b, ∃ pl, pl = http_plan id t h hd b ∧ wf_plan pl ∧
    request_of [LCall ParseHttp (ARequest h hd b)] = Some (pl_dest pl, first_bytes pl) ∧
    replies_of [LCall ParseHttp (ARequest h hd b)] = Some (pl_confirm pl, pl_refuse pl)).
  { intros t h hd b. eexists. split; [reflexivity|].
    unfold first_bytes, http_plan, wf_plan, is_connect, request_of, replies_of, is_connect.
    cbn [pl_confirm pl_first pl_dest pl_refuse].
    destruct (starts_with hd (bs "CONNECT ")) eqn:E; by split_and!. }
  destruct Hin as [[= -> ->]|[[= -> ->]|[[= -> ->]|[]%elem_of_nil]]];
    inversion Hst; subst; cbn in Ha, Hp; injection Ha as <-.
  - destruct a as [| | | | | |h hd b]; try (by left). right.
    destruct (Hplan None h hd b) as (pl & Hpl & Hx & Hr & Hr'). exists pl.
    assert (Hv : utf8_valid (pl_dest pl) = true) by (rewrite Hpl; by eapply http_answer_valid).
    split; [|split_and!; [done..|by rewrite Hpl|done|by intros ls; rewrite <- Hr|by intros ls; rewrite <- Hr'|by rewrite Hpl]].
    rewrite Hpl. by destruct (bypasses _ _).
  - destruct a as [| | | | | |h hd b]; try (by left). right.
    destruct (Hplan (Some 10%N) h hd b) as (pl & Hpl & Hx & Hr & Hr'). exists pl.
    assert (Hv : utf8_valid (pl_dest pl) = true) by (rewrite Hpl; by eapply http_answer_valid).
    split; [|split_and!; [done..|by rewrite Hpl|done|by intros ls; rewrite <- Hr|by intros ls; rewrite <- Hr'|by rewrite Hpl]].
    rewrite Hpl. by destruct (bypasses _ _).
  - destruct a as [| | | | |h|]; try (by left). right. exists (socks_plan id h).
    split; [by destruct (bypasses _ _)|]. split_and!; [done..| |done|done|done].
    by eapply socks_answer_valid.
Qed.

Lemma over_run (fe : front_end) (ls : list label) (q : phase) :
  accepts (local_protocol fe) Over ls q → frames_of ls = [] ∧ writes_of ls = [].
Proof.
  remember (Over : pstate (local_protocol fe)) as q0 eqn:E.
  induction 1 as [|q0 l q1 ls q' Hl _ IH]; [done|]. subst q0. rewrite frames_of_cons, writes_of_cons.
  destruct l as [c a|p|]; cbn in Hl; [by destruct c|inversion Hl|]. subst q1. by apply IH.
Qed.

Lemma stream_frames_wf (dest : bytes) (ds : list bytes) (closed : bool) :
  (id ≤ U32_MAX)%N → utf8_valid dest = true → Forall wf_frame (stream_frames id dest ds closed).
Proof.
  intros Hid Hd. unfold stream_frames. constructor; [by split|]. apply Forall_app. split.
  - rewrite Forall_map. apply Forall_true. done.
  - destruct closed; repeat constructor; done.
Qed.

(** ** Properties *)

Lemma upload_shape (fe : front_end) (p : prog) (ls : list label) (cf : config)
  (Hwf : wf_routing routing) (Hid : (id ≤ U32_MAX)%N) (Hin : (fe, p) ∈ handlers)
  (Hrun : steps (p, []) ls cf) (Henv : Forall (possible (local_protocol fe)) ls) :
  frames_of ls = [] ∨
  ∃ dest first ds closed lost,
    request_of ls = Some (dest, first) ∧ frames_of ls = stream_frames id dest ds closed ∧
    concat ds ++ lost = first ++ reads_of ls ∧ Forall wf_frame (frames_of ls) ∧
    (closed = true → send_failed ls = false → lost = []).
Proof.
  destruct (handlers_refine fe p Hwf Hin ls cf Hrun Henv) as (q & Ha & _).
  remember (Start : pstate (local_protocol fe)) as q0 eqn:E.
  destruct Ha as [|q0 l q1 ls q' Hl Ha]; [by left|]. subst q0.
  inversion Hrun as [|? ? cf1 ? ? Hst _]; subst. apply Forall_cons in Henv as [Hp Henv].
  assert (Hl0 : frames_of [l] = [] ∧ reads_of [l] = [] ∧ send_failed [l] = false).
  { unfold handlers in Hin. rewrite !elem_of_cons in Hin.
    destruct Hin as [[= -> ->]|[[= -> ->]|[[= -> ->]|[]%elem_of_nil]]]; by inversion Hst. }
  destruct Hl0 as (Hf0 & Hr0 & Hs0).
  rewrite (frames_of_cons l ls), (reads_of_cons l ls), (send_failed_cons l ls), Hf0, Hr0, Hs0.
  destruct (first_step fe p l cf1 q1 Hin Hst Hl Hp) as [[-> Hnone]|(pl & [Hh _] & [Hx _] & Hpid & Hv & Hreq & _)].
  { left. by apply over_run in Ha as [Ha _]. }
  pose proof (hist_ok_run fe pl [] [] false q1 q' ls Hx Hh Ha) as Hq.
  apply hist_ok_sent in Hq as [Hq|(ds & closed & lost & Hlost & Hf & Hc)]; [by left|]. right.
  cbn [app orb] in *. rewrite Hpid in Hf.
  exists (pl_dest pl), (first_bytes pl), ds, closed, lost. split_and!; [done|done|done| |].
  - rewrite Hf. by apply stream_frames_wf.
  - intros Hcl Hs. destruct (Hlost Hcl) as [?|?]; [done|congruence].
Qed.

(** C14: What a run of any of the three handlers has sent through the tunnel:
    nothing, or OPEN with the requested target, then DATA frames, then at most
    one CLOSE, all of its own stream and all well formed; the DATA payloads are
    a prefix of the forwarded request followed by the bytes read from the
    application, and all of it once CLOSE is sent, unless a send failed. *)
Theorem upload_faithful (fe : front_end) (p : prog) (ls : list label) (cf : config)
  (Hwf : wf_routing routing) (Hid : (id ≤ U32_MAX)%N) (Hin : (fe, p) ∈ handlers)
  (Hrun : steps (p, []) ls cf) (Henv : Forall (possible (local_protocol fe)) ls) :
  frames_of ls = [] ∨
  ∃ dest first ds closed lost,
    request_of ls = Some (dest, first) ∧ frames_of ls = stream_frames id dest ds closed ∧
    concat ds ++ lost = first ++ reads_of ls ∧ Forall wf_frame (frames_of ls) ∧
    (closed = true → send_failed ls = false → lost = []).
Proof. by eapply upload_shape. Qed.

(** C27: When a handler returns after reading a request, the application has
    been answered as the destination answered.  If the destination was reached
    — the server acknowledged the OPEN, or the direct connection was made — the
    success reply of the protocol is the first message to the application, when
    the protocol has one (a plain HTTP request has none), and through the
    tunnel the only one from the handler.  If it was not, the application gets
    exactly the failure reply, with one exception: when the session refuses the
    OPEN itself, the HTTP handlers close the connection without an answer. *)
Theorem every_request_answered (fe : front_end) (p : prog) (ls : list label) (cf : config)
  (Hwf : wf_routing routing) (Hin : (fe, p) ∈ handlers) (Hrun : steps (p, []) ls cf)
  (Henv : Forall (possible (local_protocol fe)) ls) (Hret : fst cf = Return) :
  match replies_of ls with
  | None => writes_of ls = []
  | Some (success, refusal) =>
      if reached ls
      then ∃ rest, writes_of ls = option_list success ++ rest ∧ (rest = [] ∨ frames_of ls = [])
      else writes_of ls = [refusal] ∨
           (open_refused ls = true ∧ refusal = BAD_GATEWAY ∧ writes_of ls = [])
  end.
Proof.
  destruct (handlers_refine fe p Hwf Hin ls cf Hrun Henv) as (q & Ha & _ & Hend & _).
  specialize (Hend Hret). remember (Start : pstate (local_protocol fe)) as q0 eqn:E.
  destruct Ha as [|q0 l q1 ls q' Hl Ha]; [by subst|]. subst q0.
  inversion Hrun as [|? ? cf1 ? ? Hst _]; subst. apply Forall_cons in Henv as [Hp Henv].
  assert (Hl0 : frames_of [l] = [] ∧ writes_of [l] = [] ∧ reached [l] = false ∧ open_refused [l] = false).
  { unfold handlers in Hin. rewrite !elem_of_cons in Hin.
    destruct Hin as [[= -> ->]|[[= -> ->]|[[= -> ->]|[]%elem_of_nil]]]; by inversion Hst. }
  destruct Hl0 as (Hf0 & Hw0 & Hr0 & Ho0).
  rewrite (frames_of_cons l ls), (writes_of_cons l ls), (reached_cons l ls), (open_refused_cons l ls), Hf0, Hw0, Hr0, Ho0.
  destruct (first_step fe p l cf1 q1 Hin Hst Hl Hp) as [[-> Hnone]|(pl & [Hh Hw] & Hx & Hpid & Hv & _ & Hrep & Hbad)].
  { destruct (over_run fe ls q' Ha) as [_ Hw]. by rewrite Hnone, Hw. }
  rewrite Hrep. cbn [app orb].
  pose proof (wrote_ok_run fe pl [] false false q1 q' ls Hx Hw Ha) as Hq. cbn [app orb] in Hq.
  pose proof (hist_ok_run fe pl [] [] false q1 q' ls (proj1 Hx) Hh Ha) as Hq2. cbn [app orb] in Hq2.
  destruct q' as [| | |pl' [| | | | | | | | | | | |[|]]|pl' []|]; try done; cbn in Hq, Hq2.
  - destruct Hq as [-> [[Hq ->]|[[Hq ->]|(Hq & -> & Ho & Hr)]]]; [by left| |].
    + exists []. rewrite app_nil_r. auto.
    + right. split_and!; [done| |done]. by apply Hbad.
  - destruct Hq as [-> [[Hq ->]|[[rest Hq] ->]]]; [by left|]. destruct Hq2 as (_ & Hq2 & _). by exists rest; auto.
  - destruct Hq as [Hq ->]. by left.
Qed.

End Handlers.

(** ** Witnesses *)

#[local] Existing Instances demo_case demo_engine demo_nets.

Definition demo_request : answer :=
  ARequest (bs "example.com:443")
    (bs "CONNECT example.com:443 HTTP/1.1" ++ CRLF ++ bs "Host: example.com:443" ++ CRLF ++ CRLF) [].

Lemma demo_request_possible : http_answer demo_request.
Proof.
  right. exists 0, (demo_sock (bs "CONNECT example.com:443 HTTP/1.1" ++ CRLF ++
    bs "Host: example.com:443" ++ CRLF ++ CRLF)). eexists _, _, _, _. split; [|reflexivity].
  vm_compute. reflexivity.
Qed.

(** Runs that begin with that request, of an application that then sends [sent]. *)
Definition demo_header : bytes :=
  bs "CONNECT example.com:443 HTTP/1.1" ++ CRLF ++ bs "Host: example.com:443" ++ CRLF ++ CRLF.

Lemma demo_app_stream (ls : list label) (sent : bytes) :
  (∃ s', parse_request_header 0 (demo_sock (demo_header ++ sent)) = (Val (bs "example.com:443", demo_header, []), s') ∧ rx s' = sent) →
  head ls = Some (LCall ParseHttp demo_request) → reads_of ls = sent → app_stream (demo_header ++ sent) 0 ls.
Proof.
  intros (s' & Hp & <-). destruct ls as [|l ls]; [done|]. intros [= ->] Hr. eapply app_http; [|exact Hp| |]; [done|by rewrite <- Hr|by intros _].
Qed.

(** A CONNECT through the tunnel: two chunks up, then the application closes. *)
Definition demo_env : list answer :=
  [demo_request; AOk; AOk; AOk; AOk; AFlag true; AOk;
   ABytes (bs "hello"); AOk; ABytes (bs "world"); AOk; ABytes []; AOk; AOk].

Definition demo_run : list label * config :=
  run 40 (handle_local_connection_resilient demo_routing 7, []) demo_env.

Lemma demo_run_possible :
  Forall (possible (local_protocol (http_front demo_routing 7 true))) (fst demo_run).
Proof.
  let ls := eval vm_compute in (fst demo_run) in
    replace (fst demo_run) with ls by (vm_compute; reflexivity).
  apply Forall_cons. split; [exact demo_request_possible|].
  repeat (apply Forall_cons; split; [exact I|]). constructor.
Qed.

Lemma upload_faithful_witness :
  frames_of (fst demo_run) = stream_frames 7 (bs "example.com:443") [bs "hello"; bs "world"] true ∧
  (frames_of (fst demo_run) = [] ∨
   ∃ dest first ds closed lost,
     request_of (fst demo_run) = Some (dest, first) ∧
     frames_of (fst demo_run) = stream_frames 7 dest ds closed ∧
     concat ds ++ lost = first ++ reads_of (fst demo_run) ∧ Forall wf_frame (frames_of (fst demo_run)) ∧
     (closed = true → send_failed (fst demo_run) = false → lost = [])).
Proof.
  split; [vm_compute; reflexivity|].
  apply (upload_faithful demo_routing 7 (http_front demo_routing 7 true)
    (handle_local_connection_resilient demo_routing 7) (fst demo_run) (snd demo_run)).
  - exact demo_routing_wf.
  - unfold U32_MAX. lia.
  - right. left.
  - apply (run_steps 40 _ _ demo_env), surjective_pairing.
  - exact demo_run_possible.
Defined.

Lemma every_request_answered_witness :
  reached (fst demo_run) = true ∧
  match replies_of (fst demo_run) with
  | None => writes_of (fst demo_run) = []
  | Some (success, refusal) =>
      if reached (fst demo_run)
      then ∃ rest, writes_of (fst demo_run) = option_list success ++ rest ∧
        (rest = [] ∨ frames_of (fst demo_run) = [])
      else writes_of (fst demo_run) = [refusal] ∨
           (open_refused (fst demo_run) = true ∧ refusal = BAD_GATEWAY ∧ writes_of (fst demo_run) = [])
  end.
Proof.
  split; [vm_compute; reflexivity|].
  apply (every_request_answered demo_routing 7 (http_front demo_routing 7 true)
    (handle_local_connection_resilient demo_routing 7) (fst demo_run) (snd demo_run)).
  - exact demo_routing_wf.
  - right. left.
  - apply (run_steps 40 _ _ demo_env), surjective_pairing.
  - exact demo_run_possible.
  - vm_compute. reflexivity.
Defined.

Lemma http_handlers_refine_witness :
  refines (local_protocol (http_front demo_routing 7 true))
    (handle_local_connection_resilient demo_routing 7) Start.
Proof. apply (http_handlers_refine demo_routing 7 demo_routing_wf). Defined.

Lemma socks_handler_refines_witness :
  refines (local_protocol (socks_front demo_routing 7))
    (handle_socks_connection_resilient demo_routing 7) Start.
Proof. apply (socks_handler_refines demo_routing 7 demo_routing_wf). Defined.
