(* ===== verification/Ssrf.v ===== *)
(** * The server's destination filter ([server/src/lib.rs])

    [is_dest_allowed] and [is_public_ip], what they guarantee of the targets
    the client's SOCKS5 front end can ask for, and which internal addresses
    they let through. *)
From S2P Require Import Prelude Utf8 Text Net Net6 Routing.
From S2P Require Import Sock Socks5.

(** [is_public_ip] *)
Definition is_public_ip (ip : IpAddr) : bool :=
  match ip with
  | V4 v4 =>
      negb (v4_is_loopback v4) && negb (v4_is_private v4) && negb (v4_is_link_local v4)
        && negb (v4_is_unspecified v4)
  | V6 v6 => negb (v6_is_loopback v6) && negb (v6_is_unspecified v6) && negb (v6_is_multicast v6)
  end.

(** [is_dest_allowed]; [None] is a panic of the slice. *)
Definition is_dest_allowed (dest : bytes) : option bool :=
  let host :=
    match rfind dest x3a with
    | Some colon => option_map (trim_matches is_bracket) (str_to dest colon)
    | None => Some dest
    end in
  match host with
  | None => None
  | Some h => Some (match parse_ip h with Some ip => is_public_ip ip | None => true end)
  end.

(** ** Lemmas *)

(** The host part as the code computes it ([host_part] below is what it is). *)
Definition dest_host (dest : bytes) : bytes :=
  match rsplit_once dest x3a with
  | Some (h, _) => trim_matches is_bracket h
  | None => dest
  end.

Lemma is_dest_allowed_eq (dest : bytes) :
  utf8_valid dest = true →
  is_dest_allowed dest =
  Some (match parse_ip (dest_host dest) with Some ip => is_public_ip ip | None => true end).
Proof.
  intros Hv. unfold is_dest_allowed, dest_host, rfind.
  destruct (rsplit_once dest x3a) as [[h p]|] eqn:E; [|done]. cbn [option_map fst].
  apply rsplit_once_Some in E as [-> _].
  rewrite str_to_app; [done|]. rewrite utf8_valid_ascii_cons by (vm_compute; done).
  by apply utf8_valid_split_ascii in Hv as [_ Hv].
Qed.

Lemma trim_matches_none (p : byte → bool) (s : bytes) :
  forallb (λ b, negb (p b)) s = true → trim_matches p s = s.
Proof.
  intros Hs. unfold trim_matches, drop_while_end. rewrite (drop_while_none p s) by done.
  rewrite drop_while_none; [apply rev_involutive|].
  rewrite forallb_forall in *. intros x Hx%in_rev. auto.
Qed.

Lemma show_ipv4_no_bracket (o : list byte) : forallb (λ b, negb (is_bracket b)) (show_ipv4 o) = true.
Proof.
  assert (Hd : ∀ n, forallb (λ b, negb (is_bracket b)) (show_dec n) = true).
  { intros n. pose proof (show_dec_digits n) as Hn. rewrite forallb_forall in *.
    intros b Hb%Hn. by byte_cases b. }
  destruct o as [|a r]; [done|]. cbn [show_ipv4]. rewrite forallb_app, Hd. cbn [andb].
  induction r as [|b r IH]; [done|]. cbn [map concat app forallb]. rewrite forallb_app, Hd. exact IH.
Qed.

(** The ranges the documentation of [is_dest_allowed] names, and 0.0.0.0. *)
Definition internal_v4 (v : N) : Prop :=
  (v = 0 ∨ 167772160 ≤ v ≤ 184549375            (* 10/8 *)
   ∨ 2130706432 ≤ v ≤ 2147483647                (* 127/8 *)
   ∨ 2851995648 ≤ v ≤ 2852061183                (* 169.254/16 *)
   ∨ 2886729728 ≤ v ≤ 2887778303                (* 172.16/12 *)
   ∨ 3232235520 ≤ v ≤ 3232301055)%N.            (* 192.168/16 *)

Lemma public_v4_iff (o : list byte) :
  length o = 4 → is_public_ip (V4 o) = false ↔ internal_v4 (v4_value o).
Proof.
  destruct o as [|a [|b [|c [|d [|]]]]]; try done. intros _.
  pose proof (u8_bound a); pose proof (u8_bound b); pose proof (u8_bound c); pose proof (u8_bound d).
  assert (Hu : v4_is_unspecified [a; b; c; d] = true ↔
    (u8 a = 0 ∧ u8 b = 0 ∧ u8 c = 0 ∧ u8 d = 0)%N).
  { unfold v4_is_unspecified. rewrite bool_decide_eq_true. split.
    - by intros [= -> -> -> ->].
    - intros (Ha & Hb & Hc & Hd). by rewrite (u8_inj a x00 Ha), (u8_inj b x00 Hb), (u8_inj c x00 Hc), (u8_inj d x00 Hd). }
  unfold is_public_ip. rewrite !andb_false_iff, !negb_false_iff, Hu.
  unfold v4_is_loopback, v4_is_private, v4_is_link_local, v4_value, internal_v4.
  unfold in_range. rewrite ?orb_true_iff, ?andb_true_iff, ?N.eqb_eq, ?N.leb_le. cbn. lia.
Qed.

(** The IPv6 literals the filter refuses: unspecified, loopback, multicast. *)
Definition refused_v6 (o : list byte) : Prop :=
  o = replicate 16 x00 ∨ o = replicate 15 x00 ++ [x01] ∨ head o = Some xff.

Lemma high_byte (a b : byte) : (N.land (u16_from_be_bytes a b) 65280 =? 65280)%N = bool_decide (a = xff).
Proof.
  apply eq_true_iff_eq. rewrite N.eqb_eq, bool_decide_eq_true. split.
  - intros H. apply (f_equal (λ n, N.shiftr n 8)) in H. rewrite N.shiftr_land in H.
    assert (E : N.shiftr (u16_from_be_bytes a b) 8 = u8 a).
    { rewrite N.shiftr_div_pow2. unfold u16_from_be_bytes. change (2 ^ 8)%N with 256%N.
      pose proof (u8_bound b). dlia. }
    rewrite E in H. revert H. by byte_cases a.
  - intros ->. by byte_cases b.
Qed.

Lemma segments_small (o : list byte) (k : N) (j : byte) :
  length o = 16 → u8 j = k →
  segments_of o = [0; 0; 0; 0; 0; 0; 0; k]%N ↔ o = replicate 15 x00 ++ [j].
Proof.
  intros Hl Hj. split; [|by intros ->; cbn; rewrite <- Hj].
  do 17 (destruct o as [|? o]; try done). cbn. unfold u16_from_be_bytes. intros E. injection E as E1 E2 E3 E4 E5 E6 E7 E8.
  pose proof (u8_bound b14). pose proof (u8_bound j).
  repeat match goal with
  | H : (u8 ?x * 256 + u8 ?y)%N = 0%N |- _ =>
      assert (x = x00) as -> by (apply u8_inj; cbn; lia); assert (y = x00) as -> by (apply u8_inj; cbn; lia); clear H
  end.
  assert (b13 = x00) as -> by (apply u8_inj; change (u8 x00) with 0%N; lia).
  assert (b14 = j) as -> by (apply u8_inj; change (u8 x00) with 0%N in *; lia). done.
Qed.

Lemma public_v6_iff (o : list byte) :
  length o = 16 → is_public_ip (V6 (segments_of o)) = false ↔ refused_v6 o.
Proof.
  intros Hl. unfold is_public_ip, refused_v6. rewrite !andb_false_iff, !negb_false_iff.
  unfold v6_is_loopback, v6_is_unspecified. rewrite !bool_decide_eq_true.
  rewrite (segments_small o 1 x01), (segments_small o 0 x00) by done.
  change (replicate 15 x00 ++ [x00]) with (replicate 16 x00).
  assert (Hm : v6_is_multicast (segments_of o) = true ↔ head o = Some xff).
  { destruct o as [|a [|b o]]; try done. unfold v6_is_multicast. cbn [segments_of head].
    rewrite high_byte, bool_decide_eq_true. split; [by intros ->|by intros [= ->]]. }
  rewrite Hm. tauto.
Qed.

(** The filter on the target of a SOCKS5 request for an address. *)
Lemma socks_literal (a : socks_addr) (port : N) (t : bytes) (ip : IpAddr) :
  is_ascii (socks_addr_text a) = true → trim_matches is_bracket (socks_addr_text a) = t → parse_ip t = Some ip →
  is_dest_allowed (socks_target a port) = Some (is_public_ip ip).
Proof.
  intros Ha Ht Hp. unfold socks_target. change (bs ":" ++ show_dec port) with (x3a :: show_dec port).
  rewrite is_dest_allowed_eq; [unfold dest_host; by rewrite rsplit_once_port, Ht, Hp|].
  apply utf8_valid_ascii. rewrite is_ascii_app, Ha. apply show_dec_ascii.
Qed.














(** ** Properties *)


(** Every SOCKS5 request for an IPv4 address is decided on that address:
    it is refused exactly when the address is in 10/8, 127/8, 169.254/16,
    172.16/12, 192.168/16 or is 0.0.0.0, whatever the port. *)
Theorem socks_ipv4_filtered (o : bytes) (port : N) (Ho : length o = 4) :
  ∃ b, is_dest_allowed (socks_target (SocksV4 o) port) = Some b ∧
    (b = false ↔ internal_v4 (v4_value o)).
Proof.
  exists (is_public_ip (V4 o)). split; [|by apply public_v4_iff].
  eapply socks_literal; [apply show_ipv4_ascii|apply trim_matches_none, show_ipv4_no_bracket|by apply parse_show_ipv4].
Qed.

(** C34: Every SOCKS5 request for an IPv6 address is decided on that address, in
    whatever form it is printed: it is refused exactly when the address is ::,
    ::1 or in ff00::/8, whatever the port. So the filter lets through the
    link-local addresses fe80::/10, the unique-local ones fc00::/7 and the
    IPv4-mapped internal ones such as ::ffff:127.0.0.1, although the comment on
    [is_dest_allowed] says that private, loopback and link-local literals are
    refused: this states what the code does. *)
Theorem socks_ipv6_filtered (o : bytes) (port : N) (Ho : length o = 16) :
  ∃ b, is_dest_allowed (socks_target (SocksV6 o) port) = Some b ∧ (b = false ↔ refused_v6 o).
Proof.
  exists (is_public_ip (V6 (segments_of o))). split; [|by apply public_v6_iff].
  assert (Hc : forallb (λ b, negb (is_bracket b)) (show_ipv6 (segments_of o)) = true).
  { pose proof (show_ipv6_chars (segments_of o)) as H. rewrite forallb_forall in *. intros b Hb%H. by byte_cases b. }
  eapply socks_literal; [| |by apply parse_show_ipv6, segments_wf].
  - cbn [socks_addr_text]. by rewrite !is_ascii_app, show_ipv6_ascii.
  - exact (trim_matches_wrap is_bracket _ x5b x5d Hc eq_refl eq_refl).
Qed.

(** The filter lets internal IPv6 destinations through: link-local and
    unique-local addresses, and IPv4 loopback and private addresses written in
    their IPv4-mapped form, as host texts and from SOCKS5 requests alike. *)
Theorem ssrf_gaps :
  is_dest_allowed (bs "[fe80::1]:22") = Some true ∧
  is_dest_allowed (bs "[fd00::1]:80") = Some true ∧
  is_dest_allowed (bs "[::ffff:127.0.0.1]:80") = Some true ∧
  is_dest_allowed (bs "[::ffff:10.0.0.1]:80") = Some true ∧
  is_dest_allowed (socks_target (SocksV6 (replicate 10 x00 ++ [xff; xff; x7f; x00; x00; x01])) 80) = Some true ∧
  is_dest_allowed (bs "[::1]:80") = Some false ∧ is_dest_allowed (bs "127.0.0.1:80") = Some false.
Proof. split_and!; vm_compute; reflexivity. Qed.

(** ** Witnesses *)


Lemma socks_ipv4_filtered_witness :
  ∃ b, is_dest_allowed (bs "192.168.1.7:8080") = Some b ∧ (b = false ↔ internal_v4 3232235783).
Proof. apply (socks_ipv4_filtered [xc0; xa8; x01; x07] 8080). reflexivity. Defined.

Lemma socks_ipv6_filtered_witness :
  ∃ b, is_dest_allowed (socks_target (SocksV6 (xfe :: x80 :: replicate 13 x00 ++ [x01])) 22) = Some b ∧
    (b = false ↔ refused_v6 (xfe :: x80 :: replicate 13 x00 ++ [x01])).
Proof. apply (socks_ipv6_filtered (xfe :: x80 :: replicate 13 x00 ++ [x01]) 22). reflexivity. Defined.
