(* ===== verification/Control.v ===== *)
(** * Logging in: the /control handshake and the session's first frame

    The client's [obtain_token] ([client/src/lib.rs]) against the server's
    [process_control], the token store, and the HELLO that spends a token
    ([run_server_mux_session], [server/src/lib.rs]). *)
From S2P Require Import Prelude Utf8 Text Frame.

(** What the programs rely on of the [semver] and [uuid] crates.  A generated
    token is an argument of the handshake: randomness is the environment's. *)
Class SemVer := {
  version : Type;
  version_req : Type;
  parse_version : bytes → option version;
  parse_version_req : bytes → option version_req;
  req_matches : version_req → version → bool;
  (** [VersionReq::parse(">=0.1.0")] succeeds *)
  supported_req : is_Some (parse_version_req (bs ">=0.1.0"))
}.

Class UuidLib := {
  uuid : Type;
  uuid_eq_dec :: EqDecision uuid;
  uuid_countable :: Countable uuid;
  parse_uuid : bytes → option uuid;
  show_uuid : uuid → bytes;
  parse_show_uuid u : parse_uuid (show_uuid u) = Some u;
  show_uuid_ascii u : is_ascii (show_uuid u) = true
}.

(** What [ws.next().await] yields. *)
Inductive ws_event : Type :=
| WsText (t : bytes)
| WsBinary (d : bytes)
| WsPing (d : bytes)
| WsOther (text : option bytes)   (** pong, close, raw frame; what [to_text] gives *)
| WsError
| WsEnd.       (** the stream is over: [None] *)

Section Control.
Context `{SemVer, UuidLib}.

Definition SUPPORTED_VERSION : bytes := bs ">=0.1.0".

(** ** The server's side *)

Inductive control_result : Type :=
| Panicked                         (** an [unwrap] fails *)
| Handled (replies : list bytes) (closed : bool) (store : gset uuid).

(** [process_control]: the first event of the socket, the configured users,
    the token a v4 generation would give, and the token store. *)
Definition process_control (first : ws_event) (users : list bytes) (token : uuid)
    (store : gset uuid) : control_result :=
  match first with
  | WsText text =>
      if negb (starts_with text (bs "Hello:")) then Handled [] true store
      else
        match splitn 3 text x3a with
        | _ :: client_version :: client_user_id :: _ =>
            match parse_version client_version with
            | None => Handled [bs "Bye:Invalid version format"] true store
            | Some installed =>
                match parse_version_req SUPPORTED_VERSION with
                | None => Panicked
                | Some required =>
                    if negb (req_matches required installed) then
                      Handled [bs "Bye:Unsupported version. Download from https://github.com/echo-proxy/echo-proxy-core/releases"] true store
                    else if negb (bool_decide (client_user_id ∈ users)) then
                      Handled [bs "Bye:User not allowed"] true store
                    else Handled [bs "Hi:" ++ show_uuid token] false ({[token]} ∪ store)
                end
            end
        | _ => Handled [] true store
        end
  | _ => Handled [] true store
  end.

(** The HELLO loop of [run_server_mux_session] over the events so far. *)
Inductive hello_result : Type :=
| HelloToken (u : uuid)
| HelloReturn                      (** the session ends *)
| HelloWait.                       (** nothing decisive has arrived *)

Fixpoint hello_loop (evs : list ws_event) : hello_result :=
  match evs with
  | [] => HelloWait
  | WsBinary data :: _ =>
      match decode data with
      | Ok (Hello t) => match parse_uuid t with Some u => HelloToken u | None => HelloReturn end
      | _ => HelloReturn
      end
  | WsPing _ :: evs' => hello_loop evs'
  | _ :: _ => HelloReturn
  end.

(** HELLO, then the token is consumed: [Some u] when the session starts. *)
Definition session_login (evs : list ws_event) (store : gset uuid) : option uuid * gset uuid :=
  match hello_loop evs with
  | HelloToken u => if bool_decide (u ∈ store) then (Some u, store ∖ {[u]}) else (None, store)
  | _ => (None, store)
  end.

(** ** The client's side *)

(** [base], with a slash at its end, and the two endpoints. *)
Definition with_slash (endpoint : bytes) : bytes :=
  if negb (ends_with endpoint (bs "/")) then endpoint ++ bs "/" else endpoint.
Definition control_url (endpoint : bytes) : bytes := with_slash endpoint ++ bs "control".
Definition mux_url (endpoint : bytes) : bytes := with_slash endpoint ++ bs "mux".

Definition hello_message (version user : bytes) : bytes :=
  bs "Hello:" ++ version ++ bs ":" ++ user.

(** [obtain_token_with_version], after the connection is up: the message it
    sends, and what it makes of the answer. *)
Definition read_token (answer : ws_event) : option bytes :=
  let text :=
    match answer with
    | WsText t => Some t
    | WsBinary d | WsPing d => if utf8_valid d then Some d else None
    | WsOther o => o
    | WsError | WsEnd => None
    end in
  match text with Some t => strip_prefix t (bs "Hi:") | None => None end.

Definition obtain_token_with_version (connected sent : bool) (answer : ws_event) : option bytes :=
  if connected then if sent then read_token answer else None else None.

(** ** Lemmas *)

Lemma splitn_hello (version user : bytes) :
  x3a ∉ version → splitn 3 (hello_message version user) x3a = [bs "Hello"; version; user].
Proof.
  intros Hv. unfold hello_message.
  change (bs "Hello:" ++ version ++ bs ":" ++ user) with (bs "Hello" ++ x3a :: (version ++ x3a :: user)).
  cbn [splitn]. rewrite (proj2 (split_once_Some _ (bs "Hello") (version ++ x3a :: user) x3a)).
  - cbn [splitn]. by rewrite (proj2 (split_once_Some _ version user x3a)).
  - split; [done|]. apply (bool_decide_unpack _). vm_compute. exact I.
Qed.

Lemma read_hi (t : bytes) : read_token (WsText (bs "Hi:" ++ t)) = Some t.
Proof. by apply strip_prefix_iff. Qed.

Lemma splitn_hello_inv (text : bytes) (p v u : bytes) (ps : list bytes) :
  starts_with text (bs "Hello:") = true → splitn 3 text x3a = p :: v :: u :: ps →
  text = hello_message v u ∧ x3a ∉ v ∧ ps = [].
Proof.
  intros [t ->]%starts_with_iff. unfold hello_message.
  change (bs "Hello:" ++ t) with (bs "Hello" ++ x3a :: t). cbn [splitn].
  rewrite (proj2 (split_once_Some _ (bs "Hello") t x3a))
    by (split; [done|]; apply (bool_decide_unpack _); vm_compute; exact I).
  destruct (split_once t x3a) as [[v' u']|] eqn:E; [|done].
  apply split_once_Some in E as [-> Hv]. by intros [= <- <- <- <-].
Qed.

Lemma show_uuid_valid (u : uuid) : utf8_valid (show_uuid u) = true.
Proof. apply utf8_valid_ascii, show_uuid_ascii. Qed.

(** A store changes only when a token is issued, which takes a greeting from an
    allowed user with a supported version. *)
Definition good_login (text : bytes) (users : list bytes) : Prop :=
  ∃ v u installed required, text = hello_message v u ∧ x3a ∉ v ∧ u ∈ users ∧
    parse_version v = Some installed ∧ parse_version_req SUPPORTED_VERSION = Some required ∧
    req_matches required installed = true.

Lemma process_control_cases (first : ws_event) (users : list bytes) (token : uuid) (store : gset uuid) :
  (∃ text, first = WsText text ∧ good_login text users ∧
     process_control first users token store =
     Handled [bs "Hi:" ++ show_uuid token] false ({[token]} ∪ store)) ∨
  (¬ (∃ text, first = WsText text ∧ good_login text users) ∧
   ∃ replies, process_control first users token store = Handled replies true store ∧
     Forall (λ r, read_token (WsText r) = None) replies).
Proof.
  destruct first as [text| | | | |];
    try (right; split; [by intros (? & [=] & _)|]; exists []; split; [done|constructor]).
  assert (Hg : (∃ text0, WsText text = WsText text0 ∧ good_login text0 users) →
    starts_with text (bs "Hello:") = true ∧
    ∃ v u installed required, splitn 3 text x3a = [bs "Hello"; v; u] ∧ u ∈ users ∧
      parse_version v = Some installed ∧ parse_version_req SUPPORTED_VERSION = Some required ∧
      req_matches required installed = true).
  { intros (? & [= <-] & v & u & installed & required & -> & Hn & Hr). split.
    - unfold hello_message. apply starts_with_app.
    - exists v, u, installed, required. by rewrite splitn_hello. }
  assert (Hno : ∀ replies, process_control (WsText text) users token store = Handled replies true store →
    Forall (λ r, read_token (WsText r) = None) replies →
    ¬ (∃ text0, WsText text = WsText text0 ∧ good_login text0 users) →
    (¬ (∃ text0, WsText text = WsText text0 ∧ good_login text0 users) ∧
     ∃ replies, process_control (WsText text) users token store = Handled replies true store ∧
     Forall (λ r, read_token (WsText r) = None) replies)) by eauto.
  unfold process_control in *. destruct (starts_with text (bs "Hello:")) eqn:Es; cbn [negb] in *.
  2:{ right. apply (Hno []); [done|constructor|]. intros Hx. by apply Hg in Hx as [? _]. }
  destruct (splitn 3 text x3a) as [|p [|v [|u ps]]] eqn:Esp;
    try (right; apply (Hno []); [done|constructor|]; intros Hx;
         by apply Hg in Hx as (_ & ? & ? & ? & ? & [=] & _)).
  pose proof (splitn_hello_inv text p v u ps Es Esp) as (Ht & Hn & ->).
  destruct (parse_version v) as [installed|] eqn:Ev.
  2:{ right. eapply Hno; [done|repeat constructor|]. intros Hx.
      apply Hg in Hx as (_ & v' & u' & ? & ? & [= _ -> ->] & _ & ? & _). congruence. }
  destruct (parse_version_req SUPPORTED_VERSION) as [required|] eqn:Er.
  2:{ destruct supported_req as [r Hr]. unfold SUPPORTED_VERSION in Er. congruence. }
  destruct (req_matches required installed) eqn:Em; cbn [negb].
  2:{ right. eapply Hno; [done|repeat constructor|]. intros Hx.
      apply Hg in Hx as (_ & v' & u' & ? & ? & [= _ -> ->] & _ & ? & [= <-] & ?). congruence. }
  case_bool_decide as Hu; cbn [negb].
  2:{ right. eapply Hno; [done|repeat constructor|]. intros Hx.
      by apply Hg in Hx as (_ & v' & u' & ? & ? & [= _ -> ->] & ? & _). }
  left. exists text. split_and!; [done| |done]. by exists v, u, installed, required.
Qed.

(** ** The life of the token store *)

(** The store of a running server, with the tokens it has issued and those
    that have opened a session. *)
Record auth_state := {
  token_store : gset uuid;
  issued : list uuid;
  sessions : list uuid
}.

Definition auth_init : auth_state := {| token_store := ∅; issued := []; sessions := [] |}.

(** /control connections and /mux connections, in any order; a v4 generation
    does not repeat a token. *)
Inductive auth_step (users : list bytes) : auth_state → auth_state → Prop :=
| auth_control first token replies closed store' a :
    token ∉ issued a →
    process_control first users token (token_store a) = Handled replies closed store' →
    auth_step users a
      {| token_store := store'; issued := if closed then issued a else token :: issued a;
         sessions := sessions a |}
| auth_session evs a :
    auth_step users a
      {| token_store := snd (session_login evs (token_store a)); issued := issued a;
         sessions := match fst (session_login evs (token_store a)) with
                     | Some u => u :: sessions a | None => sessions a end |}.

Definition auth_ok (a : auth_state) : Prop :=
  NoDup (issued a) ∧ NoDup (sessions a) ∧ (∀ u, u ∈ sessions a → u ∈ issued a) ∧
  (∀ u, u ∈ token_store a ↔ u ∈ issued a ∧ u ∉ sessions a).

Lemma session_login_cases (evs : list ws_event) (store : gset uuid) :
  (∃ u, u ∈ store ∧ hello_loop evs = HelloToken u ∧ session_login evs store = (Some u, store ∖ {[u]})) ∨
  session_login evs store = (None, store).
Proof.
  unfold session_login. destruct (hello_loop evs) as [u| |]; [|by right..].
  case_bool_decide; [left; by exists u|by right].
Qed.

Lemma auth_ok_step (users : list bytes) (a a' : auth_state) :
  auth_step users a a' → auth_ok a → auth_ok a'.
Proof.
  intros Hst (Hi & Hs & Hsub & Hstore).
  destruct Hst as [first token replies closed store' a Hfresh Hc|evs a].
  - destruct (process_control_cases first users token (token_store a))
      as [(text & _ & _ & Hp)|(_ & r & Hp & _)]; rewrite Hp in Hc; injection Hc as <- <- <-; [|done].
    split_and!; cbn; [by constructor|done| |].
    + intros u Hu. right. by apply Hsub.
    + intros u. rewrite elem_of_union, elem_of_singleton, elem_of_cons, Hstore. split.
      * intros [->|[? ?]]; [|by split; [right|]]. split; [by left|]. intros Hu. by apply Hfresh, Hsub.
      * intros [[->|?] ?]; [by left|by right].
  - destruct (session_login_cases evs (token_store a)) as [(u & Hu & _ & ->)| ->]; cbn; [|done].
    apply Hstore in Hu as [Hui Hus]. split_and!; cbn; [done|by constructor| |].
    + intros v [->|Hv]%elem_of_cons; [done|by apply Hsub].
    + intros v. rewrite elem_of_difference, elem_of_singleton, elem_of_cons, Hstore. tauto.
Qed.

(** ** Properties *)

(** C26: [process_control] never panics; it issues the token (stores it and
    answers with it) exactly for a greeting ["Hello:version:user"] of an
    allowed user with a supported version, and on every other input it leaves
    the store alone, closes the socket, and answers nothing a client would
    take for a token. *)
Theorem process_control_correct (first : ws_event) (users : list bytes) (token : uuid) (store : gset uuid) :
  (∃ text, first = WsText text ∧ good_login text users ∧
     process_control first users token store =
     Handled [bs "Hi:" ++ show_uuid token] false ({[token]} ∪ store)) ∨
  (¬ (∃ text, first = WsText text ∧ good_login text users) ∧
   ∃ replies, process_control first users token store = Handled replies true store ∧
     Forall (λ r, read_token (WsText r) = None) replies).
Proof. apply process_control_cases. Qed.

(** C25: The whole login works, once: an allowed user's [obtain_token] gets the
    issued token out of the server's answer, the HELLO frame made from it opens
    a session and spends the token, and no later HELLO with that token does. *)
Theorem login_round_trip (v user : bytes) (users : list bytes) (token : uuid) (store : gset uuid)
  (Hlogin : good_login (hello_message v user) users) :
  ∃ reply store1,
    process_control (WsText (hello_message v user)) users token store = Handled [reply] false store1 ∧
    obtain_token_with_version true true (WsText reply) = Some (show_uuid token) ∧
    let hello := WsBinary (encode (Hello (show_uuid token))) in
    session_login [hello] store1 = (Some token, store1 ∖ {[token]}) ∧
    ∀ rest, session_login (hello :: rest) (store1 ∖ {[token]}) = (None, store1 ∖ {[token]}).
Proof.
  destruct (process_control_cases (WsText (hello_message v user)) users token store)
    as [(text & _ & _ & Hp)|(Hno & _)]; [|by destruct Hno; eauto].
  eexists _, _. split; [exact Hp|]. split; [apply read_hi|].
  assert (Hd : ∀ rest, hello_loop (WsBinary (encode (Hello (show_uuid token))) :: rest) = HelloToken token).
  { intros rest. cbn [hello_loop]. rewrite decode_encode_aux by apply show_uuid_valid.
    by rewrite parse_show_uuid. }
  cbn zeta. unfold session_login. split.
  - rewrite Hd. rewrite bool_decide_eq_true_2; [done|]. rewrite elem_of_union, elem_of_singleton. by left.
  - intros rest. rewrite Hd. rewrite bool_decide_eq_false_2; [done|].
    rewrite elem_of_difference, elem_of_singleton. tauto.
Qed.

(** C24: In every reachable state of the server, each token has opened at most
    one session and only after it was issued, and the store holds exactly the
    issued tokens that have not been used. *)
Theorem tokens_single_use (users : list bytes) (a : auth_state)
  (Hreach : rtc (auth_step users) auth_init a) :
  NoDup (sessions a) ∧ (∀ u, u ∈ sessions a → u ∈ issued a) ∧
  (∀ u, u ∈ token_store a ↔ u ∈ issued a ∧ u ∉ sessions a).
Proof.
  assert (Hok : auth_ok a).
  { assert (Hk : ∀ a0 a1, rtc (auth_step users) a0 a1 → auth_ok a0 → auth_ok a1).
    { induction 1 as [|a0 a1 a2 Hst _ IH]; [done|]. intros H0'. by eapply IH, auth_ok_step. }
    eapply Hk; [exact Hreach|]. split_and!; [constructor|constructor|done|].
    intros u. cbn. rewrite elem_of_empty, elem_of_nil. tauto. }
  destruct Hok as (_ & ? & ? & ?). by split_and!.
Qed.

End Control.

(** ** Witnesses *)

(** Versions as texts, all supported; two tokens. *)
#[local] Program Instance demo_semver : SemVer :=
  {| version := bytes; version_req := unit; parse_version := Some;
     parse_version_req := λ _, Some tt; req_matches := λ _ _, true |}.
Next Obligation. by eexists. Qed.

#[local] Program Instance demo_uuid : UuidLib :=
  {| uuid := bool;
     parse_uuid := λ t, if str_eqb t (bs "0a") then Some true
                        else if str_eqb t (bs "0b") then Some false else None;
     show_uuid := λ u, if u then bs "0a" else bs "0b" |}.
Next Obligation. by intros []. Qed.
Next Obligation. by intros []. Qed.

Definition demo_token : uuid := true.

Lemma demo_login : good_login (hello_message (bs "0.2.0") (bs "alice")) [bs "bob"; bs "alice"].
Proof.
  exists (bs "0.2.0"), (bs "alice"), (bs "0.2.0"), tt. split_and!; try done.
  - apply (bool_decide_unpack _). vm_compute. exact I.
  - right. left.
Qed.

Lemma login_round_trip_witness :
  ∃ reply store1,
    process_control (WsText (bs "Hello:0.2.0:alice")) [bs "bob"; bs "alice"] demo_token ∅ =
      Handled [reply] false store1 ∧
    obtain_token_with_version true true (WsText reply) = Some (bs "0a") ∧
    session_login [WsBinary (encode (Hello (bs "0a")))] store1 = (Some demo_token, store1 ∖ {[demo_token]}).
Proof.
  destruct (login_round_trip (bs "0.2.0") (bs "alice") [bs "bob"; bs "alice"] demo_token ∅ demo_login)
    as (reply & store1 & Hp & Ho & Hs & _).
  exists reply, store1. split; [exact Hp|]. split; [exact Ho|exact Hs].
Defined.

Lemma tokens_single_use_witness :
  NoDup (sessions {| token_store := (∅ : gset uuid); issued := [demo_token]; sessions := [demo_token] |}).
Proof.
  apply (tokens_single_use [bs "alice"]
    {| token_store := ∅; issued := [demo_token]; sessions := [demo_token] |}).
  eapply rtc_l.
  { apply (auth_control [bs "alice"] (WsText (bs "Hello:0.2.0:alice")) demo_token
      [bs "Hi:0a"] false {[demo_token]} auth_init); [apply not_elem_of_nil|vm_compute; reflexivity]. }
  eapply rtc_l; [|apply rtc_refl].
  exact (auth_session [bs "alice"] [WsBinary (encode (Hello (bs "0a")))]
    {| token_store := {[demo_token]}; issued := [demo_token]; sessions := [] |}).
Defined.
