(* ===== verification/RunProxy.v ===== *)
(** * The proxy without reconnection ([client/src/lib.rs], [run_proxy],
    [run_proxy_with_routing], [build_request])

    The upgrade request, the connection and its HELLO, and the accept loop that
    spawns a handler per connection.  The session it opens is [World]'s. *)
From S2P Require Import Prelude Utf8 Text Net Frame GeoSite GeoIp Routing Task Client Control.

(** The [http] crate's [Uri]: parsing, and the host of the parsed URI. *)
Class UriLib := {
  Uri : Type;
  parse_uri : bytes → option Uri;
  uri_host : Uri → option bytes
}.

Record Request := { rq_uri : bytes; rq_headers : list (bytes * bytes) }.

(** What the accept loop waits for. *)
Inductive listen_event : Type := Accepted | AcceptFails | ShutdownSeen.

(** How [run_proxy_with_routing] ends or goes on: a failed [unwrap]; an error;
    or the accept loop, with the request and the first message it has sent, the
    handlers it has spawned, and its result when it is over. *)
Inductive proxy_run_result : Type :=
| RunPanic
| RunErr
| Ran (request : Request) (hello : bytes) (handlers : list (N * prog)) (result : option bool).

Section RunProxy.
Context `{UnicodeCase, RegexEngine, IpNets, UriLib}.

(** [build_request]; [key] is what [generate_key] gives, [None] a panic. *)
Definition build_request (key url_str : bytes) : option Request :=
  uri ← parse_uri url_str;
  h ← uri_host uri;
  Some {| rq_uri := url_str;
          rq_headers := [(bs "Host", h); (bs "Connection", bs "Upgrade"); (bs "Upgrade", bs "websocket");
                         (bs "Sec-WebSocket-Version", bs "13"); (bs "Sec-WebSocket-Key", key)] |}.

(** The accept loop, from the counter [id]. *)
Fixpoint accept_loop (routing : RoutingConfig) (id : N) (es : list listen_event)
  : list (N * prog) * option bool :=
  match es with
  | [] => ([], None)
  | Accepted :: es' =>
      let (hs, r) := accept_loop routing ((id + 1) mod 4294967296)%N es' in
      ((id, handle_local_connection routing id) :: hs, r)
  | AcceptFails :: _ => ([], Some false)
  | ShutdownSeen :: _ => ([], Some true)
  end.

(** [run_proxy_with_routing]; [connected] and [sent] are the results of
    [connect_async] and of sending HELLO. *)
Definition run_proxy_with_routing (key endpoint token : bytes) (routing : RoutingConfig)
    (connected sent : bool) (es : list listen_event) : proxy_run_result :=
  match build_request key (mux_url endpoint) with
  | None => RunPanic
  | Some req =>
      if negb connected then RunErr
      else if negb sent then RunErr
      else let (hs, r) := accept_loop routing 1 es in Ran req (encode (Hello token)) hs r
  end.

(** [run_proxy] *)
Definition run_proxy (key endpoint token : bytes) : bool → bool → list listen_event → proxy_run_result :=
  run_proxy_with_routing key endpoint token routing_default.

(** ** Lemmas *)

(** The events before the first that ends the loop. *)
Fixpoint accepted (es : list listen_event) : nat :=
  match es with Accepted :: es' => S (accepted es') | _ => 0 end.

Definition loop_result (es : list listen_event) : option bool :=
  match drop (accepted es) es with
  | [] | Accepted :: _ => None
  | AcceptFails :: _ => Some false
  | ShutdownSeen :: _ => Some true
  end.

Lemma accept_loop_spec (routing : RoutingConfig) (es : list listen_event) (id : N) :
  (id < 4294967296)%N →
  let (hs, r) := accept_loop routing id es in
  length hs = accepted es ∧ r = loop_result es ∧
  ∀ k i p, hs !! k = Some (i, p) →
    i = ((id + N.of_nat k) mod 4294967296)%N ∧ p = handle_local_connection routing i.
Proof.
  revert id. induction es as [|[| |] es IH]; intros id Hid; cbn [accept_loop]; [done| |done..].
  specialize (IH ((id + 1) mod 4294967296)%N ltac:(by apply N.mod_lt)).
  destruct (accept_loop _ _ _) as [hs r]. destruct IH as (Hl & Hr & Hh). split_and!.
  - cbn. by rewrite Hl.
  - exact Hr.
  - intros [|k] i p; cbn; [intros [= <- <-]; split; [|done]; rewrite N.add_0_r; by rewrite N.mod_small|].
    intros Hk. apply Hh in Hk as [-> ->]. split; [|done].
    rewrite N.Div0.add_mod_idemp_l. f_equal. lia.
Qed.

(** ** Properties *)

(** [run_proxy_with_routing] panics exactly when the endpoint does not yield a
    URI with a host; fails before it accepts anything exactly when connecting
    or sending HELLO fails; and otherwise sends a HELLO that decodes to the
    token and spawns one handler per accepted connection, with the ids 1, 2, …
    modulo 2^32, until accepting fails (an error) or the shutdown (no error). *)
Theorem run_proxy_correct (key endpoint token : bytes) (routing : RoutingConfig) (connected sent : bool)
  (es : list listen_event) (Htoken : utf8_valid token = true) :
  match run_proxy_with_routing key endpoint token routing connected sent es with
  | RunPanic => parse_uri (mux_url endpoint) ≫= uri_host = None
  | RunErr => is_Some (parse_uri (mux_url endpoint) ≫= uri_host) ∧ connected && sent = false
  | Ran req hello hs r =>
      is_Some (parse_uri (mux_url endpoint) ≫= uri_host) ∧ connected && sent = true ∧ rq_uri req = mux_url endpoint ∧ decode hello = Ok (Hello token) ∧
      length hs = accepted es ∧ r = loop_result es ∧
      ∀ k i p, hs !! k = Some (i, p) →
        i = (N.of_nat (S k) mod 4294967296)%N ∧ p = handle_local_connection routing i
  end.
Proof.
  unfold run_proxy_with_routing, build_request.
  destruct (parse_uri (mux_url endpoint)) as [u|]; cbn [mbind option_bind]; [|done].
  destruct (uri_host u) as [h|]; cbn [mbind option_bind]; [|done].
  destruct connected, sent; cbn [negb]; try (split; [by eexists|done]).
  pose proof (accept_loop_spec routing es 1 ltac:(done)) as Hs. destruct (accept_loop routing 1 es) as [hs r].
  destruct Hs as (Hl & Hr & Hh). split_and!; [by eexists|done|done|by apply decode_encode_aux|done|done|].
  intros k i p Hk. apply Hh in Hk as [-> ->]. split; [|done]. f_equal. lia.
Qed.
End RunProxy.

(** ** Witness *)

#[local] Existing Instances demo_case demo_engine demo_nets.

(** URIs with a scheme; the host is what follows up to a slash. *)
Definition demo_uris : UriLib :=
  {| Uri := bytes;
     parse_uri s := strip_prefix s (bs "ws://");
     uri_host u := match split_once u x2f with Some ([], _) => None | Some (h, _) => Some h | None => None end |}.
#[local] Existing Instance demo_uris.

Lemma run_proxy_correct_witness :
  utf8_valid (bs "tok") = true ∧ run_proxy [] (bs "nowhere") (bs "tok") true true [] = RunPanic ∧
  match run_proxy [] (bs "ws://host") (bs "tok") true true [Accepted; ShutdownSeen] with
  | Ran _ hello hs r => decode hello = Ok (Hello (bs "tok")) ∧ length hs = 1 ∧ r = Some true
  | _ => False
  end.
Proof.
  split; [reflexivity|]. split; [vm_compute; reflexivity|].
  assert (E : run_proxy [] (bs "ws://host") (bs "tok") true true [Accepted; ShutdownSeen] ≠ RunPanic ∧
    run_proxy [] (bs "ws://host") (bs "tok") true true [Accepted; ShutdownSeen] ≠ RunErr)
    by (split; intros E; discriminate E).
  pose proof (run_proxy_correct [] (bs "ws://host") (bs "tok") routing_default true true [Accepted; ShutdownSeen]
    ltac:(reflexivity)) as H. unfold run_proxy in *.
  destruct (run_proxy_with_routing _ _ _ _ _ _ _); [by destruct E|by destruct E|].
  destruct H as (_ & _ & _ & Hd & Hl & Hr & _). by rewrite Hd, Hl, Hr.
Defined.
