(* ===== verification/Mux.v ===== *)
(** * The two reader loops of a mux session

    [run_client_reader] ([client/src/lib.rs]) with the pending
    acknowledgements it serves, and the reader of [run_server_mux_session]
    ([server/src/lib.rs]): what each WebSocket event does to the session. *)
From S2P Require Import Prelude Frame Channel Registry Control.

Section Mux.
Context `{ChannelLib}.

(** ** The client's session state *)

(** [PendingAcks] over a store of one-shot channels, next to the registry;
    [stopped] when the reader loop has ended. *)
Record session := {
  registry : streams;
  pending_acks : gmap N nat;
  ack_chans : gmap nat (chan bool);
  ack_fresh : nat;
  stopped : bool
}.

Definition session_new : session :=
  {| registry := registry_new; pending_acks := ∅; ack_chans := ∅; ack_fresh := 0; stopped := false |}.

Definition with_registry (s : session) (r : streams) : session :=
  {| registry := r; pending_acks := pending_acks s; ack_chans := ack_chans s;
     ack_fresh := ack_fresh s; stopped := stopped s |}.

Definition with_acks (s : session) (m : gmap N nat) (h : gmap nat (chan bool)) : session :=
  {| registry := registry s; pending_acks := m; ack_chans := h;
     ack_fresh := ack_fresh s; stopped := stopped s |}.

(** [bounded::<bool>(1)] and [pending_acks.insert(id, ack_tx)]; a sender that
    was there is dropped. *)
Definition insert_ack (id : N) (s : session) : nat * session :=
  let r := ack_fresh s in
  let h := match pending_acks s !! id with Some old => alter shut old (ack_chans s) | None => ack_chans s end in
  (r, {| registry := registry s; pending_acks := <[id := r]> (pending_acks s);
         ack_chans := <[r := bounded 1]> h; ack_fresh := S r; stopped := stopped s |}).

(** [if let Some(tx) = pending_acks.remove(&id) { let _ = tx.try_send(ok); }] *)
Definition deliver_ack (id : N) (ok : bool) (s : session) : session :=
  match pending_acks s !! id with
  | Some r => with_acks s (delete id (pending_acks s))
                (alter (λ c, shut (default c (push ok c))) r (ack_chans s))
  | None => s
  end.

(** [pending_acks.clear()] *)
Definition clear_acks (s : session) : session :=
  with_acks s ∅ (foldr (alter shut) (ack_chans s) (map snd (map_to_list (pending_acks s)))).

(** [MuxConn::close] *)
Definition mux_conn_close (s : session) : session :=
  let s' := clear_acks s in with_registry s' (close_all (registry s')).

(** ** [run_client_reader] *)

(** The end of the loop. *)
Definition reader_stop (s : session) : session :=
  let s' := clear_acks (with_registry s (close_all (registry s))) in
  {| registry := registry s'; pending_acks := pending_acks s'; ack_chans := ack_chans s';
     ack_fresh := ack_fresh s'; stopped := true |}.

(** One event; a DATA frame leaves the reader in [route], which
    [reader_resume] completes. *)
Definition reader_event (ev : ws_event) (s : session) : session :=
  match ev with
  | WsBinary data =>
      match decode data with
      | Ok (OpenAck id ok) => deliver_ack id ok s
      | Ok (Data id payload) => with_registry s (route_start id payload (registry s))
      | Ok (Close id) => with_registry s (close id (registry s))
      | _ => s
      end
  | WsPing _ => s
  | _ => reader_stop s
  end.

Definition reader_resume (s : session) : option session :=
  option_map (with_registry s) (route_finish (registry s)).

(** ** The server's reader *)

(** What the loop does with an event; [ServerOpen] runs [handle_open]. *)
Inductive server_action : Type :=
| ServerOpen (id : N) (dest : bytes)
| ServerRoute (id : N) (payload : bytes)
| ServerClose (id : N)
| ServerSkip
| ServerStop.

Definition server_event (ev : ws_event) : server_action :=
  match ev with
  | WsBinary d =>
      match decode d with
      | Ok (Open id dest) => ServerOpen id dest
      | Ok (Data id payload) => ServerRoute id payload
      | Ok (Close id) => ServerClose id
      | _ => ServerSkip
      end
  | WsPing _ => ServerSkip
  | _ => ServerStop
  end.

(** Its effect on the registry, [handle_open] apart. *)
Definition server_apply (a : server_action) (s : streams) : streams :=
  match a with
  | ServerRoute id payload => route_start id payload s
  | ServerClose id => close id s
  | ServerStop => close_all s
  | ServerOpen _ _ | ServerSkip => s
  end.

(** ** Runs of a client session *)

(** The reader's events and the calls handlers make on the session. *)
Inductive session_step : session → session → Prop :=
| ss_event ev s : stopped s = false → held (registry s) = None → session_step s (reader_event ev s)
| ss_resume s s' : reader_resume s = Some s' → session_step s s'
| ss_close s : session_step s (mux_conn_close s)
| ss_insert_ack id s : session_step s (snd (insert_ack id s))
| ss_recv_ack r b c' s :
    (ack_chans s !! r ≫= pull) = Some (b, c') →
    session_step s (with_acks s (pending_acks s) (<[r := c']> (ack_chans s)))
| ss_registry s r : reg_step (registry s) r → held r = held (registry s) →
    session_step s (with_registry s r).

Definition ack_queue (s : session) (r : nat) : option (list bool) := queued <$> ack_chans s !! r.
Definition ack_closed (s : session) (r : nat) : option bool := is_closed <$> ack_chans s !! r.

(** A waiting handler's sender is in the map, or its channel is closed; so a
    handler waits only for an acknowledgement that can still come. *)
Record acks_ok (s : session) : Prop := {
  ao_inj i j r : pending_acks s !! i = Some r → pending_acks s !! j = Some r → i = j;
  ao_dom i r : pending_acks s !! i = Some r → r < ack_fresh s;
  ao_heap r : r < ack_fresh s ↔ is_Some (ack_chans s !! r);
  ao_open i r c : pending_acks s !! i = Some r → ack_chans s !! r = Some c →
    capacity c = 1 ∧ queued c = [] ∧ is_closed c = false;
  ao_closed r c : ack_chans s !! r = Some c → (∀ i, pending_acks s !! i ≠ Some r) → is_closed c = true
}.

(** ** Lemmas *)

Lemma foldr_shut_inv (l : list nat) (h : gmap nat (chan bool)) (r : nat) (c : chan bool) :
  foldr (alter shut) h l !! r = Some c →
  ∃ c0, h !! r = Some c0 ∧ queued c = queued c0 ∧
    (r ∈ l ∨ is_closed c0 = true → is_closed c = true).
Proof.
  revert c. induction l as [|r' l IH]; intros c; cbn [foldr].
  - intros Hc. exists c. split_and!; [done|done|]. by intros [[]%elem_of_nil|].
  - rewrite lookup_alter_Some. intros [(<- & c1 & Hc & ->)|[Hn Hc]];
      destruct (IH _ Hc) as (c0 & H0 & Hq & Hx); exists c0.
    + rewrite shut_queued, shut_closed. by split_and!.
    + split_and!; [done|done|]. intros [[->|?]%elem_of_cons|?]; [done|apply Hx; by left|apply Hx; by right].
Qed.

Lemma foldr_shut_dom (l : list nat) (h : gmap nat (chan bool)) (r : nat) :
  is_Some (foldr (alter shut) h l !! r) ↔ is_Some (h !! r).
Proof.
  induction l as [|r' l IH]; cbn [foldr]; [done|]. rewrite <- IH. unfold is_Some.
  setoid_rewrite lookup_alter_Some. destruct (decide (r' = r)) as [->|Hn]; naive_solver.
Qed.

Lemma acks_ok_new : acks_ok session_new.
Proof.
  split; cbn; try by (intros; by rewrite ?lookup_empty in *).
  intros r. rewrite lookup_empty. split; [lia|by intros []].
Qed.

Lemma acks_ok_registry (s : session) (r : streams) : acks_ok s → acks_ok (with_registry s r).
Proof. by intros []; split. Qed.

Lemma acks_ok_clear (s : session) : acks_ok s → acks_ok (clear_acks s).
Proof.
  intros [Hi Hd Hh Ho Hc]. split; cbn; try by (intros; by rewrite lookup_empty in *).
  - intros r. by rewrite foldr_shut_dom, Hh.
  - intros r c (c0 & H0 & _ & Hx)%foldr_shut_inv _. apply Hx.
    destruct (decide (map_Exists (λ _ r', r' = r) (pending_acks s))) as [(i & r' & Hi' & ->)|Hn].
    + left. apply list_elem_of_fmap. exists (i, r). split; [done|]. by apply elem_of_map_to_list.
    + right. apply (Hc r c0 H0). intros i Hi'. apply Hn. by exists i, r.
Qed.

Lemma acks_ok_deliver (id : N) (ok : bool) (s : session) : acks_ok s → acks_ok (deliver_ack id ok s).
Proof.
  intros Hok. unfold deliver_ack. destruct (pending_acks s !! id) as [r|] eqn:Er; [|done].
  destruct Hok as [Hi Hd Hh Ho Hc]. split; cbn.
  - intros i j r' [_ H1]%lookup_delete_Some [_ H2]%lookup_delete_Some. by eapply Hi.
  - intros i r' [_ H1]%lookup_delete_Some. by eapply Hd.
  - intros r'. rewrite Hh. unfold is_Some. setoid_rewrite lookup_alter_Some.
    destruct (decide (r = r')) as [->|Hn]; naive_solver.
  - intros i r' c [Hn H1]%lookup_delete_Some. rewrite lookup_alter_ne; [by apply (Ho i)|].
    intros ->. apply Hn. by apply (Hi id i r').
  - intros r' c. rewrite lookup_alter_Some. intros [(<- & c0 & H0 & ->)|[Hn H0]] Hno.
    + apply shut_closed.
    + apply (Hc r' c H0). intros i Hi'. destruct (decide (i = id)) as [->|Hni]; [congruence|].
      apply (Hno i). by rewrite lookup_delete_ne.
Qed.

Lemma acks_ok_insert (id : N) (s : session) : acks_ok s → acks_ok (snd (insert_ack id s)).
Proof.
  intros [Hi Hd Hh Ho Hc]. unfold insert_ack. cbn [snd].
  set (h := match pending_acks s !! id with Some old => _ | None => _ end).
  assert (Hhl : ∀ r c, h !! r = Some c → ∃ c0, ack_chans s !! r = Some c0 ∧
    (c = c0 ∨ is_closed c = true) ∧ ((∀ i, i ≠ id → pending_acks s !! i ≠ Some r) → is_closed c = true) ∧
    (pending_acks s !! id ≠ Some r → c = c0)).
  { intros r c Hr. unfold h in Hr. destruct (pending_acks s !! id) as [old|] eqn:Eo.
    - rewrite lookup_alter_Some in Hr. destruct Hr as [(<- & c0 & H0 & ->)|[Hn H0]].
      + exists c0. rewrite shut_closed. split_and!; [done|by right|done|done].
      + exists c. split_and!; [done|by left| |done]. intros Hno. apply (Hc r c H0).
        intros i. destruct (decide (i = id)) as [->|]; [rewrite Eo; congruence|by apply Hno].
    - exists c. split_and!; [done|by left| |done]. intros Hno. apply (Hc r c Hr).
      intros i. destruct (decide (i = id)) as [->|]; [by rewrite Eo|by apply Hno]. }
  assert (Hdom : ∀ r, is_Some (h !! r) ↔ is_Some (ack_chans s !! r)).
  { intros r. unfold h. destruct (pending_acks s !! id) as [old|]; [|done].
    apply (foldr_shut_dom [old]). }
  split; cbn.
  - intros i j r. rewrite !lookup_insert_Some.
    intros [[<- <-]|[Hni H1]] [[<- E]|[Hnj H2]]; try done.
    + apply Hd in H2. lia.
    + subst r. apply Hd in H1. lia.
    + by eapply Hi.
  - intros i r. rewrite lookup_insert_Some. intros [[_ <-]|[_ H1]]; [lia|]. apply Hd in H1. lia.
  - intros r. destruct (decide (r = ack_fresh s)) as [->|Hn].
    + rewrite lookup_insert_eq. split; [eauto|lia].
    + rewrite lookup_insert_ne by done. rewrite Hdom, <- Hh. lia.
  - intros i r c. rewrite lookup_insert_Some. intros [[<- <-]|[Hn H1]].
    + rewrite lookup_insert_eq. intros [= <-]. by destruct (bounded_spec (A:=bool) 1) as (-> & -> & ->).
    + rewrite lookup_insert_ne by (apply Hd in H1; lia). intros (c0 & H0 & _ & _ & Hs)%Hhl.
      rewrite Hs; [by apply (Ho i r)|]. intros H2. apply Hn. by apply (Hi id i r).
  - intros r c. rewrite lookup_insert_Some. intros [[<- _]|[Hn H1]] Hno.
    + exfalso. apply (Hno id). by rewrite lookup_insert_eq.
    + apply Hhl in H1 as (c0 & H0 & _ & Hx & _). apply Hx. intros i Hni Hi'.
      apply (Hno i). by rewrite lookup_insert_ne.
Qed.

Lemma acks_ok_recv (s : session) (r : nat) (b : bool) (c c' : chan bool) :
  ack_chans s !! r = Some c → pull c = Some (b, c') → acks_ok s →
  acks_ok (with_acks s (pending_acks s) (<[r := c']> (ack_chans s))).
Proof.
  intros Hr Hp [Hi Hd Hh Ho Hc]. apply pull_spec in Hp as (Hq & Hk & Hcl). split; cbn.
  - exact Hi.
  - exact Hd.
  - intros r'. rewrite Hh. destruct (decide (r = r')) as [<-|Hn];
      [rewrite lookup_insert_eq, Hr; by split|by rewrite lookup_insert_ne].
  - intros i r' c0 Hi'. rewrite lookup_insert_Some. intros [[<- <-]|[_ H0]]; [|by apply (Ho i r')].
    destruct (Ho i r c Hi' Hr) as (_ & Hq' & _). congruence.
  - intros r' c0. rewrite lookup_insert_Some. intros [[<- <-]|[_ H0]] Hno; [|by apply (Hc r')].
    rewrite Hcl. by apply (Hc r).
Qed.

Lemma acks_ok_step (s s' : session) : session_step s s' → acks_ok s → acks_ok s'.
Proof.
  destruct 1 as [ev s _ _|s s' Hr|s|id s|r b c' s Hr|s r Hst Hh]; intros Hok.
  - assert (Hstop : acks_ok (reader_stop s)).
    { assert (H1 : acks_ok (clear_acks (with_registry s (close_all (registry s)))))
        by (by apply acks_ok_clear, acks_ok_registry).
      by destruct H1; split. }
    destruct ev as [t|d|d|o| |]; cbn [reader_event]; try done.
    destruct (decode d) as [[]|]; try done; [by apply acks_ok_deliver|by apply acks_ok_registry..].
  - unfold reader_resume in Hr. destruct (route_finish (registry s)); [|done].
    injection Hr as <-. by apply acks_ok_registry.
  - by apply acks_ok_registry, acks_ok_clear.
  - by apply acks_ok_insert.
  - destruct (ack_chans s !! r) as [c|] eqn:Ec; [|done]. by eapply acks_ok_recv.
  - by apply acks_ok_registry.
Qed.

Lemma acks_ok_reach (s s' : session) : rtc session_step s s' → acks_ok s → acks_ok s'.
Proof. induction 1 as [|s0 s1 s2 Hst _ IH]; [done|]. intros Hok. by eapply IH, acks_ok_step. Qed.

(** What can still happen to a session whose reader has ended and that nobody
    closes (the one of [run_proxy_with_routing]), as far as the stream [id] is
    concerned. *)
Inductive unattended_step (id : N) : session → session → Prop :=
| us_resume s s' : reader_resume s = Some s' → unattended_step id s s'
| us_insert_ack id' s : id' ≠ id → unattended_step id s (snd (insert_ack id' s))
| us_recv_ack r b c' s :
    (ack_chans s !! r ≫= pull) = Some (b, c') →
    unattended_step id s (with_acks s (pending_acks s) (<[r := c']> (ack_chans s)))
| us_registry s r : reg_step (registry s) r → unattended_step id s (with_registry s r).

(** The stream waits: its sender is in the map and its channel open and empty. *)
Definition ack_waits (id : N) (r : nat) (s : session) : Prop :=
  acks_ok s ∧ pending_acks s !! id = Some r ∧ ack_queue s r = Some [] ∧ ack_closed s r = Some false.

Lemma insert_ack_waits (id : N) (s : session) :
  acks_ok s → ack_waits id (fst (insert_ack id s)) (snd (insert_ack id s)).
Proof.
  intros Hok. split; [by apply acks_ok_insert|]. unfold insert_ack, ack_queue, ack_closed. cbn.
  rewrite !lookup_insert_eq. cbn. by destruct (bounded_spec (A:=bool) 1) as (-> & _ & ->).
Qed.

Lemma ack_waits_step (id : N) (r : nat) (s s' : session) :
  unattended_step id s s' → ack_waits id r s → ack_waits id r s'.
Proof.
  intros Hst (Hok & Hp & Hq & Hc).
  destruct Hst as [s s' Hr|id' s Hn|r' b c' s Hr|s r' Hreg].
  - unfold reader_resume in Hr. destruct (route_finish (registry s)); [|done].
    injection Hr as <-. split; [by apply acks_ok_registry|done].
  - split; [by apply acks_ok_insert|]. unfold ack_queue, ack_closed, insert_ack in *. cbn.
    pose proof (ao_dom _ Hok _ _ Hp). rewrite lookup_insert_ne by done.
    rewrite lookup_insert_ne by lia. split; [done|].
    destruct (pending_acks s !! id') as [old|] eqn:Eo; [|done]. rewrite lookup_alter_ne; [done|].
    intros ->. apply Hn. by apply (ao_inj _ Hok id' id r).
  - destruct (ack_chans s !! r') as [c|] eqn:Er; [|done]. cbn in Hr.
    split; [by eapply acks_ok_recv|]. unfold ack_queue, ack_closed in *. cbn.
    split; [done|]. destruct (decide (r' = r)) as [->|Hn]; [|by rewrite lookup_insert_ne].
    rewrite Er in Hq. injection Hq as Hq. apply pull_spec in Hr as (Hr & _). congruence.
  - split; [by apply acks_ok_registry|done].
Qed.

Lemma server_event_frame (m : bytes) (f : Frame) :
  decode m = Ok f →
  server_event (WsBinary m) =
    match f with
    | Open i dest' => ServerOpen i dest'
    | Data i d => ServerRoute i d
    | Close i => ServerClose i
    | _ => ServerSkip
    end.
Proof. intros Hd. unfold server_event. rewrite Hd. by destruct f. Qed.

(** ** Properties *)

(** In every reachable state of a client session, every acknowledgement
    channel either still has its sender in [pending_acks], open and empty, or
    is closed: a handler never waits on a channel nobody can answer. *)
Theorem acks_invariant (s : session) (Hreach : rtc session_step session_new s) :
  ∀ r c, ack_chans s !! r = Some c →
    (∃ id, pending_acks s !! id = Some r ∧ queued c = [] ∧ is_closed c = false) ∨ is_closed c = true.
Proof.
  intros r c Hr. pose proof (acks_ok_reach _ _ Hreach acks_ok_new) as Hok.
  destruct (decide (map_Exists (λ _ r', r' = r) (pending_acks s))) as [(i & r' & Hi & ->)|Hn].
  - left. exists i. destruct (ao_open _ Hok i r c Hi Hr) as (_ & ? & ?). by split_and!.
  - right. apply (ao_closed _ Hok r c Hr). intros i Hi. apply Hn. by exists i, r.
Qed.

(** An OPEN_ACK answers exactly the handler that waits for its stream, once:
    that handler's channel holds the flag and is closed, no other channel
    changes, and a second OPEN_ACK for the stream changes nothing. *)
Theorem ack_delivered_once (id : N) (ok : bool) (r : nat) (s : session)
  (Hreach : rtc session_step session_new s) (Hid : (id ≤ U32_MAX)%N)
  (Hwait : pending_acks s !! id = Some r) :
  let s' := reader_event (WsBinary (encode (OpenAck id ok))) s in
  ack_queue s' r = Some [ok] ∧ ack_closed s' r = Some true ∧
  (∀ r', r' ≠ r → ack_chans s' !! r' = ack_chans s !! r') ∧ registry s' = registry s ∧
  ∀ ok', reader_event (WsBinary (encode (OpenAck id ok'))) s' = s'.
Proof.
  pose proof (acks_ok_reach _ _ Hreach acks_ok_new) as Hok. cbn zeta.
  assert (Hev : ∀ ok' t, reader_event (WsBinary (encode (OpenAck id ok'))) t = deliver_ack id ok' t).
  { intros ok' t. unfold reader_event. by rewrite decode_encode_aux. }
  rewrite Hev. setoid_rewrite Hev. unfold deliver_ack. rewrite Hwait.
  assert (Hr : is_Some (ack_chans s !! r)) by (apply (ao_heap _ Hok), (ao_dom _ Hok _ _ Hwait)).
  destruct Hr as [c Hr]. destruct (ao_open _ Hok id r c Hwait Hr) as (Hk & Hq & Hc).
  destruct (push_ready ok c Hc) as [c' Hp]; [rewrite Hk, Hq; cbn; lia|].
  unfold ack_queue, ack_closed. cbn. rewrite lookup_alter_eq, Hr. cbn. rewrite Hp. cbn.
  rewrite shut_queued, shut_closed. rewrite (push_queued _ _ _ Hp), Hq.
  split_and!; [done|done| |done|].
  - intros r' Hn. by rewrite lookup_alter_ne.
  - intros ok'. by rewrite lookup_delete_eq.
Qed.

(** When the WebSocket ends or fails, or the session is closed by the
    keeper, every handler waiting for an acknowledgement is released and every
    stream is closed; what was delivered before stays readable. *)
Theorem session_end_releases (ev : ws_event) (s : session)
  (Hreach : rtc session_step session_new s)
  (Hev : ev = WsEnd ∨ ev = WsError ∨ (∃ t, ev = WsText t) ∨ ∃ o, ev = WsOther o) :
  ∀ s', s' = reader_event ev s ∨ s' = mux_conn_close s →
  pending_acks s' = ∅ ∧ abs (registry s') = ∅ ∧
  (∀ r c, ack_chans s' !! r = Some c → is_closed c = true) ∧
  (∀ r, ack_queue s' r = ack_queue s r).
Proof.
  assert (Hs : reader_event ev s = reader_stop s) by (by destruct Hev as [->|[->|[[t ->]|[o ->]]]]).
  pose proof (acks_ok_clear s (acks_ok_reach _ _ Hreach acks_ok_new)) as Hok.
  assert (Hgo : ∀ r c, ack_chans (clear_acks s) !! r = Some c → is_closed c = true).
  { intros r c Hc. apply (ao_closed _ Hok r c Hc). intros i. cbn. by rewrite lookup_empty. }
  assert (Hq : ∀ r, ack_queue (clear_acks s) r = ack_queue s r).
  { intros r. unfold ack_queue. destruct (ack_chans (clear_acks s) !! r) as [c|] eqn:Ec.
    - pose proof Ec as Ec'. cbn in Ec'. apply foldr_shut_inv in Ec' as (c0 & -> & Hx & _). cbn. by rewrite Hx.
    - destruct (ack_chans s !! r) as [c0|] eqn:E0; [|done].
      assert (Hx : is_Some (ack_chans (clear_acks s) !! r)) by (cbn; apply foldr_shut_dom; rewrite E0; eauto).
      rewrite Ec in Hx. by destruct Hx. }
  rewrite Hs. intros s' [->| ->]; (split_and!; [done|apply abs_close_all|exact Hgo|exact Hq]).
Qed.

(** A connection that registers its acknowledgement after the reader has
    ended waits for ever: in a session nobody closes (the non-resilient
    proxy), no later step closes its channel or puts a value into it. *)
Theorem late_open_waits_forever (id : N) (s s' : session)
  (Hreach : rtc session_step session_new s) (Hstop : stopped s = true)
  (Hlater : rtc (unattended_step id) (snd (insert_ack id s)) s') :
  ack_queue s' (fst (insert_ack id s)) = Some [] ∧ ack_closed s' (fst (insert_ack id s)) = Some false.
Proof.
  assert (Hk : ∀ r s0 s1, rtc (unattended_step id) s0 s1 → ack_waits id r s0 → ack_waits id r s1).
  { intros r. induction 1 as [|s0 s1 s2 Hst _ IH]; [done|]. intros Hw. by eapply IH, ack_waits_step. }
  destruct (Hk _ _ _ Hlater (insert_ack_waits id s (acks_ok_reach _ _ Hreach acks_ok_new))) as (_ & _ & ? & ?).
  done.
Qed.

(** What each side does with a message that encodes a frame: the server
    acts on OPEN, DATA and CLOSE, the client on OPEN_ACK, DATA and CLOSE; the
    frames of the other direction, repeated HELLOs and messages that do not
    decode change nothing. *)
Theorem dispatch_correct (f : Frame) (d : bytes) (s : session) (Hwf : wf_frame f) :
  server_event (WsBinary (encode f)) =
    match f with
    | Open id dest => ServerOpen id dest
    | Data id payload => ServerRoute id payload
    | Close id => ServerClose id
    | Hello _ | OpenAck _ _ => ServerSkip
    end ∧
  reader_event (WsBinary (encode f)) s =
    match f with
    | OpenAck id ok => deliver_ack id ok s
    | Data id payload => with_registry s (route_start id payload (registry s))
    | Close id => with_registry s (close id (registry s))
    | Hello _ | Open _ _ => s
    end ∧
  ((∃ e, decode d = Err e) → server_event (WsBinary d) = ServerSkip ∧ reader_event (WsBinary d) s = s).
Proof.
  unfold server_event, reader_event. rewrite decode_encode_aux by done.
  split_and!; [by destruct f|by destruct f|]. by intros [e ->].
Qed.

End Mux.

(** ** Witnesses *)

#[local] Existing Instance queue_channels.

Definition demo_session : session := snd (insert_ack 7 session_new).

Lemma demo_session_reach : rtc session_step session_new demo_session.
Proof. eapply rtc_l; [apply (ss_insert_ack 7)|apply rtc_refl]. Qed.

Lemma acks_invariant_witness :
  ∃ c, ack_chans demo_session !! 0 = Some c ∧
    ((∃ id, pending_acks demo_session !! id = Some 0 ∧ queued c = [] ∧ is_closed c = false) ∨ is_closed c = true).
Proof.
  eexists. split; [vm_compute; reflexivity|].
  apply (acks_invariant demo_session demo_session_reach). vm_compute. reflexivity.
Defined.

Lemma ack_delivered_once_witness :
  ack_queue (reader_event (WsBinary (encode (OpenAck 7 true))) demo_session) 0 = Some [true].
Proof.
  apply (ack_delivered_once 7 true 0 demo_session).
  - exact demo_session_reach.
  - unfold U32_MAX. lia.
  - vm_compute. reflexivity.
Defined.

Lemma session_end_releases_witness :
  ∃ c, ack_chans (mux_conn_close demo_session) !! 0 = Some c ∧ is_closed c = true.
Proof.
  eexists. split; [vm_compute; reflexivity|].
  apply (session_end_releases WsEnd demo_session demo_session_reach (or_introl eq_refl)
    (mux_conn_close demo_session) (or_intror eq_refl)) with (r := 0). vm_compute. reflexivity.
Defined.

Lemma late_open_waits_forever_witness :
  let s := reader_event WsEnd session_new in
  ack_queue (snd (insert_ack 8 (snd (insert_ack 7 s)))) 0 = Some [].
Proof.
  intros s. apply (late_open_waits_forever 7 s).
  - eapply rtc_l; [apply (ss_event WsEnd); reflexivity|apply rtc_refl].
  - vm_compute. reflexivity.
  - eapply rtc_l; [apply (us_insert_ack 7 8); discriminate|apply rtc_refl].
Defined.

Lemma dispatch_correct_witness :
  server_event (WsBinary (encode (Open 7 (bs "a:1")))) = ServerOpen 7 (bs "a:1").
Proof.
  apply (dispatch_correct (Open 7 (bs "a:1")) [] session_new). split; [unfold U32_MAX; lia|reflexivity].
Defined.
