(* ===== verification/Server.v ===== *)
(** * The server's connections and streams ([server/src/lib.rs])

    [accept_connection]: plain HTTP or a WebSocket upgrade, and which session
    an upgrade starts.  [handle_open]: one OPEN from the tunnel, as a task
    program, with the stream task it spawns. *)
From S2P Require Import Prelude Utf8 Text Net Frame Routing Ssrf Task Relay.
From S2P Require Import Http Client ClientProtocol ClientTraces.

(** ** [accept_connection] *)

(** [s.windows(n)] *)
Fixpoint windows (n : nat) (s : bytes) : list bytes :=
  match s with
  | [] => []
  | _ :: t => if n <=? length s then take n s :: windows n t else []
  end.

(** [header_bytes.windows(9).any(|w| w.eq_ignore_ascii_case(b"websocket"))] *)
Definition is_websocket (header_bytes : bytes) : bool :=
  existsb (λ w, eq_ignore_ascii_case w (bs "websocket")) (windows 9 header_bytes).

Definition health_response : bytes :=
  bs "HTTP/1.1 200 OK" ++ CRLF ++ bs "Content-Length: 12" ++ CRLF ++ bs "Connection: close"
    ++ CRLF ++ CRLF ++ bs "I am running".
Definition not_found_response : bytes :=
  bs "HTTP/1.1 404 Not Found" ++ CRLF ++ bs "Content-Length: 0" ++ CRLF ++ bs "Connection: close"
    ++ CRLF ++ CRLF.

(** What becomes of an accepted connection. *)
Inductive accept_result : Type :=
| Dropped                       (** nothing to read, or the handshake failed *)
| Answered (response : bytes)   (** plain HTTP *)
| ControlSession
| MuxSession.

(** The handshake callback: only two paths are upgraded. *)
Definition upgrade_allowed (path : bytes) : bool :=
  negb (negb (str_eqb path (bs "/control")) && negb (str_eqb path (bs "/mux"))).

(** [accept_connection]: the bytes [peek] returned ([None] on an error) and
    the path of the upgrade request when the WebSocket handshake is otherwise
    well formed. *)
Definition accept_connection (peeked : option bytes) (handshake : option bytes) : accept_result :=
  match peeked with
  | Some (b :: t) =>
      let header_bytes := take 4096 (b :: t) in
      if negb (is_websocket header_bytes) then
        Answered (if starts_with header_bytes (bs "GET / ") then health_response else not_found_response)
      else
        match handshake with
        | None => Dropped
        | Some path =>
            if upgrade_allowed path then
              if ends_with path (bs "control") then ControlSession else MuxSession
            else Dropped
        end
  | _ => Dropped
  end.

(** ** [handle_open] *)

(** The spawned task of an open stream. *)
Definition stream_task (id : N) : prog :=
  Spawn write_task
    (read_loop id
      (let* _ := Send (Close id) in
       let* _ := Unregister id in
       Return)).

Definition handle_open (id : N) (dest : bytes) : prog :=
  match is_dest_allowed dest with
  | None => Crash
  | Some false => let* _ := Send (OpenAck id false) in Return
  | Some true =>
      let* c := Connect dest in
      if is_ok c then
        let* _ := Register id in
        let* _ := Send (OpenAck id true) in
        Spawn (stream_task id) Return
      else
        let* _ := Unregister id in
        let* _ := Send (OpenAck id false) in
        Return
  end.

(** ** Lemmas *)

Lemma starts_with_take (s p : bytes) : starts_with s p = str_eqb (take (length p) s) p.
Proof.
  apply eq_true_iff_eq. rewrite starts_with_iff, str_eqb_eq. split.
  - intros [t ->]. by rewrite take_app_length.
  - intros Ht. exists (drop (length p) s). by rewrite <- Ht at 1; rewrite take_drop.
Qed.

(** The window search is a case-insensitive substring search. *)
Lemma is_websocket_contains (s : bytes) :
  is_websocket s = contains (to_ascii_lowercase s) (bs "websocket").
Proof.
  unfold is_websocket. induction s as [|b t IH]; [done|].
  cbn [windows to_ascii_lowercase map contains]. fold (to_ascii_lowercase t).
  change (ascii_lower_byte b :: to_ascii_lowercase t) with (to_ascii_lowercase (b :: t)).
  rewrite starts_with_take. change (length (bs "websocket")) with 9.
  unfold to_ascii_lowercase at 1. rewrite (List.firstn_map ascii_lower_byte 9 (b :: t)).
  fold (to_ascii_lowercase (take 9 (b :: t))).
  destruct (9 <=? length (b :: t)) eqn:El.
  - cbn [existsb]. by rewrite IH.
  - assert (Hno : str_eqb (to_ascii_lowercase (take 9 (b :: t))) (bs "websocket") = false).
    { apply not_true_iff_false. rewrite str_eqb_eq. intros Ht. apply (f_equal length) in Ht.
      rewrite to_ascii_lowercase_length, length_take in Ht.
      change (length (bs "websocket")) with 9 in Ht. apply Nat.leb_gt in El. lia. }
    rewrite Hno. cbn [existsb orb]. rewrite <- IH. destruct t as [|c t']; [done|]. cbn [windows].
    destruct (9 <=? length (c :: t')) eqn:E2; [|done].
    apply Nat.leb_gt in El. apply Nat.leb_le in E2. cbn [length] in *. lia.
Qed.

(** ** Lemmas: streams *)

Ltac run_inv :=
  repeat match goal with
  | H : steps (_, _) _ _ |- _ => inversion H; clear H; subst
  | H : step (_, _) _ _ |- _ => inversion H; clear H; subst
  end.

(** The stream task is the relay of the client; seen from its start, the part
    of a stream's protocol that follows the confirmation. *)
Definition stream_front : front_end :=
  {| fe_parse := ParseHttp; fe_plan := λ _, None; fe_resilient := false; fe_answer := λ _, True |}.

Definition stream_plan (id : N) : plan :=
  {| pl_id := id; pl_dest := []; pl_timeout := None; pl_confirm := None; pl_first := None;
     pl_refuse := []; pl_refuse_send := false; pl_lenient := false |}.

Lemma stream_task_refines (id : N) :
  refines (local_protocol stream_front) (stream_task id) (Mux (stream_plan id) Confirmed).
Proof. apply follows_refines. apply (wp_mux_relay stream_front (stream_plan id)). Qed.

Lemma all_possible (ls : list label) : Forall (possible (local_protocol stream_front)) ls.
Proof. apply Forall_true. intros [c a| |]; [by destruct c|done..]. Qed.

Lemma mux_step_inv (fe : front_end) (pl : plan) (q : mux_phase) (l : label) (q' : phase) :
  advance (local_protocol fe) (Mux pl q) l q' →
  ∃ s, q' = Mux pl s ∧
    ((∃ b, s = Freed b) → (∃ b, q = Freed b) ∨ ∃ a, l = LCall (Unregister (pl_id pl)) a).
Proof.
  intros Ha. destruct l as [c a|p|].
  - cbn [advance p_call local_protocol] in Ha. unfold conn_call in Ha.
    assert (∃ s, mux_call pl q c a = Some s ∧ q' = Mux pl s) as (s & Hc & ->).
    { destruct c; destruct (mux_call pl q _ a) eqn:E; cbn in Ha; try done; injection Ha as <-; eauto. }
    exists s. split; [done|]. intros [b ->].
    destruct q, c; try done; cbn [mux_call] in Hc; try (left; by eexists); right;
      try (apply for_stream_Some in Hc as [-> _]; by eexists); exfalso;
      repeat (case_match; simplify_eq/=; try done);
      try (apply for_stream_Some in Hc as [_ ?]; done);
      try (apply expect_Some in Hc as [_ Hc]; done).
  - cbn in Ha. inversion Ha; subst. eexists. split; [reflexivity|]. by intros [b [=]].
  - cbn in Ha. subst. exists q. split; [done|]. by left.
Qed.

Lemma freed_unregistered (fe : front_end) (pl : plan) (q : mux_phase) (ls : list label) (q' : phase) :
  accepts (local_protocol fe) (Mux pl q) ls q' →
  ∃ s, q' = Mux pl s ∧
    ((∃ b, s = Freed b) → (∃ b, q = Freed b) ∨ ∃ a, LCall (Unregister (pl_id pl)) a ∈ ls).
Proof.
  remember (Mux pl q : pstate (local_protocol fe)) as q0 eqn:E. intros Ha. revert q E.
  induction Ha as [q0|q0 l q1 ls q' Hl _ IH]; intros q ->.
  - exists q. split; [done|]. by left.
  - apply mux_step_inv in Hl as (s1 & -> & Hs1). destruct (IH s1 eq_refl) as (s & -> & Hs).
    exists s. split; [done|]. intros Hb. destruct (Hs Hb) as [Hb1|[a Hin]].
    + destruct (Hs1 Hb1) as [?|[a ->]]; [by left|]. right. exists a. left.
    + right. exists a. by right.
Qed.

(** ** Properties *)

(** The upgrade decision of [accept_connection]: a connection is treated as
    a WebSocket exactly when its first 4 KiB contain "websocket" in any case;
    then only the paths /control and /mux are served, each with its own
    session; anything else gets the health or the 404 response. *)
Theorem accept_correct (b : byte) (t : bytes) (path : bytes) :
  let header := take 4096 (b :: t) in
  (contains (to_ascii_lowercase header) (bs "websocket") = true →
   accept_connection (Some (b :: t)) (Some path) =
   if bool_decide (path = bs "/control") then ControlSession
   else if bool_decide (path = bs "/mux") then MuxSession else Dropped) ∧
  (contains (to_ascii_lowercase header) (bs "websocket") = false →
   ∀ handshake, accept_connection (Some (b :: t)) handshake =
   Answered (if starts_with header (bs "GET / ") then health_response else not_found_response)).
Proof.
  cbn zeta. unfold accept_connection. rewrite <- is_websocket_contains. split.
  - intros ->. cbn [negb]. unfold upgrade_allowed, str_eqb. repeat case_bool_decide; subst; done.
  - intros -> handshake. done.
Qed.

Lemma handle_open_cases (id : N) (dest : bytes) (ls : list label) (cf : config)
  (Hrun : steps (handle_open id dest, []) ls cf) (Hret : fst cf = Return) :
  (is_dest_allowed dest = Some false ∧ ∃ a, ls = [LCall (Send (OpenAck id false)) a]) ∨
  (is_dest_allowed dest = Some true ∧ ∃ c r a, is_ok c = true ∧
     ls = [LCall (Connect dest) c; LCall (Register id) r; LCall (Send (OpenAck id true)) a;
           LSpawn (stream_task id)]) ∨
  (is_dest_allowed dest = Some true ∧ ∃ c u a, is_ok c = false ∧
     ls = [LCall (Connect dest) c; LCall (Unregister id) u; LCall (Send (OpenAck id false)) a]).
Proof.
  unfold handle_open in Hrun. destruct (is_dest_allowed dest) as [[]|].
  - inversion Hrun; clear Hrun; subst; [done|].
    match goal with H : step _ _ _ |- _ => inversion H; clear H; subst end.
    destruct (is_ok a) eqn:Ec; right; [left|right]; (split; [done|]); run_inv; cbn in Hret; try done; eauto 10.
  - left. split; [done|]. run_inv; cbn in Hret; try done; eauto.
  - run_inv; by cbn in Hret.
Qed.

(** C23: The complete runs of [handle_open], branch by branch: a refused
    destination is answered with a negative OPEN_ACK and never dialled; a
    reachable one is registered before its positive OPEN_ACK, and its task is
    spawned after; an unreachable one is unregistered and answered negatively.
    So every OPEN gets exactly one OPEN_ACK. *)
Theorem handle_open_runs (id : N) (dest : bytes) (ls : list label) (cf : config)
  (Hrun : steps (handle_open id dest, []) ls cf) (Hret : fst cf = Return) :
  (is_dest_allowed dest = Some false ∧ ∃ a, ls = [LCall (Send (OpenAck id false)) a]) ∨
  (is_dest_allowed dest = Some true ∧ ∃ c r a, is_ok c = true ∧
     ls = [LCall (Connect dest) c; LCall (Register id) r; LCall (Send (OpenAck id true)) a;
           LSpawn (stream_task id)]) ∨
  (is_dest_allowed dest = Some true ∧ ∃ c u a, is_ok c = false ∧
     ls = [LCall (Connect dest) c; LCall (Unregister id) u; LCall (Send (OpenAck id false)) a]).
Proof. by eapply handle_open_cases. Qed.

Lemma handle_open_dials (id : N) (dest : bytes) (ls : list label) (cf : config)
  (Hv : utf8_valid dest = true) (Hrun : steps (handle_open id dest, []) ls cf) :
  fst cf ≠ Crash ∧
  ∀ d a, LCall (Connect d) a ∈ ls → d = dest ∧
    ¬ ∃ ip, parse_ip (dest_host dest) = Some ip ∧ is_public_ip ip = false.
Proof.
  unfold handle_open in Hrun. rewrite is_dest_allowed_eq in Hrun by done.
  assert (Hno : ∀ d a (l : list label), (∀ x, x ∈ l → ∀ d a, x ≠ LCall (Connect d) a) →
    LCall (Connect d) a ∈ l → False) by (intros d a l Hl Hin; by apply (Hl _ Hin d a)).
  destruct (match parse_ip (dest_host dest) with Some ip => is_public_ip ip | None => true end) eqn:Ea.
  - assert (Hip : ¬ ∃ ip, parse_ip (dest_host dest) = Some ip ∧ is_public_ip ip = false).
    { intros (ip & Hip & Hpub). rewrite Hip in Ea. congruence. }
    inversion Hrun; clear Hrun; subst; [split; [done|]; intros d a []%elem_of_nil|].
    match goal with H : step _ _ _ |- _ => inversion H; clear H; subst end.
    destruct (is_ok a) eqn:Ec; run_inv; (split; [done|]); intros d a9 Hin;
      rewrite !elem_of_cons, elem_of_nil in Hin; naive_solver.
  - run_inv; (split; [done|]); intros d a9 Hin;
      rewrite ?elem_of_cons, ?elem_of_nil in Hin; naive_solver.
Qed.

(** SSRF: whatever the environment does, the server dials a destination
    only for an OPEN with that destination, and only when the filter allows
    it; [handle_open] never panics on the UTF-8 destinations frames carry. *)
Theorem handle_open_dials_allowed (id : N) (dest : bytes) (ls : list label) (cf : config)
  (Hv : utf8_valid dest = true) (Hrun : steps (handle_open id dest, []) ls cf) :
  fst cf ≠ Crash ∧
  ∀ d a, LCall (Connect d) a ∈ ls → d = dest ∧
    ¬ ∃ ip, parse_ip (dest_host dest) = Some ip ∧ is_public_ip ip = false.
Proof. by eapply handle_open_dials. Qed.

Lemma download_shape (id : N) (ls : list label) (cf : config)
  (Hrun : steps (stream_task id, []) ls cf) :
  ∃ ds (closed : bool) lost,
    frames_of ls = map (Data id) ds ++ (if closed then [Close id] else []) ∧
    concat ds ++ lost = reads_of ls ∧
    (closed = true → send_failed ls = false → lost = []) ∧
    (fst cf = Return → ∃ a, LCall (Unregister id) a ∈ ls).
Proof.
  destruct (stream_task_refines id ls cf Hrun (all_possible ls)) as (q & Ha & _ & Hend & _).
  pose proof (hist_ok_run stream_front (stream_plan id) [Open id []] [] false
    (Mux (stream_plan id) Confirmed) q ls) as Hq.
  destruct (freed_unregistered stream_front (stream_plan id) Confirmed ls q Ha) as (s & -> & Hs).
  assert (Hret : fst cf = Return → ∃ a, LCall (Unregister id) a ∈ ls).
  { intros Hr. specialize (Hend Hr). destruct s as [| | | | | | | | | | | |[]]; try done.
    destruct Hs as [[b [=]]|?]; [by eexists|done]. }
  specialize (Hq ltac:(done)). destruct (hist_ok_sent (stream_plan id) _ _ _ _ (Hq
    ltac:(split; [done|]; by exists []) Ha)) as [Hf|(ds & closed & lost & Hl & Hf & Hc)]; [done|].
  exists ds, closed, lost. cbn [app orb] in *. injection Hf as Hf.
  split_and!; [exact Hf|exact Hc| |exact Hret].
  intros Hcl Hs'. destruct (Hl Hcl) as [?|?]; [done|congruence].
Qed.

(** What the task of an open stream sends back: the bytes read from the
    destination, in order, as DATA frames of the stream, then one CLOSE; all
    of them once CLOSE is sent, unless a send failed; and it unregisters the
    stream before it ends. *)
Theorem download_faithful (id : N) (ls : list label) (cf : config)
  (Hrun : steps (stream_task id, []) ls cf) :
  ∃ ds (closed : bool) lost,
    frames_of ls = map (Data id) ds ++ (if closed then [Close id] else []) ∧
    concat ds ++ lost = reads_of ls ∧
    (closed = true → send_failed ls = false → lost = []) ∧
    (fst cf = Return → ∃ a, LCall (Unregister id) a ∈ ls).
Proof. by eapply download_shape. Qed.

(** ** Witnesses *)

Lemma handle_open_runs_witness :
  let ls := fst (run 20 (handle_open 7 (bs "example.com:80"), []) [AOk; AOk; AOk]) in
  frames_of ls = [OpenAck 7 true] ∧
  ((is_dest_allowed (bs "example.com:80") = Some false ∧ ∃ a, ls = [LCall (Send (OpenAck 7 false)) a]) ∨
   (is_dest_allowed (bs "example.com:80") = Some true ∧ ∃ c r a, is_ok c = true ∧
     ls = [LCall (Connect (bs "example.com:80")) c; LCall (Register 7) r; LCall (Send (OpenAck 7 true)) a;
           LSpawn (stream_task 7)]) ∨
   (is_dest_allowed (bs "example.com:80") = Some true ∧ ∃ c u a, is_ok c = false ∧
     ls = [LCall (Connect (bs "example.com:80")) c; LCall (Unregister 7) u; LCall (Send (OpenAck 7 false)) a])).
Proof.
  intros ls. split; [vm_compute; reflexivity|].
  apply (handle_open_runs 7 (bs "example.com:80") ls (Return, [])); [|reflexivity].
  apply (run_steps 20 _ _ [AOk; AOk; AOk]). vm_compute. reflexivity.
Defined.

Lemma handle_open_dials_allowed_witness :
  let ls := fst (run 20 (handle_open 7 (bs "8.8.8.8:53"), []) [AErr; AOk; AOk]) in
  LCall (Connect (bs "8.8.8.8:53")) AErr ∈ ls ∧
  ¬ ∃ ip, parse_ip (dest_host (bs "8.8.8.8:53")) = Some ip ∧ is_public_ip ip = false.
Proof.
  intros ls. assert (Hin : LCall (Connect (bs "8.8.8.8:53")) AErr ∈ ls) by left.
  split; [exact Hin|].
  apply (handle_open_dials_allowed 7 (bs "8.8.8.8:53") ls
    (snd (run 20 (handle_open 7 (bs "8.8.8.8:53"), []) [AErr; AOk; AOk]))) in Hin as [_ Hd]; [exact Hd|reflexivity|].
  apply (run_steps 20 _ _ [AErr; AOk; AOk]), surjective_pairing.
Defined.

Lemma download_faithful_witness :
  let ls := fst (run 40 (stream_task 7, [])
    [ABytes (bs "ab"); AOk; ABytes (bs "c"); AOk; ABytes []; AOk; AOk]) in
  frames_of ls = [Data 7 (bs "ab"); Data 7 (bs "c"); Close 7] ∧
  ∃ ds (closed : bool) lost,
    frames_of ls = map (Data 7) ds ++ (if closed then [Close 7] else []) ∧
    concat ds ++ lost = reads_of ls ∧ (closed = true → send_failed ls = false → lost = []) ∧
    (Return = Return → ∃ a, LCall (Unregister 7) a ∈ ls).
Proof.
  intros ls. split; [vm_compute; reflexivity|].
  apply (download_faithful 7 ls (Return, [])).
  apply (run_steps 40 _ _ [ABytes (bs "ab"); AOk; ABytes (bs "c"); AOk; ABytes []; AOk; AOk]).
  vm_compute. reflexivity.
Defined.
