(* ===== verification/Roles.v ===== *)
(** * What each kind of task does

    Protocols for the tasks that [ClientProtocol] does not cover: the write
    task of a stream, the copying task of a direct connection and
    [handle_open]; and, for every kind of task, which call it can make next
    given what it has done so far.  [World] runs these tasks side by side; its
    invariants rest on the facts below and not on the tasks' code. *)
From S2P Require Import Prelude Utf8 Text Net Frame GeoSite GeoIp Routing Sock Http Socks5 Task Relay.
From S2P Require Import Client ClientProtocol ClientTraces Ssrf Server.

(** ** Histories *)

(** The streams a run has registered, the payloads it has received, and the
    tasks it has spawned. *)
Definition regs_of (ls : list label) : list N :=
  omap (λ l, match l with LCall (Register i) _ => Some i | _ => None end) ls.

Definition data_of (ls : list label) : list bytes :=
  omap (λ l, match l with LCall DataRecv (ABytes d) => Some d | _ => None end) ls.

Definition spawns_of (ls : list label) : list prog :=
  omap (λ l, match l with LSpawn p => Some p | _ => None end) ls.

Lemma frames_of_app (ls ls' : list label) : frames_of (ls ++ ls') = frames_of ls ++ frames_of ls'.
Proof. apply omap_app. Qed.

Lemma regs_of_app (ls ls' : list label) : regs_of (ls ++ ls') = regs_of ls ++ regs_of ls'.
Proof. apply omap_app. Qed.

Lemma data_of_app (ls ls' : list label) : data_of (ls ++ ls') = data_of ls ++ data_of ls'.
Proof. apply omap_app. Qed.

Lemma writes_of_app (ls ls' : list label) : writes_of (ls ++ ls') = writes_of ls ++ writes_of ls'.
Proof. apply omap_app. Qed.

Lemma steps_snoc (cf cf1 cf2 : config) (ls : list label) (l : label) :
  steps cf ls cf1 → step cf1 l cf2 → steps cf (ls ++ [l]) cf2.
Proof.
  induction 1 as [cf|cf l0 cf0 ls cf1 H0 _ IH]; intros Hst; cbn.
  - econstructor; [exact Hst|constructor].
  - econstructor; [exact H0|by apply IH].
Qed.

Lemma steps_snoc_inv (cf cf2 : config) (ls : list label) (l : label) :
  steps cf (ls ++ [l]) cf2 → ∃ cf1, steps cf ls cf1 ∧ step cf1 l cf2.
Proof.
  revert cf. induction ls as [|l0 ls IH]; intros cf Hs; cbn in Hs; inversion Hs as [|? ? cf0 ? ? Hst Hr]; subst.
  - inversion Hr; subst. exists cf. split; [constructor|done].
  - destruct (IH _ Hr) as (cf1 & Hs1 & Hl). exists cf1. split; [by econstructor|done].
Qed.

Lemma accepts_app (P : protocol) (q q' : pstate P) (ls ls' : list label) :
  accepts P q (ls ++ ls') q' ↔ ∃ q1, accepts P q ls q1 ∧ accepts P q1 ls' q'.
Proof.
  revert q. induction ls as [|l ls IH]; intros q; cbn.
  - split; [intros Ha; exists q; split; [constructor|done]|]. intros (q1 & Ha & Ha'). by inversion Ha; subst.
  - split.
    + intros Ha. inversion Ha as [|? ? q0 ? ? Hl Hr]; subst. apply IH in Hr as (q1 & H1 & H2).
      exists q1. split; [by econstructor|done].
    + intros (q1 & Ha & Ha'). inversion Ha as [|? ? q0 ? ? Hl Hr]; subst.
      econstructor; [exact Hl|]. apply IH. eauto.
Qed.

Lemma accepts_snoc (P : protocol) (q q' : pstate P) (ls : list label) (l : label) :
  accepts P q (ls ++ [l]) q' → ∃ q1, accepts P q ls q1 ∧ advance P q1 l q'.
Proof.
  intros (q1 & H1 & H2)%accepts_app. exists q1. split; [done|].
  inversion H2 as [|? ? q0 ? ? Hl Hr]; subst. by inversion Hr; subst.
Qed.

(** ** The write task *)

Inductive writer_phase : Type := WWait | WHas (d : bytes) | WDone.

Definition writer_call (q : writer_phase) (c : call) (a : answer) : option writer_phase :=
  match q, c with
  | WWait, DataRecv => Some (match a with ABytes d => WHas d | _ => WDone end)
  | WHas d, TcpWrite d' => expect d d' (if is_ok a then WWait else WDone)
  | _, _ => None
  end.

Definition writer_protocol : protocol :=
  {| pstate := writer_phase; p_call := writer_call; p_spawn _ _ _ := False;
     p_end q := q = WDone; p_answer _ _ := True |}.

Lemma write_task_follows : follows writer_protocol write_task WWait.
Proof.
  unfold follows, write_task. exists (λ q, q = WWait). split; [done|]. intros q ->.
  intros a _. eexists. split; [reflexivity|]. destruct a; try reflexivity.
  intros a' _. eexists. split; [cbn [p_call writer_protocol writer_call]; by rewrite expect_same|].
  by destruct (is_ok a').
Qed.

(** What it writes is what it receives, in order; the last payload may still
    be in its hands. *)
Lemma writer_accepts (ls : list label) (q : writer_phase) :
  accepts writer_protocol WWait ls q →
  data_of ls = writes_of ls ++ (match q with WHas d => [d] | _ => [] end) ∧ frames_of ls = [] ∧ regs_of ls = [].
Proof.
  revert q. induction ls as [|l ls IH] using rev_ind; intros q Ha.
  { by inversion Ha; subst. }
  apply accepts_snoc in Ha as (q1 & Ha & Hl). destruct (IH q1 Ha) as (Hd & Hf & Hr).
  rewrite data_of_app, writes_of_app, frames_of_app, regs_of_app, Hd, Hf, Hr.
  destruct l as [c a|p|]; cbn in Hl; [|done|subst q1; by rewrite !app_nil_r].
  destruct q1, c; try done; cbn in Hl.
  - injection Hl as <-. destruct a; cbn; by rewrite ?app_nil_r.
  - apply expect_Some in Hl as [-> ->]. cbn. destruct (is_ok a); cbn; by rewrite !app_nil_r.
Qed.

(** ** The copying task of a direct connection *)

Definition copier_protocol : protocol :=
  {| pstate := unit; p_call _ c _ := match c with TcpRead | UpWrite _ => Some tt | _ => None end;
     p_spawn _ _ _ := False; p_end _ := True; p_answer _ _ := True |}.

Lemma a_to_b_follows : follows copier_protocol a_to_b tt.
Proof.
  unfold follows, a_to_b. exists (λ _, True). split; [done|]. intros [] _.
  intros a _. exists tt. split; [done|]. destruct a as [| |[|b t]| | | |]; try done.
  intros a' _. exists tt. split; [done|]. by destruct (is_ok a').
Qed.

Lemma copier_accepts (ls : list label) (q : unit) :
  accepts copier_protocol tt ls q → data_of ls = [] ∧ frames_of ls = [] ∧ regs_of ls = [].
Proof.
  generalize tt at 1. induction ls as [|l ls IH]; intros q0 Ha; [done|].
  inversion Ha as [|? ? q1 ? ? Hl Hr]; subst. destruct (IH q1 Hr) as (Hd & Hf & Hg).
  change (l :: ls) with ([l] ++ ls). rewrite data_of_app, frames_of_app, regs_of_app, Hd, Hf, Hg.
  destruct l as [c a|p|]; cbn in Hl; [by destruct c|done|done].
Qed.

(** ** [handle_open] *)

Inductive opener_phase : Type :=
| OpStart | OpReached | OpRegistered | OpAcked | OpUnreachable | OpRefusing | OpDone.

Section Opener.
Context (id : N) (dest : bytes).

Definition opener_call (q : opener_phase) (c : call) (a : answer) : option opener_phase :=
  match q, c with
  | OpStart, Connect d =>
      match is_dest_allowed dest with
      | Some true => expect dest d (if is_ok a then OpReached else OpUnreachable)
      | _ => None
      end
  | OpStart, Send (OpenAck i false) =>
      match is_dest_allowed dest with
      | Some false => if (i =? id)%N then Some OpDone else None
      | _ => None
      end
  | OpReached, Register i => if (i =? id)%N then Some OpRegistered else None
  | OpRegistered, Send (OpenAck i true) => if (i =? id)%N then Some OpAcked else None
  | OpUnreachable, Unregister i => if (i =? id)%N then Some OpRefusing else None
  | OpRefusing, Send (OpenAck i false) => if (i =? id)%N then Some OpDone else None
  | _, _ => None
  end.

Definition opener_protocol : protocol :=
  {| pstate := opener_phase; p_call := opener_call;
     p_spawn q p q' := q = OpAcked ∧ p = stream_task id ∧ q' = OpDone;
     p_end q := q = OpDone; p_answer _ _ := True |}.

Lemma handle_open_follows : utf8_valid dest = true → follows opener_protocol (handle_open id dest) OpStart.
Proof.
  intros Hv. unfold follows, handle_open.
  assert (Hb : ∃ b, is_dest_allowed dest = Some b) by (eexists; by apply is_dest_allowed_eq).
  destruct Hb as [b Hb]. rewrite Hb.
  assert (Hstep : ∀ q c a q', opener_call q c a = Some q' → p_call opener_protocol q c a = Some q') by done.
  destruct b; intros a _.
  - exists (if is_ok a then OpReached else OpUnreachable).
    split; [apply Hstep; cbn; by rewrite Hb, expect_same|].
    destruct (is_ok a); intros a1 _; eexists;
      (split; [apply Hstep; cbn; by rewrite N.eqb_refl|]); intros a2 _; eexists;
      (split; [apply Hstep; cbn; by rewrite N.eqb_refl|]); [by exists OpDone|done].
  - exists OpDone. split; [apply Hstep; cbn; by rewrite Hb, N.eqb_refl|done].
Qed.

(** It spawns one task, last. *)
Lemma opener_unspawned (ls : list label) (q : opener_phase) :
  accepts opener_protocol OpStart ls q → q = OpDone ∨ spawns_of ls = [].
Proof.
  revert q. induction ls as [|l ls IH] using rev_ind; intros q Ha; [by right|].
  apply accepts_snoc in Ha as (q1 & Ha & Hl). unfold spawns_of in *. rewrite omap_app.
  destruct (IH q1 Ha) as [-> | ->].
  - left. destruct l as [c a|p|]; cbn in Hl; [by destruct c|by destruct Hl|done].
  - destruct l as [c a|p|]; cbn in Hl; [by right|left; by destruct Hl as (_ & _ & ->)|by right].
Qed.

(** The destination is allowed and has been reached. *)
Definition dialled (ls : list label) : Prop :=
  is_dest_allowed dest = Some true ∧ ∃ a, is_ok a = true ∧ (Connect dest, a) ∈ calls_of ls.

(** What [handle_open] has done in each phase: it acknowledges only what it
    has dialled, and sends nothing else. *)
Definition opener_past (ls : list label) (q : opener_phase) : Prop :=
  data_of ls = [] ∧ Forall (λ f, f = OpenAck id false ∨ (f = OpenAck id true ∧ dialled ls)) (frames_of ls) ∧
  (spawns_of ls = [] ∨ dialled ls) ∧
  match q with
  | OpStart | OpUnreachable | OpRefusing => regs_of ls = [] ∧ frames_of ls = []
  | OpReached => regs_of ls = [] ∧ frames_of ls = [] ∧ dialled ls
  | OpRegistered | OpAcked => dialled ls
  | OpDone => regs_of ls = [] ∨ dialled ls
  end.

Lemma dialled_app (ls ls' : list label) : dialled ls → dialled (ls ++ ls').
Proof.
  intros (Hd & a & Ha & Hin). split; [done|]. exists a. split; [done|].
  unfold calls_of. rewrite omap_app. apply elem_of_app. by left.
Qed.

Lemma opener_past_step (ls : list label) (l : label) (q q' : opener_phase) :
  opener_past ls q → advance opener_protocol q l q' → opener_past (ls ++ [l]) q'.
Proof.
  intros (Hd & Hf & Hsp & Hq) Hl. unfold opener_past. rewrite data_of_app, frames_of_app, regs_of_app, Hd.
  assert (Hsp' : (∀ p, l ≠ LSpawn p) → spawns_of (ls ++ [l]) = [] ∨ dialled (ls ++ [l])).
  { intros Hns. destruct Hsp as [Hsp|Hsp]; [left|right; by apply dialled_app]. unfold spawns_of in *.
    rewrite omap_app, Hsp. destruct l; try done. by destruct (Hns child). }
  assert (Hf' : Forall (λ f, f = OpenAck id false ∨ (f = OpenAck id true ∧ dialled (ls ++ [l]))) (frames_of ls)).
  { eapply Forall_impl; [exact Hf|]. intros f [?|[? ?]]; [by left|right; split; [done|by apply dialled_app]]. }
  destruct l as [c a|p|]; cbn in Hl.
  - destruct q, c; try done; cbn [opener_call] in Hl.
    + destruct f as [| |i []| |]; try done. repeat (case_match; simplify_eq).
      destruct Hq as [Hr0 Hf0]; rewrite ?Hr0, ?Hf0. cbn. split_and!; [done| |by apply Hsp'|by left].
      destruct (is_ok a); [|constructor]. apply Forall_singleton. left.
      by match goal with E : (_ =? _)%N = true |- _ => apply N.eqb_eq in E as -> end.
    + case_match; [|done]. case_match; [|done]. apply expect_Some in Hl as [-> ->]. destruct Hq as [Hr0 Hf0]; rewrite ?Hr0, ?Hf0.
      cbn. destruct (is_ok a) eqn:Ea; split_and!; try done; try by apply Hsp'. split; [done|].
      exists a. split; [done|]. unfold calls_of. rewrite omap_app. apply elem_of_app. right. left.
    + case_match; [|done]. injection Hl as <-. destruct Hq as (Hr0 & Hf0 & Hq); rewrite ?Hr0, ?Hf0. cbn.
      split_and!; [done|done|by apply Hsp'|by apply dialled_app].
    + destruct f as [| |i []| |]; try done. case_match; [|done]. injection Hl as <-. cbn.
      match goal with E : (_ =? _)%N = true |- _ => apply N.eqb_eq in E as -> end.
      split_and!; [done| |by apply Hsp'|by apply dialled_app]. apply Forall_app. split; [done|].
      destruct (is_ok a); [|constructor]. apply Forall_singleton. right. split; [done|by apply dialled_app].
    + case_match; [|done]. injection Hl as <-. destruct Hq as [Hr0 Hf0]; rewrite ?Hr0, ?Hf0. split_and!; [done|done|by apply Hsp'|done..].
    + destruct f as [| |i []| |]; try done. case_match; [|done]. injection Hl as <-. destruct Hq as [Hr0 Hf0]; rewrite ?Hr0, ?Hf0. cbn.
      match goal with E : (_ =? _)%N = true |- _ => apply N.eqb_eq in E as -> end.
      split_and!; [done| |by apply Hsp'|by left]. destruct (is_ok a); [|constructor]. apply Forall_singleton. by left.
  - destruct Hl as (-> & -> & ->). cbn. rewrite !app_nil_r. split_and!; [done|done|right; by apply dialled_app|]. right. by apply dialled_app.
  - subst q'. cbn. rewrite !app_nil_r. split_and!; [done|done|by apply Hsp'|].
    destruct q; try done; [by destruct Hq as (?&?&?); split_and!; [| |apply dialled_app]|by apply dialled_app..|].
    destruct Hq as [?|?]; [by left|right; by apply dialled_app].
Qed.

(** What is registered has been dialled. *)
Lemma opener_registered (ls : list label) (q : opener_phase) :
  opener_past ls q → regs_of ls ≠ [] → dialled ls.
Proof. intros (_ & _ & _ & Hq) Hn. destruct q; naive_solver. Qed.

Lemma opener_accepts (ls : list label) (q : opener_phase) :
  accepts opener_protocol OpStart ls q → opener_past ls q.
Proof.
  revert q. induction ls as [|l ls IH] using rev_ind; intros q Ha.
  - inversion Ha; subst. split_and!; [done|constructor|by left|done|done].
  - apply accepts_snoc in Ha as (q1 & Ha & Hl). by eapply opener_past_step; [apply IH|].
Qed.

End Opener.

(** ** Handlers and stream tasks *)

Section Refined.
Context (P : protocol) (p : prog) (q0 : pstate P).
Hypothesis Href : refines P p q0.

(** Where a program that refines a protocol makes a call or spawns a task, the
    protocol allows it. *)
Lemma refines_call (ls : list label) (c : call) (a : answer) (k : answer → prog) (st : list (prog * prog)) :
  steps (p, []) ls (Do c k, st) → Forall (possible P) ls → p_answer P c a →
  ∃ q q', accepts P q0 ls q ∧ p_call P q c a = Some q'.
Proof.
  intros Hs Hl Ha. destruct (Href (ls ++ [LCall c a]) (k a, st)) as (q' & Hacc & _).
  - eapply steps_snoc; [exact Hs|constructor].
  - apply Forall_app. split; [done|]. by apply Forall_singleton.
  - apply accepts_snoc in Hacc as (q & Hq & Hc). by exists q, q'.
Qed.

Lemma refines_spawn (ls : list label) (c k : prog) (st : list (prog * prog)) :
  steps (p, []) ls (Spawn c k, st) → Forall (possible P) ls →
  ∃ q q', accepts P q0 ls q ∧ p_spawn P q c q'.
Proof.
  intros Hs Hl. destruct (Href (ls ++ [LSpawn c]) (k, st)) as (q' & Hacc & _).
  - eapply steps_snoc; [exact Hs|constructor].
  - apply Forall_app. split; [done|]. by apply Forall_singleton.
  - apply accepts_snoc in Hacc as (q & Hq & Hc). by exists q, q'.
Qed.
End Refined.

Section Conn.
Context (fe : front_end) (id : N).
Hypothesis Hplan : ∀ a pl b, fe_plan fe a = Some (pl, b) → pl_id pl = id.

(** Before the stream is registered. *)
Definition fresh_phase (q : phase) : bool :=
  match q with Mux _ Idle => true | Mux _ _ => false | _ => true end.

Definition plan_of (q : phase) : option plan :=
  match q with Asking pl | NoSession pl | Mux pl _ | Direct pl _ => Some pl | Start | Over => None end.

(** What a connection's task has done, whatever the phase: it takes nothing
    out of its data channel, and registers before it sends. *)
Definition conn_past (ls : list label) (q : phase) : Prop :=
  data_of ls = [] ∧ (∀ pl, plan_of q = Some pl → pl_id pl = id) ∧
  (fresh_phase q = true → regs_of ls = [] ∧ frames_of ls = []).

Lemma conn_call_mux (pl : plan) (s : mux_phase) (c : call) (a : answer) (q' : phase) :
  conn_call fe (Mux pl s) c a = Some q' → ∃ s', mux_call pl s c a = Some s' ∧ q' = Mux pl s'.
Proof.
  unfold conn_call. intros Hc.
  destruct c; destruct (mux_call pl s _ a) eqn:E; cbn in Hc; try done; injection Hc as <-; eauto.
Qed.

Lemma conn_call_direct (pl : plan) (s : direct_phase) (c : call) (a : answer) (q' : phase) :
  conn_call fe (Direct pl s) c a = Some q' → ∃ s', direct_call pl s c a = Some s' ∧ q' = Direct pl s'.
Proof.
  unfold conn_call. intros Hc.
  destruct c; destruct (direct_call pl s _ a) eqn:E; cbn in Hc; try done; injection Hc as <-; eauto.
Qed.

Lemma mux_call_not_idle (pl : plan) (s s' : mux_phase) (c : call) (a : answer) :
  mux_call pl s c a = Some s' → s' ≠ Idle.
Proof.
  intros Hc ->. destruct s, c; cbn in Hc; try done; repeat (case_match; try done);
    try (by apply for_stream_Some in Hc as [_ ?]); try (by apply expect_Some in Hc as [_ ?]); try congruence;
    by apply expect_Some in Hc as [_ Hc]; destruct (is_ok a).
Qed.

(** The calls on the session that are allowed in some phase. *)
Definition session_call (ls : list label) (c : call) : Prop :=
  match c with
  | Register i => i = id ∧ regs_of ls = [] ∧ frames_of ls = []
  | InsertAck i | Unregister i => i = id
  | Send f => frame_stream f = Some id
  | DataRecv => False
  | _ => True
  end.

Lemma conn_session_call (ls : list label) (q q' : phase) (c : call) (a : answer) :
  conn_past ls q → conn_call fe q c a = Some q' → session_call ls c.
Proof.
  intros (_ & Hp & Hfr) Hc. destruct q as [|pl|pl|pl s|pl s|]; try (by destruct c).
  - apply conn_call_mux in Hc as (s' & Hc & _). pose proof (Hp pl eq_refl) as Hid.
    destruct s, c; try done; cbn [mux_call session_call] in *; repeat (case_match; simplify_eq/=; try done);
      repeat match goal with
      | H : for_stream _ _ _ = Some _ |- _ => apply for_stream_Some in H as [? _]
      | H : (_ =? _)%N = true |- _ => apply N.eqb_eq in H
      end; subst; try done; split; [done|exact (Hfr eq_refl)].
  - apply conn_call_direct in Hc as (s' & Hc & _). by destruct s as [| | | |[]|], c.
Qed.

Lemma conn_past_step (ls : list label) (l : label) (q q' : phase) :
  conn_past ls q → advance (local_protocol fe) q l q' → conn_past (ls ++ [l]) q'.
Proof.
  intros Hpast Hl. pose proof Hpast as (Hd & Hp & Hfr).
  unfold conn_past. rewrite data_of_app, regs_of_app, frames_of_app, Hd.
  destruct l as [c a|pr|]; cbn [advance p_call p_spawn local_protocol] in Hl.
  - pose proof (conn_session_call _ _ _ _ _ Hpast Hl) as Hs.
    assert (Hquiet : data_of [LCall c a] = []) by (by destruct c).
    rewrite Hquiet. split; [done|].
    destruct q as [|pl|pl|pl s|pl s|]; [| | |apply conn_call_mux in Hl as (s' & Hc & ->)
      |apply conn_call_direct in Hl as (s' & Hc & ->)|by destruct c].
    + destruct (Hfr eq_refl) as [-> ->].
      destruct c; try done; cbn in Hl; destruct (fe_parse fe); try done; injection Hl as <-;
        (destruct (fe_plan fe a) as [[pl b]|] eqn:E; [|done]);
        (split; [|by destruct b, (fe_resilient fe)]); intros pl' Hpl'; apply (Hplan a pl' b);
        rewrite E; destruct b, (fe_resilient fe); cbn in Hpl'; congruence.
    + destruct c; try done. injection Hl as <-. split; [|by intros _; destruct (Hfr eq_refl) as [-> ->]].
      intros pl' Hpl'. apply Hp. by destruct (is_ok a).
    + destruct c; try done. apply expect_Some in Hl as [_ ->].
      split; [done|]. by intros _; destruct (Hfr eq_refl) as [-> ->].
    + split; [exact Hp|]. intros Hx. apply mux_call_not_idle in Hc. by destruct s'.
    + split; [exact Hp|]. intros _. destruct (Hfr eq_refl) as [-> ->]. by destruct s as [| | | |[]|], c.
  - assert (Hq : plan_of q' = plan_of q ∧ (fresh_phase q' = true → fresh_phase q = true)) by (by destruct Hl).
    destruct Hq as [Hq1 Hq2]. cbn. rewrite !app_nil_r, Hq1. split_and!; [done|done|]. intros Hx. by apply Hfr, Hq2.
  - subst q'. cbn. by rewrite !app_nil_r.
Qed.

Lemma conn_accepts (q0 : phase) (ls : list label) (q : phase) :
  conn_past [] q0 → accepts (local_protocol fe) q0 ls q → conn_past ls q.
Proof.
  intros H0. revert q. induction ls as [|l ls IH] using rev_ind; intros q Ha; [by inversion Ha; subst|].
  apply accepts_snoc in Ha as (q1 & Ha & Hl). by eapply conn_past_step; [apply IH|].
Qed.

(** A stream's relay registers nothing. *)
Lemma register_fresh (q q' : phase) (i : N) (a : answer) :
  conn_call fe q (Register i) a = Some q' → fresh_phase q = true.
Proof.
  intros Hc. destruct q as [|pl|pl|pl s|pl s|]; try done.
  apply conn_call_mux in Hc as (s' & Hc & _). by destruct s as [| | | | | | | | |[]| | |[]].
Qed.

Lemma relay_not_fresh (q q' : phase) (ls : list label) :
  accepts (local_protocol fe) q ls q' → fresh_phase q = false → fresh_phase q' = false.
Proof.
  induction 1 as [q|q l q1 ls q' Hl _ IH]; [done|]. intros Hq. apply IH.
  destruct q as [|pl|pl|pl s|pl s|]; try done. destruct l as [c a|p|]; cbn [advance p_call p_spawn local_protocol] in Hl.
  - apply conn_call_mux in Hl as (s' & Hc & ->). apply mux_call_not_idle in Hc. by destruct s'.
  - by inversion Hl.
  - by subst q1.
Qed.
End Conn.
