(* ===== verification/Fixtures.v ===== *)
(** * The peers of the integration tests ([integration-tests/src/lib.rs])

    The applications and upstreams the tests put at the two ends of the tunnel:
    the HTTP and SOCKS5 clients, written against the same parsers the proxy is
    checked with, the canned HTTP response and the echo server.  An [unwrap] or
    a failed assertion of a fixture is a panic. *)
From S2P Require Import Prelude Utf8 Text Net Frame GeoSite GeoIp Routing Sock Socks5 Http.
From S2P Require Import Task Client ClientProtocol ClientTraces Roles.

Definition tpanic {A : Type} : Tcp A := λ s, (Panic, s).

(** [.unwrap()] *)
Definition tunwrap {A : Type} (m : Tcp A) : Tcp A := λ s,
  match m s with (Fail, s') => (Panic, s') | r => r end.

Definition assert (b : bool) : Tcp unit := if b then tret tt else tpanic.

(** ** SOCKS5 *)

(** [connect_via_socks5], after the connection to the proxy is up *)
Definition connect_via_socks5 (target : bytes) : Tcp unit :=
  match rsplit_once target x3a with
  | None => tpanic
  | Some (host, port_str) =>
      match parse_u16 port_str with
      | None => tpanic
      | Some port =>
          let! _ := tunwrap (write_or_fail [x05; x01; x00]) in
          let! sel := tunwrap (read_exact 2) in
          let! _ := assert (bool_decide (byte_at 0 sel = x05)) in
          let! _ := assert (bool_decide (byte_at 1 sel = x00)) in
          let req := [x05; x01; x00; x03; u8_of (N.of_nat (length host))] ++ host ++ u16_to_be_bytes port in
          let! _ := tunwrap (write_or_fail req) in
          let! reply := tunwrap (read_exact 10) in
          let! _ := assert (bool_decide (byte_at 0 reply = x05)) in
          assert (bool_decide (byte_at 1 reply = x00))
      end
  end.

(** ** CONNECT *)

Definition connect_request (target : bytes) : bytes :=
  bs "CONNECT " ++ target ++ bs " HTTP/1.1" ++ CRLF ++ bs "Host: " ++ target ++ CRLF ++ CRLF.

(** [stream.read(&mut buf[total..])]: at most [room] bytes, at least one if any
    has arrived and there is room, how many is up to the network ([size]). *)
Definition read_some (room size : nat) : Tcp bytes := λ s,
  match room, rx s with
  | O, _ => (Val [], s)
  | _, [] => match rx_end s with Eof => (Val [], s) | ReadErr => (Fail, s) | Pending => (Block, s) end
  | _, r => let n := Nat.min (S size) room in (Val (take n r), with_rx s (drop n r))
  end.

(** The loop that waits for the blank line, in a buffer of 256 bytes. *)
Fixpoint await_blank (fuel : nat) (sizes : nat → nat) (buf : bytes) : Tcp bytes :=
  match fuel with
  | O => λ s, (Exhausted, s)
  | S f =>
      let! got := tunwrap (read_some (256 - length buf) (sizes f)) in
      if contains (buf ++ got) (CRLF ++ CRLF) then tret (buf ++ got) else await_blank f sizes (buf ++ got)
  end.

(** [connect_via_proxy], after the connection to the proxy is up *)
Definition connect_via_proxy (fuel : nat) (sizes : nat → nat) (target : bytes) : Tcp unit :=
  let! _ := tunwrap (write_or_fail (connect_request target)) in
  let! header := await_blank fuel sizes [] in
  let! _ := assert (utf8_valid header) in
  assert (contains header (bs "200")).

(** ** GET *)

Definition get_request (host path : bytes) : bytes :=
  bs "GET " ++ path ++ bs " HTTP/1.1" ++ CRLF ++ bs "Host: " ++ host ++ CRLF ++
  bs "Connection: close" ++ CRLF ++ CRLF.

(** [s.split_whitespace()] *)
Fixpoint words (word : bytes) (chars : list bytes) : list bytes :=
  match chars with
  | [] => match word with [] => [] | _ => [word] end
  | ch :: rest =>
      if is_whitespace ch then match word with [] => words [] rest | _ => word :: words [] rest end
      else words (word ++ ch) rest
  end.

Definition split_whitespace (s : bytes) : list bytes := words [] (utf8_chars s).

(** The locals of the loop over the response's header lines. *)
Record response := { header_text : bytes; status_code : N; body_length : N }.

Definition on_response_line (st : response) (line : bytes) : Tcp response :=
  let status :=
    match header_text st with
    | [] => match split_whitespace line !! 1 with
            | Some code => default 0%N (parse_u16 code)
            | None => status_code st
            end
    | _ => status_code st
    end in
  let! len :=
    if starts_with (to_ascii_lowercase line) (bs "content-length:") then
      let! v := tslice (header_value (bs "content-length:") line) in tret (default 0%N (parse_usize v))
    else tret (body_length st) in
  tret {| header_text := header_text st ++ line; status_code := status; body_length := len |}.

(** [reader.read_line(&mut line).await.unwrap_or(0)]: an error counts as the end. *)
Definition read_line_or_end : Tcp bytes := λ s, match read_line s with (Fail, s') => (Val [], s') | r => r end.

Fixpoint response_loop (fuel : nat) (st : response) : Tcp response :=
  match fuel with
  | O => λ s, (Exhausted, s)
  | S f =>
      let! line := read_line_or_end in
      if (length line =? 0) || str_eqb line CRLF then tret st
      else let! st' := on_response_line st line in response_loop f st'
  end.

Definition read_response (fuel : nat) : Tcp (N * bytes) :=
  let! st := response_loop fuel {| header_text := []; status_code := 0; body_length := 0 |} in
  let! body := (if (0 <? body_length st)%N then tunwrap (read_exact (N.to_nat (body_length st))) else tret []) in
  tret (status_code st, body).

(** [http_get_via_proxy], after the connection to the proxy is up *)
Definition http_get_via_proxy (fuel : nat) (host path : bytes) : Tcp (N * bytes) :=
  let! _ := tunwrap (write_or_fail (get_request host path)) in read_response fuel.

(** ** Upstreams *)

(** What [spawn_http_upstream] answers, for the body it sends. *)
Definition http_response (body : bytes) : bytes :=
  bs "HTTP/1.1 200 OK" ++ CRLF ++ bs "Content-Length: " ++ show_dec (N.of_nat (length body)) ++ CRLF ++
  bs "Connection: close" ++ CRLF ++ CRLF ++ body.

(** A connection of [spawn_raw_echo_upstream] *)
Definition echo_task : prog :=
  Loop (let* r := TcpRead in
        match r with
        | ABytes (b :: t) => let* w := TcpWrite (b :: t) in if is_ok w then Continue else Break
        | _ => Break
        end)
  Return.

(** ** Lemmas: steps of the fixtures *)

Lemma tunwrap_read {A : Type} (n : nat) (d rest : bytes) (k : bytes → Tcp A) (s : sock) :
  length d = n → tbind (tunwrap (read_exact n)) k (with_rx s (d ++ rest)) = k d (with_rx s rest).
Proof.
  intros <-. apply tbind_val. unfold tunwrap. by rewrite (read_exact_app d rest).
Qed.

Lemma tunwrap_write {A : Type} (d : bytes) (k : unit → Tcp A) (s : sock) :
  tx_left s = None → tbind (tunwrap (write_or_fail d)) k s = k tt (wrote s d).
Proof.
  intros Hw. apply tbind_val. unfold tunwrap, write_or_fail, tbind. rewrite write_all_ok; [done|]. by rewrite Hw.
Qed.

Lemma wrote_left (s : sock) (d : bytes) : tx_left s = None → tx_left (wrote s d) = None.
Proof. unfold wrote. cbn. by intros ->. Qed.

(** ** Lemmas: header blocks *)

(** The length of a text with constant parts. *)
Ltac lengths :=
  rewrite ?length_app;
  repeat match goal with
  | |- context [length (bs ?s)] => let n := eval vm_compute in (length (bs s)) in change (length (bs s)) with n
  end;
  unfold CRLF; cbn [length]; lia.

Lemma last_field_skip (name : bytes) (ls : list bytes) (acc : option bytes) :
  Forall (λ l, named name l = false) ls →
  foldl (λ acc l, if named name l then Some (field name l) else acc) acc ls = acc.
Proof. intros Hf. revert acc. induction Hf as [|l ls Hl _ IH]; intros acc; [done|]. cbn. by rewrite Hl, IH. Qed.

(** A line of ASCII text. *)
Lemma ascii_line (t : bytes) : is_ascii t = true → x0a ∉ t → t ≠ [] → is_line (t ++ CRLF).
Proof.
  intros Ha Hn Ht. exists (t ++ [x0d]). split_and!.
  - by rewrite <- app_assoc.
  - rewrite not_elem_of_app, list_elem_of_singleton. by split.
  - apply utf8_valid_ascii. by rewrite is_ascii_app, Ha.
  - unfold CRLF. intros E. change [x0d; x0a] with ([] ++ [x0d; x0a]) in E at 2. by apply app_inv_tail in E.
Qed.

Lemma visible_no_newline (v : bytes) : forallb visible v = true → x0a ∉ v.
Proof. rewrite forallb_forall. intros Hv Hin%list_elem_of_In. by apply Hv in Hin. Qed.

(** The line that names the host. *)
Definition host_line (h : bytes) : bytes := bs "Host: " ++ h ++ CRLF.

Lemma host_line_is (h : bytes) : forallb visible h = true →
  is_line (host_line h) ∧ named (bs "host:") (host_line h) = true ∧
  named (bs "content-length:") (host_line h) = false ∧ field (bs "host:") (host_line h) = h.
Proof.
  intros Hv. split_and!; [|reflexivity|reflexivity|].
  - unfold host_line. rewrite app_assoc. apply ascii_line; [|cbn; rewrite !not_elem_of_cons|done].
    + by rewrite is_ascii_app, (visible_text h Hv).
    + split_and!; try discriminate. by apply visible_no_newline.
  - unfold field, host_line. exact (trim_field h Hv).
Qed.

(** A request without body whose one [Host] line names [h]. *)
Lemma parse_fixture_request (ahead : nat) (first h early : bytes) (more : list bytes) (p : sock) :
  let ls := first :: host_line h :: more in
  Forall (λ l, is_line l ∧ named (bs "host:") l = false ∧ named (bs "content-length:") l = false) (first :: more) →
  forallb visible h = true → (N.of_nat (length (concat ls) + 2) ≤ MAX_HEADER_BYTES)%N →
  rx p = concat ls ++ CRLF ++ early →
  parse_request_header ahead p = (Val (with_port h, concat ls ++ CRLF, []), with_rx p (drop ahead early)).
Proof.
  intros ls Hls Hh Hlen Hp. destruct (host_line_is h Hh) as (Hl & Hn & Hc & Hf).
  apply Forall_cons in Hls as [(H1 & H2 & H3) Hm].
  assert (E : concat (ls ++ [CRLF]) = concat ls ++ CRLF) by (by rewrite concat_app; cbn).
  assert (Hcl : Forall (λ l, named (bs "content-length:") l = false) (ls ++ [CRLF])).
  { apply Forall_cons. split; [done|]. apply Forall_cons. split; [done|]. apply Forall_app.
    split; [|by repeat constructor]. eapply Forall_impl; [exact Hm|]. by intros l (_ & _ & ?). }
  assert (Hhost : Forall (λ l, named (bs "host:") l = false) (more ++ [CRLF])).
  { apply Forall_app. split; [|by repeat constructor]. eapply Forall_impl; [exact Hm|]. by intros l (_ & ? & _). }
  apply parse_request_header_spec. exists (ls ++ [CRLF]), early. rewrite E. split_and!.
  - exists ls, CRLF. split_and!; [done| |by left]. apply Forall_cons. split; [done|].
    apply Forall_cons. split; [done|]. eapply Forall_impl; [exact Hm|]. by intros l (? & _ & _).
  - rewrite Hp. by rewrite <- app_assoc.
  - rewrite length_app. cbn [length CRLF]. lia.
  - eapply Forall_impl; [exact Hcl|]. cbn. congruence.
  - unfold block_host, last_field, ls. cbn [app foldl]. by rewrite H2, Hn, Hf, last_field_skip.
  - done.
  - unfold block_length, last_field. by rewrite last_field_skip.
  - done.
Qed.

(** ** Properties *)

(** The SOCKS5 client of the tests and the proxy's parser agree: for a host of
    at most 255 bytes of UTF-8, the proxy that receives what [connect_via_socks5]
    has sent parses the target it was called with and answers the method
    selection the client waits for; and the client returns after the success
    reply, without a byte more. *)
Theorem socks_fixture_accepted (host early r : bytes) (port : N) (c : sock)
  (Hv : utf8_valid host = true) (Hl : length host ≤ 255) (Hp : (port ≤ U16_MAX)%N)
  (Hw : tx_left c = None) (Ht : tx c = [])
  (Hr : rx c = [SOCKS5_VERSION; SOCKS5_AUTH_NO_AUTH] ++ socks5_reply SOCKS5_REP_SUCCESS ++ r) :
  let target := host ++ bs ":" ++ show_dec port in
  ∃ c', connect_via_socks5 target c = (Val tt, c') ∧ rx c' = r ∧
    ∀ p, rx p = tx c' ++ early → tx_left p ≠ Some 0 →
      ∃ p', parse_socks5_request p = (Val target, p') ∧ rx p' = early ∧
        tx p' = tx p ++ [SOCKS5_VERSION; SOCKS5_AUTH_NO_AUTH].
Proof.
  intros target. set (req := [x05; x01; x00; x03; u8_of (N.of_nat (length host))] ++ host ++ u16_to_be_bytes port).
  exists (with_rx (wrote (wrote c [x05; x01; x00]) req) r). split_and!.
  - unfold connect_via_socks5, target. change (host ++ bs ":" ++ show_dec port) with (host ++ x3a :: show_dec port).
    rewrite rsplit_once_app by (by apply show_dec_no). unfold parse_u16.
    rewrite parse_show_dec by done. rewrite tunwrap_write by done.
    rewrite <- (with_rx_id (wrote c _)). change (rx (wrote c [x05; x01; x00])) with (rx c). rewrite Hr.
    rewrite tunwrap_read by done. rewrite !(tbind_val _ _ _ _ tt eq_refl). fold req.
    rewrite tunwrap_write by (by apply wrote_left).
    change (wrote (with_rx ?a ?b) ?d) with (with_rx (wrote a d) b).
    rewrite tunwrap_read by done. by rewrite !(tbind_val _ _ _ _ tt eq_refl).
  - done.
  - intros p Hrx Hpw. exists (with_rx (wrote p [SOCKS5_VERSION; SOCKS5_AUTH_NO_AUTH]) early).
    split_and!; [|done|done]. apply parse_socks5_request_spec.
    exists [x00], x00, (SocksDomain host), port, early. split_and!; try done; [cbn; lia|by left|].
    rewrite Hrx. cbn. rewrite Ht. unfold req, request_bytes. cbn. by rewrite <- !app_assoc.
Qed.

(** The HTTP client of the tests and the proxy's parser agree: the proxy takes
    [connect_request] for a CONNECT to the target and [get_request] for a
    request to the host, port 80 by default, returns the request as it was
    sent, without body, and consumes nothing more than it had read ahead. *)
Theorem http_fixtures_accepted (ahead : nat) (host path early : bytes) (p : sock)
  (Hh : forallb visible host = true) (Hp : forallb visible path = true)
  (Hl : (N.of_nat (length host + length host + length path) ≤ 60000)%N) :
  (rx p = connect_request host ++ early →
   parse_request_header ahead p = (Val (with_port host, connect_request host, []), with_rx p (drop ahead early)) ∧
   is_connect (connect_request host) = true) ∧
  (rx p = get_request host path ++ early →
   parse_request_header ahead p = (Val (with_port host, get_request host path, []), with_rx p (drop ahead early)) ∧
   is_connect (get_request host path) = false).
Proof.
  assert (Hascii : ∀ a v b, is_ascii a = true → is_ascii b = true → forallb visible v = true →
    x0a ∉ a → x0a ∉ b → is_ascii (a ++ v ++ b) = true ∧ x0a ∉ a ++ v ++ b).
  { intros a v b Ha Hb Hv Hna Hnb. rewrite !is_ascii_app, (visible_text v Hv), Ha, Hb, !not_elem_of_app.
    split_and!; [done|done|by apply visible_no_newline|done]. }
  assert (Hno : ∀ s : bytes, forallb (λ b, negb (bool_decide (b = x0a))) s = true → x0a ∉ s).
  { intros s Hs Hin%list_elem_of_In. rewrite forallb_forall in Hs. by apply Hs in Hin. }
  split; intros Hrx; (split; [|reflexivity]).
  - set (first := (bs "CONNECT " ++ host ++ bs " HTTP/1.1") ++ CRLF).
    assert (E : connect_request host = concat [first; host_line host] ++ CRLF).
    { unfold connect_request, first, host_line. cbn [concat]. by rewrite app_nil_r, <- !app_assoc. }
    rewrite E in *. apply parse_fixture_request; [|done| |by rewrite Hrx, <- app_assoc].
    + repeat constructor; [|done..]. destruct (Hascii (bs "CONNECT ") host (bs " HTTP/1.1")) as [? ?]; [done|done|done|by apply Hno..|].
      by apply ascii_line.
    + unfold first, host_line, MAX_HEADER_BYTES. cbn [concat]. lengths.
  - set (first := (bs "GET " ++ path ++ bs " HTTP/1.1") ++ CRLF).
    assert (E : get_request host path = concat [first; host_line host; bs "Connection: close" ++ CRLF] ++ CRLF).
    { unfold get_request, first, host_line. cbn [concat]. by rewrite app_nil_r, <- !app_assoc. }
    rewrite E in *. apply parse_fixture_request; [|done| |by rewrite Hrx, <- app_assoc].
    + repeat constructor; try done; [|by apply ascii_line; [|apply Hno|]].
      destruct (Hascii (bs "GET ") path (bs " HTTP/1.1")) as [? ?]; [done|done|done|by apply Hno..|]. by apply ascii_line.
    + unfold first, host_line, MAX_HEADER_BYTES. cbn [concat]. lengths.
Qed.

(** ** Lemmas: reading a response *)

Lemma read_line_or_end_run (t rest : bytes) (s : sock) :
  x0a ∉ t → utf8_valid (t ++ [x0a]) = true →
  read_line_or_end (with_rx s ((t ++ [x0a]) ++ rest)) = (Val (t ++ [x0a]), with_rx s rest).
Proof. intros Hn Hv. unfold read_line_or_end. by rewrite read_line_run. Qed.

Lemma response_loop_line (f : nat) (st st' : response) (l rest : bytes) (s : sock) :
  is_line l → on_response_line st l (with_rx s rest) = (Val st', with_rx s rest) →
  response_loop (S f) st (with_rx s (l ++ rest)) = response_loop f st' (with_rx s rest).
Proof.
  intros (t & -> & Hn & Hv & Hc) Ho. cbn [response_loop].
  rewrite (tbind_val _ _ _ _ _ (read_line_or_end_run t rest s Hn Hv)).
  assert (E : (length (t ++ [x0a]) =? 0) || str_eqb (t ++ [x0a]) CRLF = false).
  { apply orb_false_iff. split; [rewrite length_app; cbn; apply Nat.eqb_neq; lia|].
    apply not_true_iff_false. by rewrite str_eqb_eq. }
  rewrite E. by rewrite (tbind_val _ _ _ _ _ Ho).
Qed.

Lemma response_loop_blank (f : nat) (st : response) (rest : bytes) (s : sock) :
  response_loop (S f) st (with_rx s (CRLF ++ rest)) = (Val st, with_rx s rest).
Proof.
  cbn [response_loop]. change (CRLF ++ rest) with (([x0d] ++ [x0a]) ++ rest).
  rewrite (tbind_val _ _ _ _ _ (read_line_or_end_run [x0d] rest s ltac:(by rewrite list_elem_of_singleton) eq_refl)).
  done.
Qed.

Lemma show_dec_visible (n : N) : forallb visible (show_dec n) = true.
Proof.
  pose proof (show_dec_digits n) as Hd. rewrite forallb_forall in *. intros b Hb. specialize (Hd b Hb). by byte_cases b.
Qed.

Lemma read_http_response (fuel : nat) (body r : bytes) (s : sock) :
  4 ≤ fuel → (N.of_nat (length body) ≤ USIZE_MAX)%N →
  read_response fuel (with_rx s (http_response body ++ r)) = (Val (200%N, body), with_rx s r).
Proof.
  intros Hf Hb. do 4 (destruct fuel as [|fuel]; [lia|]). clear Hf. unfold read_response.
  set (n := N.of_nat (length body)) in *. set (count := bs "Content-Length: " ++ show_dec n ++ CRLF).
  assert (E : http_response body ++ r =
    (bs "HTTP/1.1 200 OK" ++ CRLF) ++ count ++ (bs "Connection: close" ++ CRLF) ++ CRLF ++ body ++ r).
  { unfold http_response, count. by rewrite <- !app_assoc. }
  assert (Hno : ∀ t : bytes, forallb (λ b, negb (bool_decide (b = x0a))) t = true → x0a ∉ t).
  { intros t Ht Hin%list_elem_of_In. rewrite forallb_forall in Ht. by apply Ht in Hin. }
  assert (Hc : is_line count).
  { unfold count. rewrite app_assoc. apply ascii_line; [|rewrite not_elem_of_app; split|done].
    - by rewrite is_ascii_app, show_dec_ascii.
    - by apply Hno.
    - by apply show_dec_no. }
  assert (Hfield : header_value (bs "content-length:") count = Some (show_dec n)).
  { destruct Hc as (t & E' & _ & Hv & _). rewrite (proj1 (header_value_named (bs "content-length:") count eq_refl eq_refl Hv)).
    f_equal. unfold field, count. exact (trim_field _ (show_dec_visible n)). }
  rewrite E. erewrite tbind_val.
  2:{ erewrite response_loop_line; [|by apply ascii_line; [|apply Hno|]|reflexivity].
      erewrite response_loop_line; [|exact Hc|].
      2:{ unfold on_response_line. change (starts_with (to_ascii_lowercase count) _) with true. cbv iota.
          rewrite Hfield. cbn [tslice tbind tret]. unfold parse_usize. rewrite parse_show_dec by done. reflexivity. }
      erewrite response_loop_line; [|by apply ascii_line; [|apply Hno|]|reflexivity].
      apply response_loop_blank. }
  cbv beta. cbn [body_length status_code default]. unfold id. destruct (0 <? n)%N eqn:E0.
  - cbv iota. unfold n. by rewrite tunwrap_read by lia.
  - assert (body = []) as -> by (destruct body; [done|unfold n in E0; cbn in E0; blia]). done.
Qed.

(** The tests' HTTP client reads back what the tests' upstream sends: for every
    body, [http_get_via_proxy] returns the status 200 and that body, and leaves
    what follows.  Five lines are enough fuel. *)
Theorem http_response_round_trip (fuel : nat) (host path body r : bytes) (s : sock)
  (Hf : 4 ≤ fuel) (Hb : (N.of_nat (length body) ≤ USIZE_MAX)%N) (Hw : tx_left s = None)
  (Hr : rx s = http_response body ++ r) :
  http_get_via_proxy fuel host path s = (Val (200%N, body), with_rx (wrote s (get_request host path)) r).
Proof.
  unfold http_get_via_proxy. rewrite tunwrap_write by done. rewrite <- (with_rx_id (wrote s _)) at 1.
  change (rx (wrote s ?d)) with (rx s). rewrite Hr. by apply read_http_response.
Qed.

(** ** Lemmas: waiting for the blank line *)

Definition blank : bytes := CRLF ++ CRLF.

(** The reply of the proxy has its blank line at the end and not before. *)
Lemma no_blank_before (k : nat) : k < length OK_200 → contains (take k OK_200) blank = false.
Proof.
  intros Hk. assert (H : forallb (λ k, negb (contains (take k OK_200) blank)) (seq 0 (length OK_200)) = true)
    by (vm_compute; reflexivity).
  rewrite forallb_forall in H. apply negb_true_iff, H, in_seq. lia.
Qed.

Lemma read_some_run (room size : nat) (r : bytes) (s : sock) :
  0 < room → r ≠ [] → let n := Nat.min (S size) room in
  read_some room size (with_rx s r) = (Val (take n r), with_rx s (drop n r)).
Proof. intros Hr Hn n. unfold read_some. destruct room; [lia|]. by destruct r. Qed.

Lemma await_blank_ok (fuel : nat) (sizes : nat → nat) (k : nat) (s : sock) :
  k < length OK_200 → length OK_200 - k ≤ fuel →
  await_blank fuel sizes (take k OK_200) (with_rx s (drop k OK_200)) = (Val OK_200, with_rx s []).
Proof.
  assert (Hlen : length OK_200 = 39) by reflexivity.
  revert k. induction fuel as [|f IH]; intros k Hk Hf; [lia|]. cbn [await_blank].
  assert (Hlk : length (take k OK_200) = k) by (rewrite length_take; lia). rewrite Hlk.
  erewrite tbind_val.
  2:{ unfold tunwrap. rewrite read_some_run; [reflexivity|lia|].
      intros E. apply (f_equal length) in E. rewrite length_drop in E. cbn in E. lia. }
  set (n := Nat.min (S (sizes f)) (256 - k)). assert (Hn : 1 ≤ n) by (unfold n; lia). cbv beta.
  assert (E : take k OK_200 ++ take n (drop k OK_200) = take (k + n) OK_200).
  { rewrite take_take_drop. done. }
  rewrite E, drop_drop. change (CRLF ++ CRLF) with blank. destruct (decide (length OK_200 ≤ k + n)) as [Hall|Hmore].
  - rewrite take_ge, drop_ge by lia. done.
  - rewrite no_blank_before by lia. apply IH; lia.
Qed.

Lemma await_blank_spins (fuel : nat) (sizes : nat → nat) (buf : bytes) (s : sock) :
  rx_end s = Eof → contains buf blank = false →
  await_blank fuel sizes buf (with_rx s []) = (Exhausted, with_rx s []).
Proof.
  intros He Hb. induction fuel as [|f IH]; [done|]. cbn [await_blank]. erewrite tbind_val.
  2:{ unfold tunwrap, read_some. cbn [rx with_rx rx_end]. rewrite He. by destruct (256 - length buf). }
  cbv beta. rewrite app_nil_r. change (CRLF ++ CRLF) with blank. by rewrite Hb.
Qed.

(** [connect_via_proxy] returns on the proxy's success reply, however the network
    cuts it into pieces; but when the proxy closes the connection without a
    reply its loop reads the end of the stream for ever: no fuel is enough. *)
Theorem connect_fixture (sizes : nat → nat) (target : bytes) (s : sock) (Hw : tx_left s = None) :
  (rx s = OK_200 → ∀ fuel, 39 ≤ fuel →
   connect_via_proxy fuel sizes target s = (Val tt, with_rx (wrote s (connect_request target)) [])) ∧
  (rx s = [] → rx_end s = Eof → ∀ fuel, fst (connect_via_proxy fuel sizes target s) = Exhausted).
Proof.
  unfold connect_via_proxy. split.
  - intros Hr fuel Hf. rewrite tunwrap_write by done. rewrite <- (with_rx_id (wrote s _)) at 1.
    change (rx (wrote s ?d)) with (rx s). rewrite Hr.
    rewrite (tbind_val _ _ _ _ OK_200 (await_blank_ok fuel sizes 0 _ ltac:(cbn; lia) ltac:(cbn; lia))). reflexivity.
  - intros Hr He fuel. rewrite tunwrap_write by done. rewrite <- (with_rx_id (wrote s _)) at 1.
    change (rx (wrote s ?d)) with (rx s). rewrite Hr. unfold tbind at 1.
    by rewrite await_blank_spins.
Qed.

(** ** The echo server *)

Definition echo_call (q : writer_phase) (c : call) (a : answer) : option writer_phase :=
  match q, c with
  | WWait, TcpRead => Some (match a with ABytes (b :: t) => WHas (b :: t) | _ => WDone end)
  | WHas d, TcpWrite d' => expect d d' (if is_ok a then WWait else WDone)
  | _, _ => None
  end.

Definition echo_protocol : protocol :=
  {| pstate := writer_phase; p_call := echo_call; p_spawn _ _ _ := False;
     p_end q := q = WDone; p_answer _ _ := True |}.

Lemma echo_follows : follows echo_protocol echo_task WWait.
Proof.
  unfold follows, echo_task. exists (λ q, q = WWait). split; [done|]. intros q ->.
  intros a _. eexists. split; [reflexivity|]. destruct a as [| |[|b t]| | | |]; try reflexivity.
  intros a' _. eexists. split; [cbn [p_call echo_protocol echo_call]; by rewrite expect_same|].
  by destruct (is_ok a').
Qed.

Lemma reads_of_app (ls ls' : list label) : reads_of (ls ++ ls') = reads_of ls ++ reads_of ls'.
Proof. unfold reads_of. by rewrite omap_app, concat_app. Qed.

Lemma echo_accepts (ls : list label) (q : writer_phase) :
  accepts echo_protocol WWait ls q →
  reads_of ls = concat (writes_of ls) ++ match q with WHas d => d | _ => [] end.
Proof.
  revert q. induction ls as [|l ls IH] using rev_ind; intros q Ha.
  { by inversion Ha; subst. }
  apply accepts_snoc in Ha as (q1 & Ha & Hl). specialize (IH q1 Ha).
  rewrite reads_of_app, writes_of_app, concat_app, IH.
  destruct l as [c a|p|]; cbn in Hl; [|done|subst q1; cbn; by rewrite !app_nil_r].
  destruct q1, c; try done; cbn in Hl.
  - injection Hl as <-. destruct a as [| |[|b t]| | | |]; cbn; by rewrite ?app_nil_r.
  - apply expect_Some in Hl as [-> ->]. cbn. destruct (is_ok a); cbn; by rewrite !app_nil_r.
Qed.

(** The echo server sends back what it has received, in order, all of it but
    at most the piece in its hands, and never panics. *)
Theorem echo_server_echoes (ls : list label) (cf : config) (Hrun : steps (echo_task, []) ls cf) :
  fst cf ≠ Crash ∧ concat (writes_of ls) `prefix_of` reads_of ls ∧
  (fst cf = Return → concat (writes_of ls) = reads_of ls).
Proof.
  destruct (follows_refines _ _ _ echo_follows ls cf Hrun) as (q & Ha & Hc & He & _).
  { apply Forall_forall. by intros [] _. }
  pose proof (echo_accepts ls q Ha) as E. split_and!; [done| |].
  - rewrite E. by apply prefix_app_r.
  - intros Hr. rewrite E, (He Hr). by rewrite app_nil_r.
Qed.

(** ** Witnesses *)

Definition demo_peer (input : bytes) : sock := {| rx := input; rx_end := Pending; tx := []; tx_left := None |}.

Lemma socks_fixture_accepted_witness :
  ∃ c', connect_via_socks5 (bs "example.com" ++ bs ":" ++ show_dec 443)
      (demo_peer ([SOCKS5_VERSION; SOCKS5_AUTH_NO_AUTH] ++ socks5_reply SOCKS5_REP_SUCCESS ++ bs "hi")) = (Val tt, c') ∧
    rx c' = bs "hi" ∧
    ∀ p, rx p = tx c' ++ [] → tx_left p ≠ Some 0 →
      ∃ p', parse_socks5_request p = (Val (bs "example.com" ++ bs ":" ++ show_dec 443), p') ∧ rx p' = [] ∧
        tx p' = tx p ++ [SOCKS5_VERSION; SOCKS5_AUTH_NO_AUTH].
Proof.
  apply (socks_fixture_accepted (bs "example.com") [] (bs "hi") 443
    (demo_peer ([SOCKS5_VERSION; SOCKS5_AUTH_NO_AUTH] ++ socks5_reply SOCKS5_REP_SUCCESS ++ bs "hi")));
    first [reflexivity|cbn; lia|unfold U16_MAX; lia].
Defined.

Lemma http_fixtures_accepted_witness :
  parse_request_header 0 (demo_peer (connect_request (bs "example.com:443"))) =
    (Val (bs "example.com:443", connect_request (bs "example.com:443"), []), demo_peer []).
Proof.
  refine (proj1 (proj1 (http_fixtures_accepted 0 (bs "example.com:443") (bs "/") []
    (demo_peer (connect_request (bs "example.com:443"))) _ _ _) _)); first [reflexivity|cbn; lia].
Defined.

Lemma http_response_round_trip_witness :
  http_get_via_proxy 4 (bs "h") (bs "/") (demo_peer (http_response (bs "hello-upstream") ++ [])) =
    (Val (200%N, bs "hello-upstream"),
     with_rx (wrote (demo_peer (http_response (bs "hello-upstream") ++ [])) (get_request (bs "h") (bs "/"))) []).
Proof.
  apply http_response_round_trip; first [reflexivity|lia|cbn; unfold USIZE_MAX; lia].
Defined.

Lemma connect_fixture_witness :
  ∀ fuel, 39 ≤ fuel → fst (connect_via_proxy fuel (λ _, 0) (bs "h:1") (demo_peer OK_200)) = Val tt.
Proof.
  intros fuel Hf. by rewrite (proj1 (connect_fixture (λ _, 0) (bs "h:1") (demo_peer OK_200) eq_refl) eq_refl fuel Hf).
Defined.

Lemma echo_server_echoes_witness :
  let r := run 10 (echo_task, []) [ABytes (bs "a"); AOk; ABytes []] in
  concat (writes_of (fst r)) = bs "a" ∧ concat (writes_of (fst r)) = reads_of (fst r).
Proof.
  intros r. split; [vm_compute; reflexivity|].
  apply (echo_server_echoes (fst r) (snd r)); [apply (run_steps 10 _ _ [ABytes (bs "a"); AOk; ABytes []])|];
    vm_compute; reflexivity.
Defined.
