(* ===== verification/Serve.v ===== *)
(** * The server's accept loop and its shutdown ([server/src/lib.rs], [serve])

    [serve], the connections it spawns, and the shutdown channel they share.
    The channel has one sender; the accept loop and every session hold clones
    of its one receiver, so a message reaches one of them only. *)
From S2P Require Import Prelude Channel Utf8 Text Net Frame Ssrf Task Relay Server.

(** Why a part of the server has ended. *)
Inductive ending : Type := OnItsOwn | ByShutdown.

#[export] Instance ending_eq_dec : EqDecision ending.
Proof. solve_decision. Defined.

(** A task of [accept_connection]: up to the WebSocket handshake, in the
    [select!] of its session and the shutdown, or over. *)
Inductive conn_at : Type :=
| Handshaking
| InSession (control : bool)
| ConnOver (why : ending).

#[export] Instance conn_at_eq_dec : EqDecision conn_at.
Proof. solve_decision. Defined.

(** What happens at the server: [SEnv] by itself, [SStop] because of the
    shutdown; [SSend] and [SDrop] are the owner of the sender. *)
Inductive serve_label : Type := SEnv | SStop | SSend | SDrop.

#[export] Instance serve_label_eq_dec : EqDecision serve_label.
Proof. solve_decision. Defined.

Section Serve.
Context `{ChannelLib}.

(** [make_shutdown_channel] *)
Definition make_shutdown_channel : chan unit := bounded 1.

(** The accept loop ([None] while it runs, else how it ended and whether with
    an error), the connections in order of arrival, the shutdown channel. *)
Record server := {
  loop_over : option (ending * bool);
  conns : list conn_at;
  shutdown : chan unit
}.

Definition serve_init : server := {| loop_over := None; conns := []; shutdown := make_shutdown_channel |}.

Definition with_loop (s : server) (o : ending * bool) (c : chan unit) : server :=
  {| loop_over := Some o; conns := conns s; shutdown := c |}.
Definition with_conn (s : server) (j : nat) (a : conn_at) (c : chan unit) : server :=
  {| loop_over := loop_over s; conns := <[j := a]> (conns s); shutdown := c |}.

(** [shutdown.recv()] completes: with a message, which it takes, or with an
    error once the sender is gone. *)
Definition shutdown_recv (s : server) : option (chan unit) :=
  match pull (shutdown s) with
  | Some (_, c) => Some c
  | None => if is_closed (shutdown s) then Some (shutdown s) else None
  end.

(** What [accept_connection] does next when the handshake is over. *)
Definition after_accept (r : accept_result) : conn_at :=
  match r with
  | ControlSession => InSession true
  | MuxSession => InSession false
  | Dropped | Answered _ => ConnOver OnItsOwn
  end.

Inductive serve_step (s : server) : serve_label → server → Prop :=
| sv_accept :
    loop_over s = None →
    serve_step s SEnv {| loop_over := None; conns := conns s ++ [Handshaking]; shutdown := shutdown s |}
| sv_accept_fails : loop_over s = None → serve_step s SEnv (with_loop s (OnItsOwn, true) (shutdown s))
| sv_loop_stops c :
    loop_over s = None → shutdown_recv s = Some c → serve_step s SStop (with_loop s (ByShutdown, false) c)
| sv_accepted j peeked handshake :
    conns s !! j = Some Handshaking →
    serve_step s SEnv (with_conn s j (after_accept (accept_connection peeked handshake)) (shutdown s))
| sv_session_ends j control :
    conns s !! j = Some (InSession control) → serve_step s SEnv (with_conn s j (ConnOver OnItsOwn) (shutdown s))
| sv_session_stops j control c :
    conns s !! j = Some (InSession control) → shutdown_recv s = Some c →
    serve_step s SStop (with_conn s j (ConnOver ByShutdown) c)
| sv_send c :
    push tt (shutdown s) = Some c →
    serve_step s SSend {| loop_over := loop_over s; conns := conns s; shutdown := c |}
| sv_drop : serve_step s SDrop {| loop_over := loop_over s; conns := conns s; shutdown := shut (shutdown s) |}.

Inductive serve_run : server → list serve_label → server → Prop :=
| sr_nil s : serve_run s [] s
| sr_cons s l s1 ls s2 : serve_step s l s1 → serve_run s1 ls s2 → serve_run s (l :: ls) s2.

(** The accept loop and the sessions that still run; those the shutdown ended. *)
Definition is_session (a : conn_at) : Prop := match a with InSession _ => True | _ => False end.
#[local] Instance is_session_dec (a : conn_at) : Decision (is_session a).
Proof. destruct a; apply _. Defined.

Definition count {A : Type} (P : A → Prop) `{∀ a, Decision (P a)} (l : list A) : nat := length (filter P l).
#[local] Arguments count : simpl never.

Definition running (s : server) : nat :=
  (if loop_over s then 0 else 1) + count is_session (conns s).

Definition stopped_parts (s : server) : nat :=
  match loop_over s with Some (ByShutdown, _) => 1 | _ => 0 end + count (eq (ConnOver ByShutdown)) (conns s).

Definition sends (ls : list serve_label) : nat := length (filter (eq SSend) ls).

(** ** Lemmas *)

Lemma count_app {A : Type} (P : A → Prop) `{∀ a, Decision (P a)} (l k : list A) : count P (l ++ k) = count P l + count P k.
Proof. unfold count. by rewrite filter_app, length_app. Qed.

Lemma count_cons {A : Type} (P : A → Prop) `{∀ a, Decision (P a)} (a : A) (l : list A) :
  count P (a :: l) = (if decide (P a) then 1 else 0) + count P l.
Proof. unfold count. rewrite filter_cons. by case_decide. Qed.

Lemma count_insert {A : Type} (P : A → Prop) `{∀ a, Decision (P a)} (l : list A) (j : nat) (a b : A) :
  l !! j = Some a →
  count P (<[j := b]> l) + (if decide (P a) then 1 else 0) = count P l + (if decide (P b) then 1 else 0).
Proof.
  intros Hj. rewrite insert_take_drop by (by eapply lookup_lt_Some).
  rewrite <- (take_drop_middle l j a Hj) at 3. rewrite !count_app, !count_cons. lia.
Qed.

(** The shutdown, while its sender lives: messages sent are queued or have
    stopped one part each. *)
Lemma serve_step_counts (s s' : server) (l : serve_label) :
  serve_step s l s' → l ≠ SDrop → is_closed (shutdown s) = false →
  is_closed (shutdown s') = false ∧
  stopped_parts s' + length (queued (shutdown s')) =
    stopped_parts s + length (queued (shutdown s)) + (match l with SSend => 1 | _ => 0 end).
Proof.
  intros Hst Hl Hc.
  assert (Hrecv : ∀ c, shutdown_recv s = Some c → is_closed c = false ∧ length (queued (shutdown s)) = S (length (queued c))).
  { unfold shutdown_recv. intros c. destruct (pull (shutdown s)) as [[u c0]|] eqn:E.
    - intros [= <-]. apply pull_spec in E as (-> & _ & ->). by rewrite Hc.
    - by rewrite Hc. }
  destruct Hst as [Ho|Ho|c Ho Hr|j peeked handshake Hj|j control Hj|j control c Hj Hr|c Hp|]; unfold stopped_parts; cbn.
  - split; [done|]. rewrite count_app, count_cons. rewrite Ho, decide_False by done. unfold count. cbn. lia.
  - split; [done|]. by rewrite Ho.
  - destruct (Hrecv c Hr) as [Hc' ->]. split; [done|]. rewrite Ho. lia.
  - split; [done|]. pose proof (count_insert (eq (ConnOver ByShutdown)) _ _ _ (after_accept (accept_connection peeked handshake)) Hj) as E.
    rewrite decide_False in E by done. rewrite decide_False in E by (by destruct (accept_connection _ _)). lia.
  - split; [done|]. pose proof (count_insert (eq (ConnOver ByShutdown)) _ _ _ (ConnOver OnItsOwn) Hj) as E.
    rewrite !decide_False in E by done. lia.
  - destruct (Hrecv c Hr) as [Hc' ->]. split; [done|].
    pose proof (count_insert (eq (ConnOver ByShutdown)) _ _ _ (ConnOver ByShutdown) Hj) as E.
    rewrite decide_False, decide_True in E by done. lia.
  - apply push_spec in Hp as (_ & _ & -> & _ & ->). split; [done|]. rewrite length_app. cbn. lia.
  - done.
Qed.

(** Once the sender is gone every part can be stopped. *)
Lemma stop_one (s : server) :
  is_closed (shutdown s) = true → 0 < running s →
  ∃ s', serve_step s SStop s' ∧ is_closed (shutdown s') = true ∧ running s = S (running s').
Proof.
  intros Hc Hr.
  assert (Hrecv : ∃ c, shutdown_recv s = Some c ∧ is_closed c = true).
  { unfold shutdown_recv. destruct (pull (shutdown s)) as [[u c]|] eqn:E; [|rewrite Hc; eauto].
    exists c. split; [done|]. apply pull_spec in E as (_ & _ & ->). done. }
  destruct Hrecv as (c & Hrecv & Hc'). unfold running in *. destruct (loop_over s) as [o|] eqn:Ho.
  - assert (Hj : ∃ j control, conns s !! j = Some (InSession control)).
    { unfold count in Hr. destruct (filter is_session (conns s)) as [|a l] eqn:E; [cbn in Hr; lia|].
      assert (Ha : a ∈ filter is_session (conns s)) by (rewrite E; left).
      apply list_elem_of_filter in Ha as [Ha Hin]. apply list_elem_of_lookup_1 in Hin as [j Hj].
      destruct a as [|control|]; try done. eauto. }
    destruct Hj as (j & control & Hj). exists (with_conn s j (ConnOver ByShutdown) c).
    split_and!; [by eapply sv_session_stops|done|]. cbn. rewrite Ho.
    pose proof (count_insert is_session _ _ _ (ConnOver ByShutdown) Hj) as E.
    rewrite decide_True, decide_False in E by (cbn; tauto). lia.
  - exists (with_loop s (ByShutdown, false) c). by split_and!; [apply sv_loop_stops|done|].
Qed.

(** ** Properties *)

(** C29: One message stops one part: while the sender is kept, in every run of the
    server the parts that the shutdown has ended are as many as the messages
    that have been sent and received.  So after a single [send] either the
    accept loop has ended, or one session, never both. *)
Theorem shutdown_message_stops_one (ls : list serve_label) (s : server)
  (Hrun : serve_run serve_init ls s) (Hkept : SDrop ∉ ls) :
  stopped_parts s + length (queued (shutdown s)) = sends ls.
Proof.
  assert (Hgo : ∀ s0 ls s1, serve_run s0 ls s1 → SDrop ∉ ls → is_closed (shutdown s0) = false →
    stopped_parts s1 + length (queued (shutdown s1)) = stopped_parts s0 + length (queued (shutdown s0)) + sends ls).
  { clear. induction 1 as [s|s l s1 ls s2 Hst _ IH]; intros Hn Hc; [unfold sends; cbn; lia|].
    rewrite not_elem_of_cons in Hn. destruct Hn as [Hl Hn].
    destruct (serve_step_counts _ _ _ Hst (not_eq_sym Hl) Hc) as [Hc1 E]. rewrite (IH Hn Hc1), E.
    unfold sends. rewrite filter_cons. destruct l; repeat case_decide; try done; cbn; lia. }
  rewrite (Hgo _ _ _ Hrun Hkept); unfold serve_init, make_shutdown_channel; cbn;
    destruct (bounded_spec (A:=unit) 1) as (E & _ & E'); [by rewrite E|done].
Qed.

(** Dropping the sender stops everything: from any state in which it is gone,
    stops of the accept loop and of the running sessions alone, as many as
    there are, lead to a state in which none of them runs. *)
Theorem shutdown_drop_stops_all (s : server) (Hdropped : is_closed (shutdown s) = true) :
  ∃ s', serve_run s (repeat SStop (running s)) s' ∧ running s' = 0.
Proof.
  remember (running s) as n eqn:En. revert s Hdropped En. induction n as [|n IH]; intros s Hc En.
  - exists s. split; [constructor|done].
  - destruct (stop_one s Hc ltac:(lia)) as (s1 & Hst & Hc1 & E). destruct (IH s1 Hc1 ltac:(lia)) as (s' & Hr & H0).
    exists s'. split; [by eapply sr_cons|done].
Qed.
End Serve.

(** ** Witnesses *)

#[local] Existing Instance queue_channels.

(** A mux session is up when the message is sent, and takes it. *)
Definition demo_server : server :=
  {| loop_over := None; conns := [ConnOver ByShutdown]; shutdown := make_shutdown_channel |}.

Definition demo_upgrade : bytes := bs "GET /mux HTTP/1.1 Upgrade: websocket".

Lemma demo_server_run : serve_run serve_init [SEnv; SEnv; SSend; SStop] demo_server.
Proof.
  eapply sr_cons; [by apply sv_accept|].
  eapply sr_cons; [apply (sv_accepted _ 0 (Some demo_upgrade) (Some (bs "/mux"))); reflexivity|].
  eapply sr_cons; [by eapply sv_send|].
  eapply sr_cons; [apply (sv_session_stops _ 0 false (bounded 1)); vm_compute; reflexivity|]. constructor.
Qed.

Lemma shutdown_message_stops_one_witness :
  loop_over demo_server = None ∧
  stopped_parts demo_server + length (queued (shutdown demo_server)) = sends [SEnv; SEnv; SSend; SStop].
Proof.
  split; [reflexivity|]. apply (shutdown_message_stops_one _ _ demo_server_run).
  rewrite !not_elem_of_cons. split_and!; try discriminate. apply not_elem_of_nil.
Defined.

Lemma shutdown_drop_stops_all_witness :
  let s := {| loop_over := None; conns := [InSession true; InSession false]; shutdown := shut make_shutdown_channel |} in
  ∃ s', serve_run s (repeat SStop (running s)) s' ∧ running s' = 0.
Proof. intros s. apply (shutdown_drop_stops_all s). vm_compute. reflexivity. Defined.
