(* ===== verification/Proxy.v ===== *)
(** * The client's long-running loops ([client/src/lib.rs])

    [run_mux_keeper], which keeps the tunnel session alive, as a state machine
    over what its awaits yield; and the accept loops of [run_proxy_resilient]
    and [run_proxy_with_routing], which number the connections. *)
From S2P Require Import Prelude.
From Stdlib Require Import Sorting.Permutation.

(** ** [run_mux_keeper] *)

Definition RECONNECT_INITIAL_MS : N := 500.
Definition RECONNECT_MAX_SECS : N := 30.
Definition max_backoff : N := RECONNECT_MAX_SECS * 1000.

(** The await the keeper is in. *)
Inductive keeper_at : Type :=
| ObtainToken
| TokenSleep                     (** [select!] of the sleep and the shutdown *)
| MuxConnect (token : bytes)
| ConnectSleep
| SendHello (token : bytes)
| SessionUp                      (** [select!] of a disconnect and the shutdown *)
| Stopped.

(** What the await yields. *)
Inductive keeper_event : Type :=
| TokenResult (t : option bytes)
| Slept
| Connected (ok : bool)
| HelloSent (ok : bool)
| Disconnected
| Shutdown.

(** The locals, the shared slot (sessions are numbered), and the sessions
    [MuxConn::close] has been called on. *)
Record keeper := {
  at_await : keeper_at;
  backoff : N;
  shared : option nat;
  next_session : nat;
  closed_sessions : list nat
}.

Definition keeper_init : keeper :=
  {| at_await := ObtainToken; backoff := RECONNECT_INITIAL_MS; shared := None;
     next_session := 0; closed_sessions := [] |}.

Definition goto (k : keeper) (p : keeper_at) (b : N) : keeper :=
  {| at_await := p; backoff := b; shared := shared k; next_session := next_session k;
     closed_sessions := closed_sessions k |}.

(** [backoff = (backoff * 2).min(max_backoff)] *)
Definition grow (b : N) : N := N.min (b * 2) max_backoff.

(** [if let Some(c) = shared.lock().unwrap().take() { c.close(); }] *)
Definition take_and_close (k : keeper) (p : keeper_at) : keeper :=
  {| at_await := p; backoff := backoff k; shared := None; next_session := next_session k;
     closed_sessions := match shared k with
                        | Some c => c :: closed_sessions k
                        | None => closed_sessions k
                        end |}.

(** One await of the loop; [None] when the event cannot occur there. *)
Definition keeper_step (k : keeper) (e : keeper_event) : option keeper :=
  match at_await k, e with
  | ObtainToken, TokenResult (Some t) => Some (goto k (MuxConnect t) RECONNECT_INITIAL_MS)
  | ObtainToken, TokenResult None => Some (goto k TokenSleep (backoff k))
  | TokenSleep, Slept => Some (goto k ObtainToken (grow (backoff k)))
  | TokenSleep, Shutdown => Some (goto k Stopped (backoff k))
  | MuxConnect t, Connected true => Some (goto k (SendHello t) (backoff k))
  | MuxConnect t, Connected false => Some (goto k ConnectSleep (backoff k))
  | ConnectSleep, Slept => Some (goto k ObtainToken (grow (backoff k)))
  | ConnectSleep, Shutdown => Some (goto k Stopped (backoff k))
  | SendHello t, HelloSent true =>
      Some {| at_await := SessionUp; backoff := RECONNECT_INITIAL_MS;
              shared := Some (next_session k); next_session := S (next_session k);
              closed_sessions := closed_sessions k |}
  | SendHello t, HelloSent false => Some (goto k ObtainToken (backoff k))
  | SessionUp, Disconnected => Some (take_and_close k ObtainToken)
  | SessionUp, Shutdown => Some (take_and_close k Stopped)
  | _, _ => None
  end.

Fixpoint keeper_run (k : keeper) (es : list keeper_event) : option keeper :=
  match es with
  | [] => Some k
  | e :: es' => k' ← keeper_step k e; keeper_run k' es'
  end.

(** The delay of the sleep the keeper is in, in milliseconds. *)
Definition delay (k : keeper) : option N :=
  match at_await k with TokenSleep | ConnectSleep => Some (backoff k) | _ => None end.

(** *** The invariant *)

Record keeper_ok (k : keeper) : Prop := {
  ko_backoff : (RECONNECT_INITIAL_MS ≤ backoff k ≤ max_backoff)%N;
  ko_fresh : match at_await k with
             | MuxConnect _ | ConnectSleep | SendHello _ | SessionUp => backoff k = RECONNECT_INITIAL_MS
             | _ => True
             end;
  ko_shared : match at_await k with
              | SessionUp => ∃ g, shared k = Some g ∧ next_session k = S g ∧
                  closed_sessions k ≡ₚ seq 0 g
              | _ => shared k = None ∧ closed_sessions k ≡ₚ seq 0 (next_session k)
              end
}.

Lemma grow_bounds (b : N) :
  (RECONNECT_INITIAL_MS ≤ b ≤ max_backoff)%N → (RECONNECT_INITIAL_MS ≤ grow b ≤ max_backoff)%N.
Proof. unfold grow, RECONNECT_INITIAL_MS, max_backoff, RECONNECT_MAX_SECS. lia. Qed.

Lemma keeper_ok_init : keeper_ok keeper_init.
Proof.
  split; [|done|by split].
  cbn. unfold RECONNECT_INITIAL_MS, max_backoff, RECONNECT_MAX_SECS. lia.
Qed.

Lemma keeper_ok_step (k k' : keeper) (e : keeper_event) :
  keeper_ok k → keeper_step k e = Some k' → keeper_ok k'.
Proof.
  intros [Hb Hf Hs] Hst. unfold keeper_step in Hst.
  assert (Hi : (RECONNECT_INITIAL_MS ≤ RECONNECT_INITIAL_MS ≤ max_backoff)%N)
    by (unfold RECONNECT_INITIAL_MS, max_backoff, RECONNECT_MAX_SECS; lia).
  destruct (at_await k) eqn:Ea, e as [[t|]| |[]|[]| |]; try done; injection Hst as <-;
    (split; cbn; [try done; by apply grow_bounds|try done|try done]).
  - exists (next_session k). destruct Hs as [_ Hs]. by split_and!.
  - destruct Hs as (g & -> & -> & Hc). split; [done|]. rewrite Hc.
    by rewrite seq_S, Permutation_cons_append.
  - destruct Hs as (g & -> & -> & Hc). split; [done|]. rewrite Hc.
    by rewrite seq_S, Permutation_cons_append.
Qed.

Lemma keeper_ok_run (k k' : keeper) (es : list keeper_event) :
  keeper_ok k → keeper_run k es = Some k' → keeper_ok k'.
Proof.
  revert k. induction es as [|e es IH]; intros k Hok; cbn; [by intros [= <-]|].
  destruct (keeper_step k e) as [k1|] eqn:E; [|done]. cbn. apply IH. by eapply keeper_ok_step.
Qed.

(** ** The accept loops *)

(** What an accept loop of the proxy yields. *)
Inductive accept_event : Type :=
| HttpAccepted
| HttpFailed             (** [accept] fails: the proxy returns the error *)
| SocksAccepted
| SocksFailed            (** the SOCKS5 listener's task ends *)
| ProxyShutdown.

Inductive front : Type := HttpFront | SocksFront.

(** The counter [next_id] ([AtomicU32], wrapping), the handlers spawned with
    their ids, which loops still run, and whether the keeper was told to stop. *)
Record proxy := {
  next_id : N;
  spawned : list (front * N);
  http_running : bool;
  socks_running : bool;
  keeper_told : bool
}.

Definition proxy_init (socks : bool) : proxy :=
  {| next_id := 1; spawned := []; http_running := true; socks_running := socks; keeper_told := false |}.

(** [next_id.fetch_add(1, Relaxed)], then the spawn. *)
Definition accept_one (f : front) (p : proxy) : proxy :=
  {| next_id := ((next_id p + 1) mod 4294967296)%N; spawned := (f, next_id p) :: spawned p;
     http_running := http_running p; socks_running := socks_running p; keeper_told := keeper_told p |}.

Definition http_ends (p : proxy) : proxy :=
  {| next_id := next_id p; spawned := spawned p; http_running := false;
     socks_running := socks_running p; keeper_told := true |}.

Definition proxy_step (p : proxy) (e : accept_event) : option proxy :=
  match e with
  | HttpAccepted => if http_running p then Some (accept_one HttpFront p) else None
  | HttpFailed | ProxyShutdown => if http_running p then Some (http_ends p) else None
  | SocksAccepted => if socks_running p then Some (accept_one SocksFront p) else None
  | SocksFailed =>
      if socks_running p then
        Some {| next_id := next_id p; spawned := spawned p; http_running := http_running p;
                socks_running := false; keeper_told := keeper_told p |}
      else None
  end.

Fixpoint proxy_run (p : proxy) (es : list accept_event) : option proxy :=
  match es with
  | [] => Some p
  | e :: es' => p' ← proxy_step p e; proxy_run p' es'
  end.

(** The ids in use are consecutive, the last one just before the counter. *)
Definition ids_ok (p : proxy) : Prop :=
  next_id p = (N.of_nat (S (length (spawned p))) mod 4294967296)%N ∧
  ∀ i f n, spawned p !! i = Some (f, n) →
    n = (N.of_nat (length (spawned p) - i) mod 4294967296)%N.

Lemma ids_ok_step (p p' : proxy) (e : accept_event) :
  ids_ok p → proxy_step p e = Some p' → ids_ok p'.
Proof.
  assert (Hone : ∀ f, ids_ok p → ids_ok (accept_one f p)).
  { intros f [Hn Hs]. split; cbn [next_id spawned accept_one length].
    - rewrite Hn, N.Div0.add_mod_idemp_l. f_equal. lia.
    - intros [|i] g n; cbn.
      + intros [= <- <-]. by rewrite Hn.
      + intros Hi. by apply (Hs i g n) in Hi. }
  intros Hok Hst. destruct e; cbn in Hst; case_match; try done; injection Hst as <-; auto.
Qed.

Lemma ids_ok_run (p p' : proxy) (es : list accept_event) :
  ids_ok p → proxy_run p es = Some p' → ids_ok p'.
Proof.
  revert p. induction es as [|e es IH]; intros p Hok; cbn; [by intros [= <-]|].
  destruct (proxy_step p e) as [p1|] eqn:E; [|done]. cbn. apply IH. by eapply ids_ok_step.
Qed.

Lemma ids_ok_init (socks : bool) : ids_ok (proxy_init socks).
Proof. split; [done|]. intros i f n. by destruct i. Qed.

Lemma ids_distinct (p : proxy) :
  ids_ok p → (N.of_nat (length (spawned p)) < 4294967296)%N →
  NoDup (map snd (spawned p)) ∧ Forall (λ n, (1 ≤ n ≤ 4294967295)%N) (map snd (spawned p)).
Proof.
  intros [_ Hs] Hlen.
  assert (Hn : ∀ i n, map snd (spawned p) !! i = Some n →
    i < length (spawned p) ∧ n = N.of_nat (length (spawned p) - i)).
  { intros i n. rewrite list_lookup_fmap. intros ([f m] & Hi & ->)%fmap_Some.
    pose proof (lookup_lt_Some _ _ _ Hi). split; [done|]. rewrite (Hs i f m Hi). cbn. apply N.mod_small. lia. }
  split.
  - apply NoDup_alt. intros i j n [Hi ->]%Hn [Hj Hij]%Hn. lia.
  - apply Forall_lookup. intros i n [Hi ->]%Hn. lia.
Qed.

(** Once the HTTP loop has ended it does not spawn again; the SOCKS5 loop does
    not look at the shutdown signal. *)
Lemma proxy_step_stopped (p p' : proxy) (e : accept_event) :
  proxy_step p e = Some p' → http_running p = false → http_running p' = false.
Proof. destruct e; cbn; repeat case_match; intros [= <-]; cbn; congruence. Qed.

(** ** Properties *)

(** C28: In every reachable state of the keeper the backoff is between 500 ms
    and 30 s; the shared slot holds a session exactly while one is up, and that
    session is the newest; and every earlier session has been closed, once, in
    the end all of them, so the requests waiting on them are released. *)
Theorem keeper_invariant (k : keeper) (es : list keeper_event)
  (Hrun : keeper_run keeper_init es = Some k) :
  (500 ≤ backoff k ≤ 30000)%N ∧
  (at_await k = SessionUp → ∃ g, shared k = Some g ∧ next_session k = S g ∧ closed_sessions k ≡ₚ seq 0 g) ∧
  (at_await k ≠ SessionUp → shared k = None ∧ closed_sessions k ≡ₚ seq 0 (next_session k)).
Proof.
  destruct (keeper_ok_run _ _ _ keeper_ok_init Hrun) as [Hb _ Hs]. split_and!.
  - apply Hb.
  - apply Hb.
  - intros Ha. by rewrite Ha in Hs.
  - intros Ha. by destruct (at_await k).
Qed.

(** The delays between failed logins double from 500 ms up to 30 s: after
    [n] failures in a row the keeper sleeps [min (500 * 2^n) 30000] ms before
    the next, from any point where it starts to log in afresh. *)
Theorem login_backoff (n : nat) (k : keeper)
  (Hat : at_await k = ObtainToken) (Hb : backoff k = RECONNECT_INITIAL_MS) :
  ∃ k', keeper_run k (concat (replicate n [TokenResult None; Slept]) ++ [TokenResult None]) = Some k' ∧
    delay k' = Some (N.min (500 * 2 ^ N.of_nat n) 30000)%N.
Proof.
  assert (Hgo : ∀ n k, at_await k = ObtainToken → (backoff k ≤ max_backoff)%N →
    ∃ k', keeper_run k (concat (replicate n [TokenResult None; Slept]) ++ [TokenResult None]) = Some k' ∧
      delay k' = Some (N.min (backoff k * 2 ^ N.of_nat n) max_backoff)%N).
  { clear. induction n as [|n IH]; intros k Ha Hb.
    - exists (goto k TokenSleep (backoff k)). cbn. unfold keeper_step. rewrite Ha. split; [done|].
      unfold delay. cbn. f_equal. lia.
    - assert (H1 : keeper_step k (TokenResult None) = Some (goto k TokenSleep (backoff k)))
        by (unfold keeper_step; by rewrite Ha).
      cbn [replicate concat app keeper_run]. rewrite H1. cbn.
      destruct (IH (goto (goto k TokenSleep (backoff k)) ObtainToken (grow (backoff k)))) as (k' & Hr & Hd).
      + done.
      + cbn. unfold grow. lia.
      + exists k'. split; [exact Hr|]. rewrite Hd. cbn [backoff goto]. f_equal. unfold grow.
        rewrite Nat2N.inj_succ, N.pow_succ_r'.
        assert (1 ≤ 2 ^ N.of_nat n)%N by (pose proof (N.pow_nonzero 2 (N.of_nat n)); lia).
        set (x := (2 ^ N.of_nat n)%N) in *. unfold max_backoff, RECONNECT_MAX_SECS in *. nia. }
  destruct (Hgo n k Hat) as (k' & Hr & Hd).
  - rewrite Hb. unfold RECONNECT_INITIAL_MS, max_backoff, RECONNECT_MAX_SECS. lia.
  - exists k'. split; [exact Hr|]. rewrite Hd, Hb. done.
Qed.

(** Failures after the login are never backed off: whenever the keeper
    sleeps after a failed /mux connection it sleeps 500 ms, however many such
    failures came before, and after a failed HELLO it does not sleep at all. *)
Theorem connect_failures_never_back_off (k : keeper) (es : list keeper_event)
  (Hrun : keeper_run keeper_init es = Some k) :
  (at_await k = ConnectSleep → delay k = Some 500%N) ∧
  (∀ t, at_await k = SendHello t →
    ∃ k', keeper_step k (HelloSent false) = Some k' ∧ at_await k' = ObtainToken).
Proof.
  destruct (keeper_ok_run _ _ _ keeper_ok_init Hrun) as [_ Hf _]. split.
  - intros Ha. unfold delay. rewrite Ha in Hf |- *. by rewrite Hf.
  - intros t Ha. unfold keeper_step. rewrite Ha. by eexists.
Qed.

(** The connections of both listeners share one numbering: as long as fewer
    than 2^32 have been accepted their stream ids are pairwise distinct [u32]s
    and none is the reserved 0; the 2^32-th gets id 0. *)
Theorem stream_ids_distinct (socks : bool) (es : list accept_event) (p : proxy)
  (Hrun : proxy_run (proxy_init socks) es = Some p) :
  ((N.of_nat (length (spawned p)) < 4294967296)%N →
   NoDup (map snd (spawned p)) ∧ Forall (λ n, (1 ≤ n ≤ 4294967295)%N) (map snd (spawned p))) ∧
  (N.of_nat (length (spawned p)) = 4294967296%N → ∃ f rest, spawned p = (f, 0%N) :: rest).
Proof.
  pose proof (ids_ok_run _ _ _ (ids_ok_init socks) Hrun) as Hok. split; [by apply ids_distinct|].
  destruct Hok as [_ Hs]. intros Hlen. destruct (spawned p) as [|[f n] rest] eqn:E; [done|]. exists f, rest. f_equal. f_equal.
  rewrite (Hs 0 f n eq_refl), Nat.sub_0_r, Hlen. reflexivity.
Qed.

(** ** Witnesses *)

Definition demo_events : list keeper_event :=
  [TokenResult None; Slept; TokenResult (Some (bs "t")); Connected true; HelloSent true;
   Disconnected; TokenResult (Some (bs "u")); Connected false].

Definition demo_keeper : keeper :=
  {| at_await := ConnectSleep; backoff := 500; shared := None; next_session := 1; closed_sessions := [0] |}.

Lemma keeper_invariant_witness :
  keeper_run keeper_init demo_events = Some demo_keeper ∧ (500 ≤ backoff demo_keeper ≤ 30000)%N.
Proof.
  split; [reflexivity|]. apply (keeper_invariant demo_keeper demo_events). reflexivity.
Defined.

Lemma login_backoff_witness :
  ∃ k', keeper_run keeper_init (concat (replicate 3 [TokenResult None; Slept]) ++ [TokenResult None]) = Some k' ∧
    delay k' = Some 4000%N.
Proof. apply (login_backoff 3 keeper_init); reflexivity. Defined.

Lemma connect_failures_never_back_off_witness : delay demo_keeper = Some 500%N.
Proof.
  apply (connect_failures_never_back_off demo_keeper demo_events); reflexivity.
Defined.

Lemma stream_ids_distinct_witness :
  NoDup (map snd (spawned (default (proxy_init true)
    (proxy_run (proxy_init true) [HttpAccepted; SocksAccepted; HttpAccepted])))).
Proof.
  apply (stream_ids_distinct true [HttpAccepted; SocksAccepted; HttpAccepted]); [reflexivity|].
  vm_compute. reflexivity.
Defined.
