(* ===== verification/Harness.v ===== *)
(** * How the integration tests start the programs ([integration-tests/src/lib.rs])

    The upstreams' connection tasks, the client that talks to an upstream
    directly, and the helpers that start a server and a client on free ports:
    what the programs are called with, and what becomes of a failed login.  The
    ports and what the peers answer are arguments. *)
From S2P Require Import Prelude Utf8 Text Net Frame GeoSite GeoIp Routing Sock Socks5 Http Channel.
From S2P Require Import Task Client Control RunProxy Proxy Relay Server Serve Fixtures.

(** ** The HTTP upstream *)

(** [stream.read(&mut buf[total..]).await.unwrap_or(0)] *)
Definition read_or_zero (room size : nat) : Tcp bytes := λ s,
  match read_some room size s with (Fail, s') => (Val [], s') | r => r end.

(** The loop that drains the request's headers into a buffer of [cap] bytes:
    does it end at a blank line? *)
Fixpoint drain_request (fuel cap : nat) (sizes : nat → nat) (buf : bytes) : Tcp bool :=
  match fuel with
  | O => λ s, (Exhausted, s)
  | S f =>
      let! got := read_or_zero (cap - length buf) (sizes f) in
      match got with
      | [] => tret false
      | _ => if contains (buf ++ got) (CRLF ++ CRLF) then tret true else drain_request f cap sizes (buf ++ got)
      end
  end.

Definition hello_upstream : bytes := bs "hello-upstream".

Definition response_head (body : bytes) : bytes :=
  bs "HTTP/1.1 200 OK" ++ CRLF ++ bs "Content-Length: " ++ show_dec (N.of_nat (length body)) ++ CRLF ++
  bs "Connection: close" ++ CRLF ++ CRLF.

(** A connection of [spawn_http_upstream] *)
Definition http_upstream (fuel : nat) (sizes : nat → nat) : Tcp unit :=
  let! found := drain_request fuel 4096 sizes [] in
  if found then
    let! _ := write_ignore (response_head hello_upstream) in write_ignore hello_upstream
  else tret tt.

(** A connection of [spawn_upstream_close_immediately] *)
Definition close_at_once : prog := Return.

(** ** [String::from_utf8_lossy] *)

(** U+FFFD *)
Definition replacement : bytes := [xef; xbf; xbd].

(** Each maximal part of an ill-formed sequence becomes one U+FFFD. *)
Fixpoint from_utf8_lossy (s : bytes) : bytes :=
  match s with
  | [] => []
  | b0 :: t0 =>
      if (u8 b0 <? 128)%N then b0 :: from_utf8_lossy t0
      else if in_range 194 223 (u8 b0) then
        match t0 with
        | b1 :: t1 => if is_cont b1 then b0 :: b1 :: from_utf8_lossy t1 else replacement ++ from_utf8_lossy t0
        | [] => replacement
        end
      else if in_range 224 239 (u8 b0) then
        match t0 with
        | b1 :: t1 =>
            if second3 (u8 b0) (u8 b1) then
              match t1 with
              | b2 :: t2 => if is_cont b2 then b0 :: b1 :: b2 :: from_utf8_lossy t2 else replacement ++ from_utf8_lossy t1
              | [] => replacement
              end
            else replacement ++ from_utf8_lossy t0
        | [] => replacement
        end
      else if in_range 240 244 (u8 b0) then
        match t0 with
        | b1 :: t1 =>
            if second4 (u8 b0) (u8 b1) then
              match t1 with
              | b2 :: t2 =>
                  if is_cont b2 then
                    match t2 with
                    | b3 :: t3 =>
                        if is_cont b3 then b0 :: b1 :: b2 :: b3 :: from_utf8_lossy t3
                        else replacement ++ from_utf8_lossy t2
                    | [] => replacement
                    end
                  else replacement ++ from_utf8_lossy t1
              | [] => replacement
              end
            else replacement ++ from_utf8_lossy t0
        | [] => replacement
        end
      else replacement ++ from_utf8_lossy t0
  end.

(** ** Socket addresses *)

Record SocketAddr := { sa_ip : IpAddr; sa_port : N }.

Definition show_socket_addr (a : SocketAddr) : bytes :=
  match sa_ip a with
  | V4 o => show_ipv4 o
  | V6 g => bs "[" ++ show_ipv6 g ++ bs "]"
  end ++ bs ":" ++ show_dec (sa_port a).

(** [endpoint_url] *)
Definition endpoint_url (addr : SocketAddr) : bytes := bs "ws://" ++ show_socket_addr addr ++ bs "/".

(** What [TcpListener::bind("127.0.0.1:0")] is bound to. *)
Definition localhost (port : N) : SocketAddr := {| sa_ip := V4 [x7f; x00; x00; x01]; sa_port := port |}.

(** ** GET without the proxy *)

Definition direct_request (addr : SocketAddr) : bytes :=
  bs "GET / HTTP/1.1" ++ CRLF ++ bs "Host: " ++ show_socket_addr addr ++ CRLF ++
  bs "Connection: close" ++ CRLF ++ CRLF.

(** The locals of the loop over the response's lines. *)
Record direct_state := { d_status : N; d_length : N; d_first : bool }.

Definition on_direct_line (st : direct_state) (line : bytes) : Tcp direct_state :=
  let status :=
    if d_first st then
      match split_whitespace line !! 1 with Some code => default 0%N (parse_u16 code) | None => d_status st end
    else d_status st in
  let! len :=
    if starts_with (to_ascii_lowercase line) (bs "content-length:") then
      let! v := tslice (header_value (bs "content-length:") line) in tret (default 0%N (parse_usize v))
    else tret (d_length st) in
  tret {| d_status := status; d_length := len; d_first := false |}.

Fixpoint direct_loop (fuel : nat) (st : direct_state) : Tcp direct_state :=
  match fuel with
  | O => λ s, (Exhausted, s)
  | S f =>
      let! line := read_line_or_end in
      if (length line =? 0) || str_eqb line CRLF then tret st
      else let! st' := on_direct_line st line in direct_loop f st'
  end.

(** [http_get_direct], after the connection is up *)
Definition http_get_direct (fuel : nat) (addr : SocketAddr) : Tcp (N * bytes) :=
  let! _ := tunwrap (write_or_fail (direct_request addr)) in
  let! st := direct_loop fuel {| d_status := 0; d_length := 0; d_first := true |} in
  let! body := (if (0 <? d_length st)%N then tunwrap (read_exact (N.to_nat (d_length st))) else tret []) in
  tret (d_status st, from_utf8_lossy body).

(** ** Starting the server *)

Section Server.
Context `{ChannelLib}.

(** What [spawn_proxy_server] returns and what it has started. *)
Record started_server := { ss_addr : SocketAddr; ss_users : list bytes; ss_state : server }.

Definition spawn_proxy_server (users : list bytes) (port : N) : started_server :=
  {| ss_addr := localhost port; ss_users := users; ss_state := serve_init |}.
End Server.

(** ** Starting a client *)

(** [env!("CARGO_PKG_VERSION")] *)
Definition CARGO_PKG_VERSION : bytes := bs "0.1.0".

(** [obtain_token]; [reply] is what the server answers to the greeting. *)
Definition obtain_token (user : bytes) (connected sent : bool) (reply : bytes → ws_event) : option bytes :=
  obtain_token_with_version connected sent (reply (hello_message CARGO_PKG_VERSION user)).

(** A client that does not reconnect: the login fails and the test panics, or
    the address it listens on and the run of the proxy. *)
Inductive client_start : Type :=
| LoginPanics
| ClientStarted (addr : SocketAddr) (run : proxy_run_result).

Section Client.
Context `{UnicodeCase, RegexEngine, IpNets, UriLib}.

(** What the resilient client is started with, and where its two loops begin. *)
Record resilient_start := {
  rs_endpoint : bytes;
  rs_user : bytes;
  rs_http : SocketAddr;
  rs_socks : option SocketAddr;
  rs_routing : RoutingConfig;
  rs_keeper : keeper;
  rs_proxy : proxy
}.

(** [spawn_proxy_client_with_routing] *)
Definition spawn_proxy_client_with_routing (server_addr : SocketAddr) (user : bytes) (routing : RoutingConfig)
    (logged_in said_hello : bool) (reply : bytes → ws_event) (port : N)
    (key : bytes) (connected sent : bool) (es : list listen_event) : client_start :=
  let endpoint := endpoint_url server_addr in
  match obtain_token user logged_in said_hello reply with
  | None => LoginPanics
  | Some token =>
      ClientStarted (localhost port) (run_proxy_with_routing key endpoint token routing connected sent es)
  end.

(** [spawn_proxy_client] *)
Definition spawn_proxy_client (server_addr : SocketAddr) (user : bytes) :=
  spawn_proxy_client_with_routing server_addr user routing_default.

(** [spawn_resilient_proxy_client] *)
Definition spawn_resilient_proxy_client (server_addr : SocketAddr) (user : bytes) (port : N) : resilient_start :=
  {| rs_endpoint := endpoint_url server_addr; rs_user := user;
     rs_http := localhost port; rs_socks := None; rs_routing := routing_default;
     rs_keeper := keeper_init; rs_proxy := proxy_init false |}.

(** [spawn_proxy_client_with_socks] *)
Definition spawn_proxy_client_with_socks (server_addr : SocketAddr) (user : bytes) (routing : RoutingConfig)
    (http_port socks_port : N) : resilient_start :=
  {| rs_endpoint := endpoint_url server_addr; rs_user := user;
     rs_http := localhost http_port; rs_socks := Some (localhost socks_port); rs_routing := routing;
     rs_keeper := keeper_init; rs_proxy := proxy_init true |}.
End Client.

(** ** Lemmas: the upstream *)

Lemma read_or_zero_run (room size : nat) (r : bytes) (s : sock) :
  0 < room → r ≠ [] → let n := Nat.min (S size) room in
  read_or_zero room size (with_rx s r) = (Val (take n r), with_rx s (drop n r)).
Proof. intros Hr Hn n. unfold read_or_zero. by rewrite read_some_run. Qed.

Lemma read_or_zero_full (size : nat) (s : sock) : read_or_zero 0 size s = (Val [], s).
Proof. done. Qed.

Lemma contains_prefix (a b p : bytes) : contains a p = true → contains (a ++ b) p = true.
Proof.
  rewrite !contains_iff. intros (u & v & ->). exists u, (v ++ b). by rewrite <- !app_assoc.
Qed.

(** What the loop has made of the stream when it stops. *)
Definition drained (cap : nat) (buf r : bytes) : bytes := buf ++ take (cap - length buf) r.

Lemma drained_step (cap : nat) (buf r : bytes) (n : nat) : n ≤ cap - length buf →
  drained cap (buf ++ take n r) (drop n r) = drained cap buf r.
Proof.
  intros Hn. unfold drained. rewrite <- app_assoc. f_equal. rewrite length_app, length_take.
  destruct (decide (n ≤ length r)) as [Hr|Hr].
  - rewrite Nat.min_l by done. rewrite take_take_drop. f_equal. lia.
  - rewrite drop_ge, take_nil, app_nil_r by lia. by rewrite !take_ge by lia.
Qed.

Lemma drain_request_spec (fuel cap : nat) (sizes : nat → nat) (buf r : bytes) (s : sock) :
  cap - length buf < fuel → contains buf blank = false →
  let seen := drained cap buf r in
  fst (drain_request fuel cap sizes buf (with_rx s r)) =
    (if contains seen blank then Val true
     else if decide (cap - length buf ≤ length r) then Val false
     else match rx_end s with Pending => Block | _ => Val false end) ∧
  ∃ r', snd (drain_request fuel cap sizes buf (with_rx s r)) = with_rx s r'.
Proof.
  revert buf r. induction fuel as [|f IH]; intros buf r Hf Hb seen; [lia|]. cbn [drain_request].
  destruct (decide (cap - length buf = 0)) as [E0|E0].
  { assert (E : seen = buf) by (unfold seen, drained; by rewrite E0, take_0, app_nil_r).
    rewrite E0, (tbind_val _ _ _ _ _ (read_or_zero_full _ _)), E, Hb, decide_True by lia. split; [done|by eexists]. }
  destruct r as [|b t].
  { assert (E : seen = buf) by (unfold seen, drained; by rewrite take_nil, app_nil_r).
    rewrite E, Hb, decide_False by (cbn; lia). unfold tbind, read_or_zero, read_some. cbn [rx with_rx rx_end].
    destruct (cap - length buf) eqn:Ec; [done|]. destruct (rx_end s); cbn; (split; [done|by eexists]). }
  set (r := b :: t) in *. set (n := Nat.min (S (sizes f)) (cap - length buf)).
  rewrite (tbind_val _ _ _ _ _ (read_or_zero_run (cap - length buf) (sizes f) r s ltac:(lia) ltac:(done))). fold n.
  assert (Hn : 1 ≤ n ≤ cap - length buf) by (unfold n; lia).
  assert (Es : seen = drained cap (buf ++ take n r) (drop n r)) by (unfold seen; by rewrite drained_step by lia).
  destruct (take n r) as [|c u] eqn:Et; [destruct n; [lia|done]|]. rewrite <- Et in *. clear c u Et.
  assert (Hl : length (take n r) = Nat.min n (length r)) by apply length_take.
  assert (Hr : 1 ≤ length r) by (cbn; lia). clearbody n r.
  change (CRLF ++ CRLF) with blank. destruct (contains (buf ++ take n r) blank) eqn:Ec.
  - rewrite Es. unfold drained. rewrite (contains_prefix _ _ _ Ec). split; [done|by eexists].
  - destruct (IH (buf ++ take n r) (drop n r)) as [E1 E2]; [rewrite length_app; lia|done|].
    split; [|done]. rewrite E1, Es. destruct (contains (drained _ _ _) blank); [done|].
    apply decide_ext. rewrite length_app, length_drop, Hl. lia.
Qed.

Lemma head_and_body (body : bytes) : response_head body ++ body = http_response body.
Proof. unfold response_head, http_response. by rewrite <- !app_assoc. Qed.

(** ** Lemmas: GET without the proxy *)

(** The two clients read a response alike; one keeps the text of the header
    lines to know the first, the other a flag. *)
Definition same_locals (st : response) (d : direct_state) : Prop :=
  d_status d = status_code st ∧ d_length d = body_length st ∧
  (d_first d = true ↔ header_text st = []).

Lemma on_line_same (st : response) (d : direct_state) (line : bytes) (s : sock) :
  same_locals st d → line ≠ [] →
  match on_response_line st line s, on_direct_line d line s with
  | (Val st', s1), (Val d', s2) => same_locals st' d' ∧ s1 = s2
  | (Fail, s1), (Fail, s2) | (Block, s1), (Block, s2) | (Panic, s1), (Panic, s2)
  | (Exhausted, s1), (Exhausted, s2) => s1 = s2
  | _, _ => False
  end.
Proof.
  intros (E1 & E2 & E3) Hl. unfold on_response_line, on_direct_line. rewrite E1, E2.
  assert (Ef : (if d_first d then
      match split_whitespace line !! 1 with Some code => default 0%N (parse_u16 code) | None => status_code st end
    else status_code st) = match header_text st with
      | [] => match split_whitespace line !! 1 with Some code => default 0%N (parse_u16 code) | None => status_code st end
      | _ => status_code st end).
  { destruct (header_text st) as [|b t]; [by rewrite (proj2 E3)|]. destruct (d_first d); [by discriminate (proj1 E3)|done]. }
  rewrite Ef. clear Ef. set (status := match header_text st with [] => _ | _ => _ end). clearbody status.
  assert (Hn : ∀ len, same_locals {| header_text := header_text st ++ line; status_code := status; body_length := len |}
    {| d_status := status; d_length := len; d_first := false |}).
  { intros len. split_and!; [done..|]. cbn. split; [done|]. by intros [_ ->]%app_nil. }
  unfold tbind. destruct (starts_with _ _); [|by split].
  destruct (header_value _ line); cbn; [by split|done].
Qed.

Lemma direct_loop_same (fuel : nat) (st : response) (d : direct_state) (s : sock) :
  same_locals st d →
  match response_loop fuel st s, direct_loop fuel d s with
  | (Val st', s1), (Val d', s2) => same_locals st' d' ∧ s1 = s2
  | (Fail, s1), (Fail, s2) | (Block, s1), (Block, s2) | (Panic, s1), (Panic, s2)
  | (Exhausted, s1), (Exhausted, s2) => s1 = s2
  | _, _ => False
  end.
Proof.
  revert st d s. induction fuel as [|f IH]; intros st d s Hs; [done|]. cbn [response_loop direct_loop].
  unfold tbind. destruct (read_line_or_end s) as [[line| | | |] s1] eqn:El; try done.
  destruct ((length line =? 0) || str_eqb line CRLF) eqn:Ee; [by split|].
  assert (Hl : line ≠ []) by (by intros ->).
  pose proof (on_line_same st d line s1 Hs Hl) as Ho.
  destruct (on_response_line st line s1) as [[st'| | | |] s2], (on_direct_line d line s1) as [[d'| | | |] s3];
    try done; try (by rewrite Ho).
  destruct Ho as [Ho ->]. by apply IH.
Qed.

(** ** Lemmas: [from_utf8_lossy] *)

Lemma lossy_valid (s : bytes) : utf8_valid s = true → from_utf8_lossy s = s.
Proof.
  revert s. apply utf8_ind; [done|..]; intros; cbn [from_utf8_lossy];
  repeat match goal with
  | H : (?a < ?b)%N |- context [(?a <? ?b)%N] => rewrite (proj2 (N.ltb_lt a b) H)
  | H : ?b = true |- context [if ?b then _ else _] => rewrite H
  | |- context [(?a <? ?b)%N] => destruct (a <? b)%N eqn:?; [exfalso; blia|]
  | |- context [if in_range ?a ?b ?c then _ else _] => destruct (in_range a b c) eqn:?; [exfalso; blia|]
  end; congruence.
Qed.

(** A piece of the result, and the input left after it: the piece is whole
    characters, whatever follows. *)
Definition lossy_piece (s out : bytes) : Prop :=
  ∃ c u, out = c ++ from_utf8_lossy u ∧ length u < length s ∧ ∀ w, utf8_valid (c ++ w) = utf8_valid w.

Lemma lossy_step (b : byte) (t : bytes) : lossy_piece (b :: t) (from_utf8_lossy (b :: t)).
Proof.
  assert (Hr : ∀ u, length u < length (b :: t) → lossy_piece (b :: t) (replacement ++ from_utf8_lossy u)).
  { intros u Hu. by exists replacement, u. }
  assert (He : lossy_piece (b :: t) replacement) by (by apply (Hr []); cbn; lia).
  cbn [from_utf8_lossy].
  repeat lazymatch goal with
  | |- lossy_piece _ (if ?c then _ else _) => destruct c eqn:?
  | |- lossy_piece _ (match ?l with [] => _ | _ :: _ => _ end) => is_var l; destruct l
  end; try first [exact He|apply Hr; cbn; lia].
  - exists [b], t. split_and!; [done|cbn; lia|intros w; apply utf8_valid_ascii_cons; blia].
  - eexists [_; _], _. split_and!; [done|cbn; lia|intros w; by apply utf8_valid_cons2].
  - eexists [_; _; _], _. split_and!; [done|cbn; lia|intros w; by apply utf8_valid_cons3].
  - eexists [_; _; _; _], _. split_and!; [done|cbn; lia|intros w; by apply utf8_valid_cons4].
Qed.

Lemma lossy_is_valid (s : bytes) : utf8_valid (from_utf8_lossy s) = true.
Proof.
  remember (length s) as n eqn:Hn. revert s Hn. induction (lt_wf n) as [n _ IH]. intros [|b t] ->; [done|].
  destruct (lossy_step b t) as (c & u & -> & Hu & ->). by eapply IH.
Qed.

Lemma http_upstream_answers (fuel : nat) (sizes : nat → nat) (s : sock) :
  (4097 ≤ N.of_nat fuel)%N → tx_left s = None →
  let found := contains (take 4096 (rx s)) (CRLF ++ CRLF) in
  let r := http_upstream fuel sizes s in
  fst r = (if found then Val tt
           else if (4096 <=? N.of_nat (length (rx s)))%N then Val tt
           else match rx_end s with Pending => Block | _ => Val tt end) ∧
  tx (snd r) = tx s ++ (if found then http_response hello_upstream else []).
Proof.
  intros Hf Hw found r. assert (H4 : N.of_nat 4096 = 4096%N) by reflexivity.
  remember 4096 as cap eqn:Ecap. unfold found, r, http_upstream. rewrite <- Ecap. clear found r Ecap.
  rewrite <- (with_rx_id s). change (rx (with_rx s ?a)) with a. change (rx_end (with_rx s ?a)) with (rx_end s).
  change (tx (with_rx s ?a)) with (tx s).
  destruct (drain_request_spec fuel cap sizes [] (rx s) s) as [E1 [r' E2]]; [cbn; lia|done|].
  change (drained cap [] (rx s)) with (take (cap - 0) (rx s)) in E1. rewrite Nat.sub_0_r in E1.
  change (length []) with 0 in E1. rewrite Nat.sub_0_r in E1. change blank with (CRLF ++ CRLF) in E1.
  unfold tbind at 1 3. destruct (drain_request fuel cap sizes [] (with_rx s (rx s))) as [o s1]. cbn [fst snd] in E1, E2. subst s1.
  destruct (contains (take cap (rx s)) (CRLF ++ CRLF)).
  - rewrite E1. rewrite write_ignore_run by (cbn; by rewrite Hw). cbv beta. unfold write_ignore.
    assert (Hw' : tx_left (wrote (with_rx s r') (response_head hello_upstream)) ≠ Some 0)
      by (rewrite wrote_left; [done|exact Hw]).
    rewrite (tbind_val _ _ _ _ _ (write_all_ok hello_upstream _ Hw')).
    split; [done|]. cbn [tret snd]. rewrite <- head_and_body, app_assoc. by cbn.
  - destruct (decide (cap ≤ length (rx s))) as [Hc|Hc].
    + rewrite (proj2 (N.leb_le 4096 (N.of_nat (length (rx s))))) by lia. rewrite E1. cbn. by rewrite app_nil_r.
    + rewrite (proj2 (N.leb_gt 4096 (N.of_nat (length (rx s))))) by lia. rewrite E1.
      destruct (rx_end s); cbn; by rewrite app_nil_r.
Qed.

Lemma direct_request_ends (addr : SocketAddr) : contains (direct_request addr) (CRLF ++ CRLF) = true.
Proof.
  apply contains_iff. unfold direct_request. generalize (show_socket_addr addr). intros h.
  exists (bs "GET / HTTP/1.1" ++ CRLF ++ bs "Host: " ++ h ++ CRLF ++ bs "Connection: close"), [].
  by rewrite app_nil_r, <- !app_assoc.
Qed.

Lemma direct_request_short (addr : SocketAddr) :
  length (show_socket_addr addr) ≤ 1000 → (N.of_nat (length (direct_request addr)) ≤ 4096)%N.
Proof. intros Hl. unfold direct_request. lengths. Qed.

Lemma read_http_direct (fuel : nat) (body r : bytes) (addr : SocketAddr) (s : sock) :
  4 ≤ fuel → utf8_valid body = true → (N.of_nat (length body) ≤ USIZE_MAX)%N →
  (let! st := direct_loop fuel {| d_status := 0; d_length := 0; d_first := true |} in
   let! body := (if (0 <? d_length st)%N then tunwrap (read_exact (N.to_nat (d_length st))) else tret []) in
   tret (d_status st, from_utf8_lossy body)) (with_rx s (http_response body ++ r)) =
  (Val (200%N, body), with_rx s r).
Proof.
  intros Hf Hv Hb. pose proof (read_http_response fuel body r s Hf Hb) as E. unfold read_response, tbind in E |- *.
  pose proof (direct_loop_same fuel {| header_text := []; status_code := 0; body_length := 0 |}
    {| d_status := 0; d_length := 0; d_first := true |} (with_rx s (http_response body ++ r)) ltac:(done)) as Hs.
  destruct (response_loop _ _ _) as [[st| | | |] s1]; try discriminate E.
  destruct (direct_loop _ _ _) as [[d| | | |] s2]; try done. destruct Hs as [(E1 & E2 & _) <-]. rewrite E1, E2.
  destruct (_ s1) as [[b| | | |] s3]; try discriminate E. injection E as -> -> ->. by rewrite lossy_valid.
Qed.

(** ** Properties *)

(** A connection of the HTTP upstream comes to its end unless the request stops
    half-way, and whatever the sizes of the pieces it arrives in: the response
    is sent once and whole when a blank line is among the first 4096 bytes, and
    nothing is sent when the block is longer, when the stream ends before the
    blank line or when reading fails; a request that stops without one is
    waited for.  One more than the size of the buffer is enough fuel. *)
Theorem http_upstream_correct (fuel : nat) (sizes : nat → nat) (s : sock)
  (Hf : (4097 ≤ N.of_nat fuel)%N) (Hw : tx_left s = None) :
  let found := contains (take 4096 (rx s)) (CRLF ++ CRLF) in
  let r := http_upstream fuel sizes s in
  fst r = (if found then Val tt
           else if (4096 <=? N.of_nat (length (rx s)))%N then Val tt
           else match rx_end s with Pending => Block | _ => Val tt end) ∧
  tx (snd r) = tx s ++ (if found then http_response hello_upstream else []).
Proof. by apply http_upstream_answers. Qed.

(** The two ends of a direct GET agree: the upstream answers what
    [http_get_direct] sends, in whatever pieces it arrives, with the response
    of its body, and [http_get_direct] reads from that response the status 200
    and the body; for any other body of UTF-8 text as well. *)
Theorem direct_get_round_trip (fuel : nat) (sizes : nat → nat) (addr : SocketAddr) (up c : sock)
  (Hf : (4097 ≤ N.of_nat fuel)%N) (Hup : rx up = direct_request addr) (Hw : tx_left up = None) (Ht : tx up = [])
  (Hl : length (show_socket_addr addr) ≤ 1000) (Hc : tx_left c = None) :
  let answer := tx (snd (http_upstream fuel sizes up)) in
  answer = http_response hello_upstream ∧
  ∀ fuel' body, 4 ≤ fuel' → utf8_valid body = true → (N.of_nat (length body) ≤ USIZE_MAX)%N → rx c = http_response body →
    http_get_direct fuel' addr c = (Val (200%N, body), with_rx (wrote c (direct_request addr)) []).
Proof.
  intros answer. split.
  - unfold answer. rewrite (proj2 (http_upstream_answers fuel sizes up Hf Hw)), Ht, Hup.
    rewrite take_ge; [by rewrite direct_request_ends|]. pose proof (direct_request_short addr Hl). lia.
  - intros fuel' body Hf' Hv Hb Hr. unfold http_get_direct. rewrite tunwrap_write by done.
    rewrite <- (with_rx_id (wrote c _)) at 1. change (rx (wrote c ?d)) with (rx c). rewrite Hr.
    rewrite <- (app_nil_r (http_response body)). by apply read_http_direct.
Qed.

(** [String::from_utf8_lossy] gives UTF-8 for all bytes, and leaves exactly the
    bytes that are UTF-8 already as they are. *)
Theorem from_utf8_lossy_correct (s : bytes) :
  utf8_valid (from_utf8_lossy s) = true ∧ (from_utf8_lossy s = s ↔ utf8_valid s = true).
Proof.
  split; [apply lossy_is_valid|]. split; [|apply lossy_valid]. intros <-. apply lossy_is_valid.
Qed.

Section Login.
Context `{SemVer, UuidLib, UnicodeCase, RegexEngine, IpNets, UriLib, ChannelLib}.

(** What the server answers to a greeting, to a client that waits for one
    message. *)
Definition server_answers (users : list bytes) (token : uuid) (store : gset uuid) (greeting : bytes) : ws_event :=
  match process_control (WsText greeting) users token store with
  | Handled (r :: _) _ _ => WsText r
  | _ => WsEnd
  end.

Lemma endpoint_mux (a : SocketAddr) : mux_url (endpoint_url a) = bs "ws://" ++ show_socket_addr a ++ bs "/mux".
Proof.
  assert (E : ends_with (endpoint_url a) (bs "/") = true).
  { unfold endpoint_url. rewrite app_assoc. apply ends_with_iff. by eexists. }
  unfold mux_url, with_slash. rewrite E. cbn [negb]. unfold endpoint_url. by rewrite <- !app_assoc.
Qed.

(** A client of the tests that is started against a server of the tests: the
    helper panics exactly when the user is not one the server was started with
    or the client's version is not accepted; and otherwise the proxy runs, asks
    for the server's [/mux] and opens its session with a HELLO that the server
    takes for the token it has just issued. *)
Theorem harness_logs_in (users : list bytes) (server_port port : N) (user : bytes) (routing : RoutingConfig)
  (token : uuid) (store : gset uuid) (key : bytes) (es : list listen_event) :
  let srv := spawn_proxy_server users server_port in
  let start := spawn_proxy_client_with_routing (ss_addr srv) user routing true true
    (server_answers (ss_users srv) token store) port key true true es in
  let url := bs "ws://" ++ show_socket_addr (ss_addr srv) ++ bs "/mux" in
  (start = LoginPanics ↔ ¬ good_login (hello_message CARGO_PKG_VERSION user) users) ∧
  (is_Some (parse_uri url ≫= uri_host) → good_login (hello_message CARGO_PKG_VERSION user) users →
   ∃ req hello hs r, start = ClientStarted (localhost port) (Ran req hello hs r) ∧ rq_uri req = url ∧
     (hs, r) = accept_loop routing 1 es ∧
     ∃ store1, process_control (WsText (hello_message CARGO_PKG_VERSION user)) users token store =
         Handled [bs "Hi:" ++ show_uuid token] false store1 ∧
       session_login [WsBinary hello] store1 = (Some token, store1 ∖ {[token]})).
Proof.
  intros srv start url. set (g := hello_message CARGO_PKG_VERSION user) in *.
  assert (Hs : (good_login g users ∧ process_control (WsText g) users token store =
       Handled [bs "Hi:" ++ show_uuid token] false ({[token]} ∪ store) ∧
       start = ClientStarted (localhost port)
         (run_proxy_with_routing key (endpoint_url (ss_addr srv)) (show_uuid token) routing true true es)) ∨
    (¬ good_login g users ∧ start = LoginPanics)).
  { unfold start, spawn_proxy_client_with_routing, obtain_token, obtain_token_with_version, server_answers. fold g.
    change (ss_users srv) with users.
    destruct (process_control_cases (WsText g) users token store) as [(t & [= <-] & Hg & Hp)|(Hn & rs & Hp & Hr)].
    - left. split; [done|]. split; [done|]. by rewrite Hp, read_hi.
    - right. split; [by intros Hg; apply Hn; exists g|]. rewrite Hp. destruct Hr as [|r rs Hr _]; [done|]. by rewrite Hr. }
  clearbody start. split.
  - destruct Hs as [(Hg & _ & ->)|[Hg ->]]; [by split|by split].
  - intros Hu Hg. destruct Hs as [(_ & Hp & ->)|[Hn _]]; [|done]. subst url. rewrite <- endpoint_mux in Hu |- *.
    unfold run_proxy_with_routing, build_request.
    destruct (parse_uri _) as [u|]; cbn [mbind option_bind] in Hu |- *; [|by destruct Hu].
    destruct (uri_host u) as [h|]; cbn [mbind option_bind] in Hu |- *; [|by destruct Hu]. cbn [negb].
    destruct (accept_loop routing 1 es) as [hs r]. do 4 eexists. split; [reflexivity|]. split; [done|]. split; [done|].
    exists ({[token]} ∪ store). split; [done|]. unfold session_login. cbn [hello_loop].
    rewrite decode_encode_aux by apply show_uuid_valid. rewrite parse_show_uuid.
    rewrite bool_decide_eq_true_2; [done|]. rewrite elem_of_union, elem_of_singleton. by left.
Qed.
End Login.

(** ** Witnesses *)

#[local] Existing Instances demo_case demo_engine demo_nets demo_uris demo_semver demo_uuid queue_channels.

Definition demo_address : SocketAddr := localhost 8080.

Lemma http_upstream_correct_witness :
  fst (http_upstream (N.to_nat 4097) (λ _, 2) (demo_peer (direct_request demo_address))) = Val tt ∧
  tx (snd (http_upstream (N.to_nat 4097) (λ _, 2) (demo_peer (bs "GET /")))) = [].
Proof.
  split.
  - rewrite (proj1 (http_upstream_correct (N.to_nat 4097) (λ _, 2) (demo_peer (direct_request demo_address))
      ltac:(by rewrite N2Nat.id) eq_refl)). by vm_compute.
  - rewrite (proj2 (http_upstream_correct (N.to_nat 4097) (λ _, 2) (demo_peer (bs "GET /"))
      ltac:(by rewrite N2Nat.id) eq_refl)). by vm_compute.
Defined.

Lemma direct_get_round_trip_witness :
  http_get_direct 4 demo_address (demo_peer (http_response hello_upstream)) =
  (Val (200%N, hello_upstream),
   with_rx (wrote (demo_peer (http_response hello_upstream)) (direct_request demo_address)) []).
Proof.
  apply (direct_get_round_trip (N.to_nat 4097) (λ _, 2) demo_address (demo_peer (direct_request demo_address)));
    try reflexivity; first [by rewrite N2Nat.id|lia|by vm_compute; lia|done].
Defined.

Lemma alice_logs_in : good_login (hello_message CARGO_PKG_VERSION (bs "alice")) [bs "bob"; bs "alice"].
Proof.
  exists CARGO_PKG_VERSION, (bs "alice"), CARGO_PKG_VERSION, tt. split_and!; try done.
  - apply (bool_decide_unpack _). vm_compute. exact I.
  - right. left.
Qed.

Lemma harness_logs_in_witness :
  ∃ req hello hs r,
    spawn_proxy_client_with_routing (localhost 9000) (bs "alice") routing_default true true
      (server_answers [bs "bob"; bs "alice"] demo_token ∅) 8080 [] true true [Accepted; ShutdownSeen] =
    ClientStarted (localhost 8080) (Ran req hello hs r) ∧ rq_uri req = bs "ws://127.0.0.1:9000/mux" ∧ length hs = 1.
Proof.
  destruct (proj2 (harness_logs_in [bs "bob"; bs "alice"] 9000 8080 (bs "alice") routing_default demo_token ∅ []
    [Accepted; ShutdownSeen]) ltac:(vm_compute; by eexists) alice_logs_in)
    as (req & hello & hs & r & E & Eu & Eh & _).
  exists req, hello, hs, r. split; [exact E|]. split; [rewrite Eu; reflexivity|]. by injection Eh as -> _.
Defined.
