(* ===== verification/Config.v ===== *)
(** * Configuration and start-up ([client/src/main.rs], [server/src/main.rs])

    How the two programs turn command line and file into settings, and the
    routing configuration the client runs with.  Command-line and TOML parsing
    are library code: the parsed command line is an argument, the TOML reader
    an interface. *)
From S2P Require Import Prelude Utf8 Text GeoSite GeoIp Routing.

(** [struct ClientSection] *)
Record ClientSection := {
  f_endpoint : option bytes;
  f_user : option bytes;
  f_host : option bytes;
  f_port : option N;
  f_socks_host : option bytes;
  f_socks_port : option N;
  f_proxy : option (list bytes);
  f_bypass : option (list bytes);
  f_geoip_dat : option bytes;
  f_geoip_tags : option (list bytes);
  f_geosite_dat : option bytes;
  f_geosite_tags : option (list bytes);
  f_log_level : option bytes
}.

(** [ClientSection::default] *)
Definition section_default : ClientSection :=
  {| f_endpoint := None; f_user := None; f_host := None; f_port := None; f_socks_host := None;
     f_socks_port := None; f_proxy := None; f_bypass := None; f_geoip_dat := None;
     f_geoip_tags := None; f_geosite_dat := None; f_geosite_tags := None; f_log_level := None |}.

(** [struct Cli] of the client; [config] has a default. *)
Record ClientCli := {
  c_config : bytes;
  c_endpoint : option bytes;
  c_user : option bytes;
  c_host : option bytes;
  c_port : option N;
  c_socks_host : option bytes;
  c_socks_port : option N
}.

(** [struct ServerSection] and the server's [struct Cli]. *)
Record ServerSection := {
  sf_users : option (list bytes);
  sf_host : option bytes;
  sf_port : option N;
  sf_log_level : option bytes
}.

Definition server_section_default : ServerSection :=
  {| sf_users := None; sf_host := None; sf_port := None; sf_log_level := None |}.

Record ServerCli := {
  sc_config : bytes;
  sc_users : list bytes;
  sc_host : option bytes;
  sc_port : option N
}.

(** [toml::from_str::<FileConfig>]: the section, if the text parses; its
    strings are Rust [String]s. *)
Class TomlReader := {
  toml_client : bytes → option (option ClientSection);
  toml_server : bytes → option (option ServerSection);
  toml_client_utf8 t s :
    toml_client t = Some (Some s) →
    ∀ ps, f_proxy s = Some ps ∨ f_bypass s = Some ps → Forall (λ p, utf8_valid p = true) ps
}.

(** [cli.x.or(file.x)] *)
Definition or {A : Type} (a b : option A) : option A := match a with Some _ => a | None => b end.

Section Config.
Context `{UnicodeCase, FileSystem, RegexEngine, GeoSiteDecoder, IpNets, GeoIpDecoder, TomlReader}.

Definition DEFAULT_GEOIP_DAT : bytes := bs "geoip-only-cn-private.dat".
Definition DEFAULT_GEOSITE_DAT : bytes := bs "dlc.dat".

(** [std::fs::read_to_string(path).ok()] *)
Definition read_to_string (path : bytes) : option bytes :=
  match res_ok (fs_read path) with
  | Some s => if utf8_valid s then Some s else None
  | None => None
  end.

(** [load_file_config] *)
Definition load_file_config (path : bytes) : ClientSection :=
  default section_default (s ← read_to_string path; f ← toml_client s; f).

Definition load_server_config (path : bytes) : ServerSection :=
  default server_section_default (s ← read_to_string path; f ← toml_server s; f).

(** [dat_path_or_default]: the path, and whether it was asked for. *)
Definition dat_path_or_default (configured : option bytes) (default_path : bytes) : option (bytes * bool) :=
  match configured with
  | Some path => Some (path, true)
  | None => if is_file default_path then Some (default_path, false) else None
  end.

Definition default_tags : list bytes := [bs "cn"; bs "private"].

(** The two loading blocks of [build_routing]; [None] is [exit(1)]. *)
Definition load_optional {A E : Type} (file : option (bytes * bool)) (load : bytes → result A E)
    (none : A) : option A :=
  match file with
  | None => Some none
  | Some (dat_path, required) =>
      match load dat_path with
      | Ok v => Some v
      | Err _ => if required then None else Some none
      end
  end.

(** [build_routing] *)
Definition build_routing (proxy_patterns bypass_patterns : list bytes)
    (geosite_dat : option bytes) (geosite_tags : option (list bytes))
    (geoip_dat : option bytes) (geoip_tags : option (list bytes)) : option RoutingConfig :=
  let proxy := map pattern_parse proxy_patterns in
  let bypass := map pattern_parse bypass_patterns in
  geosite ← load_optional (dat_path_or_default geosite_dat DEFAULT_GEOSITE_DAT)
    (λ p, let? m := load_geosite_dat p (default default_tags geosite_tags) in Ok (Some m)) None;
  cidrs ← load_optional (dat_path_or_default geoip_dat DEFAULT_GEOIP_DAT)
    (λ p, load_geoip_dat p (default default_tags geoip_tags)) [];
  Some {| proxy := proxy; bypass := bypass; bypass_geosite := geosite; bypass_cidrs := cidrs |}.

(** What [main] of the client starts the proxy with. *)
Record client_settings := {
  endpoint : bytes;
  user : bytes;
  http_addr : bytes;
  socks_addr : option bytes;
  routing : RoutingConfig
}.

(** [main] up to the listeners; [None] is [exit(1)]. *)
Definition client_main (cli : ClientCli) : option client_settings :=
  let file := load_file_config (c_config cli) in
  endpoint ← or (c_endpoint cli) (f_endpoint file);
  user ← or (c_user cli) (f_user file);
  let host := default (bs "127.0.0.1") (or (c_host cli) (f_host file)) in
  let port := default 9002%N (or (c_port cli) (f_port file)) in
  let socks_host := default host (or (c_socks_host cli) (f_socks_host file)) in
  let socks_port := or (c_socks_port cli) (f_socks_port file) in
  routing ← build_routing (default [] (f_proxy file)) (default [] (f_bypass file))
    (f_geosite_dat file) (f_geosite_tags file) (f_geoip_dat file) (f_geoip_tags file);
  Some {| endpoint := endpoint; user := user; http_addr := host ++ bs ":" ++ show_dec port;
          socks_addr := (λ sp, socks_host ++ bs ":" ++ show_dec sp) <$> socks_port;
          routing := routing |}.

(** [main] of the server: the allowed users and the address to bind. *)
Definition server_main (cli : ServerCli) : option (list bytes * bytes) :=
  let file := load_server_config (sc_config cli) in
  let users := match sc_users cli with [] => default [] (sf_users file) | us => us end in
  match users with
  | [] => None
  | _ =>
      let host := default (bs "127.0.0.1") (or (sc_host cli) (sf_host file)) in
      let port := default 9001%N (or (sc_port cli) (sf_port file)) in
      Some (users, host ++ bs ":" ++ show_dec port)
  end.

#[local] Opaque show_dec bs.

(** ** Lemmas *)

Lemma load_optional_inv {A E : Type} (file : option (bytes * bool)) (load : bytes → result A E) (none v : A) :
  load_optional file load none = Some v → v = none ∨ ∃ p, load p = Ok v.
Proof.
  unfold load_optional. destruct file as [[p r]|]; [|intros [= <-]; by left].
  destruct (load p) as [w|e] eqn:E'; [intros [= <-]; right; by exists p|].
  destruct r; [done|]. intros [= <-]. by left.
Qed.

(** A configured file that does not load stops the program; a missing or
    broken default file does not. *)
Definition must_fail {A E : Type} (configured : option bytes) (load : bytes → result A E) : Prop :=
  ∃ p e, configured = Some p ∧ load p = Err e.

Lemma load_optional_none {A E : Type} (configured : option bytes) (dflt : bytes)
    (load : bytes → result A E) (none : A) :
  load_optional (dat_path_or_default configured dflt) load none = None ↔ must_fail configured load.
Proof.
  unfold load_optional, dat_path_or_default, must_fail. destruct configured as [p|].
  - destruct (load p) as [v|e] eqn:E'; split; [done| |by exists p, e|done].
    intros (q & e & [= <-] & He). congruence.
  - destruct (is_file dflt); [|by split; [|intros (? & ? & [=] & _)]].
    destruct (load dflt); by split; [|intros (? & ? & [=] & _)].
Qed.

Lemma load_geosite_wf (path : bytes) (tags : list bytes) (m : GeoSiteMatcher) :
  load_geosite_dat path tags = Ok m → wf_matcher m.
Proof.
  intros (content & entries & _ & Hd & Hp)%load_geosite_inv.
  apply push_tags_spec in Hp as [_ Hw]. apply Hw; [|constructor].
  intros e d. by apply (decode_geosite_utf8 content).
Qed.

Lemma patterns_wf (ps : list bytes) :
  Forall (λ p, utf8_valid p = true) ps → Forall wf_pattern (map pattern_parse ps).
Proof. intros Hps. rewrite Forall_map. eapply Forall_impl; [exact Hps|]. intros p. apply pattern_parse_wf. Qed.

Lemma build_routing_wf (ps qs : list bytes) (gd : option bytes) (gt : option (list bytes))
    (ipd : option bytes) (ipt : option (list bytes)) (c : RoutingConfig) :
  Forall (λ p, utf8_valid p = true) ps → Forall (λ p, utf8_valid p = true) qs →
  build_routing ps qs gd gt ipd ipt = Some c → wf_routing c.
Proof.
  intros Hps Hqs. unfold build_routing.
  destruct (load_optional _ _ None) as [g|] eqn:Eg; [|done]. cbn.
  destruct (load_optional _ _ []) as [ns|]; [|done]. cbn. intros [= <-].
  split_and!; cbn; [by apply patterns_wf..|].
  apply load_optional_inv in Eg as [->|[p Hp]]; [done|].
  destruct (load_geosite_dat p _) as [m|e] eqn:El; [|done]. cbn in Hp. injection Hp as <-.
  by eapply load_geosite_wf.
Qed.

Lemma load_file_config_utf8 (path : bytes) :
  Forall (λ p, utf8_valid p = true) (default [] (f_proxy (load_file_config path))) ∧
  Forall (λ p, utf8_valid p = true) (default [] (f_bypass (load_file_config path))).
Proof.
  unfold load_file_config. destruct (read_to_string path) as [t|]; cbn; [|by split].
  destruct (toml_client t) as [[s|]|] eqn:Et; cbn; [|by split|by split].
  pose proof (toml_client_utf8 t s Et) as Hu. split.
  - destruct (f_proxy s) as [ps|]; cbn; [apply Hu; by left|done].
  - destruct (f_bypass s) as [ps|]; cbn; [apply Hu; by right|done].
Qed.

Lemma client_main_routing (cli : ClientCli) (st : client_settings) :
  client_main cli = Some st → wf_routing (routing st).
Proof.
  unfold client_main. destruct (load_file_config_utf8 (c_config cli)) as [Hp Hb].
  intros (e & _ & (u & _ & (c & Hc & [= <-])%bind_Some)%bind_Some)%bind_Some.
  eapply build_routing_wf; [exact Hp|exact Hb|exact Hc].
Qed.

(** The section the program works with: the file's when the file can be read
    as text, parses and has one; an empty one otherwise. *)
Definition reads_section (path : bytes) (file : ClientSection) : Prop :=
  let has s := ∃ t, fs_read path = Ok t ∧ utf8_valid t = true ∧ toml_client t = Some (Some s) in
  has file ∨ (file = section_default ∧ ∀ s, ¬ has s).

(** The command line over the file over the default. *)
Inductive picks {A : Type} : option A → option A → option A → A → Prop :=
| picks_cli v f d : picks (Some v) f d v
| picks_file v d : picks None (Some v) d v
| picks_default v : picks None None (Some v) v.

(** The value comes from a data file: the configured one, or the default one. *)
Inductive dat_loads {A E : Type} (configured : option bytes) (dflt : bytes)
    (load : bytes → result A E) (v : A) : Prop :=
| loads_configured p : configured = Some p → load p = Ok v → dat_loads configured dflt load v
| loads_default : configured = None → is_file dflt = true → load dflt = Ok v → dat_loads configured dflt load v.

(** No data file is used: none is configured, and the default one is not there
    or does not load. *)
Definition dat_skipped {A E : Type} (configured : option bytes) (dflt : bytes)
    (load : bytes → result A E) : Prop :=
  configured = None ∧ (is_file dflt = true → ∃ e, load dflt = Err e).

Lemma load_file_config_spec (path : bytes) : reads_section path (load_file_config path).
Proof.
  unfold reads_section, load_file_config, read_to_string. cbn zeta.
  destruct (fs_read path) as [t|e]; cbn; [|right; split; [done|by intros s (t & [=] & _)]].
  destruct (utf8_valid t) eqn:Hu; cbn; [|right; split; [done|by intros s (t' & [= <-] & Hv & _); congruence]].
  destruct (toml_client t) as [[s|]|] eqn:Et; cbn;
    [by left; exists t|right; split; [done|by intros s (t' & [= <-] & _ & Hs); congruence]..].
Qed.

Lemma or_None {A : Type} (a b : option A) : or a b = None ↔ a = None ∧ b = None.
Proof. by destruct a; naive_solver. Qed.

Lemma or_picks {A : Type} (a b : option A) (v : A) : or a b = Some v → picks a b None v.
Proof. destruct a as [x|]; cbn; [intros [= ->]|intros ->]; constructor. Qed.

Lemma or_picks_default {A : Type} (a b : option A) (v : A) : picks a b (Some v) (default v (or a b)).
Proof. destruct a as [x|], b as [y|]; constructor. Qed.

Lemma bind_None_iff {A B : Type} (o : option A) (f : A → option B) :
  (o ≫= f) = None ↔ o = None ∨ ∃ a, o = Some a ∧ f a = None.
Proof. destruct o as [a|]; cbn; naive_solver. Qed.

(** What [load_optional] makes of a data file that is configured or not. *)
Lemma load_optional_Some {A E : Type} (configured : option bytes) (dflt : bytes)
    (load : bytes → result A E) (none v : A) :
  load_optional (dat_path_or_default configured dflt) load none = Some v →
  dat_loads configured dflt load v ∨ (dat_skipped configured dflt load ∧ v = none).
Proof.
  unfold load_optional, dat_path_or_default, dat_skipped. destruct configured as [p|].
  - destruct (load p) as [w|e] eqn:El; [|done]. intros [= <-]. left. by eapply loads_configured.
  - destruct (is_file dflt) eqn:Ef; [|intros [= <-]; by right].
    destruct (load dflt) as [w|e] eqn:El; intros [= <-]; [left; by apply loads_default|right; eauto].
Qed.

Lemma socks_picks (ch fh : option bytes) (cp fp : option N) (host : bytes) :
  match (λ sp, default host (or ch fh) ++ bs ":" ++ show_dec sp) <$> or cp fp with
  | None => cp = None ∧ fp = None
  | Some a => ∃ sh sp, picks ch fh (Some host) sh ∧ picks cp fp None sp ∧ a = sh ++ bs ":" ++ show_dec sp
  end.
Proof.
  destruct (or cp fp) as [sp|] eqn:E; cbn [fmap option_fmap option_map]; [|by apply or_None].
  eexists _, sp. split_and!; [apply or_picks_default|by apply or_picks|done].
Qed.

(** Mapping a loader's result keeps its failures. *)
Lemma must_fail_some {A E : Type} (configured : option bytes) (load : bytes → result A E) :
  must_fail configured (λ p, let? m := load p in Ok (Some m)) ↔ must_fail configured load.
Proof.
  unfold must_fail. split; intros (p & e & -> & He); exists p, e; (split; [done|]).
  - destruct (load p); cbn in He; [done|by injection He as ->].
  - by rewrite He.
Qed.

Lemma build_routing_None (ps qs : list bytes) (gd : option bytes) (gt : option (list bytes))
    (ipd : option bytes) (ipt : option (list bytes)) :
  build_routing ps qs gd gt ipd ipt = None ↔
  must_fail gd (λ p, load_geosite_dat p (default default_tags gt)) ∨
  must_fail ipd (λ p, load_geoip_dat p (default default_tags ipt)).
Proof.
  unfold build_routing. rewrite bind_None_iff, load_optional_none, must_fail_some.
  split.
  - intros [?|(g & _ & [?%load_optional_none|(? & _ & [=])]%bind_None_iff)]; auto.
  - destruct (load_optional (dat_path_or_default gd _) _ _) as [g|] eqn:Eg.
    + intros [Hg|Hi]; [|right; exists g; split; [done|]; apply bind_None_iff; left; by apply load_optional_none].
      apply must_fail_some, (load_optional_none gd DEFAULT_GEOSITE_DAT _ None) in Hg. congruence.
    + intros _. left. by apply must_fail_some, (load_optional_none gd DEFAULT_GEOSITE_DAT _ None).
Qed.

Lemma build_routing_Some (ps qs : list bytes) (gd : option bytes) (gt : option (list bytes))
    (ipd : option bytes) (ipt : option (list bytes)) (c : RoutingConfig) :
  build_routing ps qs gd gt ipd ipt = Some c →
  let site p := load_geosite_dat p (default default_tags gt) in
  let ip p := load_geoip_dat p (default default_tags ipt) in
  proxy c = map pattern_parse ps ∧ bypass c = map pattern_parse qs ∧
  match bypass_geosite c with
  | Some m => dat_loads gd DEFAULT_GEOSITE_DAT site m
  | None => dat_skipped gd DEFAULT_GEOSITE_DAT site
  end ∧
  (dat_loads ipd DEFAULT_GEOIP_DAT ip (bypass_cidrs c) ∨
   dat_skipped ipd DEFAULT_GEOIP_DAT ip ∧ bypass_cidrs c = []).
Proof.
  unfold build_routing. intros (g & Hg & (ns & Hn & [= <-])%bind_Some)%bind_Some. cbn.
  split_and!; [done..| |by apply load_optional_Some in Hn].
  apply load_optional_Some in Hg as [Hg|[[Hc Hg] ->]].
  - assert (Hs : ∀ p v, (let? m := load_geosite_dat p (default default_tags gt) in Ok (Some m)) = Ok v →
        ∃ m, v = Some m ∧ load_geosite_dat p (default default_tags gt) = Ok m).
    { intros p v. destruct (load_geosite_dat p _) as [m|]; cbn; [intros [= <-]; eauto|done]. }
    destruct Hg as [p Hc (m & -> & Hm)%Hs|Hc Hf (m & -> & Hm)%Hs];
      [by eapply loads_configured|by apply loads_default].
  - split; [done|]. intros (e & He)%Hg. exists e.
    destruct (load_geosite_dat _ _); cbn in He; [done|by injection He as ->].
Qed.

(** ** Properties *)

(** C37: The client starts unless it must not, and with the settings it was
    given. [main] exits exactly when neither the command line nor the file
    names an endpoint, or neither names a user, or a configured GeoSite or
    GeoIP file does not load. Otherwise every setting is the command line's,
    or else the file's, or else its default: the endpoint and the user; the
    address listened on for HTTP (127.0.0.1, port 9002); the address for SOCKS5,
    on the HTTP host unless a host is given, and no SOCKS5 listener without a
    port; the proxy and the bypass patterns of the file, each in its own list;
    the GeoSite and the GeoIP rules of the configured file, or of the default
    file if it is there and loads, with the configured tags or [cn], [private]. *)
Theorem client_main_correct (cli : ClientCli) :
  ∃ file, reads_section (c_config cli) file ∧
    let site_tags := default [bs "cn"; bs "private"] (f_geosite_tags file) in
    let ip_tags := default [bs "cn"; bs "private"] (f_geoip_tags file) in
    (client_main cli = None ↔
      (c_endpoint cli = None ∧ f_endpoint file = None) ∨ (c_user cli = None ∧ f_user file = None) ∨
      must_fail (f_geosite_dat file) (λ p, load_geosite_dat p site_tags) ∨
      must_fail (f_geoip_dat file) (λ p, load_geoip_dat p ip_tags)) ∧
    ∀ st, client_main cli = Some st →
      picks (c_endpoint cli) (f_endpoint file) None (endpoint st) ∧
      picks (c_user cli) (f_user file) None (user st) ∧
      (∃ host port, picks (c_host cli) (f_host file) (Some (bs "127.0.0.1")) host ∧
        picks (c_port cli) (f_port file) (Some 9002%N) port ∧
        http_addr st = host ++ bs ":" ++ show_dec port ∧
        match socks_addr st with
        | None => c_socks_port cli = None ∧ f_socks_port file = None
        | Some a => ∃ sh sp, picks (c_socks_host cli) (f_socks_host file) (Some host) sh ∧
            picks (c_socks_port cli) (f_socks_port file) None sp ∧ a = sh ++ bs ":" ++ show_dec sp
        end) ∧
      proxy (routing st) = map pattern_parse (default [] (f_proxy file)) ∧
      bypass (routing st) = map pattern_parse (default [] (f_bypass file)) ∧
      match bypass_geosite (routing st) with
      | Some m => dat_loads (f_geosite_dat file) (bs "dlc.dat") (λ p, load_geosite_dat p site_tags) m
      | None => dat_skipped (f_geosite_dat file) (bs "dlc.dat") (λ p, load_geosite_dat p site_tags)
      end ∧
      (dat_loads (f_geoip_dat file) (bs "geoip-only-cn-private.dat") (λ p, load_geoip_dat p ip_tags)
         (bypass_cidrs (routing st)) ∨
       dat_skipped (f_geoip_dat file) (bs "geoip-only-cn-private.dat") (λ p, load_geoip_dat p ip_tags) ∧
       bypass_cidrs (routing st) = []) ∧
      wf_routing (routing st).
Proof.
  exists (load_file_config (c_config cli)). split; [apply load_file_config_spec|]. cbn zeta.
  set (file := load_file_config (c_config cli)). split.
  - unfold client_main. fold file. rewrite <-!or_None, <-build_routing_None.
    destruct (or (c_endpoint cli) _); [|naive_solver].
    destruct (or (c_user cli) _); [|naive_solver]. cbn. rewrite bind_None_iff. naive_solver.
  - intros st Em. pose proof (client_main_routing cli st Em) as Hwf. unfold client_main in Em. fold file in Em.
    apply bind_Some in Em as (e & Ee & (u & Eu & (c & Hc & [= <-])%bind_Some)%bind_Some).
    cbn [endpoint user http_addr socks_addr routing] in *.
    apply build_routing_Some in Hc as (? & ? & ? & ?).
    split_and!; [by apply or_picks|by apply or_picks| |done..]. eexists _, _.
    split_and!; [apply or_picks_default|apply or_picks_default|done|]. apply socks_picks.
Qed.

End Config.
