(* ===== verification/Tunnel.v ===== *)
(** * The tunnel towards the server, for given frames

    The receiving half of a session ([Link]) at the server: its reader
    dispatching the messages to the registry and the streams' write tasks
    taking the payloads out, in any order of steps, for an arbitrary sequence
    of well-formed frames in which one stream has the shape a client's handler
    gives it.  [World] has both programs run; here the peer of the other
    streams may be any. *)
From S2P Require Import Prelude Utf8 Text Net Frame GeoSite GeoIp Routing Sock Http Socks5 Task.
From S2P Require Import Channel Registry Control Mux Client ClientProtocol ClientTraces Ssrf Server Flow Link.

Section Tunnel.
Context `{ChannelLib}.

Inductive link_step : link → link → Prop :=
(** OPEN: [handle_open] reached the destination and registered the stream *)
| link_open_ok m f rest id dest l :
    wire l = m :: rest → held (reg l) = None → decode m = Ok f →
    server_event (WsBinary m) = ServerOpen id dest → is_dest_allowed dest = Some true →
    link_step l (log_owner (take_one l rest f (snd (register id (reg l)))) (fst (register id (reg l))) id)
(** OPEN: refused, or unreachable and unregistered *)
| link_open_refused m f rest id dest l :
    wire l = m :: rest → held (reg l) = None → decode m = Ok f →
    server_event (WsBinary m) = ServerOpen id dest → is_dest_allowed dest = Some false →
    link_step l (take_one l rest f (reg l))
| link_open_failed m f rest id dest l :
    wire l = m :: rest → held (reg l) = None → decode m = Ok f →
    server_event (WsBinary m) = ServerOpen id dest → is_dest_allowed dest = Some true →
    link_step l (take_one l rest f (close id (reg l)))
(** DATA: [route], to its await *)
| link_data m f rest id d l :
    wire l = m :: rest → held (reg l) = None → decode m = Ok f →
    server_event (WsBinary m) = ServerRoute id d →
    link_step l (take_one (log_route l id d) rest f (server_apply (ServerRoute id d) (reg l)))
| link_resume l r : route_finish (reg l) = Some r → link_step l (set_reg l r)
(** CLOSE *)
| link_close m f rest id l :
    wire l = m :: rest → held (reg l) = None → decode m = Ok f →
    server_event (WsBinary m) = ServerClose id →
    link_step l (take_one l rest f (server_apply (ServerClose id) (reg l)))
(** any other frame *)
| link_skip m f rest l :
    wire l = m :: rest → held (reg l) = None → decode m = Ok f →
    server_event (WsBinary m) = ServerSkip → link_step l (take_one l rest f (reg l))
(** a write task takes a payload, or ends and drops its receiver *)
| link_receive r d s l :
    receive r (reg l) = Some (d, s) →
    link_step l (log_got l r d s)
| link_drop_receiver r l : is_Some (heap (reg l) !! r) →
    link_step l (log_drop (set_reg l (drop_receiver r (reg l))) r)
(** a stream task ends and unregisters its stream; the session ends *)
| link_unregister id l : link_step l (set_reg l (close id (reg l)))
| link_end l : link_step l (set_reg l (close_all (reg l))).

#[local] Arguments by_stream : simpl never.
#[local] Arguments payloads : simpl never.

(** ** Lemmas: the frames of one stream *)

Lemma payloads_stream_frames (id : N) (dest : bytes) (ds : list bytes) (closed : bool) :
  payloads id (stream_frames id dest ds closed) = ds.
Proof.
  unfold stream_frames. rewrite app_comm_cons, payloads_app.
  assert (payloads id (if closed then [Close id] else []) = []) as -> by (by destruct closed).
  rewrite app_nil_r. exact (payloads_map id ds).
Qed.

(** A stream's OPEN is the first of its frames. *)
Lemma open_first (id : N) (dest dest' : bytes) (ds : list bytes) (closed : bool) (fs gs : list Frame) :
  by_stream id (fs ++ Open id dest' :: gs) = stream_frames id dest ds closed → by_stream id fs = [].
Proof.
  rewrite by_stream_app. unfold by_stream at 2. rewrite filter_cons_True by done.
  destruct (by_stream id fs) as [|f l]; [done|]. unfold stream_frames. cbn. intros [= _ Htl].
  exfalso. assert (Hin : Open id dest' ∈ map (Data id) ds ++ (if closed then [Close id] else [])).
  { rewrite <- Htl. apply elem_of_app. right. left. }
  apply elem_of_app in Hin as [Hin|Hin].
  - by apply list_elem_of_fmap in Hin as (d & [=] & _).
  - destruct closed; [|by apply elem_of_nil in Hin]. by apply list_elem_of_singleton in Hin.
Qed.
(** A stream's CLOSE is the last of its frames. *)
Lemma close_last (id : N) (dest : bytes) (ds : list bytes) (closed : bool) (fs gs : list Frame) :
  by_stream id (fs ++ Close id :: gs) = stream_frames id dest ds closed → payloads id fs = ds.
Proof.
  rewrite by_stream_app. unfold by_stream at 2. rewrite filter_cons_True by done. change (filter _ gs) with (by_stream id gs).
  unfold stream_frames. intros Hb. assert (Hno : ∀ l, Close id ∉ Open id dest :: map (Data id) l).
  { intros l [?|(d & [=] & _)%list_elem_of_fmap]%elem_of_cons. done. }
  assert (Hin : Close id ∈ by_stream id fs ++ [Close id]) by (apply elem_of_app; right; left).
  destruct closed; [|exfalso; apply (Hno ds); rewrite app_nil_r in Hb; rewrite <- Hb;
    rewrite elem_of_app, elem_of_cons; tauto].
  destruct (by_stream id gs) as [|y l _] using rev_ind.
  - rewrite app_comm_cons in Hb. apply app_inj_tail in Hb as [Hb _].
    rewrite <- payloads_by_stream, Hb, <- (app_nil_r (map _ _)).
    exact (payloads_stream_frames id dest ds false).
  - exfalso. apply (Hno ds). change (by_stream id fs ++ (Close id :: l) ++ [y] = (Open id dest :: map (Data id) ds) ++ [Close id]) in Hb.
    rewrite app_assoc in Hb. apply app_inj_tail in Hb as [<- _]. rewrite elem_of_app, elem_of_cons. tauto.
Qed.
(** ** The invariant *)

Section Invariant.
Context (fs : list Frame) (id : N) (dest : bytes) (ds : list bytes) (closed : bool).
Hypothesis Hwf : Forall wf_frame fs.
Hypothesis Hid : by_stream id fs = stream_frames id dest ds closed.

(** The frames sent are those read and those whose messages are to come. *)
Definition wire_ok (l : link) : Prop := ∃ todo, fs = taken l ++ todo ∧ wire l = map encode todo.

(** The stream [id] is opened once, by its first frame. *)
Record tunnel_ok (l : link) : Prop := {
  to_link : link_ok (λ i, i = id) l;
  to_wire : wire_ok l;
  to_open r : owner l !! r = Some id → by_stream id (taken l) ≠ [];
  to_lost : lost l = None
}.

Lemma tunnel_ok_init : tunnel_ok (link_init fs).
Proof.
  split; [apply link_ok_init|by exists fs| |done]. intros r Hr. cbn in Hr. by rewrite lookup_empty in Hr.
Qed.

(** A message of the wire is the encoding of the next frame. *)
Lemma next_frame (l : link) (m : bytes) (rest : list bytes) (f : Frame) :
  wire_ok l → wire l = m :: rest → decode m = Ok f →
  wf_frame f ∧ m = encode f ∧ ∃ todo, fs = taken l ++ f :: todo ∧ rest = map encode todo.
Proof.
  intros Hok Hw Hd. destruct Hok as ([|g todo] & Hfs & Hwire); rewrite Hw in Hwire; [done|].
  cbn in Hwire. injection Hwire as -> ->.
  assert (Hg : wf_frame g).
  { rewrite Hfs in Hwf. apply Forall_app in Hwf as [_ Hwf']. by apply Forall_cons in Hwf' as [? _]. }
  rewrite decode_encode_aux in Hd by done. injection Hd as <-. split_and!; [done..|]. by exists todo.
Qed.
Lemma tunnel_ok_reg (l : link) (s : streams) :
  tunnel_ok l → link_ok (λ i, i = id) (set_reg l s) → tunnel_ok (set_reg l s).
Proof. by intros [_ Hw Ho Hlo] Hl; split. Qed.

(** Taking a frame: the link's part is a lemma of [Link]. *)
Lemma tunnel_ok_take (l : link) (m : bytes) (rest : list bytes) (f : Frame) (l' : link) :
  tunnel_ok l → wire l = m :: rest → decode m = Ok f → link_ok (λ i, i = id) l' →
  wire l' = rest → taken l' = taken l ++ [f] → lost l' = lost l →
  (∀ r, owner l' !! r = Some id → owner l !! r = Some id ∨ by_stream id [f] ≠ []) → tunnel_ok l'.
Proof.
  intros [_ Hw Ho Hlo] Hm Hd Hl Hw' Ht' Hlo' Hown.
  destruct (next_frame l m rest f Hw Hm Hd) as (_ & _ & todo & Hfs & Hr). split; [done| | |congruence].
  - exists todo. rewrite Ht', Hw', <- app_assoc. done.
  - intros r Hr'. rewrite Ht', by_stream_app. intros [Hn Hf]%app_eq_nil.
    destruct (Hown r Hr') as [Hr1|Hr1]; [by apply (Ho r)|done].
Qed.

(** Every step keeps the invariant. *)
Lemma tunnel_ok_step (l l' : link) : link_step l l' → tunnel_ok l → tunnel_ok l'.
Proof.
  intros Hst Hok. pose proof (to_link _ Hok) as Hl. pose proof (to_lost _ Hok) as Hlost.
  destruct Hst as [m f rest i d' l Hw Hh Hd He _|m f rest i d' l Hw Hh Hd He _
    |m f rest i d' l Hw Hh Hd He _|m f rest i d l Hw Hh Hd He|l r Hr|m f rest i l Hw Hh Hd He
    |m f rest l Hw Hh Hd He|r d s l Hr|r l Hr|i l|l];
    try (rewrite (server_event_frame _ _ Hd) in He; destruct f; simplify_eq);
    try (apply (tunnel_ok_take l m rest _ _ Hok Hw Hd); [|done|done|done|by left];
         first [apply link_ok_data; done | apply link_ok_take; [done|first [by apply link_ok_close|by destruct l]]]).
  - apply (tunnel_ok_take l m rest _ _ Hok Hw Hd); [|done|done|done|].
    + apply (link_ok_take _ (open_link i l)); [done|].
      change (link_ok (λ j, j = id) (open_link i l)). apply link_ok_open; [done|]. intros ->.
      destruct (next_frame l m rest _ (to_wire _ Hok) Hw Hd) as (_ & _ & todo & Hfs & _).
      assert (Hn : by_stream id (taken l) = []) by (rewrite Hfs in Hid; by eapply open_first).
      split; [|by apply payloads_nil]. intros r Hr. by apply (to_open _ Hok r Hr).
    + intros r. cbn. rewrite lookup_insert_Some. intros [[_ ->]|[_ Hr]]; [right|by left].
      unfold by_stream. by rewrite filter_cons_True.
  - by apply tunnel_ok_reg, link_ok_resume.
  - destruct Hok as [_ Hwi Ho _]. split; [by apply link_ok_receive|done..].
  - destruct Hok as [_ Hwi Ho _]. split; [by apply link_ok_drop_receiver|done..].
  - by apply tunnel_ok_reg, link_ok_close.
  - by apply tunnel_ok_reg, link_ok_close_all.
Qed.

Lemma tunnel_ok_reach (l : link) : rtc link_step (link_init fs) l → tunnel_ok l.
Proof.
  intros Hr. assert (Hgo : ∀ l0, rtc link_step l0 l → tunnel_ok l0 → tunnel_ok l).
  { induction 1 as [|l0 l1 l2 Hst _ IH]; [done|]. intros Hok. by eapply IH, tunnel_ok_step. }
  apply (Hgo _ Hr), tunnel_ok_init.
Qed.

Lemma taken_prefix (l : link) : tunnel_ok l → payloads id (taken l) `prefix_of` ds.
Proof.
  intros Hok. destruct (to_wire _ Hok) as (todo & Hfs & _). exists (payloads id todo).
  by rewrite <- payloads_app, <- Hfs, <- payloads_by_stream, Hid, payloads_stream_frames.
Qed.

Lemma tunnel_got (l : link) (r : nat) :
  tunnel_ok l → owner l !! r = Some id → got l r `prefix_of` ds.
Proof.
  intros Hok Ho. trans (payloads id (taken l)); [|by apply taken_prefix].
  by apply (link_got_prefix (λ i, i = id) l id r); [apply Hok| |].
Qed.

(** Every channel comes from an OPEN to a destination that is allowed. *)
Definition opened (l : link) : Prop :=
  ∀ i r, owner l !! r = Some i → ∃ dest', Open i dest' ∈ taken l ∧ is_dest_allowed dest' = Some true.

Lemma link_step_opened (l l' : link) :
  link_step l l' → wire_ok l ∧ opened l → wire_ok l' ∧ opened l'.
Proof.
  assert (Htake : ∀ k m rest f s, wire_ok k → wire k = m :: rest → decode m = Ok f → wire_ok (take_one k rest f s)).
  { intros k m rest f s Hk Hw Hd. destruct (next_frame k m rest f Hk Hw Hd) as (_ & _ & todo & Hfs & Hr).
    exists todo. cbn. by rewrite <- app_assoc. }
  assert (Hgrow : ∀ k rest f s, opened k → opened (take_one k rest f s)).
  { intros k rest f s Hk i r Hr. destruct (Hk i r Hr) as (d & Hd & ?). exists d.
    split; [apply elem_of_app; by left|done]. }
  intros Hst [Hw Ho]. destruct Hst as [m f rest i d' l Hwi Hh Hd He Hal|m f rest i d' l Hwi Hh Hd He _
    |m f rest i d' l Hwi Hh Hd He _|m f rest i d l Hwi Hh Hd He|l r Hr|m f rest i l Hwi Hh Hd He
    |m f rest l Hwi Hh Hd He|r d s l Hr|r l Hr|i l|l];
    try (split; [eapply Htake; [exact Hw|done..]|by apply Hgrow]); try done.
  split; [exact (Htake _ _ _ _ _ Hw Hwi Hd)|]. intros j r. cbn. rewrite lookup_insert_Some.
  rewrite (server_event_frame _ _ Hd) in He. destruct f; try done. injection He as -> ->.
  intros [[_ <-]|[_ Hr]]; [exists d'; split; [apply elem_of_app; right; left|done]|].
  destruct (Ho j r Hr) as (d & Hin & ?). exists d. split; [apply elem_of_app; by left|done].
Qed.

Lemma link_opened (l : link) (i : N) (r : nat) :
  rtc link_step (link_init fs) l → owner l !! r = Some i →
  ∃ dest', Open i dest' ∈ by_stream i fs ∧ is_dest_allowed dest' = Some true.
Proof.
  intros Hr Ho. assert (Hgo : ∀ l0, rtc link_step l0 l → wire_ok l0 ∧ opened l0 → wire_ok l ∧ opened l).
  { induction 1 as [|l0 l1 l2 Hst _ IH]; [done|]. intros Hok. by eapply IH, link_step_opened. }
  destruct (Hgo _ Hr) as [(todo & Hfs & _) Hop].
  { split; [by exists fs|]. intros j r' Hj. cbn in Hj. by rewrite lookup_empty in Hj. }
  destruct (Hop i r Ho) as (d & Hin & Hal). exists d. split; [|done].
  apply list_elem_of_filter. split; [done|]. rewrite Hfs. apply elem_of_app. by left.
Qed.

Lemma link_step_mono (l l' : link) :
  link_step l l' → tunnel_ok l →
  (∀ i r, owner l !! r = Some i → owner l' !! r = Some i) ∧ ∀ r, routed l r `prefix_of` routed l' r.
Proof.
  intros Hst Hok. destruct Hst as [m f rest i d' l Hw Hh Hd He _| | |m f rest i d l Hw Hh Hd He| | | | | | | ];
    try (split; [done|reflexivity]).
  - split; [|reflexivity]. intros j r Hr. exact (open_link_owner (λ i, i = id) i j r l (to_link _ Hok) Hr).
  - split; [done|]. intros r. apply log_route_mono.
Qed.

Lemma link_steps_mono (l l' : link) :
  rtc link_step l l' → tunnel_ok l →
  tunnel_ok l' ∧ (∀ i r, owner l !! r = Some i → owner l' !! r = Some i) ∧
  ∀ r, routed l r `prefix_of` routed l' r.
Proof.
  induction 1 as [|l0 l1 l2 Hst _ IH]; [done|]. intros Hok.
  destruct (link_step_mono _ _ Hst Hok) as [Ho Hr].
  destruct (IH (tunnel_ok_step _ _ Hst Hok)) as (Hok2 & Ho2 & Hr2).
  split_and!; [done|auto|]. intros r. by trans (routed l1 r).
Qed.

End Invariant.

(** ** Properties *)

(** Whatever the interleaving of the reader, the write tasks and the ends of
    tasks and session: every channel belongs to one stream, a stream has at
    most one, and what its write task takes out for the destination is, in
    order and unchanged, a prefix of the payloads the client sent on that
    stream, none of another's.  While the stream is registered and its task
    keeps the receiver, nothing is missing: taken, queued and held payloads
    together are all that the reader has seen. *)
Theorem tunnel_delivers (fs : list Frame) (id : N) (dest : bytes) (ds : list bytes) (closed : bool)
  (l : link) (r : nat)
  (Hwf : Forall wf_frame fs) (Hid : by_stream id fs = stream_frames id dest ds closed)
  (Hreach : rtc link_step (link_init fs) l) (Howner : owner l !! r = Some id) :
  got l r `prefix_of` ds ∧ (∀ r', owner l !! r' = Some id → r' = r) ∧
  (inner (reg l) !! id = Some r → r ∉ dead l →
   got l r ++ default [] (queue_at (reg l) r) ++ held_for (reg l) r = payloads id (taken l)).
Proof.
  pose proof (tunnel_ok_reach fs id dest ds closed Hwf Hid l Hreach) as Hok.
  pose proof (to_link _ _ _ Hok) as Hl. destruct (lo_dom _ _ Hl _ _ Howner) as [c Hc].
  split_and!; [by eapply tunnel_got|intros r' Hr'; by apply (lo_once _ _ Hl id)|].
  intros Hi Hd. unfold queue_at. rewrite Hc. cbn.
  rewrite (link_delivers_all _ l r c Hl (to_lost _ _ _ Hok) Hc Hd). by apply (lo_all _ _ Hl).
Qed.

(** C15: CLOSE loses nothing: once the reader takes the CLOSE of a registered
    stream, then for as long as the write task keeps its receiver all the
    payloads the client sent on the stream are taken, queued or held, in
    order; a task that drains its channel has written every one of them. *)
Theorem close_loses_nothing (fs : list Frame) (id : N) (dest : bytes) (ds : list bytes) (closed : bool)
  (l l' : link) (r : nat) (m : bytes) (rest : list bytes)
  (Hwf : Forall wf_frame fs) (Hid : by_stream id fs = stream_frames id dest ds closed)
  (Hreach : rtc link_step (link_init fs) l) (Hreg : inner (reg l) !! id = Some r)
  (Hwire : wire l = m :: rest) (Hheld : held (reg l) = None) (Hclose : decode m = Ok (Close id))
  (Hlater : rtc link_step (take_one l rest (Close id) (server_apply (ServerClose id) (reg l))) l')
  (Halive : r ∉ dead l') :
  got l' r ++ default [] (queue_at (reg l') r) ++ held_for (reg l') r = ds.
Proof.
  pose proof (tunnel_ok_reach fs id dest ds closed Hwf Hid l Hreach) as Hok.
  destruct (next_frame fs Hwf l m rest _ (to_wire _ _ _ Hok) Hwire Hclose) as (_ & _ & todo & Hfs & _).
  assert (Hpay : payloads id (taken l) = ds) by (rewrite Hfs in Hid; by eapply close_last).
  assert (Hst : link_step l (take_one l rest (Close id) (server_apply (ServerClose id) (reg l)))).
  { eapply link_close; [done..|]. by rewrite (server_event_frame _ _ Hclose). }
  destruct (link_steps_mono fs id dest ds closed Hwf Hid l l' (rtc_l _ _ _ _ Hst Hlater) Hok) as (Hok' & Ho & Hm).
  pose proof (to_link _ _ _ Hok) as Hl. pose proof (to_link _ _ _ Hok') as Hl'.
  pose proof (Ho _ _ (lo_owner _ _ Hl _ _ Hreg)) as Howner.
  destruct (lo_dom _ _ Hl' _ _ Howner) as [c Hc].
  unfold queue_at. rewrite Hc. cbn.
  rewrite (link_delivers_all _ l' r c Hl' (to_lost _ _ _ Hok') Hc Halive).
  apply (anti_symm prefix); [trans (payloads id (taken l'))|].
  - by apply (lo_prefix _ _ Hl').
  - by eapply taken_prefix.
  - rewrite <- Hpay, <- (lo_all _ _ Hl id r eq_refl Hreg). apply Hm.
Qed.

(** From the application to the destination: a handler's run puts its stream
    on the wire, among the frames of any other streams; then whatever channel
    the server has for the stream, what its write task has taken is a prefix of
    the bytes the application sent (the request to forward, then what was read
    from it), and the destination the application asked for is one the server
    allows. *)
Theorem upload_reaches_destination `{UnicodeCase, RegexEngine, IpNets} (routing : RoutingConfig)
  (id : N) (fe : front_end) (p : prog) (ls : list label) (cf : config) (fs : list Frame) (l : link) (r : nat)
  (Hwf : wf_routing routing) (Hid : (id ≤ U32_MAX)%N) (Hin : (fe, p) ∈ handlers routing id)
  (Hrun : steps (p, []) ls cf) (Henv : Forall (possible (local_protocol fe)) ls)
  (Hfs : Forall wf_frame fs) (Hsent : by_stream id fs = frames_of ls)
  (Hreach : rtc link_step (link_init fs) l) (Howner : owner l !! r = Some id) :
  ∃ dest first, request_of ls = Some (dest, first) ∧ is_dest_allowed dest = Some true ∧
    concat (got l r) `prefix_of` first ++ reads_of ls.
Proof.
  destruct (link_opened fs Hfs l id r Hreach Howner) as (dest' & Ho & Hal). rewrite Hsent in Ho.
  destruct (upload_shape routing id fe p ls cf Hwf Hid Hin Hrun Henv)
    as [Hn|(dest & first & ds & closed & lost & Hreq & Hf & Hc & _ & _)]; [by rewrite Hn in Ho; apply elem_of_nil in Ho|].
  rewrite Hf in Hsent, Ho. exists dest, first. split_and!; [done| |].
  - unfold stream_frames in Ho. apply elem_of_cons in Ho as [[= ->]|Ho]; [done|].
    apply elem_of_app in Ho as [(d & [=] & _)%list_elem_of_fmap|Ho].
    destruct closed; [by apply list_elem_of_singleton in Ho|by apply elem_of_nil in Ho].
  - pose proof (tunnel_ok_reach fs id dest ds closed Hfs Hsent l Hreach) as Hok.
    destruct (tunnel_got fs id dest ds closed Hsent l r Hok Howner) as [k ->].
    rewrite concat_app, <- app_assoc in Hc. rewrite <- Hc. by apply prefix_app_r.
Qed.

(** ** Schedules, for evaluating examples *)

Inductive move : Type := MRead | MResume | MTake (r : nat).

Definition make_move (l : link) (mv : move) : option link :=
  match mv with
  | MRead =>
      match wire l, held (reg l) with
      | m :: rest, None =>
          match decode m with
          | Ok (Open i d as f) =>
              match is_dest_allowed d with
              | Some true => Some (log_owner (take_one l rest f (snd (register i (reg l)))) (fst (register i (reg l))) i)
              | Some false => Some (take_one l rest f (reg l))
              | None => None
              end
          | Ok (Data i d as f) => Some (take_one (log_route l i d) rest f (route_start i d (reg l)))
          | Ok (Close i as f) => Some (take_one l rest f (close i (reg l)))
          | Ok f => Some (take_one l rest f (reg l))
          | Err _ => None
          end
      | _, _ => None
      end
  | MResume => option_map (set_reg l) (route_finish (reg l))
  | MTake r =>
      '(d, s) ← receive r (reg l);
      Some (log_got l r d s)
  end.

Definition make_moves (l : link) (ms : list move) : option link :=
  foldl (λ o mv, o ≫= λ l, make_move l mv) (Some l) ms.

Lemma make_move_step (l l' : link) (mv : move) : make_move l mv = Some l' → link_step l l'.
Proof.
  destruct mv as [| |r]; cbn [make_move].
  - destruct (wire l) as [|m rest] eqn:Hw; [done|]. destruct (held (reg l)) eqn:Hh; [done|].
    destruct (decode m) as [f|] eqn:Hd; [|done]. pose proof (server_event_frame _ _ Hd) as He.
    destruct f as [t|i d|i ok|i d|i]; [|destruct (is_dest_allowed d) as [[]|] eqn:Ha; [| |done]| | |]; intros [= <-];
      [eapply link_skip|eapply link_open_ok|eapply link_open_refused|eapply link_skip|eapply link_data|eapply link_close];
      done.
  - destruct (route_finish (reg l)) as [s|] eqn:Hr; [|done]. intros [= <-]. by apply link_resume.
  - destruct (receive r (reg l)) as [[d s]|] eqn:Hr; [|done]. intros [= <-]. by apply link_receive.
Qed.

Lemma make_moves_reach (l l' : link) (ms : list move) : make_moves l ms = Some l' → rtc link_step l l'.
Proof.
  unfold make_moves. revert l. induction ms as [|mv ms IH]; intros l; cbn [foldl].
  - by intros [= <-].
  - cbn [mbind option_bind]. destruct (make_move l mv) as [l1|] eqn:E.
    + intros Hl. eapply rtc_l; [by eapply make_move_step|by apply IH].
    + assert (Hn : foldl (λ o mv0, o ≫= λ l0, make_move l0 mv0) None ms = None);
        [clear; by induction ms|by rewrite Hn].
Qed.

End Tunnel.

(** ** Witnesses *)

#[local] Existing Instances queue_channels demo_case demo_engine demo_nets.

(** Stream 7 of [demo_run], with a stream of another handler in between. *)
Definition demo_frames : list Frame :=
  [Open 9 (bs "example.org:80"); Open 7 (bs "example.com:443"); Data 7 (bs "hello"); Data 9 (bs "x");
   Data 7 (bs "world"); Close 7].

Definition demo_before_close : list move :=
  [MRead; MRead; MRead; MResume; MRead; MResume; MTake 1; MRead; MResume].

Definition demo_link (ms : list move) : link :=
  default (link_init demo_frames) (make_moves (link_init demo_frames) ms).

Lemma demo_frames_wf : Forall wf_frame demo_frames.
Proof. repeat (apply Forall_cons; split; [cbn [wf_frame]; unfold U32_MAX; split_and?; [lia|done..]|]). constructor. Qed.

Lemma demo_link_reach : rtc link_step (link_init demo_frames) (demo_link demo_before_close).
Proof. apply (make_moves_reach _ _ demo_before_close). vm_compute. reflexivity. Qed.

Lemma tunnel_delivers_witness :
  got (demo_link demo_before_close) 1 = [bs "hello"] ∧
  got (demo_link demo_before_close) 1 `prefix_of` [bs "hello"; bs "world"].
Proof.
  split; [vm_compute; reflexivity|].
  apply (tunnel_delivers demo_frames 7 (bs "example.com:443") [bs "hello"; bs "world"] true
    (demo_link demo_before_close) 1).
  - exact demo_frames_wf.
  - reflexivity.
  - exact demo_link_reach.
  - vm_compute. reflexivity.
Defined.

Lemma close_loses_nothing_witness :
  let l := demo_link demo_before_close in
  let l' := take_one l [] (Close 7) (server_apply (ServerClose 7) (reg l)) in
  got l' 1 ++ default [] (queue_at (reg l') 1) ++ held_for (reg l') 1 = [bs "hello"; bs "world"].
Proof.
  intros l l'. apply (close_loses_nothing demo_frames 7 (bs "example.com:443") [bs "hello"; bs "world"] true
    l l' 1 (encode (Close 7)) []).
  - exact demo_frames_wf.
  - reflexivity.
  - exact demo_link_reach.
  - vm_compute. reflexivity.
  - vm_compute. reflexivity.
  - vm_compute. reflexivity.
  - vm_compute. reflexivity.
  - apply rtc_refl.
  - vm_compute. discriminate.
Defined.

Lemma upload_reaches_destination_witness :
  ∃ dest first, request_of (fst demo_run) = Some (dest, first) ∧ is_dest_allowed dest = Some true ∧
    concat (got (demo_link demo_before_close) 1) `prefix_of` first ++ reads_of (fst demo_run).
Proof.
  apply (upload_reaches_destination demo_routing 7 (http_front demo_routing 7 true)
    (handle_local_connection_resilient demo_routing 7) (fst demo_run) (snd demo_run) demo_frames
    (demo_link demo_before_close) 1).
  - exact demo_routing_wf.
  - unfold U32_MAX. lia.
  - right. left.
  - apply (run_steps 40 _ _ demo_env), surjective_pairing.
  - exact demo_run_possible.
  - exact demo_frames_wf.
  - vm_compute. reflexivity.
  - exact demo_link_reach.
  - vm_compute. reflexivity.
Defined.
