(* ===== verification/World.v ===== *)
(** * A whole session: both programs running

    The task programs of both ends, the two writer loops with their channels,
    the two readers and the messages under way, as one step relation whose
    steps end at the code's awaits.  One WebSocket session is modelled, from
    its HELLO on; the accept loops start a handler for every connection.  Each
    direction of the WebSocket is bounded: a writer loop waits in
    [ws_sink.send] while the transport has no room for its message, and so, by
    the bounded channels behind it, does every task that sends. *)
From S2P Require Import Prelude Utf8 Text Net Frame GeoSite GeoIp Routing Sock Http Socks5 Task Relay.
From S2P Require Import Channel Registry Control Mux Client ClientProtocol ClientTraces Ssrf Server Flow Link Roles.

Inductive side : Type := AtClient | AtServer.

#[export] Instance side_eq_dec : EqDecision side.
Proof. solve_decision. Defined.

Definition other (s : side) : side := match s with AtClient => AtServer | AtServer => AtClient end.

(** A spawned task: where it runs, its stream, the program it was spawned with,
    how far it is, the [data_rx] and the [ack_rx] it holds, and what it has
    done. *)
Record task := {
  t_side : side;
  t_id : N;
  t_prog : prog;
  t_conf : config;
  t_rx : option nat;
  t_ack : option nat;
  t_hist : list label
}.

Definition new_task (s : side) (id : N) (p : prog) (rx : option nat) : task :=
  {| t_side := s; t_id := id; t_prog := p; t_conf := (p, []); t_rx := rx; t_ack := None; t_hist := [] |}.

Definition moved (t : task) (l : label) (cf : config) : task :=
  {| t_side := t_side t; t_id := t_id t; t_prog := t_prog t; t_conf := cf; t_rx := t_rx t;
     t_ack := t_ack t; t_hist := t_hist t ++ [l] |}.

Definition holding (t : task) (rx ack : option nat) : task :=
  {| t_side := t_side t; t_id := t_id t; t_prog := t_prog t; t_conf := t_conf t; t_rx := rx;
     t_ack := ack; t_hist := t_hist t |}.

Section World.
Context `{ChannelLib, Transport}.

(** One end of the session: [frame_channel(128)], the frame that the writer loop
    has received and not yet sent, every frame the channel has accepted, and
    the receiving half. *)
Record endpoint := {
  ep_out : chan Frame;
  ep_hand : option Frame;
  ep_sent : list Frame;
  ep_in : link
}.

Definition ep_init : endpoint := 
  {| ep_out := frame_channel Frame 128; ep_hand := None; ep_sent := []; ep_in := link_init [] |}.

Definition ep_link (e : endpoint) (l : link) : endpoint :=
  {| ep_out := ep_out e; ep_hand := ep_hand e; ep_sent := ep_sent e; ep_in := l |}.

Definition ep_writer (e : endpoint) (c : chan Frame) (hand : option Frame) : endpoint :=
  {| ep_out := c; ep_hand := hand; ep_sent := ep_sent e; ep_in := ep_in e |}.

(** The server's reader: its loop goes on, has ended, or was dropped with the
    future of [run_server_mux_session] when the shutdown came. *)
Inductive reader_at : Type := Reads | Ended | Cancelled.

(** The session, the tasks, and the server's reader: the task it awaits, and
    where it is.  [w_acks] is the
    client's [session] without its registry, which is the one of its link. *)
Record world := {
  w_client : endpoint;
  w_server : endpoint;
  w_acks : session;
  w_tasks : list task;
  w_opening : option nat;
  w_reader : reader_at
}.

(** The loop of the server's reader has ended, or will never go on. *)
Definition w_ended (w : world) : bool := match w_reader w with Reads => false | _ => true end.

(** The server's reader has been dropped while it awaited task [j], its
    [handle_open]: the task is never polled again. *)
Definition frozen (w : world) (j : nat) : Prop := w_reader w = Cancelled ∧ w_opening w = Some j.

Definition world_init : world :=
  {| w_client := ep_init; w_server := ep_init; w_acks := session_new; w_tasks := [];
     w_opening := None; w_reader := Reads |}.

Definition end_of (w : world) (s : side) : endpoint :=
  match s with AtClient => w_client w | AtServer => w_server w end.

Definition with_end (w : world) (s : side) (e : endpoint) : world :=
  match s with
  | AtClient => {| w_client := e; w_server := w_server w; w_acks := w_acks w; w_tasks := w_tasks w;
                   w_opening := w_opening w; w_reader := w_reader w |}
  | AtServer => {| w_client := w_client w; w_server := e; w_acks := w_acks w; w_tasks := w_tasks w;
                   w_opening := w_opening w; w_reader := w_reader w |}
  end.

Definition with_link (w : world) (s : side) (l : link) : world := with_end w s (ep_link (end_of w s) l).

Definition with_tasks (w : world) (ts : list task) : world :=
  {| w_client := w_client w; w_server := w_server w; w_acks := w_acks w; w_tasks := ts;
     w_opening := w_opening w; w_reader := w_reader w |}.

Definition with_session (w : world) (s : session) : world :=
  {| w_client := w_client w; w_server := w_server w; w_acks := s; w_tasks := w_tasks w;
     w_opening := w_opening w; w_reader := w_reader w |}.

Definition in_of (w : world) (s : side) : link := ep_in (end_of w s).

(** The client's session state, as [Mux] has it. *)
Definition client_session (w : world) : session := with_registry (w_acks w) (reg (in_of w AtClient)).

(** ** What a call does *)

(** [frame_tx.send(f)] accepted. *)
Definition push_frame (f : Frame) (e : endpoint) : option endpoint :=
  c ← push f (ep_out e);
  Some {| ep_out := c; ep_hand := ep_hand e; ep_sent := ep_sent e ++ [f]; ep_in := ep_in e |}.

(** A receive that fails: the channel is closed and drained. *)
Definition drained {A : Type} (c : chan A) : bool :=
  is_closed c && match pull c with Some _ => false | None => true end.

(** The effect of a call of task [t] that returns [a]; [None] when it cannot
    return that now.  Calls to the outside return what the outside decides. *)
Definition do_call (w : world) (t : task) (c : call) (a : answer) : option (world * task) :=
  let s := t_side t in
  let l := in_of w s in
  match c, a with
  | Register i, AOk =>
      Some (with_link w s (open_link i l), holding t (Some (fst (register i (reg l)))) (t_ack t))
  | Unregister i, AOk => Some (with_link w s (set_reg l (close i (reg l))), t)
  | InsertAck i, AOk =>
      let (r, s') := insert_ack i (client_session w) in
      Some (with_session w s', holding t (t_rx t) (Some r))
  | Send f, AOk => e ← push_frame f (end_of w s); Some (with_end w s e, t)
  | Send f, AErr => if is_closed (ep_out (end_of w s)) then Some (w, t) else None
  | RecvAck _, AFlag b =>
      r ← t_ack t; ch ← ack_chans (w_acks w) !! r; '(b', ch') ← pull ch;
      if Bool.eqb b b'
      then Some (with_session w (with_acks (w_acks w) (pending_acks (w_acks w))
                   (<[r := ch']> (ack_chans (w_acks w)))), t)
      else None
  | RecvAck _, AErr =>
      r ← t_ack t; ch ← ack_chans (w_acks w) !! r; if drained ch then Some (w, t) else None
  | RecvAck (Some _), ATimeout => Some (w, t)
  | DataRecv, ABytes d =>
      r ← t_rx t; '(d', s') ← receive r (reg l);
      if bool_decide (d = d') then Some (with_link w s (log_got l r d s'), t) else None
  | DataRecv, AErr => r ← t_rx t; ch ← heap (reg l) !! r; if drained ch then Some (w, t) else None
  | ParseHttp, _ | ParseSocks, _ | Snapshot, _ | Connect _, _ | TcpRead, _ | TcpWrite _, _
  | UpRead, _ | UpWrite _, _ => Some (w, t)
  | _, _ => None
  end.

(** What the parsers can return; the rest of the outside is unconstrained. *)
Definition env_answer (c : call) (a : answer) : Prop :=
  match c with ParseHttp => http_answer a | ParseSocks => socks_answer a | _ => True end.

(** A reader takes a message: the frame it carries, and the registry after. *)
Definition read_link (l : link) (rest : list bytes) (f : Frame) (s : streams) : link :=
  take_one (match f with Data i d => log_route l i d | _ => l end) rest f s.

Definition skip_link (l : link) (rest : list bytes) : link :=
  {| wire := rest; taken := taken l; reg := reg l; owner := owner l; routed := routed l;
     got := got l; dead := dead l; lost := lost l |}.

(** ** What each loop does to the session *)

(** An accept loop starts the handler [p] for the connection [id]. *)
Definition accept_conn (w : world) (id : N) (p : prog) : world :=
  {| w_client := w_client w; w_server := w_server w; w_acks := w_acks w;
     w_tasks := w_tasks w ++ [new_task AtClient id p None];
     w_opening := w_opening w; w_reader := w_reader w |}.

(** A writer loop: [frame_rx.recv()] returns the frame [f]; and its message is
    sent: the transport has taken it. *)
Definition take_frame (w : world) (s : side) (f : Frame) (c : chan Frame) : world :=
  with_end w s (ep_writer (end_of w s) c (Some f)).

Definition write_frame (w : world) (s : side) (f : Frame) : world :=
  let w1 := with_end w s (ep_writer (end_of w s) (ep_out (end_of w s)) None) in
  with_link w1 (other s) (put_wire (in_of w1 (other s)) (encode f)).

(** The writer loop ends: its receiver is dropped, and the frame it has in
    hand; [closes] where it calls [close_all]. *)
Definition writer_end (w : world) (s : side) (closes : bool) : world :=
  let l := in_of w s in
  with_end w s {| ep_out := shut (ep_out (end_of w s)); ep_hand := None; ep_sent := ep_sent (end_of w s);
                  ep_in := if closes then set_reg l (close_all (reg l)) else l |}.

(** [run_client_reader]: a message that holds the frame [f], and the end. *)
Definition client_read (w : world) (m : bytes) (rest : list bytes) (f : Frame) : world :=
  let s' := reader_event (WsBinary m) (client_session w) in
  with_session (with_link w AtClient (read_link (in_of w AtClient) rest f (registry s'))) s'.

Definition client_stop (w : world) (ev : ws_event) : world :=
  let s' := reader_event ev (client_session w) in
  with_session (with_link w AtClient (set_reg (in_of w AtClient) (registry s'))) s'.

(** [MuxConn::close], by the keeper. *)
Definition client_close (w : world) : world :=
  let s' := mux_conn_close (client_session w) in
  with_session (with_link w AtClient (set_reg (in_of w AtClient) (registry s'))) s'.

(** The reader of [run_server_mux_session]: an OPEN, whose [handle_open] it
    then awaits; [handle_open] returns; any other frame; the end. *)
Definition server_open (w : world) (rest : list bytes) (f : Frame) (id : N) (dest : bytes) : world :=
  let w1 := with_link w AtServer (read_link (in_of w AtServer) rest f (reg (in_of w AtServer))) in
  {| w_client := w_client w1; w_server := w_server w1; w_acks := w_acks w1;
     w_tasks := w_tasks w1 ++ [new_task AtServer id (handle_open id dest) None];
     w_opening := Some (length (w_tasks w1)); w_reader := w_reader w1 |}.

Definition server_opened (w : world) : world :=
  {| w_client := w_client w; w_server := w_server w; w_acks := w_acks w; w_tasks := w_tasks w;
     w_opening := None; w_reader := w_reader w |}.

Definition server_read (w : world) (rest : list bytes) (f : Frame) (act : server_action) : world :=
  with_link w AtServer (read_link (in_of w AtServer) rest f (server_apply act (reg (in_of w AtServer)))).

Definition server_stop (w : world) : world :=
  let w1 := with_link w AtServer (set_reg (in_of w AtServer) (server_apply ServerStop (reg (in_of w AtServer)))) in
  {| w_client := w_client w1; w_server := w_server w1; w_acks := w_acks w1;
     w_tasks := w_tasks w1;
     w_opening := w_opening w1; w_reader := Ended |}.

(** The shutdown arrives in [accept_connection]: the session's future is
    dropped, with the reader, the [route] or [handle_open] it awaits and its
    [frame_tx]; the writer loop and the streams' tasks go on. *)
Definition server_cancel (w : world) : world :=
  let w1 := with_link w AtServer (cut_link (in_of w AtServer)) in
  {| w_client := w_client w1; w_server := w_server w1; w_acks := w_acks w1;
     w_tasks := w_tasks w1;
     w_opening := w_opening w1; w_reader := Cancelled |}.

(** ** Steps *)

Section Steps.
Context `{UnicodeCase, RegexEngine, IpNets} (routing : RoutingConfig).

(** Can the end's reader take its next message? *)
Definition reader_ready (w : world) (s : side) : Prop :=
  held (reg (in_of w s)) = None ∧
  match s with
  | AtClient => stopped (w_acks w) = false
  | AtServer => w_ended w = false ∧ w_opening w = None
  end.

(** Every holder of a [frame_tx] of the end is gone: its tasks (the write and
    copying tasks have none, a dropped one has dropped it) and the server's
    reader. *)
Definition no_senders (w : world) (s : side) : Prop :=
  (∀ j t, w_tasks w !! j = Some t → t_side t = s →
     fst (t_conf t) = Return ∨ t_prog t = write_task ∨ t_prog t = a_to_b ∨ frozen w j) ∧
  (s = AtServer → w_ended w = true).

(** Task [j] is [t], and is polled. *)
Definition polled (w : world) (j : nat) (t : task) : Prop := w_tasks w !! j = Some t ∧ ¬ frozen w j.

Inductive task_step (w : world) : world → Prop :=
(** a call returns *)
| ts_call j t c k st a w' t' :
    polled w j t → t_conf t = (Do c k, st) → env_answer c a →
    do_call w t c a = Some (w', t') →
    task_step w (with_tasks w' (<[j := moved t' (LCall c a) (k a, st)]> (w_tasks w)))
(** [task::spawn]: the [data_rx], if any, moves to the new task *)
| ts_spawn j t p k st :
    polled w j t → t_conf t = (Spawn p k, st) →
    task_step w (with_tasks w
      (<[j := moved (holding t None (t_ack t)) (LSpawn p) (k, st)]> (w_tasks w)
       ++ [new_task (t_side t) (t_id t) p (t_rx t)]))
(** loops *)
| ts_tau j t cf :
    polled w j t → step (t_conf t) LTau cf →
    task_step w (with_tasks w (<[j := moved t LTau cf]> (w_tasks w)))
(** a task that has returned, or was dropped, drops its [data_rx] *)
| ts_finish j t r :
    w_tasks w !! j = Some t → fst (t_conf t) = Return ∨ frozen w j → t_rx t = Some r →
    let l := in_of w (t_side t) in
    task_step w (with_link w (t_side t) (log_drop (set_reg l (drop_receiver r (reg l))) r)).

(** No connection of the session has the id: what the client runs under it
    are at most tasks a handler has spawned.  The client takes its ids from an
    [AtomicU32] ([next_id.fetch_add(1)]), which wraps around: after 2^32
    connections an accept can meet an id that is still in use, and [ws_accept]
    does not cover that.  [Sessions] proves that an accept does satisfy it as
    long as the client has accepted fewer than 2^32 connections ([System.few]). *)
Definition fresh_id (w : world) (id : N) : Prop :=
  ∀ j t, w_tasks w !! j = Some t → t_side t = AtClient → t_id t = id → t_prog t = write_task ∨ t_prog t = a_to_b.

(** Whose step it is: an accept loop's, the keeper's, or the session's own. *)
Inductive mover : Type := Accepting | Closing | Running.

Inductive moves (w : world) : mover → world → Prop :=
| ws_task w' : task_step w w' → moves w Running w'
(** a new connection; those that go to another session of the client take ids too *)
| ws_accept id fe p :
    fresh_id w id → (id ≤ U32_MAX)%N → (fe, p) ∈ handlers routing id → moves w Accepting (accept_conn w id p)
(** a writer loop that is running receives a frame, and sends it when the
    transport has room for the message; it ends when the socket fails, with a
    frame in hand, or when nobody is left to send *)
| ws_take s f c :
    is_closed (ep_out (end_of w s)) = false → ep_hand (end_of w s) = None →
    pull (ep_out (end_of w s)) = Some (f, c) → moves w Running (take_frame w s f c)
| ws_write s f :
    is_closed (ep_out (end_of w s)) = false → ep_hand (end_of w s) = Some f →
    has_room (wire (in_of w (other s))) = true → moves w Running (write_frame w s f)
| ws_writer_stops s (closes : bool) :
    is_closed (ep_out (end_of w s)) = false →
    is_Some (ep_hand (end_of w s)) ∨
      (ep_hand (end_of w s) = None ∧ queued (ep_out (end_of w s)) = [] ∧ no_senders w s) →
    (s = AtServer → closes = true) →
    moves w Running (writer_end w s closes)
(** a message that is not a frame is skipped by both readers *)
| ws_skip s m rest e :
    reader_ready w s → wire (in_of w s) = m :: rest → decode m = Err e →
    moves w Running (with_link w s (skip_link (in_of w s) rest))
(** [route] completes *)
| ws_resume s r :
    route_finish (reg (in_of w s)) = Some r → moves w Running (with_link w s (set_reg (in_of w s) r))
(** the client's reader *)
| ws_client_read m rest f :
    reader_ready w AtClient → wire (in_of w AtClient) = m :: rest → decode m = Ok f →
    moves w Running (client_read w m rest f)
| ws_client_stop ev :
    reader_ready w AtClient → (∀ d, ev ≠ WsBinary d ∧ ev ≠ WsPing d) → moves w Running (client_stop w ev)
| ws_client_close : moves w Closing (client_close w)
(** the server's reader *)
| ws_server_open m rest f id dest :
    reader_ready w AtServer → wire (in_of w AtServer) = m :: rest → decode m = Ok f →
    server_event (WsBinary m) = ServerOpen id dest → moves w Running (server_open w rest f id dest)
| ws_server_opened j t :
    w_ended w = false → w_opening w = Some j → w_tasks w !! j = Some t → fst (t_conf t) = Return → moves w Running (server_opened w)
| ws_server_read m rest f act :
    reader_ready w AtServer → wire (in_of w AtServer) = m :: rest → decode m = Ok f →
    server_event (WsBinary m) = act → (∀ i d, act ≠ ServerOpen i d) → moves w Running (server_read w rest f act)
| ws_server_stop : reader_ready w AtServer → moves w Running (server_stop w)
(** the shutdown, wherever the reader is *)
| ws_server_cancel : w_ended w = false → moves w Running (server_cancel w).

Definition world_step (w w' : world) : Prop := ∃ who, moves w who w'.

Definition reachable (w : world) : Prop := rtc world_step world_init w.

End Steps.
End World.
