(* ===== verification/Threads.v ===== *)
(** * The tasks of a session

    Every task of a [World] is one of five kinds, known from its side and its
    program.  [task_ok]: a task's history is a run of its program; what that
    means for the frames it has sent, the calls it can make next and the tasks
    it can spawn, kind by kind. *)
From S2P Require Import Prelude Utf8 Text Net Frame GeoSite GeoIp Routing Sock Http Socks5 Task Relay.
From S2P Require Import Channel Registry Control Mux Client ClientProtocol ClientTraces Ssrf Server Flow Link Roles World.

Inductive kind : Type := Handler | Writer | Copier | Opener | Streamer.

#[export] Instance kind_eq_dec : EqDecision kind.
Proof. solve_decision. Defined.

Definition kind_of (s : side) (p : prog) : kind :=
  match p, s with
  | Loop (Do DataRecv _) _, _ => Writer
  | Loop _ _, AtClient => Copier
  | Spawn _ _, AtServer => Streamer
  | _, AtClient => Handler
  | _, AtServer => Opener
  end.

Definition t_kind (t : task) : kind := kind_of (t_side t) (t_prog t).

(** The kinds of which a stream has at most one, and where they run. *)
Definition kind_side (k : kind) : option side :=
  match k with Handler => Some AtClient | Opener | Streamer => Some AtServer | Writer | Copier => None end.

Lemma kind_side_of (t : task) (s : side) : kind_side (t_kind t) = Some s → t_side t = s.
Proof. unfold t_kind, kind_of. destruct (t_side t), s; try done; intros; repeat case_match; simplify_eq/=. Qed.

Lemma opener_kind (id : N) (dest : bytes) : kind_of AtServer (handle_open id dest) = Opener.
Proof. unfold handle_open. by destruct (is_dest_allowed dest) as [[]|]. Qed.

Section Tasks.
Context `{UnicodeCase, RegexEngine, IpNets} (routing : RoutingConfig).

Lemma handler_kind (id : N) (fe : front_end) (p : prog) :
  (fe, p) ∈ handlers routing id → kind_of AtClient p = Handler.
Proof.
  unfold handlers. rewrite !elem_of_cons.
  by intros [[= -> ->]|[[= -> ->]|[[= -> ->]|[]%elem_of_nil]]].
Qed.

(** The program a task of each kind runs. *)
Definition role_ok (t : task) : Prop :=
  match t_kind t with
  | Handler => (t_id t ≤ U32_MAX)%N ∧ ∃ fe, (fe, t_prog t) ∈ handlers routing (t_id t)
  | Writer => t_prog t = write_task
  | Copier => t_prog t = a_to_b
  | Opener => (t_id t ≤ U32_MAX)%N ∧ ∃ dest, utf8_valid dest = true ∧ t_prog t = handle_open (t_id t) dest
  | Streamer => (t_id t ≤ U32_MAX)%N ∧ t_prog t = stream_task (t_id t)
  end.

Definition env_label (l : label) : Prop := match l with LCall c a => env_answer c a | _ => True end.

Record task_ok (t : task) : Prop := {
  tk_role : role_ok t;
  tk_run : steps (t_prog t, []) (t_hist t) (t_conf t);
  tk_env : Forall env_label (t_hist t)
}.

Lemma task_ok_new (s : side) (id : N) (p : prog) (rx : option nat) :
  role_ok (new_task s id p rx) → task_ok (new_task s id p rx).
Proof. intros Hr. split; [done|constructor|constructor]. Qed.

Lemma task_ok_moved (t : task) (rx ack : option nat) (l : label) (cf : config) :
  task_ok t → step (t_conf t) l cf → env_label l → task_ok (moved (holding t rx ack) l cf).
Proof.
  intros [Hr Hs He] Hst Hl. split; [done|by eapply steps_snoc|]. apply Forall_app. split; [done|by constructor].
Qed.

(** ** Handlers *)

Hypothesis Hwf : wf_routing routing.

(** A handler reads one kind of request; so what the outside can answer is
    what its protocol expects. *)
Lemma handler_possible (id : N) (fe : front_end) (p : prog) (ls : list label) (cf : config) :
  (fe, p) ∈ handlers routing id → steps (p, []) ls cf → Forall env_label ls →
  Forall (possible (local_protocol fe)) ls.
Proof.
  intros Hin. pose proof (handlers_refine routing id fe p Hwf Hin) as Href. revert cf.
  assert (Herr : ∀ c, p_answer (local_protocol fe) c AErr).
  { unfold handlers in Hin. rewrite !elem_of_cons in Hin.
    by destruct Hin as [[= -> _]|[[= -> _]|[[= -> _]|[]%elem_of_nil]]]; intros []; try left. }
  induction ls as [|l ls IH] using rev_ind; intros cf Hs He; [constructor|].
  apply Forall_app in He as [He Hl]. rewrite Forall_singleton in Hl.
  apply steps_snoc_inv in Hs as (cf1 & Hs & Hst). specialize (IH cf1 Hs He).
  apply Forall_app. split; [done|]. apply Forall_singleton. destruct Hst as [c k a st| | | |]; try done. cbn in Hl |- *.
  destruct (refines_call _ p _ Href ls c AErr k st Hs IH (Herr c)) as (q & q' & _ & Hc).
  unfold handlers in Hin. rewrite !elem_of_cons in Hin.
  destruct Hin as [[= -> _]|[[= -> _]|[[= -> _]|[]%elem_of_nil]]];
    (destruct c; try done; try exact Hl; exfalso;
     destruct q as [| | |? [| | | | | | | | |[]| | |[]]|? [| | | |[]|]|]; cbn in Hc; done).
Qed.

Lemma handler_plan (id : N) (fe : front_end) (p : prog) (a : answer) (pl : plan) (b : bool) :
  (fe, p) ∈ handlers routing id → fe_plan fe a = Some (pl, b) → pl_id pl = id.
Proof.
  unfold handlers. rewrite !elem_of_cons.
  intros [[= -> _]|[[= -> _]|[[= -> _]|[]%elem_of_nil]]] Hp; destruct a; try done; cbn in Hp; by simplify_eq.
Qed.

Lemma handler_answer (id : N) (fe : front_end) (p : prog) (c : call) :
  (fe, p) ∈ handlers routing id → p_answer (local_protocol fe) c AErr.
Proof.
  unfold handlers. rewrite !elem_of_cons.
  by intros [[= -> _]|[[= -> _]|[[= -> _]|[]%elem_of_nil]]]; destruct c; try left.
Qed.

(** Where a handler is in its protocol. *)
Lemma handler_phase (t : task) :
  task_ok t → t_kind t = Handler →
  ∃ fe q, (fe, t_prog t) ∈ handlers routing (t_id t) ∧ Forall (possible (local_protocol fe)) (t_hist t) ∧
    accepts (local_protocol fe) Start (t_hist t) q ∧ conn_past (t_id t) (t_hist t) q.
Proof.
  intros [Hr Hs He] Hk. unfold role_ok in Hr. rewrite Hk in Hr. destruct Hr as (_ & fe & Hin).
  pose proof (handler_possible _ _ _ _ _ Hin Hs He) as Hp.
  destruct (handlers_refine routing _ _ _ Hwf Hin _ _ Hs Hp) as (q & Ha & _). exists fe, q. split_and!; [done..|].
  eapply (conn_accepts fe); [intros a pl b; by eapply handler_plan| |exact Ha]. by split_and!.
Qed.

Lemma handler_call (t : task) (c : call) (k : answer → prog) (st : list (prog * prog)) :
  task_ok t → t_kind t = Handler → t_conf t = (Do c k, st) → session_call (t_id t) (t_hist t) c.
Proof.
  intros Hok Hk Hc. destruct (handler_phase t Hok Hk) as (fe & _ & Hin & Hp & _).
  pose proof (tk_run _ Hok) as Hs. rewrite Hc in Hs.
  destruct (refines_call _ _ _ (handlers_refine routing _ _ _ Hwf Hin) _ _ _ _ _ Hs Hp (handler_answer _ _ _ c Hin))
    as (q & q' & Ha & Hq).
  pose proof (λ a pl b, handler_plan _ _ _ a pl b Hin) as Hpl.
  apply (conn_session_call fe _ Hpl _ q q' c AErr); [|exact Hq].
  apply (conn_accepts fe _ Hpl Start); [by split_and!|exact Ha].
Qed.

Lemma handler_spawn (t : task) (p k : prog) (st : list (prog * prog)) :
  task_ok t → t_kind t = Handler → t_conf t = (Spawn p k, st) → p = write_task ∨ p = a_to_b.
Proof.
  intros Hok Hk Hc. destruct (handler_phase t Hok Hk) as (fe & _ & Hin & Hp & _).
  pose proof (tk_run _ Hok) as Hs. rewrite Hc in Hs.
  destruct (refines_spawn _ _ _ (handlers_refine routing _ _ _ Hwf Hin) _ _ _ _ Hs Hp) as (q & q' & _ & Hq).
  inversion Hq; auto.
Qed.

Lemma handler_frames (t : task) :
  task_ok t → t_kind t = Handler →
  frames_of (t_hist t) = [] ∨
  ∃ dest first ds closed lost,
    request_of (t_hist t) = Some (dest, first) ∧ frames_of (t_hist t) = stream_frames (t_id t) dest ds closed ∧
    concat ds ++ lost = first ++ reads_of (t_hist t) ∧ Forall wf_frame (frames_of (t_hist t)).
Proof.
  intros Hok Hk. destruct (handler_phase t Hok Hk) as (fe & _ & Hin & Hp & _).
  pose proof (tk_role _ Hok) as Hr. unfold role_ok in Hr. rewrite Hk in Hr. destruct Hr as [Hid _].
  destruct (upload_shape routing _ fe _ _ _ Hwf Hid Hin (tk_run _ Hok) Hp)
    as [?|(dest & first & ds & closed & lost & ? & ? & ? & ? & _)]; [by left|right; eauto 10].
Qed.

(** ** Openers *)

Lemma opener_free (id : N) (dest : bytes) (ls : list label) : Forall (possible (opener_protocol id dest)) ls.
Proof. apply Forall_true. by intros []. Qed.

(** Where an opener is in its protocol, what it has done, and what it can call
    or spawn next. *)
Lemma opener_phase_at (t : task) (dest : bytes) :
  task_ok t → utf8_valid dest = true → t_prog t = handle_open (t_id t) dest →
  ∃ q, opener_past (t_id t) dest (t_hist t) q ∧
    (∀ c k st, t_conf t = (Do c k, st) → ∃ q', opener_call (t_id t) dest q c AErr = Some q') ∧
    (∀ p k st, t_conf t = (Spawn p k, st) → p = stream_task (t_id t) ∧ spawns_of (t_hist t) = []).
Proof.
  intros [_ Hs He] Hv Hp. rewrite Hp in Hs. pose proof (follows_refines _ _ _ (handle_open_follows (t_id t) dest Hv)) as Href.
  pose proof (opener_free (t_id t) dest (t_hist t)) as Hfree.
  destruct (t_conf t) as [pr st] eqn:Hcf.
  destruct (Href _ _ Hs Hfree) as (q & Ha & _).
  assert (Hall : (∃ c k, pr = Do c k) ∨ (∃ c k, pr = Spawn c k) ∨ (∀ c k, pr ≠ Do c k) ∧ ∀ c k, pr ≠ Spawn c k)
    by (destruct pr; eauto; right; right; by split).
  destruct Hall as [(c & k & ->)|[(p & k & ->)|[Hn1 Hn2]]].
  - destruct (refines_call _ _ _ Href _ _ AErr _ _ Hs Hfree I) as (q1 & q' & Ha1 & Hq). exists q1.
    split_and!; [by apply opener_accepts| |done]. intros ? ? ? [= <- <- <-]. by exists q'.
  - destruct (refines_spawn _ _ _ Href _ _ _ _ Hs Hfree) as (q1 & q' & Ha1 & -> & -> & _). exists OpAcked.
    split_and!; [by apply opener_accepts|done|]. intros ? ? ? [= <- <- <-].
    by destruct (opener_unspawned _ _ _ _ Ha1).
  - exists q. split_and!; [by apply opener_accepts| |]; intros x y z [= Hx _]; [by destruct (Hn1 x y)|by destruct (Hn2 x y)].
Qed.

Lemma opener_phase_of (t : task) :
  task_ok t → t_kind t = Opener →
  ∃ dest q, t_prog t = handle_open (t_id t) dest ∧ opener_past (t_id t) dest (t_hist t) q ∧
    (∀ c k st, t_conf t = (Do c k, st) → ∃ q', opener_call (t_id t) dest q c AErr = Some q') ∧
    (∀ p k st, t_conf t = (Spawn p k, st) → p = stream_task (t_id t) ∧ spawns_of (t_hist t) = []).
Proof.
  intros Hok Hk. pose proof (tk_role _ Hok) as Hr. unfold role_ok in Hr. rewrite Hk in Hr.
  destruct Hr as (_ & dest & Hv & Hp). destruct (opener_phase_at t dest Hok Hv Hp) as (q & Hq). by exists dest, q.
Qed.

(** ** Stream tasks *)

Lemma streamer_phase (t : task) :
  task_ok t → t_kind t = Streamer →
  ∃ q, accepts (local_protocol stream_front) (Mux (stream_plan (t_id t)) Confirmed) (t_hist t) q ∧
    conn_past (t_id t) (t_hist t) q ∧ fresh_phase q = false ∧
    (∀ c k st, t_conf t = (Do c k, st) → session_call (t_id t) (t_hist t) c ∧ ∀ i, c ≠ Register i) ∧
    (∀ p k st, t_conf t = (Spawn p k, st) → p = write_task).
Proof.
  intros [Hr Hs He] Hk. unfold role_ok in Hr. rewrite Hk in Hr. destruct Hr as [_ Hp]. rewrite Hp in Hs.
  pose proof (stream_task_refines (t_id t)) as Href. pose proof (all_possible (t_hist t)) as Hfree.
  assert (Hpast : ∀ q, accepts (local_protocol stream_front) (Mux (stream_plan (t_id t)) Confirmed) (t_hist t) q →
    conn_past (t_id t) (t_hist t) q ∧ fresh_phase q = false).
  { intros q Ha. split; [|by eapply relay_not_fresh].
    eapply (conn_accepts stream_front (t_id t) ltac:(done)); [|exact Ha]. split_and!; [done| |done].
    by intros pl [= <-]. }
  destruct (Href _ _ Hs Hfree) as (q & Ha & _). exists q. destruct (Hpast q Ha) as [Hq Hf]. split_and!; try done.
  - intros c k st Hc. rewrite Hc in Hs.
    destruct (refines_call _ _ _ Href _ _ AErr _ _ Hs Hfree) as (q1 & q' & Ha1 & Hq1); [by destruct c|].
    destruct (Hpast q1 Ha1) as [Hp1 Hf1]. split; [exact (conn_session_call stream_front (t_id t) ltac:(done) _ _ _ _ _ Hp1 Hq1)|].
    intros i ->. apply register_fresh in Hq1. by rewrite Hf1 in Hq1.
  - intros p k st Hc. rewrite Hc in Hs.
    destruct (refines_spawn _ _ _ Href _ _ _ _ Hs Hfree) as (q1 & q' & Ha1 & Hq1).
    inversion Hq1 as [|pl]; [done|]. subst q1. apply Hpast in Ha1 as [_ Ha1]. done.
Qed.

(** ** Write and copying tasks *)

Lemma writer_phase_of (t : task) :
  task_ok t → t_kind t = Writer →
  data_of (t_hist t) = writes_of (t_hist t) ++ drop (length (writes_of (t_hist t))) (data_of (t_hist t)) ∧
  frames_of (t_hist t) = [] ∧ regs_of (t_hist t) = [] ∧
  (∀ c k st, t_conf t = (Do c k, st) → c = DataRecv ∨ ∃ d, c = TcpWrite d) ∧
  (∀ p k st, t_conf t ≠ (Spawn p k, st)).
Proof.
  intros [Hr Hs He] Hk. unfold role_ok in Hr. rewrite Hk in Hr. rewrite Hr in Hs.
  pose proof (follows_refines _ _ _ write_task_follows) as Href.
  assert (Hfree : Forall (possible writer_protocol) (t_hist t)) by (apply Forall_true; by intros []).
  destruct (Href _ _ Hs Hfree) as (q & Ha & _).
  destruct (writer_accepts _ _ Ha) as (Hd & Hf & Hg). split_and!; try done.
  - rewrite Hd at 1. f_equal. by rewrite Hd, drop_app_length.
  - intros c k st Hc. rewrite Hc in Hs.
    destruct (refines_call _ _ _ Href _ _ AErr _ _ Hs Hfree I) as ([] & q' & _ & Hq); destruct c; try done; eauto.
  - intros p k st Hc. rewrite Hc in Hs. by destruct (refines_spawn _ _ _ Href _ _ _ _ Hs Hfree) as (q1 & q' & _ & []).
Qed.

Lemma copier_phase_of (t : task) :
  task_ok t → t_kind t = Copier →
  data_of (t_hist t) = [] ∧ frames_of (t_hist t) = [] ∧ regs_of (t_hist t) = [] ∧
  (∀ c k st, t_conf t = (Do c k, st) → c = TcpRead ∨ ∃ d, c = UpWrite d) ∧
  (∀ p k st, t_conf t ≠ (Spawn p k, st)).
Proof.
  intros [Hr Hs He] Hk. unfold role_ok in Hr. rewrite Hk in Hr. rewrite Hr in Hs.
  pose proof (follows_refines _ _ _ a_to_b_follows) as Href.
  assert (Hfree : Forall (possible copier_protocol) (t_hist t)) by (apply Forall_true; by intros []).
  destruct (Href _ _ Hs Hfree) as (q & Ha & _).
  destruct (copier_accepts _ _ Ha) as (Hd & Hf & Hg). split_and!; try done.
  - intros c k st Hc. rewrite Hc in Hs.
    destruct (refines_call _ _ _ Href _ _ AErr _ _ Hs Hfree I) as ([] & q' & _ & Hq); destruct c; try done; eauto.
  - intros p k st Hc. rewrite Hc in Hs. by destruct (refines_spawn _ _ _ Href _ _ _ _ Hs Hfree) as (q1 & q' & _ & []).
Qed.

(** ** Every kind *)

(** Only write tasks take payloads out. *)
Lemma task_data (t : task) : task_ok t → t_kind t ≠ Writer → data_of (t_hist t) = [].
Proof.
  intros Hok Hn. destruct (t_kind t) eqn:Hk; [| done | | |].
  - by destruct (handler_phase t Hok Hk) as (? & ? & _ & _ & _ & ? & _).
  - by destruct (copier_phase_of t Hok Hk).
  - by destruct (opener_phase_of t Hok Hk) as (? & ? & _ & [? _] & _).
  - by destruct (streamer_phase t Hok Hk) as (? & _ & [? _] & _).
Qed.

(** The frames a task may send. *)
Definition frame_by (t : task) (f : Frame) : Prop :=
  wf_frame f ∧ frame_stream f = Some (t_id t) ∧
  match t_kind t, f with
  | Handler, (Open _ _ | Data _ _ | Close _) | Opener, OpenAck _ _ | Streamer, (Data _ _ | Close _) => True
  | _, _ => False
  end.

Lemma task_frames (t : task) : task_ok t → Forall (frame_by t) (frames_of (t_hist t)).
Proof.
  intros Hok. unfold frame_by. destruct (t_kind t) eqn:Hk.
  - destruct (handler_frames t Hok Hk) as [->|(dest & first & ds & closed & lost & _ & Hf & _ & Hw)]; [done|].
    apply Forall_forall. intros f Hin. split; [by eapply Forall_forall in Hw|]. rewrite Hf in Hin.
    unfold stream_frames in Hin. rewrite elem_of_cons, elem_of_app in Hin.
    destruct Hin as [->|[(d & -> & _)%list_elem_of_fmap|Hin]]; [done..|].
    destruct closed; [|by apply elem_of_nil in Hin]. by apply list_elem_of_singleton in Hin as ->.
  - by destruct (writer_phase_of t Hok Hk) as (_ & -> & _).
  - by destruct (copier_phase_of t Hok Hk) as (_ & -> & _).
  - pose proof (tk_role _ Hok) as Hr. unfold role_ok in Hr. rewrite Hk in Hr. destruct Hr as [Hid _].
    destruct (opener_phase_of t Hok Hk) as (? & ? & _ & (_ & Hf & _) & _).
    eapply Forall_impl; [exact Hf|]. by intros f [->|[-> _]].
  - pose proof (tk_role _ Hok) as Hr. unfold role_ok in Hr. rewrite Hk in Hr. destruct Hr as [Hid Hp].
    pose proof (tk_run _ Hok) as Hs. rewrite Hp in Hs.
    destruct (download_shape _ _ _ Hs) as (ds & closed & lost & -> & _). apply Forall_app. split.
    + apply Forall_map, Forall_true. by intros d.
    + destruct closed; [|constructor]. by apply Forall_singleton.
Qed.

(** A stream is registered by its handler, before it has sent anything, or by
    its opener. *)
Lemma task_register (t : task) (i : N) (k : answer → prog) (st : list (prog * prog)) :
  task_ok t → t_conf t = (Do (Register i) k, st) →
  i = t_id t ∧ regs_of (t_hist t) = [] ∧
  ((t_kind t = Handler ∧ frames_of (t_hist t) = []) ∨ t_kind t = Opener).
Proof.
  intros Hok Hc. destruct (t_kind t) eqn:Hk.
  - destruct (handler_call t _ _ _ Hok Hk Hc) as (-> & ? & ?). auto 10.
  - destruct (writer_phase_of t Hok Hk) as (_ & _ & _ & Hx & _). destruct (Hx _ _ _ Hc) as [|[d ?]]; done.
  - destruct (copier_phase_of t Hok Hk) as (_ & _ & _ & Hx & _). destruct (Hx _ _ _ Hc) as [|[d ?]]; done.
  - destruct (opener_phase_of t Hok Hk) as (dest & q & _ & (_ & _ & _ & Hq) & Hx & _).
    destruct (Hx _ _ _ Hc) as [q' Hq']. destruct q; try done. cbn in Hq'.
    destruct (i =? t_id t)%N eqn:E; [|done]. apply N.eqb_eq in E as ->. destruct Hq. auto.
  - destruct (streamer_phase t Hok Hk) as (q & _ & _ & _ & Hx & _). destruct (Hx _ _ _ Hc) as [_ Hn]. by destruct (Hn i).
Qed.

Lemma task_data_recv (t : task) (k : answer → prog) (st : list (prog * prog)) :
  task_ok t → t_conf t = (Do DataRecv k, st) → t_kind t = Writer.
Proof.
  intros Hok Hc. destruct (t_kind t) eqn:Hk; [| done | | |].
  - by pose proof (handler_call t _ _ _ Hok Hk Hc).
  - destruct (copier_phase_of t Hok Hk) as (_ & _ & _ & Hx & _). destruct (Hx _ _ _ Hc) as [|[d ?]]; done.
  - destruct (opener_phase_of t Hok Hk) as (dest & q & _ & _ & Hx & _). destruct (Hx _ _ _ Hc) as [q' Hq']. by destruct q.
  - destruct (streamer_phase t Hok Hk) as (q & _ & _ & _ & Hx & _). by destruct (Hx _ _ _ Hc).
Qed.

Lemma task_insert_ack (t : task) (i : N) (k : answer → prog) (st : list (prog * prog)) :
  task_ok t → t_conf t = (Do (InsertAck i) k, st) → i = t_id t.
Proof.
  intros Hok Hc. destruct (t_kind t) eqn:Hk.
  - by pose proof (handler_call t _ _ _ Hok Hk Hc).
  - destruct (writer_phase_of t Hok Hk) as (_ & _ & _ & Hx & _). destruct (Hx _ _ _ Hc) as [|[d ?]]; done.
  - destruct (copier_phase_of t Hok Hk) as (_ & _ & _ & Hx & _). destruct (Hx _ _ _ Hc) as [|[d ?]]; done.
  - destruct (opener_phase_of t Hok Hk) as (dest & q & _ & _ & Hx & _). destruct (Hx _ _ _ Hc) as [q' Hq']. by destruct q.
  - destruct (streamer_phase t Hok Hk) as (q & _ & _ & _ & Hx & _). by destruct (Hx _ _ _ Hc).
Qed.

(** What is spawned: write and copying tasks, and one stream task by an opener. *)
Lemma task_spawn (t : task) (p k : prog) (st : list (prog * prog)) (rx : option nat) :
  task_ok t → t_conf t = (Spawn p k, st) →
  let t' := new_task (t_side t) (t_id t) p rx in
  data_of (t_hist t) = [] ∧ task_ok t' ∧
  (t_kind t' = Writer ∨ t_kind t' = Copier ∨
   (t_kind t = Opener ∧ t_kind t' = Streamer ∧ spawns_of (t_hist t) = [])).
Proof.
  intros Hok Hc. pose proof (kind_side_of t) as Hside. cbn zeta.
  destruct (t_kind t) eqn:Hk.
  - split; [apply task_data; [done|by rewrite Hk]|]. rewrite (Hside AtClient eq_refl).
    destruct (handler_spawn t _ _ _ Hok Hk Hc) as [-> | ->]; (split; [by apply task_ok_new|]); auto.
  - by destruct (writer_phase_of t Hok Hk) as (_ & _ & _ & _ & Hx); destruct (Hx _ _ _ Hc).
  - by destruct (copier_phase_of t Hok Hk) as (_ & _ & _ & _ & Hx); destruct (Hx _ _ _ Hc).
  - split; [apply task_data; [done|by rewrite Hk]|]. rewrite (Hside AtServer eq_refl).
    pose proof (tk_role _ Hok) as Hr. unfold role_ok in Hr. rewrite Hk in Hr. destruct Hr as [Hid _].
    destruct (opener_phase_of t Hok Hk) as (dest & q & _ & _ & _ & Hx). destruct (Hx _ _ _ Hc) as [-> Hsp].
    split; [by apply task_ok_new|]. auto 10.
  - split; [apply task_data; [done|by rewrite Hk]|]. rewrite (Hside AtServer eq_refl).
    destruct (streamer_phase t Hok Hk) as (q & _ & _ & _ & _ & Hx). rewrite (Hx _ _ _ Hc).
    split; [by apply task_ok_new|]. auto.
Qed.

Lemma task_no_crash (t : task) : task_ok t → fst (t_conf t) ≠ Crash.
Proof.
  intros Hok. pose proof (tk_role _ Hok) as Hr. unfold role_ok in Hr. destruct (t_kind t) eqn:Hk.
  - destruct (handler_phase t Hok Hk) as (fe & _ & Hin & Hp & _).
    by destruct (handlers_refine routing _ _ _ Hwf Hin _ _ (tk_run _ Hok) Hp) as (_ & _ & ? & _).
  - pose proof (tk_run _ Hok) as Hs. rewrite Hr in Hs.
    destruct (follows_refines _ _ _ write_task_follows _ _ Hs) as (_ & _ & ? & _); [|done]. apply Forall_true. by intros [].
  - pose proof (tk_run _ Hok) as Hs. rewrite Hr in Hs.
    destruct (follows_refines _ _ _ a_to_b_follows _ _ Hs) as (_ & _ & ? & _); [|done]. apply Forall_true. by intros [].
  - destruct Hr as (_ & dest & Hv & Hp). pose proof (tk_run _ Hok) as Hs. rewrite Hp in Hs.
    by destruct (follows_refines _ _ _ (handle_open_follows (t_id t) dest Hv) _ _ Hs (opener_free _ _ _)) as (_ & _ & ? & _).
  - destruct Hr as [_ Hp]. pose proof (tk_run _ Hok) as Hs. rewrite Hp in Hs.
    by destruct (stream_task_refines (t_id t) _ _ Hs (all_possible _)) as (_ & _ & ? & _).
Qed.
End Tasks.
