(* ===== verification/WorldOk.v ===== *)
(** * Invariants of a session, I: tasks and frames

    What every step of a [World] does to the tasks and to the frames the two
    ends have accepted; and the invariants that follow: a stream has one
    handler, at most one opener and one stream task, and what an end has sent
    of a stream is what these tasks have sent. *)
From S2P Require Import Prelude Utf8 Text Net Frame GeoSite GeoIp Routing Sock Http Socks5 Task Relay.
From S2P Require Import Channel Registry Control Mux Client ClientProtocol ClientTraces Ssrf Server Flow Link Roles Tunnel World Threads.

#[local] Arguments by_stream : simpl never.
#[local] Arguments payloads : simpl never.

(** The acknowledgements of a stream in a sequence of frames. *)
Definition acks_in (id : N) (fs : list Frame) : list bool :=
  omap (λ f, match f with OpenAck i b => if (i =? id)%N then Some b else None | _ => None end) fs.

#[local] Arguments acks_in : simpl never.

Lemma acks_in_app (id : N) (fs gs : list Frame) : acks_in id (fs ++ gs) = acks_in id fs ++ acks_in id gs.
Proof. apply omap_app. Qed.

Lemma acks_in_elem (id : N) (b : bool) (fs : list Frame) : b ∈ acks_in id fs ↔ OpenAck id b ∈ fs.
Proof.
  unfold acks_in. rewrite list_elem_of_omap. split.
  - intros (f & Hf & Hb). destruct f as [|?|i ok| |]; try done.
    destruct (i =? id)%N eqn:E; [|done]. apply N.eqb_eq in E as ->. by injection Hb as ->.
  - intros Hf. exists (OpenAck id b). by rewrite N.eqb_refl.
Qed.

Section Calls.
Context `{ChannelLib}.

(** The effect of a call, by cases. *)
Inductive call_effect (w : world) (t : task) : call → answer → world → task → Prop :=
| ce_register i :
    let l := in_of w (t_side t) in
    call_effect w t (Register i) AOk (with_link w (t_side t) (open_link i l))
      (holding t (Some (fst (register i (reg l)))) (t_ack t))
| ce_unregister i :
    let l := in_of w (t_side t) in
    call_effect w t (Unregister i) AOk (with_link w (t_side t) (set_reg l (close i (reg l)))) t
| ce_insert_ack i :
    call_effect w t (InsertAck i) AOk (with_session w (snd (insert_ack i (client_session w))))
      (holding t (t_rx t) (Some (ack_fresh (w_acks w))))
| ce_send f e : push_frame f (end_of w (t_side t)) = Some e → call_effect w t (Send f) AOk (with_end w (t_side t) e) t
| ce_recv_ack o b r ch ch' :
    t_ack t = Some r → ack_chans (w_acks w) !! r = Some ch → pull ch = Some (b, ch') →
    call_effect w t (RecvAck o) (AFlag b)
      (with_session w (with_acks (w_acks w) (pending_acks (w_acks w)) (<[r := ch']> (ack_chans (w_acks w))))) t
| ce_data d r s :
    t_rx t = Some r → receive r (reg (in_of w (t_side t))) = Some (d, s) →
    call_effect w t DataRecv (ABytes d) (with_link w (t_side t) (log_got (in_of w (t_side t)) r d s)) t
| ce_none c a :
    frames_of [LCall c a] = [] → data_of [LCall c a] = [] → regs_of [LCall c a] = [] →
    (∀ o b, LCall c a ≠ LCall (RecvAck o) (AFlag b)) → call_effect w t c a w t.

Lemma do_call_effect (w w' : world) (t t' : task) (c : call) (a : answer) :
  do_call w t c a = Some (w', t') → call_effect w t c a w' t'.
Proof.
  intros Hc. destruct c as [| | |i|i|i|f|o| |d| |d| |d]; cbn [do_call] in Hc;
    try (injection Hc as <- <-; by apply ce_none).
  - destruct a; try done. injection Hc as <- <-. apply ce_register.
  - destruct a; try done. injection Hc as <- <-. apply ce_unregister.
  - destruct a; try done. injection Hc as <- <-. apply ce_insert_ack.
  - destruct a; try done.
    + destruct (push_frame f _) as [e|] eqn:E; [|done]. injection Hc as <- <-. by apply ce_send.
    + destruct (is_closed _); [|done]. injection Hc as <- <-. by apply ce_none.
  - destruct a as [| | |b| | |]; try (destruct o; done).
    + assert (w' = w ∧ t' = t) as [-> ->]; [|by apply ce_none].
      destruct o, (t_ack t) as [r|]; try done; cbn in Hc; destruct (ack_chans _ !! r) as [ch|]; try done; cbn in Hc;
        destruct (drained ch); naive_solver.
    + destruct o as [o|], (t_ack t) as [r|] eqn:Er; try done; cbn in Hc;
        (destruct (ack_chans _ !! r) as [ch|] eqn:Ech; [|done]); cbn in Hc;
        (destruct (pull ch) as [[b' ch']|] eqn:Ep; [|done]); cbn in Hc;
        (destruct (Bool.eqb b b') eqn:Eb; [|done]); apply Bool.eqb_prop in Eb as <-; injection Hc as <- <-;
        by eapply ce_recv_ack.
    + destruct o; [|done]. injection Hc as <- <-. by apply ce_none.
  - destruct a as [| |d| | | |]; try done.
    + destruct (t_rx t) as [r|]; [|done]. cbn in Hc. destruct (heap _ !! r) as [ch|]; [|done]. cbn in Hc.
      destruct (drained ch); [|done]. injection Hc as <- <-. by apply ce_none.
    + destruct (t_rx t) as [r|] eqn:Er; [|done]. cbn in Hc.
      destruct (receive r _) as [[d' s']|] eqn:Ed; [|done]. cbn in Hc. case_bool_decide as Hd; [|done].
      subst d'. injection Hc as <- <-. by apply ce_data.
Qed.
End Calls.

Section World.
Context `{ChannelLib, Transport, UnicodeCase, RegexEngine, IpNets} (routing : RoutingConfig).
Hypothesis Hwf : wf_routing routing.

Definition sent (w : world) (s : side) : list Frame := ep_sent (end_of w s).

(** ** What a step does to the tasks and to what is sent *)

Inductive tasks_change (w w' : world) : Prop :=
| tc_same :
    w_tasks w' = w_tasks w → (∀ s, sent w' s = sent w s) →
    (w_opening w' = w_opening w ∨ w_opening w' = None ∧
       ∃ j t, w_opening w = Some j ∧ w_tasks w !! j = Some t ∧ fst (t_conf t) = Return) →
    tasks_change w w'
| tc_moved j t l cf rx ack :
    w_tasks w !! j = Some t → step (t_conf t) l cf → env_label l → (∀ p, l ≠ LSpawn p) →
    w_tasks w' = <[j := moved (holding t rx ack) l cf]> (w_tasks w) →
    (∀ s, sent w' s = sent w s ++ (if decide (t_side t = s) then frames_of [l] else [])) →
    w_opening w' = w_opening w → tasks_change w w'
| tc_spawn j t p k st :
    w_tasks w !! j = Some t → t_conf t = (Spawn p k, st) →
    w_tasks w' = <[j := moved (holding t None (t_ack t)) (LSpawn p) (k, st)]> (w_tasks w)
      ++ [new_task (t_side t) (t_id t) p (t_rx t)] →
    (∀ s, sent w' s = sent w s) → w_opening w' = w_opening w → tasks_change w w'
| tc_accept id fe p :
    fresh_id w id → (id ≤ U32_MAX)%N → (fe, p) ∈ handlers routing id →
    w_tasks w' = w_tasks w ++ [new_task AtClient id p None] →
    (∀ s, sent w' s = sent w s) → w_opening w' = w_opening w →
    tasks_change w w'
| tc_open m rest id dest :
    w_opening w = None → wire (in_of w AtServer) = m :: rest → decode m = Ok (Open id dest) →
    w_tasks w' = w_tasks w ++ [new_task AtServer id (handle_open id dest) None] →
    taken (in_of w' AtServer) = taken (in_of w AtServer) ++ [Open id dest] →
    (∀ s, sent w' s = sent w s) → w_opening w' = Some (length (w_tasks w)) →
    tasks_change w w'.

Lemma with_end_same (w : world) (s : side) (e : endpoint) :
  w_tasks (with_end w s e) = w_tasks w ∧
  w_acks (with_end w s e) = w_acks w ∧ w_opening (with_end w s e) = w_opening w ∧ w_ended (with_end w s e) = w_ended w.
Proof. by destruct s. Qed.

Lemma end_of_with_end (w : world) (s s' : side) (e : endpoint) :
  end_of (with_end w s e) s' = if decide (s = s') then e else end_of w s'.
Proof. by destruct s, s'. Qed.

Lemma sent_with_end (w : world) (s s' : side) (e : endpoint) :
  ep_sent e = sent w s → sent (with_end w s e) s' = sent w s'.
Proof. unfold sent. rewrite end_of_with_end. case_decide; [by subst|done]. Qed.

Lemma sent_with_link (w : world) (s s' : side) (l : link) : sent (with_link w s l) s' = sent w s'.
Proof. by apply sent_with_end. Qed.

(** A call's effect on what is sent, and on its task. *)
Lemma call_effect_sent (w w' : world) (t t' : task) (c : call) (a : answer) :
  call_effect w t c a w' t' →
  (∀ s, sent w' s = sent w s ++ (if decide (t_side t = s) then frames_of [LCall c a] else [])) ∧
  w_opening w' = w_opening w ∧ ∃ rx ack, ∀ l cf, moved t' l cf = moved (holding t rx ack) l cf.
Proof.
  assert (Hnil : ∀ s fs, fs = [] → sent w s = sent w s ++ (if decide (t_side t = s) then fs else [])).
  { intros s fs ->. case_decide; by rewrite app_nil_r. }
  intros []; (split; [intros s'|split; [by destruct (t_side t)|by exists (t_rx t), (t_ack t) + by eexists _, _]]).
  - rewrite sent_with_link. by apply Hnil.
  - rewrite sent_with_link. by apply Hnil.
  - by apply (Hnil s').
  - unfold sent. rewrite end_of_with_end. unfold push_frame in *.
    destruct (push f _) as [ch|]; [|done]. cbn in *. simplify_eq. cbn.
    case_decide as E; [by subst|by rewrite app_nil_r].
  - by apply (Hnil s').
  - rewrite sent_with_link. by apply Hnil.
  - by apply Hnil.
Qed.

Lemma world_step_tasks (w w' : world) : world_step routing w w' → tasks_change w w'.
Proof.
  assert (Hl : ∀ v s l, w_tasks v = w_tasks w → w_opening v = w_opening w →
    (∀ s, sent v s = sent w s) → tasks_change w (with_link v s l)).
  { intros v s l Ht Ho Hs. destruct (with_end_same v s (ep_link (end_of v s) l)) as (E1 & _ & E3 & _).
    apply tc_same; [by rewrite <- Ht, <- E1|intros s'; by rewrite sent_with_link, Hs|left; by rewrite <- Ho, <- E3]. }
  assert (Hs : ∀ s l x, tasks_change w (with_session (with_link w s l) x)).
  { intros s l x. apply tc_same; [by destruct s| |left; by destruct s].
    intros s'. rewrite <- (sent_with_link w s s' l). by destruct s'. }
  intros [who Hst]; destruct Hst as [w' Hst|id fe p Hge Hn Hin|s f c Hc Hh Hp|s f Hc Hh Hroom|s closes Hc Hp Hcs|s m rest e Hr Hw Hd|s r Hr|m rest f Hr Hw Hd
    |ev Hr Hev| |m rest f id dest Hr Hw Hd He|j t Hen Ho Hj Hf|m rest f act Hr Hw Hd He Hn|Hr|Hcan];
    try apply Hs.
  - destruct Hst as [j t c k st a w' t' [Hj Hpl] Hcf Ha Hc|j t p k st [Hj Hpl] Hcf|j t cf [Hj Hpl] Hst|j t r Hj Hcf Hrx l].
    + apply do_call_effect, call_effect_sent in Hc as (Hs' & Ho & rx & ack & Hm).
      eapply (tc_moved w _ j t (LCall c a) (k a, st) rx ack); try done; [rewrite Hcf; constructor|].
      cbn. by rewrite Hm.
    + by eapply tc_spawn.
    + by eapply (tc_moved w _ j t LTau cf (t_rx t) (t_ack t)); try done; intros s; case_decide; rewrite app_nil_r.
    + by apply Hl.
  - by eapply tc_accept.
  - apply tc_same; [by destruct s| |left; by destruct s]. intros s'. by apply sent_with_end.
  - apply Hl; [by destruct s..|]. intros s'. by apply sent_with_end.
  - apply tc_same; [by destruct s| |left; by destruct s]. intros s'. by apply sent_with_end.
  - by apply Hl.
  - by apply Hl.
  - rewrite (server_event_frame _ _ Hd) in He. destruct f; simplify_eq.
    eapply tc_open; [apply Hr|exact Hw|exact Hd|done| |intros s; exact (sent_with_link w AtServer s _)|done].
    done.
  - apply tc_same; [done..|]. right. split; [done|]. by exists j, t.
  - by apply Hl.
  - apply tc_same; [done| |by left]. intros s. exact (sent_with_link w AtServer s _).
  - apply tc_same; [done| |by left]. intros s. exact (sent_with_link w AtServer s _).
Qed.

(** ** Lists of tasks *)

Definition same_task (t t' : task) : Prop :=
  t_side t' = t_side t ∧ t_id t' = t_id t ∧ t_prog t' = t_prog t.

Lemma same_kind (t t' : task) : same_task t t' → t_kind t' = t_kind t.
Proof. intros (E1 & _ & E2). unfold t_kind. by rewrite E1, E2. Qed.

(** [k] is a kind of which a stream has at most one task. *)
Definition alone (ts : list task) : Prop :=
  ∀ j j' t t', ts !! j = Some t → ts !! j' = Some t' → t_kind t = t_kind t' → kind_side (t_kind t) ≠ None →
    t_id t = t_id t' → j = j'.

Lemma lookup_moved (ts : list task) (j i : nat) (t t' u : task) :
  ts !! j = Some t → <[j := t']> ts !! i = Some u →
  (i = j ∧ u = t') ∨ (i ≠ j ∧ ts !! i = Some u).
Proof.
  intros Hj. destruct (decide (i = j)) as [->|Hn].
  - rewrite list_lookup_insert_eq by (by eapply lookup_lt_Some). intros [= <-]. by left.
  - rewrite list_lookup_insert_ne by done. by right.
Qed.

Lemma lookup_stays (ts : list task) (j i : nat) (t t' u : task) :
  ts !! j = Some t → same_task t t' → ts !! i = Some u →
  ∃ u', <[j := t']> ts !! i = Some u' ∧ same_task u u' ∧ (i ≠ j → u' = u) ∧ (i = j → u' = t').
Proof.
  intros Hj Hsame Hi. destruct (decide (i = j)) as [->|Hn].
  - rewrite list_lookup_insert_eq by (by eapply lookup_lt_Some). assert (u = t) as -> by congruence. by exists t'.
  - rewrite list_lookup_insert_ne by done. by exists u.
Qed.

Lemma lookup_new (ts : list task) (i : nat) (t u : task) :
  (ts ++ [t]) !! i = Some u → ts !! i = Some u ∨ (i = length ts ∧ u = t).
Proof. intros [?|[Hl Hi]]%lookup_app_Some; [by left|]. apply list_lookup_singleton_Some in Hi as [? ->]. right. split; [lia|done]. Qed.

Lemma alone_moved (ts : list task) (j : nat) (t t' : task) :
  ts !! j = Some t → same_task t t' → alone ts → alone (<[j := t']> ts).
Proof.
  intros Hj Hs Ha.
  assert (Hold : ∀ i u, <[j := t']> ts !! i = Some u → ∃ u0, ts !! i = Some u0 ∧ t_kind u0 = t_kind u ∧ t_id u0 = t_id u).
  { intros i u [[-> ->]|[_ Hi]]%(lookup_moved _ _ _ _ _ _ Hj); [exists t|by exists u].
    rewrite (same_kind _ _ Hs). by destruct Hs as (_ & -> & _). }
  intros i i' u u' (u0 & Hi & Hk & Hid)%Hold (u0' & Hi' & Hk' & Hid')%Hold Hkk Hsd Hidd.
  apply (Ha i i' u0 u0' Hi Hi'); congruence.
Qed.

Lemma alone_new (ts : list task) (t : task) :
  (∀ j u, ts !! j = Some u → t_kind u = t_kind t → t_id u = t_id t → kind_side (t_kind t) = None) →
  alone ts → alone (ts ++ [t]).
Proof.
  intros Hn Ha i i' u u' [Hi|[-> ->]]%lookup_new [Hi'|[-> ->]]%lookup_new Hk Hs Hid; [by eapply Ha| | |done].
  - rewrite Hk in Hs. by destruct Hs; eapply Hn.
  - by destruct Hs; eapply Hn.
Qed.

(** ** What an end has sent of a stream *)

(** The part [pi] of a stream that end [s] has sent is what its task of kind
    [k] has sent of it. *)
Definition speaks {A : Type} (k : kind) (pi : N → list Frame → list A) (ts : list task) (fs : list Frame) : Prop :=
  (∀ j t, ts !! j = Some t → t_kind t = k → pi (t_id t) fs = pi (t_id t) (frames_of (t_hist t))) ∧
  (∀ i, pi i fs ≠ [] → ∃ j t, ts !! j = Some t ∧ t_kind t = k ∧ t_id t = i).

Lemma frames_of_one (l : label) : frames_of [l] = [] ∨ ∃ f, frames_of [l] = [f].
Proof. destruct l as [[] a| |]; cbn; auto. destruct (is_ok a); eauto. Qed.

Section Speaks.
Context {A : Type} (s : side) (k : kind) (pi : N → list Frame → list A).
Hypothesis pi_app : ∀ i fs gs, pi i (fs ++ gs) = pi i fs ++ pi i gs.
Hypothesis pi_nil : ∀ i, pi i [] = [].
Hypothesis k_side : kind_side k = Some s.
Hypothesis pi_only : ∀ t i f, frame_by t f → t_side t = s → pi i [f] ≠ [] → t_kind t = k ∧ t_id t = i.

Lemma speaks_moved (ts : list task) (fs : list Frame) (j : nat) (t : task) (rx ack : option nat) (l : label) (cf : config) :
  let t' := moved (holding t rx ack) l cf in
  alone ts → ts !! j = Some t → task_ok routing t' → speaks k pi ts fs →
  speaks k pi (<[j := t']> ts) (fs ++ (if decide (t_side t = s) then frames_of [l] else [])).
Proof.
  intros t' Ha Hj Hok [Hsp Hex].
  assert (Hl : ∀ i, pi i (if decide (t_side t = s) then frames_of [l] else []) ≠ [] → t_kind t = k ∧ t_id t = i).
  { intros i. case_decide as Hs; [|by rewrite pi_nil]. intros Hp. pose proof (task_frames _ Hwf _ Hok) as Hf.
    change (t_hist t') with (t_hist t ++ [l]) in Hf. rewrite frames_of_app in Hf. apply Forall_app in Hf as [_ Hf].
    destruct (frames_of_one l) as [E|[f E]]; rewrite E in *; [by rewrite pi_nil in Hp|].
    rewrite Forall_singleton in Hf. by apply (pi_only t' i f). }
  assert (Hst : same_task t t') by done.
  split.
  - intros i u [[-> ->]|[Hn Hi]]%(lookup_moved _ _ _ _ _ _ Hj) Hk; rewrite pi_app.
    + cbn [t' moved holding t_id t_hist]. change (t_kind t') with (t_kind t) in Hk.
      rewrite decide_True by (apply kind_side_of; by rewrite Hk). rewrite frames_of_app, pi_app.
      f_equal. by apply (Hsp j).
    + destruct (decide (pi (t_id u) (if decide (t_side t = s) then frames_of [l] else []) = [])) as [E|E]; [|exfalso].
      * rewrite E, app_nil_r. by apply (Hsp i).
      * apply Hl in E as [Hkt Hid]. apply Hn. apply (Ha i j u t); try done; congruence.
  - intros i. rewrite pi_app. intros Hp.
    assert (pi i fs ≠ [] ∨ pi i (if decide (t_side t = s) then frames_of [l] else []) ≠ []) as [Hp1|Hp1]
      by (destruct (pi i fs); [by right|by left]).
    + destruct (Hex i Hp1) as (i0 & u & Hi & Hk & Hid).
      destruct (lookup_stays _ _ _ _ _ _ Hj Hst Hi) as (u' & Hi' & Hs' & _). exists i0, u'.
      rewrite (same_kind _ _ Hs'). destruct Hs' as (_ & -> & _). done.
    + destruct (Hl i Hp1) as [Hk Hid]. exists j, t'. split; [|done].
      apply list_lookup_insert_eq. by eapply lookup_lt_Some.
Qed.

Lemma speaks_new (ts : list task) (fs : list Frame) (s' : side) (i : N) (p : prog) (rx : option nat) :
  (kind_of s' p = k → pi i fs = []) → speaks k pi ts fs → speaks k pi (ts ++ [new_task s' i p rx]) fs.
Proof.
  intros Hn [Hsp Hex]. split.
  - intros j t [Hj|[-> ->]]%lookup_new Hk; [by eapply Hsp|]. cbn. rewrite pi_nil. by apply Hn.
  - intros i' Hp. destruct (Hex i' Hp) as (j & t & Hj & Hk & Hid). exists j, t. split; [|done].
    by apply lookup_app_l_Some.
Qed.
End Speaks.

(** ** From a task's send to the peer's reader

    The frames an end has accepted are those its peer has read, those under
    way, the one its writer has in hand and those still queued; a writer that
    has failed loses the latter two. *)
Definition pipe (out : chan Frame) (hand : option Frame) (fs : list Frame) (l : link) : Prop :=
  ∃ todo rest, fs = taken l ++ todo ++ rest ∧ wire l = map encode todo ∧
    (is_closed out = false → rest = option_list hand ++ queued out).

Definition pipes (w : world) : Prop :=
  ∀ s, pipe (ep_out (end_of w s)) (ep_hand (end_of w s)) (sent w s) (in_of w (other s)).

Definition sound (w : world) : Prop := ∀ s, Forall wf_frame (sent w s).

Lemma pipe_same (out : chan Frame) (hand : option Frame) (fs : list Frame) (l l' : link) :
  taken l' = taken l → wire l' = wire l → pipe out hand fs l → pipe out hand fs l'.
Proof. unfold pipe. by intros -> ->. Qed.

Lemma next_message (w : world) (s : side) (m : bytes) (rest : list bytes) :
  pipes w → sound w → wire (in_of w s) = m :: rest →
  ∃ f todo q, decode m = Ok f ∧ rest = map encode todo ∧
    sent w (other s) = taken (in_of w s) ++ f :: todo ++ q ∧
    (is_closed (ep_out (end_of w (other s))) = false →
     q = option_list (ep_hand (end_of w (other s))) ++ queued (ep_out (end_of w (other s)))).
Proof.
  intros Hp Hs Hw. destruct (Hp (other s)) as (todo & q & Hq & Hwi & Hc).
  assert (E : other (other s) = s) by (by destruct s). rewrite E in Hq, Hwi. rewrite Hw in Hwi.
  destruct todo as [|f todo]; [done|]. cbn in Hwi. injection Hwi as -> ->. exists f, todo, q.
  split_and!; [|done|done|done]. specialize (Hs (other s)). rewrite Hq in Hs.
  apply Forall_app in Hs as [_ Hs]. inversion Hs; subst. by apply decode_encode_aux.
Qed.

(** Reading the next message. *)
Lemma pipes_take (w : world) (s : side) (m : bytes) (rest : list bytes) (f : Frame) (l' : link) :
  pipes w → sound w → wire (in_of w s) = m :: rest → decode m = Ok f →
  taken l' = taken (in_of w s) ++ [f] → wire l' = rest → pipes (with_link w s l').
Proof.
  intros Hp Hs Hw Hd Ht Hr s'. destruct (next_message w s m rest Hp Hs Hw) as (f' & todo & q & Hd' & -> & Hq & Hc).
  assert (f' = f) as -> by congruence. specialize (Hp s'). rewrite sent_with_link.
  unfold in_of, with_link in *. rewrite !end_of_with_end. destruct (decide (s = other s')) as [->|Hn].
  - assert (E : other (other s') = s') by (by destruct s'). rewrite E in *.
    rewrite decide_False by (by destruct s'). exists todo, q. cbn. rewrite Ht, <- app_assoc. by split_and!.
  - assert (s = s') as <- by (by destruct s, s'). by rewrite decide_True.
Qed.

Lemma pipes_link (w : world) (s : side) (l' : link) :
  pipes w → taken l' = taken (in_of w s) → wire l' = wire (in_of w s) → pipes (with_link w s l').
Proof.
  intros Hp Ht Hw s'. specialize (Hp s'). rewrite sent_with_link. unfold in_of, with_link in *.
  rewrite !end_of_with_end. destruct (decide (s = other s')) as [->|Hn].
  - rewrite decide_False by (by destruct s'). by eapply pipe_same.
  - assert (s = s') as <- by (by destruct s, s'). by rewrite decide_True.
Qed.

(** A frame is accepted; a frame is written; the writer fails. *)
Lemma pipes_send (w : world) (s : side) (f : Frame) (e : endpoint) :
  pipes w → push_frame f (end_of w s) = Some e → pipes (with_end w s e).
Proof.
  intros Hp He s'. specialize (Hp s'). unfold push_frame in He. destruct (push f _) as [c|] eqn:Ec; [|done].
  cbn in He. injection He as <-. apply push_spec in Ec as (Hc & _ & Hq & _ & Hc').
  unfold sent, in_of in *. rewrite !end_of_with_end. destruct (decide (s = s')) as [->|Hn].
  - rewrite decide_False by (by destruct s'). destruct Hp as (todo & q & Hs & Hw & Hr).
    exists todo, (q ++ [f]). cbn. rewrite Hs, Hq, (Hr Hc), <- !app_assoc. by split_and!.
  - assert (s = other s') as -> by (by destruct s, s'). by rewrite decide_True.
Qed.

(** The writer's own steps leave the peer's link alone, or put on it what they
    take from the hand. *)
Lemma pipes_hand (w : world) (s : side) (f : Frame) (c : chan Frame) :
  pipes w → ep_hand (end_of w s) = None → pull (ep_out (end_of w s)) = Some (f, c) →
  pipes (take_frame w s f c).
Proof.
  intros Hp Hh Hf s'. specialize (Hp s'). apply pull_spec in Hf as (Hq & _ & Hc).
  unfold take_frame. rewrite (sent_with_end w s s' (ep_writer (end_of w s) c (Some f)) eq_refl).
  unfold in_of in *. rewrite !end_of_with_end. destruct (decide (s = s')) as [->|Hn].
  - rewrite decide_False by (by destruct s'). destruct Hp as (todo & q & Hs & Hw & Hr). exists todo, q.
    cbn. split_and!; [done..|]. intros E. rewrite Hr, Hh, Hq by congruence. done.
  - rewrite decide_True by (by destruct s, s'). assert (s = other s') as -> by (by destruct s, s').
    exact Hp.
Qed.

Lemma pipes_write (w : world) (s : side) (f : Frame) :
  pipes w → is_closed (ep_out (end_of w s)) = false → ep_hand (end_of w s) = Some f →
  pipes (write_frame w s f).
Proof.
  intros Hp Hcl Hh s'. specialize (Hp s'). unfold write_frame. set (w1 := with_end _ _ _).
  rewrite sent_with_link. unfold w1. rewrite (sent_with_end w s s' (ep_writer _ _ None) eq_refl).
  unfold in_of, with_link in *. rewrite !end_of_with_end.
  destruct (decide (s = s')) as [->|Hn].
  - rewrite (decide_True (P:=other s' = other s')) by done. rewrite (decide_False (P:=other s' = s')) by (by destruct s').
    rewrite (decide_False (P:=s' = other s')) by (by destruct s'). destruct Hp as (todo & q & Hs & Hw & Hr).
    exists (todo ++ [f]), (queued (ep_out (end_of w s'))). cbn. rewrite Hs, (Hr Hcl), Hh, Hw, map_app, <- !app_assoc.
    by split_and!.
  - assert (s = other s') as -> by (by destruct s, s'). assert (E : other (other s') = s') by (by destruct s').
    rewrite E, (decide_True (P:=s' = s')) by done.
    rewrite (decide_False (P:=s' = other s')) by (by destruct s'). rewrite (decide_True (P:=other s' = other s')) by done.
    rewrite (decide_False (P:=other s' = s')) by (by destruct s'). exact Hp.
Qed.

Lemma pipes_fail (w : world) (s : side) (c : chan Frame) (l' : link) :
  pipes w → taken l' = taken (in_of w s) → wire l' = wire (in_of w s) →
  pipes (with_end w s {| ep_out := shut c; ep_hand := None; ep_sent := ep_sent (end_of w s); ep_in := l' |}).
Proof.
  intros Hp Ht Hw s'. specialize (Hp s'). unfold sent, in_of in *. rewrite !end_of_with_end.
  destruct (decide (s = s')) as [->|Hn].
  - rewrite decide_False by (by destruct s'). destruct Hp as (todo & q & Hs & Hwi & _). exists todo, q. cbn.
    rewrite shut_closed. by split_and!.
  - rewrite decide_True by (by destruct s, s'). assert (s = other s') as -> by (by destruct s, s').
    by eapply pipe_same.
Qed.

Lemma pipes_ext (w w' : world) : (∀ s, end_of w' s = end_of w s) → pipes w → pipes w'.
Proof. intros He Hp s. specialize (Hp s). unfold sent, in_of in *. by rewrite !He. Qed.

Lemma end_with_tasks (w : world) (ts : list task) (s : side) : end_of (with_tasks w ts) s = end_of w s.
Proof. by destruct s. Qed.

Lemma end_with_session (w : world) (x : session) (s : side) : end_of (with_session w x) s = end_of w s.
Proof. by destruct s. Qed.

Lemma pipes_step (w w' : world) : world_step routing w w' → pipes w → sound w → pipes w'.
Proof.
  intros Hst Hp Hs.
  destruct Hst as [who Hst]; destruct Hst as [w' Hst|id fe p Hge Hn Hin|s f c Hc Hh Hf|s f Hc Hh Hroom|s closes Hc Hf Hcs|s m rest e Hr Hw Hd|s r Hr|m rest f Hr Hw Hd
    |ev Hr Hev| |m rest f id dest Hr Hw Hd He|j t Hen Ho Hj Hf|m rest f act Hr Hw Hd He Hn|Hr|Hcan].
  - destruct Hst as [j t c k st a w' t' [Hj Hpl] Hcf Ha Hc|j t p k st [Hj Hpl] Hcf|j t cf [Hj Hpl] Hst|j t r Hj Hcf Hrx l];
      [| | |by apply pipes_link]; (eapply pipes_ext; [intros s; apply end_with_tasks|]); [|done..].
    apply do_call_effect in Hc. destruct Hc; try (by apply pipes_link); try done.
    by eapply pipes_send.
  - by eapply pipes_ext; [|exact Hp]; intros [].
  - by apply pipes_hand.
  - by apply pipes_write.
  - by apply pipes_fail; [done|destruct closes..].
  - destruct (next_message w s m rest Hp Hs Hw) as (f & _ & _ & Hd' & _). congruence.
  - by apply pipes_link.
  - eapply pipes_ext; [intros s; apply end_with_session|]. eapply pipes_take; [done|done|exact Hw|exact Hd|by destruct f|by destruct f].
  - by eapply pipes_ext; [intros s; apply end_with_session|]; apply pipes_link.
  - by eapply pipes_ext; [intros s; apply end_with_session|]; apply pipes_link.
  - unfold server_open. set (w1 := with_link _ _ _). eapply (pipes_ext w1); [by intros []|]. eapply pipes_take; [done|done|exact Hw|exact Hd|by destruct f|by destruct f].
  - by eapply pipes_ext; [|exact Hp]; intros [].
  - eapply pipes_take; [done|done|exact Hw|exact Hd|by destruct f|by destruct f].
  - unfold server_stop. set (w1 := with_link _ _ _). eapply (pipes_ext w1); [by intros []|]. by apply pipes_link.
  - unfold server_cancel. set (w1 := with_link _ _ _). eapply (pipes_ext w1); [by intros []|]. by apply pipes_link.
Qed.

(** ** The invariant *)

Record tasks_inv (w : world) : Prop := {
  ti_task j t : w_tasks w !! j = Some t → task_ok routing t;
  ti_alone : alone (w_tasks w);
  ti_up : speaks Handler by_stream (w_tasks w) (sent w AtClient);
  ti_down : speaks Streamer payloads (w_tasks w) (sent w AtServer);
  ti_acks : speaks Opener acks_in (w_tasks w) (sent w AtServer);
  ti_sound : sound w;
  ti_pipes : pipes w;
  ti_opener j t : w_tasks w !! j = Some t → t_kind t = Opener →
    ∃ dest, t_prog t = handle_open (t_id t) dest ∧ Open (t_id t) dest ∈ taken (in_of w AtServer);
  ti_streamer j t : w_tasks w !! j = Some t → t_kind t = Streamer →
    ∃ j' o, w_tasks w !! j' = Some o ∧ t_kind o = Opener ∧ t_id o = t_id t ∧ spawns_of (t_hist o) ≠ []
}.

(** ** Consequences *)

(** The frames of a stream that the client has sent are its handler's. *)
Lemma stream_sent (w : world) (i : N) :
  tasks_inv w → by_stream i (sent w AtClient) ≠ [] →
  ∃ j t dest first ds closed lost,
    w_tasks w !! j = Some t ∧ t_kind t = Handler ∧ t_id t = i ∧ request_of (t_hist t) = Some (dest, first) ∧
    by_stream i (sent w AtClient) = stream_frames i dest ds closed ∧
    concat ds ++ lost = first ++ reads_of (t_hist t).
Proof.
  intros Hi Hn. destruct (ti_up _ Hi) as [Hsp Hex]. destruct (Hex i Hn) as (j & t & Hj & Hk & <-).
  pose proof (Hsp j t Hj Hk) as Hs. pose proof (task_frames _ Hwf _ (ti_task _ Hi _ _ Hj)) as Hf.
  assert (Hall : by_stream (t_id t) (frames_of (t_hist t)) = frames_of (t_hist t)).
  { clear Hs. induction Hf as [|f fs (_ & Hf & _) _ IH]; [done|]. unfold by_stream in *. by rewrite filter_cons_True, IH. }
  rewrite Hs, Hall in Hn |- *. destruct (handler_frames _ Hwf t (ti_task _ Hi _ _ Hj) Hk)
    as [?|(dest & first & ds & closed & lost & ? & ? & ? & _)]; [done|]. by exists j, t, dest, first, ds, closed, lost.
Qed.

(** A stream's OPEN reaches the server once, before anything else of it. *)
Lemma open_new (w : world) (m : bytes) (rest : list bytes) (id : N) (dest : bytes) :
  tasks_inv w → wire (in_of w AtServer) = m :: rest → decode m = Ok (Open id dest) →
  (id ≤ U32_MAX)%N ∧ utf8_valid dest = true ∧ by_stream id (taken (in_of w AtServer)) = [] ∧
  ∀ j t, w_tasks w !! j = Some t → t_kind t = Opener → t_id t ≠ id.
Proof.
  intros Hi Hw Hd. destruct (next_message w AtServer m rest (ti_pipes _ Hi) (ti_sound _ Hi) Hw)
    as (f & todo & q & Hd' & _ & Hq & _). rewrite Hd in Hd'. injection Hd' as <-. cbn [other] in Hq.
  assert (Hfw : wf_frame (Open id dest)).
  { pose proof (ti_sound _ Hi AtClient) as Hs. rewrite Hq in Hs. apply Forall_app in Hs as [_ Hs]. by inversion Hs. }
  destruct Hfw as [Hid Hv].
  assert (Hn : by_stream id (sent w AtClient) ≠ []).
  { rewrite Hq, by_stream_app. unfold by_stream at 2. rewrite filter_cons_True by done. by destruct (by_stream id _). }
  destruct (stream_sent w id Hi Hn) as (j & t & d & first & ds & closed & lost & _ & _ & _ & _ & Hs & _).
  rewrite Hq in Hs. apply open_first in Hs. split_and!; [done..|]. intros j' u Hj' Hk <-.
  destruct (ti_opener _ Hi j' u Hj' Hk) as (d' & _ & Hin).
  assert (Hx : Open (t_id u) d' ∈ by_stream (t_id u) (taken (in_of w AtServer))) by (by apply list_elem_of_filter).
  rewrite Hs in Hx. by apply elem_of_nil in Hx.
Qed.

Lemma by_stream_only (t : task) (i : N) (f : Frame) :
  frame_by t f → t_side t = AtClient → by_stream i [f] ≠ [] → t_kind t = Handler ∧ t_id t = i.
Proof.
  intros (_ & Hf & Hk) Hs Hb. unfold by_stream in Hb. rewrite filter_cons in Hb. case_decide as E; [|done].
  split; [|congruence]. destruct (t_kind t) eqn:Ek; try done; pose proof (kind_side_of t AtServer) as Hx;
    rewrite Ek, Hs in Hx; by specialize (Hx eq_refl).
Qed.

Lemma payloads_only (t : task) (i : N) (f : Frame) :
  frame_by t f → t_side t = AtServer → payloads i [f] ≠ [] → t_kind t = Streamer ∧ t_id t = i.
Proof.
  intros (_ & Hf & Hk) Hs Hb. destruct f as [|?|?|j d|]; try done. cbn in Hf. injection Hf as <-.
  destruct (decide (j = i)) as [->|Hn]; [|by rewrite payloads_other in Hb]. split; [|done].
  destruct (t_kind t) eqn:Ek; try done. pose proof (kind_side_of t AtClient) as Hx.
  rewrite Ek, Hs in Hx. by specialize (Hx eq_refl).
Qed.

Lemma acks_only (t : task) (i : N) (f : Frame) :
  frame_by t f → t_side t = AtServer → acks_in i [f] ≠ [] → t_kind t = Opener ∧ t_id t = i.
Proof.
  intros (_ & Hf & Hk) Hs Hb. destruct f as [|?|j b| |]; try done. cbn in Hf. injection Hf as <-.
  unfold acks_in in Hb. cbn in Hb. destruct (j =? i)%N eqn:E; [|done]. apply N.eqb_eq in E as ->.
  by destruct (t_kind t).
Qed.

Lemma world_step_taken (w w' : world) (s : side) :
  world_step routing w w' → taken (in_of w s) `prefix_of` taken (in_of w' s).
Proof.
  assert (Hl : ∀ v s' l, (∀ s, taken (in_of w s) `prefix_of` taken (in_of v s)) →
    taken (in_of w s') `prefix_of` taken l → taken (in_of w s) `prefix_of` taken (in_of (with_link v s' l) s)).
  { intros v s' l Hv Hp. unfold in_of, with_link in *. rewrite end_of_with_end. case_decide; [by subst|apply Hv]. }
  assert (Hx : ∀ v v', (∀ s, end_of v s = end_of v' s) → taken (in_of w s) `prefix_of` taken (in_of v' s) →
    taken (in_of w s) `prefix_of` taken (in_of v s)).
  { intros v v' Hv. unfold in_of. by rewrite Hv. }
  intros Hst.
  destruct Hst as [who Hst]; destruct Hst as [w' Hst|id fe p Hge Hn Hin|s0 f c Hc Hh Hf|s0 f Hc Hh Hroom|s0 closes Hc Hf Hcs|s0 m rest e Hr Hw Hd|s0 r Hr|m rest f Hr Hw Hd
    |ev Hr Hev| |m rest f id dest Hr Hw Hd He|j t Hen Ho Hj Hf|m rest f act Hr Hw Hd He Hn|Hr|Hcan].
  - destruct Hst as [j t c k st a w' t' [Hj Hpl] Hcf Ha Hc|j t p k st [Hj Hpl] Hcf|j t cf [Hj Hpl] Hst|j t r Hj Hcf Hrx l];
      [| | |by apply Hl]; (eapply Hx; [intros s1; apply end_with_tasks|]); try done.
    apply do_call_effect in Hc. destruct Hc as [i l|i l|i|f e He| | |]; try (by apply Hl); try done.
    unfold in_of. rewrite end_of_with_end. case_decide as E; [subst s|done].
    unfold push_frame in He. destruct (push f _); [|done]. cbn in He. by injection He as <-.
  - by destruct s.
  - by destruct s0, s.
  - by destruct s0, s.
  - unfold writer_end, in_of. rewrite end_of_with_end. case_decide; [subst; by destruct closes|done].
  - by apply Hl.
  - by apply Hl.
  - eapply Hx; [intros s1; apply end_with_session|]. apply Hl; [done|]. destruct f; by apply prefix_app_r.
  - by eapply Hx; [intros s1; apply end_with_session|]; apply Hl.
  - by eapply Hx; [intros s1; apply end_with_session|]; apply Hl.
  - unfold server_open. set (w1 := with_link _ _ _). eapply (Hx _ w1); [by intros []|]. apply Hl; [done|]. destruct f; by apply prefix_app_r.
  - by destruct s.
  - apply Hl; [done|]. destruct f; by apply prefix_app_r.
  - unfold server_stop. set (w1 := with_link _ _ _). eapply (Hx _ w1); [by intros []|]. by apply Hl.
  - unfold server_cancel. set (w1 := with_link _ _ _). eapply (Hx _ w1); [by intros []|]. by apply Hl.
Qed.

(** ** Every step keeps the invariant *)

Lemma tasks_inv_init : tasks_inv world_init.
Proof.
  split; try (by intros j t Hj); try (by split; [intros j t Hj|intros i Hn]); cbn.
  - intros []; constructor.
  - intros []; exists [], []; cbn; (split_and!; [done..|]); intros _; unfold frame_channel;
      by destruct (bounded_spec (A:=Frame) 128) as (-> & _).
Qed.

(** The part about tasks, for a step of a task and for a new task. *)
Record tasks_part (ts : list task) (up down tk : list Frame) : Prop := {
  tp_task j t : ts !! j = Some t → task_ok routing t;
  tp_alone : alone ts;
  tp_up : speaks Handler by_stream ts up;
  tp_down : speaks Streamer payloads ts down;
  tp_acks : speaks Opener acks_in ts down;
  tp_opener j t : ts !! j = Some t → t_kind t = Opener →
    ∃ dest, t_prog t = handle_open (t_id t) dest ∧ Open (t_id t) dest ∈ tk;
  tp_streamer j t : ts !! j = Some t → t_kind t = Streamer →
    ∃ j' o, ts !! j' = Some o ∧ t_kind o = Opener ∧ t_id o = t_id t ∧ spawns_of (t_hist o) ≠ []
}.

Lemma tasks_inv_part (w : world) :
  tasks_inv w → tasks_part (w_tasks w) (sent w AtClient) (sent w AtServer) (taken (in_of w AtServer)).
Proof. by intros []. Qed.

Definition added (t : task) (s : side) (l : label) : list Frame := if decide (t_side t = s) then frames_of [l] else [].

Lemma part_moved (ts : list task) (up down tk : list Frame) (j : nat) (t : task)
    (rx ack : option nat) (l : label) (cf : config) :
  tasks_part ts up down tk → ts !! j = Some t → step (t_conf t) l cf → env_label l →
  tasks_part (<[j := moved (holding t rx ack) l cf]> ts) (up ++ added t AtClient l) (down ++ added t AtServer l) tk.
Proof.
  intros [Ht Ha Hu Hd Hk Ho Hs] Hj Hst Hl. set (t' := moved (holding t rx ack) l cf).
  assert (Hok : task_ok routing t') by (by apply task_ok_moved; [eapply Ht|..]).
  assert (Hsame : same_task t t') by done.
  split.
  - intros i u [[-> ->]|[_ Hi]]%(lookup_moved _ _ _ _ _ _ Hj); [done|by eapply Ht].
  - by eapply alone_moved.
  - apply (speaks_moved AtClient); [by intros; apply by_stream_app|done|done|apply by_stream_only|done..].
  - apply (speaks_moved AtServer); [by intros; apply payloads_app|done|done|apply payloads_only|done..].
  - apply (speaks_moved AtServer); [by intros; apply acks_in_app|done|done|apply acks_only|done..].
  - intros i u [[-> ->]|[_ Hi]]%(lookup_moved _ _ _ _ _ _ Hj); [by apply (Ho j t)|by eapply Ho].
  - assert (Hgo : ∀ i u, ts !! i = Some u → t_kind u = Streamer → ∃ j' o, <[j:=t']> ts !! j' = Some o ∧ t_kind o = Opener ∧
      t_id o = t_id u ∧ spawns_of (t_hist o) ≠ []).
    { intros i u Hi Hu'. destruct (Hs i u Hi Hu') as (i' & o & Hi' & Hok' & Hid & Hsp).
      destruct (lookup_stays _ _ _ _ _ _ Hj Hsame Hi') as (o' & Ho' & Hso & Hne & Heq).
      exists i', o'. rewrite (same_kind _ _ Hso). pose proof Hso as (_ & -> & _). split_and!; [done..|].
      destruct (decide (i' = j)) as [E|E]; [|by rewrite Hne]. rewrite Heq by done. assert (o = t) as -> by congruence.
      cbn. unfold spawns_of in *. rewrite omap_app. by destruct (omap _ (t_hist t)). }
    intros i u [[-> ->]|[_ Hi]]%(lookup_moved _ _ _ _ _ _ Hj); [by apply (Hgo j t)|by eapply Hgo].
Qed.

Lemma part_new (ts : list task) (up down tk : list Frame) (s : side) (i : N) (p : prog) (rx : option nat) :
  let t := new_task s i p rx in
  tasks_part ts up down tk → task_ok routing t →
  (kind_side (t_kind t) ≠ None → ∀ j u, ts !! j = Some u → t_kind u = t_kind t → t_id u ≠ i) →
  (t_kind t = Opener → ∃ dest, p = handle_open i dest ∧ Open i dest ∈ tk) →
  (t_kind t = Streamer → ∃ j' o, ts !! j' = Some o ∧ t_kind o = Opener ∧ t_id o = i ∧ spawns_of (t_hist o) ≠ []) →
  tasks_part (ts ++ [t]) up down tk.
Proof.
  intros t [Ht Ha Hu Hd Hk Ho Hs] Hok Hfresh Hop Hst.
  assert (Hsp : ∀ {A} (k : kind) (pi : N → list Frame → list A) fs, (∀ i, pi i [] = []) → kind_side k ≠ None →
    speaks k pi ts fs → speaks k pi (ts ++ [t]) fs).
  { intros A k pi fs Hnil Hks Hsp. apply speaks_new; [done| |done]. intros Hkk.
    destruct (pi i fs) eqn:E; [done|]. exfalso. destruct (proj2 Hsp i) as (j & u & Hj & Hku & Hid); [by rewrite E|].
    change (t_kind t = k) in Hkk. apply (Hfresh ltac:(by rewrite Hkk) j u Hj); congruence. }
  split.
  - intros j u [Hj|[-> ->]]%lookup_new; [by eapply Ht|done].
  - apply alone_new; [|done]. intros j u Hj Hku Hid. destruct (kind_side (t_kind t)) eqn:E; [|done].
    by destruct (Hfresh ltac:(done) j u Hj Hku).
  - by apply Hsp.
  - by apply Hsp.
  - by apply Hsp.
  - intros j u [Hj|[-> ->]]%lookup_new Hku; [by eapply Ho|by apply Hop].
  - assert (Hin : ∀ j' o, ts !! j' = Some o → (ts ++ [t]) !! j' = Some o) by (intros; by apply lookup_app_l_Some).
    intros j u [Hj|[-> ->]]%lookup_new Hku; [destruct (Hs j u Hj Hku) as (j' & o & ? & ?)|destruct (Hst Hku) as (j' & o & ? & ?)];
      exists j', o; (split; [by apply Hin|done]).
Qed.

Lemma part_taken (ts : list task) (up down tk tk' : list Frame) :
  tk `prefix_of` tk' → tasks_part ts up down tk → tasks_part ts up down tk'.
Proof.
  intros [k ->] [Ht Ha Hu Hd Hk Ho Hs]. split; try done.
  intros j t Hj Hkt. destruct (Ho j t Hj Hkt) as (dest & ? & ?). exists dest. split; [done|]. apply elem_of_app. by left.
Qed.

Lemma part_spawn (ts : list task) (up down tk : list Frame) (j : nat) (t : task) (p k : prog) (st : list (prog * prog)) :
  tasks_part ts up down tk → ts !! j = Some t → t_conf t = (Spawn p k, st) →
  tasks_part (<[j := moved (holding t None (t_ack t)) (LSpawn p) (k, st)]> ts ++ [new_task (t_side t) (t_id t) p (t_rx t)])
    up down tk.
Proof.
  intros Hp Hj Hcf.
  pose proof (task_spawn _ Hwf t p k st (t_rx t) (tp_task _ _ _ _ Hp _ _ Hj) Hcf) as (_ & Hok & Hkind).
  assert (Hm : tasks_part (<[j := moved (holding t None (t_ack t)) (LSpawn p) (k, st)]> ts) up down tk).
  { assert (Hadd : ∀ s fs, fs ++ added t s (LSpawn p) = fs) by (intros; unfold added; case_decide; apply app_nil_r).
    rewrite <- (Hadd AtClient up), <- (Hadd AtServer down). apply part_moved; [done..| |done]. rewrite Hcf. constructor. }
  pose proof Hm as [_ Ha _ _ _ _ Hs]. set (t' := moved _ _ _) in *.
  assert (Hj' : <[j := t']> ts !! j = Some t') by (apply list_lookup_insert_eq; by eapply lookup_lt_Some).
  apply part_new; [done|done| | |]; destruct Hkind as [Hk|[Hk|(Hk & Hk' & Hsp)]];
    try (intros Hx; rewrite Hk in Hx; done).
  - intros _ i u Hi Hku Hid. rewrite Hk' in Hku. destruct (Hs i u Hi Hku) as (i' & o & Hi' & Hko & Hido & Hspo).
    destruct (lookup_moved _ _ _ _ _ _ Hj Hi') as [[-> ->]|[Hne Hio]].
    + destruct (tp_streamer _ _ _ _ Hp i u) as (j0 & o0 & Hj0 & Hk0 & Hid0 & Hs0); [|done|].
      { destruct (lookup_moved _ _ _ _ _ _ Hj Hi) as [[-> ->]|[_ ?]]; [|done].
        change (t_kind t = Streamer) in Hku. congruence. }
      assert (j0 = j) as -> by (apply (tp_alone _ _ _ _ Hp j0 j o0 t); [done..|congruence|by rewrite Hk0|congruence]).
      congruence.
    + apply Hne. apply (tp_alone _ _ _ _ Hp i' j o t); [done..|congruence|by rewrite Hko|congruence].
  - intros Hx. congruence.
  - intros _. exists j, t'. split_and!; [done|done|done|]. cbn. unfold spawns_of. rewrite omap_app. by destruct (omap _ _).
Qed.

Lemma tasks_inv_step (w w' : world) : world_step routing w w' → tasks_inv w → tasks_inv w'.
Proof.
  intros Hst Hi. pose proof (pipes_step _ _ Hst (ti_pipes _ Hi) (ti_sound _ Hi)) as Hpipes.
  pose proof (world_step_taken _ _ AtServer Hst) as Htk. pose proof (tasks_inv_part _ Hi) as Hp.
  apply (part_taken _ _ _ _ _ Htk) in Hp.
  assert (Hgo : sound w' → tasks_part (w_tasks w') (sent w' AtClient) (sent w' AtServer) (taken (in_of w' AtServer)) →
    tasks_inv w') by (by intros Hs []).
  assert (Hsame : (∀ s, sent w' s = sent w s) → sound w') by (intros E s; rewrite E; apply (ti_sound _ Hi)).
  apply world_step_tasks in Hst.
  destruct Hst as [Ht Hs _|j t l cf rx ack Hj Hst Hl Hnsp Ht Hs _|j t p k st Hj Hcf Ht Hs _|id fe p Hge Hle Hin Ht Hs _
    |m rest id dest Ho Hw Hd Ht Htaken Hs _]; (apply Hgo; [try by apply Hsame|rewrite Ht, !Hs]).
  - done.
  - pose proof (task_ok_moved _ t rx ack l cf (ti_task _ Hi _ _ Hj) Hst Hl) as Hok.
    intros s. rewrite Hs. apply Forall_app. split; [apply (ti_sound _ Hi)|]. case_decide; [|constructor].
    pose proof (task_frames _ Hwf _ Hok) as Hf. cbn in Hf. rewrite frames_of_app in Hf.
    apply Forall_app in Hf as [_ Hf]. eapply Forall_impl; [exact Hf|]. by intros f [? _].
  - by apply part_moved.
  - by apply part_spawn.
  - pose proof (handler_kind _ _ _ _ Hin) as Hk.
    assert (Hok : task_ok routing (new_task AtClient id p None)).
    { apply task_ok_new. unfold role_ok, t_kind. cbn. rewrite Hk. eauto. }
    apply part_new; unfold t_kind; cbn; rewrite ?Hk; try done.
    intros _ j u Hj Hku Hid. change (t_kind u = Handler) in Hku.
    destruct (Hge j u Hj (kind_side_of u AtClient ltac:(by rewrite Hku)) Hid) as [E|E]; unfold t_kind in Hku; rewrite E in Hku; by destruct (t_side u).
  - destruct (open_new w m rest id dest Hi Hw Hd) as (Hid & Hv & _ & Hfresh).
    assert (Hok : task_ok routing (new_task AtServer id (handle_open id dest) None)).
    { apply task_ok_new. unfold role_ok, t_kind. cbn. rewrite opener_kind. eauto. }
    apply part_new; unfold t_kind; cbn; rewrite ?opener_kind; try done.
    intros _. exists dest. split; [done|]. rewrite Htaken. apply elem_of_app. right. left.
Qed.
End World.
