(* ===== verification/WorldLinks.v ===== *)
(** * Invariants of a session, II: data channels

    What a step does to an end's receiving half; the order "registered, then
    OPEN acknowledged, then DATA" as an invariant; and from it [link_ok] of
    both directions: nothing is lost, reordered or mixed up between a reader
    and the write tasks, and a write task receives the payloads of its own
    stream. *)
From S2P Require Import Prelude Utf8 Text Net Frame GeoSite GeoIp Routing Sock Http Socks5 Task Relay.
From S2P Require Import Channel Registry Control Mux Client ClientProtocol ClientTraces Ssrf Server Flow Link Roles.
From S2P Require Import Tunnel World Threads WorldOk.

#[local] Arguments by_stream : simpl never.
#[local] Arguments payloads : simpl never.

Section World.
Context `{ChannelLib, Transport, UnicodeCase, RegexEngine, IpNets} (routing : RoutingConfig).
Hypothesis Hwf : wf_routing routing.

(** ** What a step does to a receiving half *)

Inductive link_effect (w : world) (s : side) : link → Prop :=
| le_same : link_effect w s (in_of w s)
| le_put m : link_effect w s (put_wire (in_of w s) m)
| le_skip rest : link_effect w s (skip_link (in_of w s) rest)
| le_close i : link_effect w s (set_reg (in_of w s) (close i (reg (in_of w s))))
| le_close_all : link_effect w s (set_reg (in_of w s) (close_all (reg (in_of w s))))
| le_resume r : route_finish (reg (in_of w s)) = Some r → link_effect w s (set_reg (in_of w s) r)
| le_open j t i k st :
    w_tasks w !! j = Some t → t_side t = s → t_conf t = (Do (Register i) k, st) →
    link_effect w s (open_link i (in_of w s))
| le_take rest f r :
    reader_ready w s → (∀ i, payloads i [f] = []) →
    r = reg (in_of w s) ∨ (∃ i, r = close i (reg (in_of w s))) →
    link_effect w s (take_one (in_of w s) rest f r)
| le_data rest i d :
    reader_ready w s →
    link_effect w s (read_link (in_of w s) rest (Data i d) (route_start i d (reg (in_of w s))))
| le_got j t r d r' :
    w_tasks w !! j = Some t → t_side t = s → t_rx t = Some r → receive r (reg (in_of w s)) = Some (d, r') →
    link_effect w s (log_got (in_of w s) r d r')
| le_drop j t r :
    w_tasks w !! j = Some t → t_side t = s → t_rx t = Some r → fst (t_conf t) = Return ∨ frozen w j →
    link_effect w s (log_drop (set_reg (in_of w s) (drop_receiver r (reg (in_of w s)))) r)
| le_cut : s = AtServer → w_ended w = false → link_effect w s (cut_link (in_of w s)).

Lemma in_of_with_link (w : world) (s s' : side) (l : link) :
  in_of (with_link w s l) s' = if decide (s = s') then l else in_of w s'.
Proof. unfold in_of, with_link. rewrite end_of_with_end. by case_decide. Qed.

Lemma in_of_ext (w w' : world) (s : side) : end_of w s = end_of w' s → in_of w s = in_of w' s.
Proof. unfold in_of. by intros ->. Qed.

(** Only one end's receiving half is touched. *)
Lemma link_effect_with (w w0 : world) (s : side) (l : link) :
  (∀ s', end_of w0 s' = end_of (with_link w s l) s') → link_effect w s l → ∀ s', link_effect w s' (in_of w0 s').
Proof.
  intros He Hl s'. rewrite (in_of_ext _ _ _ (He s')), in_of_with_link. case_decide; [by subst|constructor].
Qed.

Lemma world_step_link (w w' : world) : world_step routing w w' → ∀ s, link_effect w s (in_of w' s).
Proof.
  assert (Hsame : ∀ w0, (∀ s, in_of w0 s = in_of w s) → ∀ s, link_effect w s (in_of w0 s))
    by (intros w0 E s; rewrite E; constructor).
  intros [who Hst]; destruct Hst as [w' Hst|id fe p Hge Hn Hin|s0 f c Hc Hh Hf|s0 f Hc Hh Hroom|s0 closes Hc Hf Hcs|s0 m rest e Hr Hw Hd|s0 r Hr|m rest f Hr Hw Hd
    |ev Hr Hev| |m rest f id dest Hr Hw Hd He|j t Hen Ho Hj Hf|m rest f act Hr Hw Hd He Hn|Hr|Hcan].
  - destruct Hst as [j t c k st a w' t' [Hj Hpl] Hcf Ha Hc|j t p k st [Hj Hpl] Hcf|j t cf [Hj Hpl] Hst|j t r Hj Hcf Hrx l];
      [|by apply Hsame; intros []|by apply Hsame; intros []|by eapply link_effect_with; [|eapply le_drop]].
    apply do_call_effect in Hc. destruct Hc as [i l|i l|i|f e He|o b r ch ch' Hr Hch Hp|d r s Hr Hd|];
      try (by apply Hsame; intros []).
    + by eapply link_effect_with; [intros ?; apply end_with_tasks|eapply le_open].
    + by eapply link_effect_with; [intros ?; apply end_with_tasks|apply le_close].
    + apply Hsame. intros s. unfold in_of. rewrite end_with_tasks, end_of_with_end. case_decide as E; [subst s|done].
      unfold push_frame in He. destruct (push f _); [|done]. cbn in He. by injection He as <-.
    + by eapply link_effect_with; [intros ?; apply end_with_tasks|eapply le_got].
  - by apply Hsame; intros [].
  - apply Hsame. intros s. by destruct s0, s.
  - unfold write_frame. set (w1 := with_end _ _ _). assert (E : in_of w1 (other s0) = in_of w (other s0)) by (by destruct s0). rewrite E.
    intros s. rewrite in_of_with_link. case_decide as Hs; [subst s; constructor|].
    assert (in_of w1 s = in_of w s) as -> by (by destruct s0, s). constructor.
  - intros s. unfold writer_end, in_of. rewrite end_of_with_end. case_decide as Hs; [subst s|constructor].
    cbn. destruct closes; constructor.
  - eapply link_effect_with; [done|constructor].
  - by eapply link_effect_with; [|apply le_resume].
  - eapply link_effect_with; [intros ?; apply end_with_session|]. unfold reader_event. rewrite Hd.
    destruct f; try (apply le_take; [done|done|]); try (by left); [|by apply le_data|right; by eexists].
    left. unfold deliver_ack. by destruct (pending_acks _ !! id).
  - eapply link_effect_with; [intros ?; apply end_with_session|].
    assert (registry (reader_event ev (client_session w)) = close_all (reg (in_of w AtClient))) as -> by (destruct ev as [|d|d| | |]; try done; by destruct (Hev d)).
    constructor.
  - eapply link_effect_with; [intros ?; apply end_with_session|]. apply le_close_all.
  - eapply (link_effect_with _ _ AtServer); [by intros []|]. rewrite (server_event_frame _ _ Hd) in He. destruct f; try done.
    cbn. apply le_take; [done|done|by left].
  - by apply Hsame; intros [].
  - eapply link_effect_with; [done|]. rewrite (server_event_frame _ _ Hd) in He. destruct f; subst act; cbn;
      [apply le_take; auto|by destruct (Hn id dest)|apply le_take; auto|by apply le_data|apply le_take; eauto].
  - eapply (link_effect_with _ _ AtServer); [by intros []|]. apply le_close_all.
  - eapply (link_effect_with _ _ AtServer); [by intros []|]. by apply le_cut.
Qed.

(** ** The server's reader waits for the opener *)

Record opening_inv (w : world) : Prop := {
  oi_wait j t : w_tasks w !! j = Some t → t_kind t = Opener → fst (t_conf t) ≠ Return → w_opening w = Some j;
  oi_fresh j : w_opening w = Some j →
    ∃ t, w_tasks w !! j = Some t ∧ t_kind t = Opener ∧ payloads (t_id t) (taken (in_of w AtServer)) = []
}.

Lemma opening_inv_init : opening_inv world_init.
Proof. split; [by intros j t Hj|by intros j Hj]. Qed.

(** While it waits it takes nothing. *)
Lemma waiting_taken (w w' : world) :
  world_step routing w w' → w_opening w ≠ None → taken (in_of w' AtServer) = taken (in_of w AtServer).
Proof.
  intros Hst Ho. apply (world_step_link _ _) with (s := AtServer) in Hst.
  assert (Hno : ¬ reader_ready w AtServer) by (by intros (_ & _ & ?)). by destruct Hst.
Qed.

(** A task that has not returned was where it is, or moved there. *)
Lemma step_not_return (cf cf' : config) (l : label) : step cf l cf' → fst cf ≠ Return.
Proof. by destruct 1. Qed.

Lemma opening_inv_step (w w' : world) :
  world_step routing w w' → tasks_inv routing w → opening_inv w → opening_inv w'.
Proof.
  intros Hst Hi [Hwait Hfresh]. pose proof (waiting_taken _ _ Hst) as Htk. apply world_step_tasks in Hst.
  assert (Hkeep : ∀ ts, w_tasks w' = ts → w_opening w' = w_opening w →
    (∀ i u, ts !! i = Some u → t_kind u = Opener → fst (t_conf u) ≠ Return → ∃ u0, w_tasks w !! i = Some u0 ∧
       t_kind u0 = Opener ∧ fst (t_conf u0) ≠ Return) →
    (∀ i u, w_tasks w !! i = Some u → ∃ u', ts !! i = Some u' ∧ same_task u u') → opening_inv w').
  { intros ts Ht Ho Hback Hforth. split.
    - intros i u. rewrite Ht, Ho. intros Hu Hk Hn. destruct (Hback i u Hu Hk Hn) as (u0 & ? & ? & ?). by eapply Hwait.
    - intros i. rewrite Ht, Ho. intros Hio. destruct (Hfresh i Hio) as (u & Hu & Hk & Hp).
      destruct (Hforth i u Hu) as (u' & Hu' & Hs). exists u'. rewrite (same_kind _ _ Hs).
      destruct Hs as (_ & -> & _). rewrite Htk by (by rewrite Hio). done. }
  destruct Hst as [Ht _ [Ho|(Ho & j & t & Hoj & Hj & Hr)]|j t l cf rx ack Hj Hst Hl Hnsp Ht _ Ho|j t p k st Hj Hcf Ht _ Ho
    |id fe p Hge Hle Hin Ht _ Ho|m rest id dest Hop Hw Hd Ht Htaken _ Ho].
  - apply (Hkeep (w_tasks w)); [done..|by eauto|intros i u Hu; by exists u].
  - split; [|intros i; by rewrite Ho]. intros i u. rewrite Ht. intros Hu Hk Hn. pose proof (Hwait i u Hu Hk Hn) as Hx.
    rewrite Hoj in Hx. injection Hx as ->. congruence.
  - apply (Hkeep _ Ht Ho).
    + intros i u [[-> ->]|[_ Hi']]%(lookup_moved _ _ _ _ _ _ Hj) Hk Hn; [|by exists u].
      exists t. split_and!; [done|done|by eapply step_not_return].
    + intros i u Hu. destruct (lookup_stays _ j i t (moved (holding t rx ack) l cf) u Hj ltac:(done) Hu) as (u' & ? & ? & _). by exists u'.
  - apply (Hkeep _ Ht Ho).
    + pose proof (task_spawn _ Hwf t p k st (t_rx t) (ti_task _ _ Hi _ _ Hj) Hcf) as (_ & _ & Hkind).
      intros i u [Hu|[-> ->]]%lookup_new Hk Hn.
      * apply (lookup_moved _ _ _ _ _ _ Hj) in Hu as [[-> ->]|[_ Hi']]; [|by exists u].
        exists t. split_and!; [done|done|by rewrite Hcf].
      * destruct Hkind as [E|[E|(_ & E & _)]]; congruence.
    + intros i u Hu. destruct (lookup_stays _ j i t (moved (holding t None (t_ack t)) (LSpawn p) (k, st)) u Hj ltac:(done) Hu)
        as (u' & Hu' & ? & _). exists u'. split; [by apply lookup_app_l_Some|done].
  - apply (Hkeep _ Ht Ho).
    + intros i u [Hu|[-> ->]]%lookup_new Hk Hn; [by exists u|]. unfold t_kind in Hk. cbn in Hk.
      by rewrite (handler_kind _ _ _ _ Hin) in Hk.
    + intros i u Hu. exists u. split; [by apply lookup_app_l_Some|done].
  - split.
    + intros i u. rewrite Ht, Ho. intros [Hu|[-> ->]]%lookup_new Hk Hn; [|done].
      pose proof (Hwait i u Hu Hk Hn). congruence.
    + intros i. rewrite Ht, Ho. intros [= <-]. exists (new_task AtServer id (handle_open id dest) None).
      destruct (open_new _ Hwf w m rest id dest Hi Hw Hd) as (_ & _ & Hb & _).
      split_and!; [by apply list_lookup_middle|unfold t_kind; cbn; by rewrite opener_kind|].
      rewrite Htaken, payloads_app. cbn. by rewrite (payloads_nil _ _ Hb).
Qed.

(** ** Registrations *)

Lemma cancelled_ended (w : world) : w_reader w = Cancelled → w_ended w = true.
Proof. unfold w_ended. by intros ->. Qed.

Definition registrar (s : side) : kind := match s with AtClient => Handler | AtServer => Opener end.

(** Stream [i] has been registered at end [s]. *)
Definition reg_at (ts : list task) (s : side) (i : N) : Prop :=
  ∃ j t, ts !! j = Some t ∧ t_kind t = registrar s ∧ t_id t = i ∧ regs_of (t_hist t) ≠ [].

Record links_inv (w : world) : Prop := {
  li_link s : link_ok (λ _, True) (in_of w s);
  li_lost s : lost (in_of w s) = None ∨ s = AtServer ∧ w_reader w = Cancelled;
  li_owner s r i : owner (in_of w s) !! r = Some i → reg_at (w_tasks w) s i;
  li_rx j t r : w_tasks w !! j = Some t → t_rx t = Some r → owner (in_of w (t_side t)) !! r = Some (t_id t);
  li_rx_alone j j' t t' r : w_tasks w !! j = Some t → w_tasks w !! j' = Some t' → t_side t = t_side t' →
    t_rx t = Some r → t_rx t' = Some r → j = j';
  li_data j t : w_tasks w !! j = Some t →
    data_of (t_hist t) = match t_rx t with Some r => got (in_of w (t_side t)) r | None => [] end
}.

Lemma links_inv_init : links_inv world_init.
Proof.
  split; [intros []; apply link_ok_init|intros []; by left| |by intros j t r Hj|by intros j j' t t' r Hj|by intros j t Hj].
  intros [] r i Hr; cbn in Hr; by rewrite lookup_empty in Hr.
Qed.

(** A stream is registered once, before any of its payloads is read. *)
Lemma register_guard (w : world) (j : nat) (t : task) (i : N) (k : answer → prog) (st : list (prog * prog)) :
  tasks_inv routing w → opening_inv w → links_inv w →
  w_tasks w !! j = Some t → t_conf t = (Do (Register i) k, st) →
  (∀ r, owner (in_of w (t_side t)) !! r ≠ Some i) ∧ payloads i (taken (in_of w (t_side t))) = [].
Proof.
  intros Hi Ho Hl Hj Hcf. pose proof (ti_task _ _ Hi _ _ Hj) as Hok.
  destruct (task_register _ Hwf t i k st Hok Hcf) as (-> & Hreg & Hk).
  assert (Hrole : t_kind t = registrar (t_side t)).
  { destruct Hk as [[Hk _]|Hk]; [rewrite (kind_side_of t AtClient)|rewrite (kind_side_of t AtServer)]; by rewrite ?Hk. }
  split.
  - intros r Hr. destruct (li_owner _ Hl _ _ _ Hr) as (j' & t' & Hj' & Hk' & Hid & Hne).
    assert (j' = j) as ->; [|congruence].
    apply (ti_alone _ _ Hi j' j t' t Hj' Hj); [congruence|rewrite Hk'; by destruct (t_side t)|done].
  - destruct Hk as [[Hk Hf]|Hk].
    + rewrite (kind_side_of t AtClient) by (by rewrite Hk).
      destruct (payloads (t_id t) (taken (in_of w AtClient))) eqn:E; [done|exfalso].
      assert (Hn : payloads (t_id t) (sent w AtServer) ≠ []).
      { destruct (ti_pipes _ _ Hi AtServer) as (todo & q & Hq & _). rewrite Hq, payloads_app. cbn [other]. by rewrite E. }
      destruct (proj2 (ti_down _ _ Hi) _ Hn) as (j1 & t1 & Hj1 & Hk1 & Hid1).
      destruct (ti_streamer _ _ Hi j1 t1 Hj1 Hk1) as (j2 & t2 & Hj2 & Hk2 & Hid2 & _).
      destruct (ti_opener _ _ Hi j2 t2 Hj2 Hk2) as (dest & _ & Hin).
      pose proof (proj1 (ti_up _ _ Hi) j t Hj Hk) as Hs. rewrite Hf in Hs.
      assert (Hx : Open (t_id t) dest ∈ by_stream (t_id t) (sent w AtClient)).
      { apply list_elem_of_filter. split; [done|]. destruct (ti_pipes _ _ Hi AtClient) as (todo & q & -> & _).
        apply elem_of_app. left. by rewrite <- Hid1, <- Hid2. }
      rewrite Hs in Hx. by apply elem_of_nil in Hx.
    + rewrite (kind_side_of t AtServer) by (by rewrite Hk).
      pose proof (oi_wait _ Ho j t Hj Hk ltac:(by rewrite Hcf)) as Hop.
      destruct (oi_fresh _ Ho j Hop) as (t' & Hj' & _ & Hp). congruence.
Qed.

Lemma link_effect_ok (w : world) (s : side) (l : link) :
  tasks_inv routing w → opening_inv w → links_inv w → link_effect w s l → link_ok (λ _, True) l.
Proof.
  intros Hi Ho Hl. pose proof (li_link _ Hl s) as Hok.
  destruct 1 as [|m|rest|i| |r Hr|j t i k st Hj Hs Hcf|rest f r Hr Hp Hreg|rest i d Hr|j t r d r' Hj Hs Hrx Hr|j t r Hj Hs Hrx|Hs Hen].
  - done.
  - by apply link_ok_put.
  - by destruct Hok.
  - by apply link_ok_close.
  - by apply link_ok_close_all.
  - by apply link_ok_resume.
  - apply link_ok_open; [done|]. intros _. subst s. by eapply register_guard.
  - apply link_ok_take; [done|]. destruct Hreg as [->|[i ->]]; [by destruct Hok|by apply link_ok_close].
  - apply link_ok_data; [done|by destruct Hr|]. destruct (li_lost _ Hl s) as [?|[-> ?%cancelled_ended]]; [done|].
    destruct Hr as (_ & ? & _). congruence.
  - by apply link_ok_receive.
  - apply link_ok_drop_receiver; [done|]. subst s. eapply lo_dom; [exact Hok|]. by eapply li_rx.
  - apply link_ok_cut; [done|]. destruct (li_lost _ Hl s) as [?|[_ ?%cancelled_ended]]; [done|congruence].
Qed.

(** ** What a step does to channels' streams and to what is taken out *)

Definition logs_same (w w' : world) : Prop :=
  ∀ s, owner (in_of w' s) = owner (in_of w s) ∧ got (in_of w' s) = got (in_of w s).

Inductive logs_change (w w' : world) : Prop :=
| lc_quiet :
    logs_same w w' →
    w_tasks w' = w_tasks w ∨ (∃ s i p, w_tasks w' = w_tasks w ++ [new_task s i p None] ∧ (kind_of s p = Handler ∨ kind_of s p = Opener)) →
    logs_change w w'
| lc_moved j t l cf ack :
    logs_same w w' → w_tasks w !! j = Some t → step (t_conf t) l cf → data_of [l] = [] → regs_of [l] = [] →
    w_tasks w' = <[j := moved (holding t (t_rx t) ack) l cf]> (w_tasks w) → logs_change w w'
| lc_spawn j t p k st :
    logs_same w w' → w_tasks w !! j = Some t → t_conf t = (Spawn p k, st) →
    w_tasks w' = <[j := moved (holding t None (t_ack t)) (LSpawn p) (k, st)]> (w_tasks w)
      ++ [new_task (t_side t) (t_id t) p (t_rx t)] → logs_change w w'
| lc_register j t i k st :
    w_tasks w !! j = Some t → t_conf t = (Do (Register i) k, st) →
    let r := fresh (reg (in_of w (t_side t))) in
    w_tasks w' = <[j := moved (holding t (Some r) (t_ack t)) (LCall (Register i) AOk) (k AOk, st)]> (w_tasks w) →
    (∀ s, owner (in_of w' s) = (if decide (t_side t = s) then <[r := i]> else id) (owner (in_of w s)) ∧
          got (in_of w' s) = got (in_of w s)) → logs_change w w'
| lc_got j t r d k st :
    w_tasks w !! j = Some t → t_conf t = (Do DataRecv k, st) → t_rx t = Some r →
    w_tasks w' = <[j := moved t (LCall DataRecv (ABytes d)) (k (ABytes d), st)]> (w_tasks w) →
    (∀ s, owner (in_of w' s) = owner (in_of w s) ∧
          got (in_of w' s) = (if decide (t_side t = s) then upd (got (in_of w s)) r (got (in_of w s) r ++ [d])
                              else got (in_of w s))) → logs_change w w'.

Lemma logs_with_link (w w0 : world) (s : side) (l : link) :
  (∀ s', end_of w0 s' = end_of (with_link w s l) s') → owner l = owner (in_of w s) → got l = got (in_of w s) → logs_same w w0.
Proof.
  intros He Ho Hg s'. rewrite (in_of_ext _ _ _ (He s')), in_of_with_link. by case_decide; subst.
Qed.

Lemma tasks_with_link (w : world) (s : side) (l : link) : w_tasks (with_link w s l) = w_tasks w.
Proof. by destruct s. Qed.

Lemma world_step_logs (w w' : world) : world_step routing w w' → logs_change w w'.
Proof.
  assert (Hsame : ∀ w0, (∀ s, end_of w0 s = end_of w s) → logs_same w w0)
    by (intros w0 E s; rewrite (in_of_ext _ _ _ (E s)); done).
  intros [who Hst]; destruct Hst as [w' Hst|id fe p Hge Hn Hin|s0 f c Hc Hh Hf|s0 f Hc Hh Hroom|s0 closes Hc Hf Hcs|s0 m rest e Hr Hw Hd|s0 r Hr|m rest f Hr Hw Hd
    |ev Hr Hev| |m rest f id dest Hr Hw Hd He|j t Hen Ho Hj Hf|m rest f act Hr Hw Hd He Hn|Hr|Hcan].
  - destruct Hst as [j t c k st a w' t' [Hj Hpl] Hcf Ha Hc|j t p k st [Hj Hpl] Hcf|j t cf [Hj Hpl] Hst|j t r Hj Hcf Hrx l].
    + apply do_call_effect in Hc.
      assert (Hmv : ∀ w0 ack, logs_same w w0 → data_of [LCall c a] = [] → regs_of [LCall c a] = [] →
        logs_change w (with_tasks w0 (<[j := moved (holding t (t_rx t) ack) (LCall c a) (k a, st)]> (w_tasks w)))).
      { intros w0 ack Hls Hdt Hrg. eapply lc_moved; [|exact Hj|by rewrite Hcf; constructor|done..].
        intros s. rewrite (in_of_ext _ w0) by apply end_with_tasks. apply Hls. }
      destruct Hc as [i l|i l|i|f e He|o b r ch ch' Hr Hch Hp|d r s Hr Hd|].
      * eapply lc_register; [done..|]. intros s. rewrite (in_of_ext _ _ _ (end_with_tasks _ _ _)), in_of_with_link.
        case_decide; [by subst|done].
      * apply (Hmv _ (t_ack t)); [|done..]. by eapply logs_with_link.
      * apply Hmv; [|done..]. apply Hsame. intros s. apply end_with_session.
      * apply (Hmv _ (t_ack t)); [|done..]. intros s. unfold in_of. rewrite end_of_with_end. case_decide as E; [subst s|done].
        unfold push_frame in He. destruct (push f _); [|done]. cbn in He. by injection He as <-.
      * apply (Hmv _ (t_ack t)); [|done..]. apply Hsame. intros s'. apply end_with_session.
      * eapply lc_got; [done..|]. intros s'. rewrite (in_of_ext _ _ _ (end_with_tasks _ _ _)), in_of_with_link.
        case_decide; [by subst|done].
      * by apply (Hmv _ (t_ack t)).
    + eapply lc_spawn; [|done..]. apply Hsame. intros s. apply end_with_tasks.
    + apply (lc_moved _ _ j t LTau cf (t_ack t)); [|done..]. apply Hsame. intros s. apply end_with_tasks.
    + apply lc_quiet; [by eapply logs_with_link|left; apply tasks_with_link].
  - apply lc_quiet; [apply Hsame; by intros []|right; eexists _, _, _]. split; [done|]. left. by eapply handler_kind.
  - apply lc_quiet; [|left; by destruct s0]. intros s. by destruct s0, s.
  - apply lc_quiet; [|left; by destruct s0]. intros s. by destruct s0, s.
  - apply lc_quiet; [|left; by destruct s0]. intros s. destruct closes; by destruct s0, s.
  - apply lc_quiet; [by eapply logs_with_link|left; apply tasks_with_link].
  - apply lc_quiet; [by eapply logs_with_link|left; apply tasks_with_link].
  - apply lc_quiet; [|left; apply tasks_with_link]. eapply logs_with_link; [intros ?; apply end_with_session|by destruct f..].
  - apply lc_quiet; [|left; apply tasks_with_link]. by eapply logs_with_link; [intros ?; apply end_with_session|..].
  - apply lc_quiet; [|left; apply tasks_with_link]. by eapply logs_with_link; [intros ?; apply end_with_session|..].
  - apply lc_quiet; [|right; eexists _, _, _; split; [done|right; apply opener_kind]]. eapply (logs_with_link _ _ AtServer); [by intros []|by destruct f..].
  - apply lc_quiet; [apply Hsame; by intros []|by left].
  - apply lc_quiet; [|left; apply tasks_with_link]. eapply logs_with_link; [done|by destruct f..].
  - apply lc_quiet; [|by left]. by eapply (logs_with_link _ _ AtServer); [by intros []|..].
  - apply lc_quiet; [|by left]. by eapply (logs_with_link _ _ AtServer); [by intros []|..].
Qed.

(** ** The invariant is kept *)

Lemma reg_at_app (ts ts' : list task) (s : side) (i : N) : reg_at ts s i → reg_at (ts ++ ts') s i.
Proof. intros (j & t & Hj & ?). exists j, t. split; [by apply lookup_app_l_Some|done]. Qed.

Lemma reg_at_moved (ts : list task) (s : side) (i : N) (j : nat) (t : task) (rx ack : option nat) (l : label) (cf : config) :
  ts !! j = Some t → reg_at ts s i → reg_at (<[j := moved (holding t rx ack) l cf]> ts) s i.
Proof.
  intros Hj (j0 & u & Hu & Hk & Hid & Hr).
  destruct (lookup_stays _ j j0 t (moved (holding t rx ack) l cf) u Hj ltac:(done) Hu) as (u' & Hu' & Hs & Hne & Heq).
  exists j0, u'. rewrite (same_kind _ _ Hs). destruct Hs as (_ & -> & _). split_and!; [done..|].
  destruct (decide (j0 = j)) as [E|E]; [|by rewrite Hne]. rewrite Heq by done. assert (u = t) as -> by congruence.
  cbn. rewrite regs_of_app. by destruct (regs_of (t_hist t)).
Qed.

(** The receivers, for a step that leaves the logs alone. *)
Definition rx_ok (w : world) (ts : list task) : Prop :=
  (∀ j t r, ts !! j = Some t → t_rx t = Some r → owner (in_of w (t_side t)) !! r = Some (t_id t)) ∧
  (∀ j j' t t' r, ts !! j = Some t → ts !! j' = Some t' → t_side t = t_side t' →
    t_rx t = Some r → t_rx t' = Some r → j = j') ∧
  (∀ j t, ts !! j = Some t →
    data_of (t_hist t) = match t_rx t with Some r => got (in_of w (t_side t)) r | None => [] end).

Lemma rx_ok_logs (w w' : world) (ts : list task) : logs_same w w' → rx_ok w ts → rx_ok w' ts.
Proof.
  intros Hl (Ho & Ha & Hd). split_and!; [intros j t r|exact Ha|intros j t]; 
    destruct (Hl (t_side t)) as [Eo Eg]; rewrite ?Eo, ?Eg; [apply Ho|apply Hd].
Qed.

Lemma rx_ok_new (w : world) (ts : list task) (s : side) (i : N) (p : prog) :
  rx_ok w ts → rx_ok w (ts ++ [new_task s i p None]).
Proof.
  intros (Ho & Ha & Hd). split_and!.
  - intros j t r [Hj|[-> ->]]%lookup_new; [by eapply Ho|done].
  - intros j j' t t' r [Hj|[-> ->]]%lookup_new [Hj'|[-> ->]]%lookup_new; try done. by eapply Ha.
  - intros j t [Hj|[-> ->]]%lookup_new; [by eapply Hd|done].
Qed.

Lemma rx_ok_moved (w : world) (ts : list task) (j : nat) (t : task) (ack : option nat) (l : label) (cf : config) :
  ts !! j = Some t → data_of [l] = [] → rx_ok w ts → rx_ok w (<[j := moved (holding t (t_rx t) ack) l cf]> ts).
Proof.
  intros Hj Hl (Ho & Ha & Hd).
  assert (Hold : ∀ i u, <[j := moved (holding t (t_rx t) ack) l cf]> ts !! i = Some u → ∃ u0, ts !! i = Some u0 ∧
    t_side u0 = t_side u ∧ t_id u0 = t_id u ∧ t_rx u0 = t_rx u ∧ data_of (t_hist u0) = data_of (t_hist u)).
  { intros i u [[-> ->]|[_ Hi]]%(lookup_moved _ _ _ _ _ _ Hj); [exists t|by exists u].
    cbn. by rewrite data_of_app, Hl, app_nil_r. }
  split_and!.
  - intros i u r (u0 & Hi & <- & <- & <- & _)%Hold. by apply (Ho i).
  - intros i i' u u' r (u0 & Hi & <- & _ & <- & _)%Hold (u0' & Hi' & <- & _ & <- & _)%Hold. by apply Ha.
  - intros i u (u0 & Hi & <- & _ & <- & <-)%Hold. by apply (Hd i).
Qed.

(** The receiver moves to the spawned task. *)
Lemma rx_ok_spawn (w : world) (ts : list task) (j : nat) (t : task) (p : prog) (cf : config) :
  ts !! j = Some t → data_of (t_hist t) = [] → rx_ok w ts →
  rx_ok w (<[j := moved (holding t None (t_ack t)) (LSpawn p) cf]> ts ++ [new_task (t_side t) (t_id t) p (t_rx t)]).
Proof.
  intros Hj Hnil (Ho & Ha & Hd). set (t' := moved _ _ _).
  assert (Hrx : ∀ i u r, <[j := t']> ts !! i = Some u → t_rx u = Some r → ts !! i = Some u ∧ i ≠ j).
  { intros i u r [[-> ->]|[Hn Hi]]%(lookup_moved _ _ _ _ _ _ Hj); [done|auto]. }
  split_and!.
  - intros i u r [Hi|[-> ->]]%lookup_new Hr; [destruct (Hrx i u r Hi Hr); by eapply Ho|by apply (Ho j t)].
  - intros i i' u u' r [Hi|[-> ->]]%lookup_new [Hi'|[-> ->]]%lookup_new Hs Hr Hr'; [| | |done].
    + destruct (Hrx i u r Hi Hr), (Hrx i' u' r Hi' Hr'). by eapply (Ha i i' u u' r).
    + destruct (Hrx i u r Hi Hr) as [Hu Hn]. destruct Hn. by apply (Ha i j u t r).
    + destruct (Hrx i' u' r Hi' Hr') as [Hu Hn]. destruct Hn. by apply (Ha i' j u' t r).
  - intros i u [Hi|[-> ->]]%lookup_new.
    + apply (lookup_moved _ _ _ _ _ _ Hj) in Hi as [[-> ->]|[_ Hi]]; [|by apply (Hd i)].
      cbn. by rewrite data_of_app, Hnil.
    + cbn. pose proof (Hd j t Hj) as Hx. rewrite Hnil in Hx. by destruct (t_rx t).
Qed.

(** The receiver of a new channel. *)
Lemma rx_ok_register (w w' : world) (ts : list task) (j : nat) (t : task) (k : answer → prog) (st : list (prog * prog)) :
  let r := fresh (reg (in_of w (t_side t))) in
  (∀ s, link_ok (λ _, True) (in_of w s)) → task_ok routing t → t_conf t = (Do (Register (t_id t)) k, st) →
  ts !! j = Some t →
  (∀ s, owner (in_of w' s) = (if decide (t_side t = s) then <[r := t_id t]> else id) (owner (in_of w s)) ∧
        got (in_of w' s) = got (in_of w s)) →
  rx_ok w ts →
  rx_ok w' (<[j := moved (holding t (Some r) (t_ack t)) (LCall (Register (t_id t)) AOk) (k AOk, st)]> ts).
Proof.
  intros r Hlk Hok Hcf Hj Hw (Ho & Ha & Hd).
  assert (Hfresh : ∀ i u, ts !! i = Some u → t_side u = t_side t → t_rx u ≠ Some r).
  { intros i u Hu Hs Hr. pose proof (Ho i u r Hu Hr) as Hx. rewrite Hs in Hx.
    apply (lo_dom _ _ (Hlk _)) in Hx. unfold r in Hx. rewrite fresh_heap in Hx by apply Hlk. by destruct Hx. }
  assert (Hdata : data_of (t_hist t) = []).
  { apply (task_data _ Hwf); [done|]. destruct (task_register _ Hwf t _ _ _ Hok Hcf) as (_ & _ & [[-> _]| ->]); done. }
  split_and!.
  - intros i u r' [[-> ->]|[Hn Hi]]%(lookup_moved _ _ _ _ _ _ Hj).
    + destruct (Hw (t_side t)) as [E _]. cbn. intros [= <-]. rewrite E, decide_True by done. apply lookup_insert_eq.
    + intros Hr. pose proof (Ho i u r' Hi Hr) as Hx. destruct (Hw (t_side u)) as [-> _]. case_decide as Es; [|done].
      rewrite lookup_insert_ne; [done|]. intros <-. by apply (Hfresh i u).
  - intros i i' u u' r' [[-> ->]|[Hn Hi]]%(lookup_moved _ _ _ _ _ _ Hj) [[-> ->]|[Hn' Hi']]%(lookup_moved _ _ _ _ _ _ Hj) Hs Hr Hr';
      [done| | |by eapply (Ha i i' u u')]; cbn in Hs, Hr, Hr'; simplify_eq.
    + by destruct (Hfresh i' u' Hi').
    + by destruct (Hfresh i u Hi).
  - intros i u [[-> ->]|[Hn Hi]]%(lookup_moved _ _ _ _ _ _ Hj).
    + cbn. destruct (Hw (t_side t)) as [_ ->]. rewrite data_of_app, Hdata. cbn.
      unfold r. by destruct (link_fresh _ _ (Hlk (t_side t))) as [-> _].
    + destruct (Hw (t_side u)) as [_ ->]. by apply (Hd i).
Qed.

(** A payload is taken out. *)
Lemma rx_ok_got (w w' : world) (ts : list task) (j : nat) (t : task) (r : nat) (d : bytes) (cf : config) :
  ts !! j = Some t → t_rx t = Some r →
  (∀ s, owner (in_of w' s) = owner (in_of w s) ∧
        got (in_of w' s) = (if decide (t_side t = s) then upd (got (in_of w s)) r (got (in_of w s) r ++ [d])
                            else got (in_of w s))) →
  rx_ok w ts → rx_ok w' (<[j := moved t (LCall DataRecv (ABytes d)) cf]> ts).
Proof.
  intros Hj Hr Hw (Ho & Ha & Hd).
  split_and!.
  - intros i u r' [[-> ->]|[Hn Hi]]%(lookup_moved _ _ _ _ _ _ Hj) Hx.
    + destruct (Hw (t_side t)) as [E _]. cbn. rewrite E. by apply (Ho j).
    + destruct (Hw (t_side u)) as [-> _]. by apply (Ho i).
  - intros i i' u u' r' [[-> ->]|[Hn Hi]]%(lookup_moved _ _ _ _ _ _ Hj) [[-> ->]|[Hn' Hi']]%(lookup_moved _ _ _ _ _ _ Hj) Hs Hx Hx';
      [done|by apply (Ha j i' t u' r')|by apply (Ha i j u t r')|by eapply (Ha i i' u u')].
  - intros i u [[-> ->]|[Hn Hi]]%(lookup_moved _ _ _ _ _ _ Hj).
    + cbn. destruct (Hw (t_side t)) as [_ ->]. rewrite decide_True, Hr, data_of_app by done.
      rewrite (Hd j t Hj), Hr. unfold upd. by rewrite Nat.eqb_refl.
    + destruct (Hw (t_side u)) as [_ ->]. rewrite (Hd i u Hi). case_decide as Es; [|done].
      destruct (t_rx u) as [r'|] eqn:Er; [|done]. unfold upd. destruct (Nat.eqb_spec r' r) as [->|]; [|done].
      destruct Hn. by apply (Ha i j u t r).
Qed.

(** A reader that is over stays where it is. *)
Lemma ended_step (w w' : world) : world_step routing w w' → w_ended w = true → w_reader w' = w_reader w.
Proof.
  intros Hst He.
  destruct Hst as [who Hst]; destruct Hst as [w' Hst| | | |s closes| | | | | | | | |[_ [Hr _]]|Hcan]; try done; try (by destruct s); try congruence.
  destruct Hst as [j t c k st a w' t' [Hj Hpl] Hcf Ha Hc| | |]; try done; [|by destruct (t_side t)].
  apply do_call_effect in Hc. destruct Hc; try done; by destruct (t_side t).
Qed.

(** Only the shutdown loses a payload. *)
Definition lost_same (w w' : world) : Prop := ∀ s, lost (in_of w' s) = lost (in_of w s).

Lemma lost_with_link (w w0 : world) (s : side) (l : link) :
  (∀ s', end_of w0 s' = end_of (with_link w s l) s') → lost l = lost (in_of w s) → lost_same w w0.
Proof. intros He Hl s'. rewrite (in_of_ext _ _ _ (He s')), in_of_with_link. by case_decide; subst. Qed.

Lemma world_step_lost (w w' : world) : world_step routing w w' → lost_same w w' ∨ w' = server_cancel w.
Proof.
  assert (Hsame : ∀ w0, (∀ s, end_of w0 s = end_of w s) → lost_same w w0)
    by (intros w0 E s; by rewrite (in_of_ext _ _ _ (E s))).
  intros [who Hst]; destruct Hst as [w' Hst|id fe p Hge Hn Hin|s0 f c Hc Hh Hf|s0 f Hc Hh Hroom|s0 closes Hc Hf Hcs|s0 m rest e Hr Hw Hd|s0 r Hr|m rest f Hr Hw Hd
    |ev Hr Hev| |m rest f id dest Hr Hw Hd He|j t Hen Ho Hj Hf|m rest f act Hr Hw Hd He Hn|Hr|Hcan]; [left..|by right].
  - destruct Hst as [j t c k st a w' t' [Hj Hpl] Hcf Ha Hc|j t p k st [Hj Hpl] Hcf|j t cf [Hj Hpl] Hst|j t r Hj Hcf Hrx l];
      [|by apply Hsame; intros []|by apply Hsame; intros []|by eapply lost_with_link].
    apply do_call_effect in Hc. destruct Hc as [i l|i l|i|f e He|o b r ch ch' Hr Hch Hp|d r s Hr Hd|];
      try (by apply Hsame; intros []); try (by eapply lost_with_link; [intros ?; apply end_with_tasks|]).
    intros s. unfold in_of. rewrite end_with_tasks, end_of_with_end. case_decide as E; [subst s|done].
    unfold push_frame in He. destruct (push f _); [|done]. cbn in He. by injection He as <-.
  - by apply Hsame; intros [].
  - intros s. by destruct s0, s.
  - intros s. by destruct s0, s.
  - intros s. destruct closes; by destruct s0, s.
  - by eapply lost_with_link.
  - by eapply lost_with_link.
  - eapply lost_with_link; [intros ?; apply end_with_session|]. by destruct f.
  - by eapply lost_with_link; [intros ?; apply end_with_session|].
  - by eapply lost_with_link; [intros ?; apply end_with_session|].
  - eapply (lost_with_link _ _ AtServer); [by intros []|]. by destruct f.
  - by apply Hsame; intros [].
  - eapply lost_with_link; [done|]. by destruct f.
  - by eapply (lost_with_link _ _ AtServer); [by intros []|].
Qed.

Lemma links_inv_step (w w' : world) :
  world_step routing w w' → tasks_inv routing w → opening_inv w → links_inv w → links_inv w'.
Proof.
  intros Hst Hi Ho Hl. assert (Hlink : ∀ s, link_ok (λ _, True) (in_of w' s)).
  { intros s. eapply link_effect_ok; [done..|]. by apply world_step_link. }
  assert (Hlost : ∀ s, lost (in_of w' s) = None ∨ s = AtServer ∧ w_reader w' = Cancelled).
  { intros s. destruct (world_step_lost _ _ Hst) as [E|E]; [|rewrite E; destruct s; [by destruct (li_lost _ Hl AtClient) as [?|[? _]]; [left|]|by right]].
    rewrite E. destruct (li_lost _ Hl s) as [?|[-> Hc]]; [by left|right]. split; [done|].
    rewrite <- Hc. by apply ended_step, cancelled_ended. }
  assert (Hrx : rx_ok w (w_tasks w)) by (by destruct Hl).
  assert (Hgo : (∀ s r i, owner (in_of w' s) !! r = Some i → reg_at (w_tasks w') s i) → rx_ok w' (w_tasks w') → links_inv w')
    by (by intros Hreg (Hr1 & Hr2 & Hr3)).
  assert (Hback : ∀ s r i, owner (in_of w s) !! r = Some i → reg_at (w_tasks w) s i) by (by apply li_owner).
  apply world_step_logs in Hst.
  destruct Hst as [Hs Ht|j t l cf ack Hs Hj Hst Hd Hg Ht|j t p k st Hs Hj Hcf Ht|j t i k st Hj Hcf r Ht Hs|j t r d k st Hj Hcf Hr Ht Hs].
  - apply Hgo.
    + intros s r i. destruct (Hs s) as [-> _]. intros Hr%Hback. destruct Ht as [->|(?&?&?& -> &_)]; [done|by apply reg_at_app].
    + apply (rx_ok_logs _ _ _ Hs). destruct Ht as [->|(?&?&?& -> &_)]; [done|by apply rx_ok_new].
  - apply Hgo; rewrite Ht.
    + intros s r i. destruct (Hs s) as [-> _]. intros Hr%Hback. by apply reg_at_moved.
    + by apply (rx_ok_logs _ _ _ Hs), rx_ok_moved.
  - apply Hgo; rewrite Ht.
    + intros s r i. destruct (Hs s) as [-> _]. intros Hr%Hback. by apply reg_at_app, reg_at_moved.
    + apply (rx_ok_logs _ _ _ Hs), rx_ok_spawn; [done| |done].
      by destruct (task_spawn _ Hwf t p k st None (ti_task _ _ Hi _ _ Hj) Hcf).
  - pose proof (ti_task _ _ Hi _ _ Hj) as Hok.
    destruct (task_register _ Hwf t i k st Hok Hcf) as (-> & _ & Hk).
    apply Hgo; rewrite Ht; [|by apply (rx_ok_register w); [apply Hl|..]].
    intros s r' i. destruct (Hs s) as [-> _]. case_decide as E; [|intros Hr%Hback; by apply reg_at_moved].
    rewrite lookup_insert_Some. intros [[_ <-]|[_ Hr]]; [|apply Hback in Hr; by apply reg_at_moved]. subst s.
    eexists j, _. split; [apply list_lookup_insert_eq; by eapply lookup_lt_Some|]. split_and!; [|done|].
    + change (t_kind t = registrar (t_side t)). pose proof (kind_side_of t) as Hx.
      destruct Hk as [[Hk _]|Hk]; rewrite Hk in *; by rewrite (Hx _ eq_refl).
    + cbn. rewrite regs_of_app. by destruct (regs_of (t_hist t)).
  - apply Hgo; rewrite Ht.
    + intros s r' i. destruct (Hs s) as [-> _]. intros Hx%Hback.
      by apply (reg_at_moved _ s i j t (t_rx t) (t_ack t) (LCall DataRecv (ABytes d)) (k (ABytes d), st)).
    + by eapply (rx_ok_got w).
Qed.
End World.
