(* ===== verification/WorldAcks.v ===== *)
(** * Invariants of a session, III: acknowledgements

    A handler that is told its stream is open, or refused, is told so by an
    OPEN_ACK for its own stream that the client has read. *)
From S2P Require Import Prelude Utf8 Text Net Frame GeoSite GeoIp Routing Sock Http Socks5 Task Relay.
From S2P Require Import Channel Registry Control Mux Client ClientProtocol ClientTraces Ssrf Server Flow Link Roles.
From S2P Require Import Tunnel World Threads WorldOk WorldLinks.

Section World.
Context `{ChannelLib, Transport, UnicodeCase, RegexEngine, IpNets} (routing : RoutingConfig).
Hypothesis Hwf : wf_routing routing.

(** Of the tasks [ts], the session's maps [m], [h] and counter [n], and the
    frames [tk] that the client has read. *)
Record acks_part (ts : list task) (m : gmap N nat) (h : gmap nat (chan bool)) (n : nat) (tk : list Frame) : Prop := {
  ap_bound j t r : ts !! j = Some t → t_ack t = Some r → r < n;
  ap_pending i r : m !! i = Some r → r < n;
  ap_mine i r j t : m !! i = Some r → ts !! j = Some t → t_ack t = Some r → t_id t = i;
  ap_queue j t r c b : ts !! j = Some t → t_ack t = Some r → h !! r = Some c → b ∈ queued c → OpenAck (t_id t) b ∈ tk;
  ap_hist j t o b : ts !! j = Some t → LCall (RecvAck o) (AFlag b) ∈ t_hist t → OpenAck (t_id t) b ∈ tk
}.

Definition acks_of (x : session) (ts : list task) (tk : list Frame) : Prop :=
  acks_part ts (pending_acks x) (ack_chans x) (ack_fresh x) tk.

Definition acks_inv (w : world) : Prop := acks_of (w_acks w) (w_tasks w) (taken (in_of w AtClient)).

Lemma acks_inv_init : acks_inv world_init.
Proof. by split; intros. Qed.

Lemma acks_taken (x : session) (ts : list task) (tk tk' : list Frame) :
  tk `prefix_of` tk' → acks_of x ts tk → acks_of x ts tk'.
Proof.
  intros [k ->] [Hb Hp Hm Hq Hh]. split; [exact Hb|exact Hp|exact Hm|..]; intros; apply elem_of_app; left;
    [by eapply Hq|by eapply Hh].
Qed.

Lemma acks_registry (x y : session) (ts : list task) (tk : list Frame) :
  pending_acks y = pending_acks x → ack_chans y = ack_chans x → ack_fresh y = ack_fresh x →
  acks_of x ts tk → acks_of y ts tk.
Proof. unfold acks_of. by intros -> -> ->. Qed.

Lemma acks_new (x : session) (ts : list task) (tk : list Frame) (s : side) (i : N) (p : prog) (rx : option nat) :
  acks_of x ts tk → acks_of x (ts ++ [new_task s i p rx]) tk.
Proof.
  intros [Hb Hp Hm Hq Hh]. split; [|exact Hp|..].
  - intros j t r [Hj|[-> ->]]%lookup_new; [by eapply Hb|done].
  - intros i' r j t Hi [Hj|[-> ->]]%lookup_new; [by eapply Hm|done].
  - intros j t r c b [Hj|[-> ->]]%lookup_new; [by eapply Hq|done].
  - intros j t o b [Hj|[-> ->]]%lookup_new; [by eapply Hh|by intros ?%elem_of_nil].
Qed.

Lemma acks_moved (x : session) (ts : list task) (tk : list Frame) (j : nat) (t : task) (rx : option nat) (l : label) (cf : config) :
  ts !! j = Some t → (∀ o b, l = LCall (RecvAck o) (AFlag b) → OpenAck (t_id t) b ∈ tk) →
  acks_of x ts tk → acks_of x (<[j := moved (holding t rx (t_ack t)) l cf]> ts) tk.
Proof.
  intros Hj Hl [Hb Hp Hm Hq Hh].
  assert (Hold : ∀ i u, <[j := moved (holding t rx (t_ack t)) l cf]> ts !! i = Some u → ∃ u0, ts !! i = Some u0 ∧
    t_id u0 = t_id u ∧ t_ack u0 = t_ack u ∧ (t_hist u = t_hist u0 ∨ (u0 = t ∧ t_hist u = t_hist t ++ [l]))).
  { intros i u [[-> ->]|[_ Hi]]%(lookup_moved _ _ _ _ _ _ Hj); [exists t|exists u].
    - split_and!; [done..|]. by right.
    - split_and!; [done..|]. by left. }
  split; [|exact Hp|..].
  - intros i u r (u0 & Hi & _ & <- & _)%Hold. by eapply Hb.
  - intros i' r i u Hi' (u0 & Hi & <- & <- & _)%Hold. by eapply Hm.
  - intros i u r c b (u0 & Hi & <- & <- & _)%Hold. by eapply Hq.
  - intros i u o b (u0 & Hi & <- & _ & [-> |[-> ->]])%Hold; [by eapply Hh|].
    intros [Hin|Hin%list_elem_of_singleton]%elem_of_app; [by eapply Hh|]. by eapply Hl.
Qed.

(** [InsertAck]: a fresh channel, which only this task holds. *)
Lemma acks_insert (x : session) (ts : list task) (tk : list Frame) (j : nat) (t : task) (rx : option nat) (a : answer) (cf : config) :
  ts !! j = Some t → acks_of x ts tk →
  acks_of (snd (insert_ack (t_id t) x))
    (<[j := moved (holding t rx (Some (ack_fresh x))) (LCall (InsertAck (t_id t)) a) cf]> ts) tk.
Proof.
  intros Hj [Hb Hp Hm Hq Hh]. set (t' := moved _ _ _).
  assert (Hold : ∀ i u, <[j := t']> ts !! i = Some u → (u = t' ∧ i = j) ∨ ts !! i = Some u)
    by (intros i u [[-> ->]|[_ Hi]]%(lookup_moved _ _ _ _ _ _ Hj); auto).
  split; unfold insert_ack; cbn [snd pending_acks ack_chans ack_fresh].
  - intros i u r [[-> ->]|Hi]%Hold Hr; [cbn in Hr; injection Hr as <-; lia|]. pose proof (Hb i u r Hi Hr). lia.
  - intros i r. rewrite lookup_insert_Some. intros [[_ <-]|[_ Hr]]; [lia|]. pose proof (Hp i r Hr). lia.
  - intros i' r i u Hi' Hu Hr. apply lookup_insert_Some in Hi'. destruct Hi' as [[<- <-]|[Hn Hi']].
    + apply Hold in Hu as [[-> ->]|Hu]; [done|]. pose proof (Hb i u _ Hu Hr). lia.
    + apply Hold in Hu as [[-> ->]|Hu]; [|by eapply Hm]. cbn in Hr. injection Hr as <-. pose proof (Hp i' _ Hi'). lia.
  - intros i u r c b Hu Hr Hc Hbq. apply lookup_insert_Some in Hc. destruct Hc as [[<- <-]|[Hn Hc]].
    + destruct (bounded_spec (A:=bool) 1) as (E & _). rewrite E in Hbq. by apply elem_of_nil in Hbq.
    + apply Hold in Hu as [[-> ->]|Hu]; [cbn in Hr; congruence|].
      assert (∃ c0, ack_chans x !! r = Some c0 ∧ queued c = queued c0) as (c0 & Hc0 & E).
      { destruct (pending_acks x !! t_id t) as [old|]; [|by exists c]. apply (foldr_shut_inv [old]) in Hc as (c0 & ? & ? & _). by exists c0. }
      rewrite E in Hbq. by eapply Hq.
  - intros i u o b [[-> ->]|Hu]%Hold; [|by eapply Hh].
    cbn. intros [Hin|Hin%list_elem_of_singleton]%elem_of_app; [by eapply (Hh j t)|done].
Qed.

(** A value is taken out. *)
Lemma acks_pull (x : session) (ts : list task) (tk : list Frame) (r : nat) (b : bool) (c c' : chan bool) :
  ack_chans x !! r = Some c → pull c = Some (b, c') → acks_of x ts tk →
  acks_of (with_acks x (pending_acks x) (<[r := c']> (ack_chans x))) ts tk.
Proof.
  intros Hc Hp [Hb Hpe Hm Hq Hh]. apply pull_spec in Hp as (E & _). split; [exact Hb|exact Hpe|exact Hm| |exact Hh].
  intros j t r' c0 b0 Hj Hr Hc0 Hb0. cbn in Hc0. apply lookup_insert_Some in Hc0. destruct Hc0 as [[<- <-]|[_ Hc0]].
  - eapply (Hq j t r c); [done..|]. rewrite E. by right.
  - by eapply Hq.
Qed.

(** An OPEN_ACK is delivered. *)
Lemma acks_deliver (x : session) (ts : list task) (tk : list Frame) (id : N) (ok : bool) :
  OpenAck id ok ∈ tk → acks_of x ts tk → acks_of (deliver_ack id ok x) ts tk.
Proof.
  intros Hin Ha. unfold deliver_ack. destruct (pending_acks x !! id) as [r|] eqn:Er; [|done].
  destruct Ha as [Hb Hpe Hm Hq Hh]. split; [exact Hb| | | |exact Hh]; cbn.
  - intros i r' [_ Hi]%lookup_delete_Some. by eapply Hpe.
  - intros i r' j t [_ Hi]%lookup_delete_Some. by eapply Hm.
  - intros j t r' c b Hj Hr Hc Hbq. apply lookup_alter_Some in Hc as [(<- & c0 & Hc & ->)|[_ Hc]]; [|by eapply Hq].
    rewrite shut_queued in Hbq. destruct (push ok c0) as [c1|] eqn:Ep; cbn in Hbq; [|by eapply Hq].
    rewrite (push_queued _ _ _ Ep) in Hbq. apply elem_of_app in Hbq as [Hbq|Hbq%list_elem_of_singleton]; [by eapply Hq|].
    subst b. by rewrite (Hm id r j t).
Qed.

Lemma acks_clear (x : session) (ts : list task) (tk : list Frame) : acks_of x ts tk → acks_of (clear_acks x) ts tk.
Proof.
  intros [Hb Hpe Hm Hq Hh]. split; [exact Hb| | | |exact Hh]; cbn.
  - intros i r Hi. by rewrite lookup_empty in Hi.
  - intros i r j t Hi. by rewrite lookup_empty in Hi.
  - intros j t r c b Hj Hr (c0 & Hc & E & _)%foldr_shut_inv. rewrite E. by eapply Hq.
Qed.

Lemma acks_of_stop (x : session) (ts : list task) (tk : list Frame) : acks_of x ts tk → acks_of (reader_stop x) ts tk.
Proof. intros Ha. by apply (acks_clear (with_registry x (close_all (registry x)))). Qed.

Lemma world_step_acks (w w' : world) : world_step routing w w' → tasks_inv routing w → acks_inv w → acks_inv w'.
Proof.
  intros Hst Hi Ha. pose proof (world_step_taken _ _ _ AtClient Hst) as Htk. apply (acks_taken _ _ _ _ Htk) in Ha.
  assert (Hwe : ∀ s e, w_acks (with_end w s e) = w_acks w) by (by intros []).
  assert (Hwl : ∀ s l, w_acks (with_link w s l) = w_acks w) by (by intros []).
  unfold acks_inv. revert Ha. set (tk := taken (in_of w' AtClient)) in *.
  destruct Hst as [who Hst]; destruct Hst as [w' Hst|id fe p Hge Hn Hin|s0 f c Hc Hh Hf|s0 f Hc Hh Hroom|s0 closes Hc Hf Hcs|s0 m rest e Hr Hw Hd|s0 r Hr|m rest f Hr Hw Hd
    |ev Hr Hev| |m rest f id dest Hr Hw Hd He|j t Hen Ho Hj Hf|m rest f act Hr Hw Hd He Hn|Hr|Hcan]; intros Ha;
    try exact Ha; try (by destruct s0); try (by apply acks_new).
  - destruct Hst as [j t c k st a w' t' [Hj Hpl] Hcf Henv Hc|j t p k st [Hj Hpl] Hcf|j t cf [Hj Hpl] Hst|j t r Hj Hcf Hrx l].
    + apply do_call_effect in Hc. destruct Hc as [i l|i l|i|f e He|o b r ch ch' Hr Hch Hp|d r s Hr Hd|c a _ _ _ Hna];
        cbn [w_tasks w_acks with_tasks with_session]; rewrite ?Hwe, ?Hwl.
      * by apply (acks_moved (w_acks w)).
      * by apply (acks_moved (w_acks w) _ _ _ _ (t_rx t)).
      * rewrite (task_insert_ack _ Hwf t i k st (ti_task _ _ Hi _ _ Hj) Hcf).
        apply (acks_insert (client_session w)); [done|]. by apply (acks_registry (w_acks w)).
      * by apply (acks_moved (w_acks w) _ _ _ _ (t_rx t)).
      * pose proof Ha as [_ _ _ Hq _].
        apply (acks_moved (with_acks (w_acks w) (pending_acks (w_acks w)) (<[r:=ch']> (ack_chans (w_acks w)))) _ _ j t (t_rx t));
          [done| |by eapply acks_pull].
        intros o' b' [= <- <-]. eapply Hq; [done..|]. apply pull_spec in Hp as (E & _). rewrite E. left.
      * by apply (acks_moved (w_acks w) _ _ _ _ (t_rx t)).
      * apply (acks_moved (w_acks w) _ _ _ _ (t_rx t)); [done| |done]. intros o b Hl. by destruct (Hna o b).
    + apply acks_new. by apply acks_moved.
    + by apply (acks_moved (w_acks w) _ _ _ _ (t_rx t)).
    + by destruct (t_side t).
  - assert (Hin : ∀ id ok, f = OpenAck id ok → OpenAck id ok ∈ tk).
    { intros id ok ->. apply elem_of_app. right. left. }
    assert (Hx : acks_of (client_session w) (w_tasks w) tk) by (by apply (acks_registry (w_acks w))).
    cbn [w_acks with_session w_tasks with_link]. unfold client_read, reader_event. rewrite Hd.
    destruct f as [|?|id ok| |]; try exact Hx. apply (acks_deliver _ (w_tasks w) tk id ok); [by apply Hin|exact Hx].
  - assert (Hx : acks_of (client_session w) (w_tasks w) tk) by (by apply (acks_registry (w_acks w))).
    unfold client_stop; cbn zeta. assert (E : reader_event ev (client_session w) = reader_stop (client_session w)) by (destruct ev as [|d|d| | |]; try done; by destruct (Hev d)).
    cbn [w_acks with_session]. rewrite E. by apply acks_of_stop.
  - assert (Hx : acks_of (client_session w) (w_tasks w) tk) by (by apply (acks_registry (w_acks w))).
    by apply (acks_clear (client_session w)).
Qed.
End World.
