(* ===== verification/Schedule.v ===== *)
(** * Schedules of a session, for evaluating examples

    The steps of [World] as a function of the scheduler's choice, and its
    soundness: a schedule that can be followed leads to a reachable state. *)
From S2P Require Import Prelude Utf8 Text Net Frame GeoSite GeoIp Routing Sock Http Socks5 Task Relay.
From S2P Require Import Channel Registry Control Mux Client ClientProtocol ClientTraces Ssrf Server Flow Link Roles World.

(** What runs next. *)
Inductive act : Type :=
| AAccept (n : nat)                 (** an accept loop starts the [n]th kind of handler *)
| AHttp (j : nat) (a : answer)      (** the HTTP request of task [j] has been read *)
| AAnswer (j : nat) (a : answer)    (** another call of task [j] returns [a] *)
| AGo (j : nat)                     (** task [j] spawns, or goes round a loop *)
| ATake (s : side) | AWrite (s : side)
| ARead (s : side) | AResume (s : side)
| AOpened                           (** [handle_open] has returned to the server's reader *)
| ACancel                           (** the server's session is shut down *)
| ALost.                            (** the client's WebSocket is over *)

Definition act_ok (x : act) : Prop := match x with AHttp _ a => http_answer a | _ => True end.

(** Every act but the reading of an HTTP request is possible. *)
Definition plain_act (x : act) : bool := match x with AHttp _ _ => false | _ => true end.

Lemma plain_ok (xs : list act) : forallb plain_act xs = true → Forall act_ok xs.
Proof. rewrite forallb_forall. intros Hq. apply Forall_forall. intros x Hx%list_elem_of_In%Hq. by destruct x. Qed.

Section Schedule.
Context `{ChannelLib, Transport, UnicodeCase, RegexEngine, IpNets} (routing : RoutingConfig).

Definition tau (cf : config) : option config :=
  match cf with
  | (Loop b k, st) => Some (b, (b, k) :: st)
  | (Break, (b, k) :: st) => Some (k, st)
  | (Continue, (b, k) :: st) => Some (b, (b, k) :: st)
  | _ => None
  end.

(** Task [j], unless it has been dropped. *)
Definition poll (w : world) (j : nat) : option task :=
  match w_reader w, w_opening w with
  | Cancelled, Some i => if j =? i then None else w_tasks w !! j
  | _, _ => w_tasks w !! j
  end.

Definition return_call (w : world) (j : nat) (t : task) (c : call) (k : answer → prog) (st : list (prog * prog))
    (a : answer) : option world :=
  '(w', t') ← do_call w t c a;
  Some (with_tasks w' (<[j := moved t' (LCall c a) (k a, st)]> (w_tasks w))).

Definition read_next (w : world) (s : side) : option world :=
  match held (reg (in_of w s)), wire (in_of w s) with
  | None, m :: rest =>
      match decode m, s with
      | Ok f, AtClient => if stopped (w_acks w) then None else Some (client_read w m rest f)
      | Ok f, AtServer =>
          match w_ended w, w_opening w with
          | false, None =>
              Some (match server_event (WsBinary m) with
                    | ServerOpen id dest => server_open w rest f id dest
                    | act => server_read w rest f act
                    end)
          | _, _ => None
          end
      | Err _, _ => None
      end
  | _, _ => None
  end.

(** An id above all that the session's client has. *)
Definition next_free (w : world) : N := (foldr (λ t, N.max (t_id t)) 0 (w_tasks w) + 1)%N.

Definition exec (w : world) (x : act) : option world :=
  match x with
  | AAccept n =>
      '(_, p) ← handlers routing (next_free w) !! n;
      if (next_free w <=? U32_MAX)%N then Some (accept_conn w (next_free w) p) else None
  | AHttp j a =>
      t ← poll w j;
      match t_conf t with (Do ParseHttp k, st) => return_call w j t ParseHttp k st a | _ => None end
  | AAnswer j a =>
      t ← poll w j;
      match t_conf t with
      | (Do ParseHttp _, _) | (Do ParseSocks _, _) => None
      | (Do c k, st) => return_call w j t c k st a
      | _ => None
      end
  | AGo j =>
      t ← poll w j;
      match t_conf t with
      | (Spawn p k, st) =>
          Some (with_tasks w
            (<[j := moved (holding t None (t_ack t)) (LSpawn p) (k, st)]> (w_tasks w)
             ++ [new_task (t_side t) (t_id t) p (t_rx t)]))
      | cf => cf' ← tau cf; Some (with_tasks w (<[j := moved t LTau cf']> (w_tasks w)))
      end
  | ATake s =>
      match is_closed (ep_out (end_of w s)), ep_hand (end_of w s) with
      | false, None => '(f, c) ← pull (ep_out (end_of w s)); Some (take_frame w s f c)
      | _, _ => None
      end
  | AWrite s =>
      match is_closed (ep_out (end_of w s)), ep_hand (end_of w s) with
      | false, Some f => if has_room (wire (in_of w (other s))) then Some (write_frame w s f) else None
      | _, _ => None
      end
  | ARead s => read_next w s
  | AResume s => r ← route_finish (reg (in_of w s)); Some (with_link w s (set_reg (in_of w s) r))
  | AOpened =>
      j ← w_opening w; t ← w_tasks w !! j;
      match w_ended w, fst (t_conf t) with false, Return => Some (server_opened w) | _, _ => None end
  | ACancel => if w_ended w then None else Some (server_cancel w)
  | ALost =>
      match held (reg (in_of w AtClient)), stopped (w_acks w) with
      | None, false => Some (client_stop w WsEnd)
      | _, _ => None
      end
  end.

Fixpoint exec_all (w : world) (xs : list act) : option world :=
  match xs with [] => Some w | x :: xs' => w' ← exec w x; exec_all w' xs' end.

Lemma tau_step (cf cf' : config) : tau cf = Some cf' → step cf LTau cf'.
Proof.
  destruct cf as [[| |c k|p k|b k| |] st]; cbn; try done; try (destruct st as [|[b k] st]); try done;
    intros [= <-]; constructor.
Qed.

Lemma poll_polled (w : world) (j : nat) (t : task) : poll w j = Some t → polled w j t.
Proof.
  unfold poll, polled, frozen. destruct (w_reader w); try (by intros ->; split; [|by intros []]).
  destruct (w_opening w) as [i|]; [|by intros ->; split; [|by intros []]].
  destruct (Nat.eqb_spec j i) as [->|Hn]; [done|]. intros ->. split; [done|]. by intros [_ [= ->]].
Qed.

Lemma next_free_fresh (w : world) : fresh_id w (next_free w).
Proof.
  intros j t Hj _ Hid. exfalso. revert j Hj Hid. unfold next_free.
  induction (w_tasks w) as [|u ts IH]; intros [|j]; cbn; [done..| |].
  - intros [= ->]. lia.
  - intros Hj Hid. assert (Hle : (t_id t ≤ foldr (λ t, N.max (t_id t)) 0 ts)%N); [|lia].
    clear -Hj. revert j Hj. induction ts as [|v ts IH]; intros [|j]; cbn; [done..|intros [= ->]; lia|].
    intros Hj%IH. lia.
Qed.

Lemma return_call_step (w w' : world) (j : nat) (t : task) (c : call) (k : answer → prog) (st : list (prog * prog)) (a : answer) :
  polled w j t → t_conf t = (Do c k, st) → env_answer c a → return_call w j t c k st a = Some w' →
  moves routing w Running w'.
Proof.
  intros Hj Hcf Ha Hr. unfold return_call in Hr. destruct (do_call w t c a) as [[w1 t1]|] eqn:E; [|done].
  injection Hr as <-. by eapply ws_task, ts_call.
Qed.

Lemma read_next_step (w w' : world) (s : side) : read_next w s = Some w' → moves routing w Running w'.
Proof.
  unfold read_next. destruct (held _) eqn:Hh; [done|]. destruct (wire _) as [|m rest] eqn:Hw; [done|].
  destruct (decode m) as [f|] eqn:Hd; [|done]. destruct s.
  - destruct (stopped (w_acks w)) eqn:Hs; [done|]. intros [= <-]. by eapply ws_client_read.
  - destruct (w_ended w) eqn:He; [done|]. destruct (w_opening w) eqn:Ho; [done|].
    destruct (server_event (WsBinary m)) eqn:Hev; intros [= <-];
      first [by eapply ws_server_open|by eapply ws_server_read].
Qed.

Lemma exec_moves (w w' : world) (x : act) :
  act_ok x → exec w x = Some w' → moves routing w (match x with AAccept _ => Accepting | _ => Running end) w'.
Proof.
  intros Hok. destruct x as [n|j a|j a|j|s|s|s|s| | |]; cbn [exec].
  - destruct (handlers _ _ !! n) as [[fe p]|] eqn:Hn; [|done]. cbn. destruct (next_free w <=? U32_MAX)%N eqn:Hle; [|done].
    intros [= <-]. eapply ws_accept; [apply next_free_fresh|by apply N.leb_le|by eapply list_elem_of_lookup_2].
  - destruct (poll w j) as [t|] eqn:Hj; [|done]. apply poll_polled in Hj. cbn. destruct (t_conf t) as [[| |[] k|p k|b k| |] st] eqn:Hcf; try done.
    exact (return_call_step w w' j t ParseHttp k st a Hj Hcf Hok).
  - destruct (poll w j) as [t|] eqn:Hj; [|done]. apply poll_polled in Hj. cbn. destruct (t_conf t) as [[| |c k|p k|b k| |] st] eqn:Hcf; try done.
    intros Hr. apply (return_call_step w w' j t c k st a); [done|done|by destruct c|by destruct c].
  - destruct (poll w j) as [t|] eqn:Hj; [|done]. apply poll_polled in Hj. cbn. destruct (t_conf t) as [pr st] eqn:Hcf.
    assert (Htau : (cf' ← tau (pr, st); Some (with_tasks w (<[j:=moved t LTau cf']> (w_tasks w)))) = Some w' →
      moves routing w Running w').
    { destruct (tau (pr, st)) as [cf'|] eqn:E; [|done]. intros [= <-]. eapply ws_task, ts_tau; [done|].
      rewrite Hcf. by apply tau_step. }
    destruct pr; try exact Htau. intros [= <-]. by eapply ws_task, ts_spawn.
  - destruct (is_closed _) eqn:Hc; [done|]. destruct (ep_hand _) eqn:Hh; [done|].
    destruct (pull _) as [[f c]|] eqn:Hp; [|done]. intros [= <-]. by apply ws_take.
  - destruct (is_closed _) eqn:Hc; [done|]. destruct (ep_hand _) as [f|] eqn:Hh; [|done].
    destruct (has_room _) eqn:Hr; [|done]. intros [= <-]. by apply ws_write.
  - apply read_next_step.
  - destruct (route_finish _) as [r|] eqn:Hr; [|done]. intros [= <-]. by apply ws_resume.
  - destruct (w_opening w) as [j|] eqn:Ho; [|done]. cbn. destruct (w_tasks w !! j) as [t|] eqn:Hj; [|done]. cbn.
    destruct (w_ended w) eqn:He; [done|]. destruct (fst (t_conf t)) eqn:Hf; try done. intros [= <-]. by eapply ws_server_opened.
  - destruct (w_ended w) eqn:He; [done|]. intros [= <-]. by apply ws_server_cancel.
  - destruct (held _) eqn:Hh; [done|]. destruct (stopped _) eqn:Hs; [done|]. intros [= <-]. by apply ws_client_stop.
Qed.

Lemma exec_step (w w' : world) (x : act) : act_ok x → exec w x = Some w' → world_step routing w w'.
Proof. intros Hok He. eexists. by eapply exec_moves. Qed.

Lemma exec_all_reach (w w' : world) (xs : list act) :
  Forall act_ok xs → exec_all w xs = Some w' → rtc (world_step routing) w w'.
Proof.
  intros Hok. revert w. induction Hok as [|x xs Hx _ IH]; intros w; cbn [exec_all].
  - by intros [= <-].
  - destruct (exec w x) as [w1|] eqn:E; [|done]. intros Hr. eapply rtc_l; [by eapply exec_step|by apply IH].
Qed.

(** No schedule has the keeper close the session. *)
Definition unclosed_step (w w' : world) : Prop := moves routing w Accepting w' ∨ moves routing w Running w'.

Lemma exec_all_unclosed (w w' : world) (xs : list act) :
  Forall act_ok xs → exec_all w xs = Some w' → rtc unclosed_step w w'.
Proof.
  intros Hok. revert w. induction Hok as [|x xs Hx _ IH]; intros w; cbn [exec_all].
  - by intros [= <-].
  - destruct (exec w x) as [w1|] eqn:E; [|done]. intros Hr. eapply rtc_l; [|by apply IH].
    apply exec_moves in E; [|done]. unfold unclosed_step. destruct x; auto.
Qed.

(** Where a schedule that can be followed leads, and the tasks there. *)
Definition runs_through (xs : list act) : bool :=
  match exec_all world_init xs with Some _ => true | None => false end.

Definition after (xs : list act) : world := default world_init (exec_all world_init xs).

Definition task_after (xs : list act) (j : nat) : task :=
  default (new_task AtClient 0 Return None) (w_tasks (after xs) !! j).

Lemma after_reachable (xs : list act) : Forall act_ok xs → runs_through xs = true → reachable routing (after xs).
Proof.
  unfold runs_through, after. intros Hok Hr. destruct (exec_all world_init xs) as [w|] eqn:E; [|done].
  by apply (exec_all_reach _ _ xs).
Qed.

Lemma after_unclosed (xs : list act) : Forall act_ok xs → runs_through xs = true → rtc unclosed_step world_init (after xs).
Proof.
  unfold runs_through, after. intros Hok Hr. destruct (exec_all world_init xs) as [w|] eqn:E; [|done].
  by apply (exec_all_unclosed _ _ xs).
Qed.

(** One schedule after another. *)
Lemma exec_all_app (w : world) (xs ys : list act) : exec_all w (xs ++ ys) = exec_all w xs ≫= λ w1, exec_all w1 ys.
Proof. revert w. induction xs as [|x xs IH]; intros w; [done|]. cbn. destruct (exec w x) as [w1|]; [apply IH|done]. Qed.

Lemma after_runs (xs ys : list act) : Forall act_ok ys → runs_through (xs ++ ys) = true →
  rtc (world_step routing) (after xs) (after (xs ++ ys)).
Proof.
  unfold runs_through, after. rewrite exec_all_app. intros Hok Hr. destruct (exec_all world_init xs) as [w|]; [|done].
  cbn in *. destruct (exec_all w ys) as [w'|] eqn:E; [|done]. by apply (exec_all_reach _ _ ys).
Qed.

Lemma task_after_lookup (xs : list act) (j n : nat) :
  length (w_tasks (after xs)) = n → j < n → w_tasks (after xs) !! j = Some (task_after xs j).
Proof. intros <- Hj. unfold task_after. by destruct (lookup_lt_is_Some_2 _ _ Hj) as [t ->]. Qed.

Lemma task_after_in (xs : list act) (j n : nat) :
  length (w_tasks (after xs)) = n → j < n → task_after xs j ∈ w_tasks (after xs).
Proof. intros Hn Hj. by eapply list_elem_of_lookup_2, task_after_lookup. Qed.
End Schedule.
