(* ===== verification/EndToEnd.v ===== *)
(** * What a session promises, end to end

    In every state a session can reach, with both programs running and
    whatever the applications, the destinations, the network and the scheduler
    do: what a destination receives are the bytes of the one application that
    asked for it, in order, less what the HTTP parser had read ahead of the
    request; what an application receives are the bytes of its
    destination; an application is told that it is connected only when the
    server is; no frame is malformed; and no task panics. *)
From S2P Require Import Prelude Utf8 Text Net Frame GeoSite GeoIp Routing Sock Http Socks5 Task Relay.
From S2P Require Import Channel Registry Control Mux Client ClientProtocol ClientTraces Ssrf Server Flow Link Roles.
From S2P Require Import Tunnel World Threads WorldOk WorldLinks WorldAcks Schedule.

#[local] Arguments by_stream : simpl never.
#[local] Arguments payloads : simpl never.
#[local] Arguments acks_in : simpl never.

Section EndToEnd.
Context `{ChannelLib, Transport, UnicodeCase, RegexEngine, IpNets} (routing : RoutingConfig).

(** Handler [h] of the client and opener [o] of the server serve the same
    stream: the application asked for [dest], and the server has reached it. *)
Record tunnelled (w : world) (h o : task) (dest first : bytes) : Prop := {
  tn_handler : h ∈ w_tasks w ∧ t_side h = AtClient ∧ ∃ fe, (fe, t_prog h) ∈ handlers routing (t_id h);
  tn_opener : o ∈ w_tasks w ∧ t_side o = AtServer ∧ t_id o = t_id h ∧ t_prog o = handle_open (t_id h) dest;
  tn_request : request_of (t_hist h) = Some (dest, first);
  tn_allowed : is_dest_allowed dest = Some true;
  tn_connected : ∃ a, is_ok a = true ∧ (Connect dest, a) ∈ calls_of (t_hist o)
}.

(** ** Lemmas *)

Section Invariants.
Hypothesis Hwf : wf_routing routing.

Record session_inv (w : world) : Prop := {
  si_tasks : tasks_inv routing w;
  si_opening : opening_inv w;
  si_links : links_inv w;
  si_acks : acks_inv w
}.

Lemma session_inv_reach (w : world) : reachable routing w → session_inv w.
Proof.
  assert (Hgo : ∀ w0, rtc (world_step routing) w0 w → session_inv w0 → session_inv w).
  { induction 1 as [|w0 w1 w2 Hst _ IH]; [done|]. intros [Ht Ho Hl Ha]. apply IH. split.
    - by eapply tasks_inv_step.
    - by eapply opening_inv_step.
    - by eapply links_inv_step.
    - by eapply world_step_acks. }
  intros Hr. apply (Hgo _ Hr). split; [by apply tasks_inv_init|apply opening_inv_init|apply links_inv_init|apply acks_inv_init].
Qed.

(** An opener that has dialled serves the stream of the handler that asked. *)
Lemma opener_tunnelled (w : world) (j : nat) (o : task) (dest : bytes) :
  session_inv w → w_tasks w !! j = Some o → t_kind o = Opener → t_prog o = handle_open (t_id o) dest →
  Open (t_id o) dest ∈ taken (in_of w AtServer) → dialled dest (t_hist o) →
  ∃ jh h first ds closed lost, w_tasks w !! jh = Some h ∧ t_kind h = Handler ∧ t_id h = t_id o ∧
    tunnelled w h o dest first ∧
    by_stream (t_id o) (sent w AtClient) = stream_frames (t_id o) dest ds closed ∧
    concat ds ++ lost = first ++ reads_of (t_hist h).
Proof.
  intros [Ht _ _ _] Hj Hk Hp Hin [Hal Hcon].
  assert (Hx : Open (t_id o) dest ∈ by_stream (t_id o) (sent w AtClient)).
  { apply list_elem_of_filter. split; [done|]. destruct (ti_pipes _ _ Ht AtClient) as (todo & q & -> & _).
    apply elem_of_app. by left. }
  assert (Hn : by_stream (t_id o) (sent w AtClient) ≠ []) by (intros E; rewrite E in Hx; by apply elem_of_nil in Hx).
  destruct (stream_sent _ Hwf w (t_id o) Ht Hn) as (jh & h & dest' & first & ds & closed & lost & Hh & Hkh & Hid & Hreq & Hs & Hc).
  rewrite Hs in Hx.
  assert (dest' = dest) as ->.
  { unfold stream_frames in Hx. apply elem_of_cons in Hx as [[= ->]|Hx]; [done|].
    apply elem_of_app in Hx as [(d & [=] & _)%list_elem_of_fmap|Hx].
    destruct closed; [by apply list_elem_of_singleton in Hx|by apply elem_of_nil in Hx]. }
  exists jh, h, first, ds, closed, lost. split_and!; try done.
  pose proof (tk_role _ _ (ti_task _ _ Ht _ _ Hh)) as Hr. unfold role_ok in Hr. rewrite Hkh in Hr. destruct Hr as [_ Hfe].
  split; [| |done|done|done].
  - split_and!; [by eapply list_elem_of_lookup_2|apply kind_side_of; by rewrite Hkh|done].
  - split_and!; [by eapply list_elem_of_lookup_2|apply kind_side_of; by rewrite Hk|done|by rewrite Hid].
Qed.

(** The destination an opener was given, and what it has done with it. *)
Lemma opener_dest (w : world) (j : nat) (o : task) :
  session_inv w → w_tasks w !! j = Some o → t_kind o = Opener →
  ∃ dest, t_prog o = handle_open (t_id o) dest ∧ Open (t_id o) dest ∈ taken (in_of w AtServer) ∧
    ∃ q, opener_past (t_id o) dest (t_hist o) q.
Proof.
  intros [Ht _ _ _] Hj Hk. destruct (ti_opener _ _ Ht j o Hj Hk) as (dest & Hp & Hin). exists dest. split_and!; [done..|].
  assert (Hw : wf_frame (Open (t_id o) dest)).
  { pose proof (ti_sound _ _ Ht AtClient) as Hs. destruct (ti_pipes _ _ Ht AtClient) as (todo & rest & E & _).
    rewrite E in Hs. apply Forall_app in Hs as [Hs _]. by eapply Forall_forall in Hin. }
  destruct (opener_phase_at _ o dest (ti_task _ _ Ht _ _ Hj) (proj2 Hw) Hp) as (q & Hq & _). by exists q.
Qed.

(** A stream the server has registered is tunnelled. *)
Lemma registered_tunnelled (w : world) (i : N) (r : nat) :
  session_inv w → owner (in_of w AtServer) !! r = Some i →
  ∃ h o dest first ds closed lost, t_id h = i ∧ tunnelled w h o dest first ∧
    by_stream i (sent w AtClient) = stream_frames i dest ds closed ∧
    concat ds ++ lost = first ++ reads_of (t_hist h).
Proof.
  intros Hi Hr. destruct (li_owner _ (si_links _ Hi) _ _ _ Hr) as (j & o & Hj & Hk & <- & Hreg). cbn in Hk.
  destruct (opener_dest w j o Hi Hj Hk) as (dest & Hp & Hin & q & Hpast).
  destruct (opener_tunnelled w j o dest Hi Hj Hk Hp Hin) as (jh & h & first & ds & closed & lost & _ & _ & Hid & Htn & Hs & Hc).
  { by eapply opener_registered. }
  by exists h, o, dest, first, ds, closed, lost.
Qed.

(** What a write task has written is a prefix of the payloads of its stream
    that its end has read. *)
Lemma writer_prefix (w : world) (j : nat) (t : task) :
  session_inv w → w_tasks w !! j = Some t → t_kind t = Writer → writes_of (t_hist t) ≠ [] →
  ∃ r, owner (in_of w (t_side t)) !! r = Some (t_id t) ∧
    writes_of (t_hist t) `prefix_of` payloads (t_id t) (taken (in_of w (t_side t))).
Proof.
  intros Hi Hj Hk Hn. pose proof (ti_task _ _ (si_tasks _ Hi) _ _ Hj) as Hok.
  destruct (writer_phase_of _ t Hok Hk) as (Hd & _).
  pose proof (li_data _ (si_links _ Hi) j t Hj) as Hg. destruct (t_rx t) as [r|] eqn:Hr.
  - exists r. pose proof (li_rx _ (si_links _ Hi) j t r Hj Hr) as Ho. split; [done|].
    trans (got (in_of w (t_side t)) r); [rewrite <- Hg, Hd; by apply prefix_app_r|].
    apply (link_got_prefix (λ _, True)); [apply (si_links _ Hi)|done|done].
  - rewrite Hg in Hd. by destruct (writes_of (t_hist t)).
Qed.

Lemma pipe_prefix (w : world) (s : side) (i : N) :
  session_inv w → payloads i (taken (in_of w (other s))) `prefix_of` payloads i (sent w s).
Proof.
  intros [Ht _ _ _]. destruct (ti_pipes _ _ Ht s) as (todo & q & -> & _). rewrite payloads_app. by apply prefix_app_r.
Qed.

Lemma concat_prefix (l k : list bytes) : l `prefix_of` k → concat l `prefix_of` concat k.
Proof. intros [m ->]. rewrite concat_app. by apply prefix_app_r. Qed.

Lemma writer_kind (t : task) : t_prog t = write_task → t_kind t = Writer.
Proof. unfold t_kind. intros ->. by destruct (t_side t). Qed.

(** What is behind the bytes a write task of the server has written. *)
Lemma upload_behind (w : world) (t : task) :
  reachable routing w → t ∈ w_tasks w → t_side t = AtServer → t_prog t = write_task → writes_of (t_hist t) ≠ [] →
  ∃ h o dest first, t_id h = t_id t ∧ tunnelled w h o dest first ∧
    concat (writes_of (t_hist t)) `prefix_of` first ++ reads_of (t_hist h) ∧
    comes_from (t_hist h) first (concat (writes_of (t_hist t))).
Proof.
  intros Hr [j Hj]%list_elem_of_lookup_1 Hside Hprog Hwrote. pose proof (session_inv_reach w Hr) as Hi.
  destruct (writer_prefix w j t Hi Hj (writer_kind t Hprog) Hwrote) as (r & Ho & Hpre). rewrite Hside in *.
  destruct (registered_tunnelled w _ r Hi Ho) as (h & o & dest & first & ds & closed & lost & Hid & Htn & Hs & Hc).
  exists h, o, dest, first.
  cut (concat (writes_of (t_hist t)) `prefix_of` first ++ reads_of (t_hist h)).
  { intros Hx. split_and!; [done..|]. eapply reads_come_from; [apply (tn_request _ _ _ _ _ Htn)|done]. }
  rewrite <- Hc. trans (concat ds); [|by apply prefix_app_r]. apply concat_prefix. etrans; [exact Hpre|].
  etrans; [exact (pipe_prefix w AtClient _ Hi)|]. by rewrite <- payloads_by_stream, Hs, payloads_stream_frames.
Qed.

Lemma handler_front (w : world) (t : task) :
  reachable routing w → t ∈ w_tasks w → t_kind t = Handler → ∃ fe, (fe, t_prog t) ∈ handlers routing (t_id t).
Proof.
  intros Hr [j Hj]%list_elem_of_lookup_1 Hk.
  pose proof (tk_role _ _ (ti_task _ _ (si_tasks _ (session_inv_reach w Hr)) _ _ Hj)) as Hro.
  unfold role_ok in Hro. rewrite Hk in Hro. apply Hro.
Qed.

End Invariants.

(** ** Properties *)

(** C1: Upload, end to end.  In every state a session can reach, when a write
    task of the server has written anything to its destination, there is
    exactly the tunnelled stream behind it: the client's handler with the same
    stream id, whose application asked for a destination that the filter
    allows and that the server's opener has dialled.  What has been written is
    a prefix of the request, if it is one to forward, followed by what that
    handler has read from its application; so it is taken from the bytes that
    the application sends, in order and without a gap, except that the bytes
    which the HTTP parser had read ahead of its request are missing
    ([comes_from]). *)
Theorem upload_end_to_end (w : world) (t : task)
  (Hwf : wf_routing routing) (Hreach : reachable routing w) (Hin : t ∈ w_tasks w)
  (Hside : t_side t = AtServer) (Hprog : t_prog t = write_task) (Hwrote : writes_of (t_hist t) ≠ []) :
  ∃ h o dest first, t_id h = t_id t ∧ tunnelled w h o dest first ∧
    concat (writes_of (t_hist t)) `prefix_of` first ++ reads_of (t_hist h) ∧
    comes_from (t_hist h) first (concat (writes_of (t_hist t))).
Proof. by apply upload_behind. Qed.

(** C2: Download, end to end.  When a write task of the client has written
    anything to its application, the stream is tunnelled as for uploads, and what
    has been written is a prefix of what the server's stream task has read
    from that destination. *)
Theorem download_end_to_end (w : world) (t : task)
  (Hwf : wf_routing routing) (Hreach : reachable routing w) (Hin : t ∈ w_tasks w)
  (Hside : t_side t = AtClient) (Hprog : t_prog t = write_task) (Hwrote : writes_of (t_hist t) ≠ []) :
  ∃ h o st dest first, t_id h = t_id t ∧ tunnelled w h o dest first ∧
    st ∈ w_tasks w ∧ t_side st = AtServer ∧ t_prog st = stream_task (t_id t) ∧
    concat (writes_of (t_hist t)) `prefix_of` reads_of (t_hist st).
Proof.
  pose proof (session_inv_reach Hwf w Hreach) as Hi. pose proof (si_tasks _ Hi) as Ht.
  apply list_elem_of_lookup_1 in Hin as [j Hj].
  destruct (writer_prefix w j t Hi Hj (writer_kind t Hprog) Hwrote) as (r & Ho & Hpre). rewrite Hside in *.
  pose proof (pipe_prefix w AtServer (t_id t) Hi) as Hpipe. cbn [other] in Hpipe.
  assert (Hn : payloads (t_id t) (sent w AtServer) ≠ []).
  { intros E. rewrite E in Hpipe. apply prefix_nil_inv in Hpipe. rewrite Hpipe in Hpre. by apply prefix_nil_inv in Hpre. }
  destruct (proj2 (ti_down _ _ Ht) _ Hn) as (js & st & Hjs & Hks & Hids).
  destruct (ti_streamer _ _ Ht js st Hjs Hks) as (jo & o & Hjo & Hko & Hido & Hsp).
  destruct (opener_dest w jo o Hi Hjo Hko) as (dest & Hp & Hopen & q & Hpast).
  assert (Hdial : dialled dest (t_hist o)).
  { destruct Hpast as (_ & _ & [?|?] & _); done. }
  destruct (opener_tunnelled Hwf w jo o dest Hi Hjo Hko Hp Hopen Hdial) as (jh & h & first & _ & _ & _ & _ & _ & Hid & Htn & _).
  exists h, o, st, dest, first. pose proof (tk_role _ _ (ti_task _ _ Ht _ _ Hjs)) as Hr. unfold role_ok in Hr.
  rewrite Hks in Hr. destruct Hr as [_ Hr].
  split_and!; [congruence|done|by eapply list_elem_of_lookup_2|apply kind_side_of; by rewrite Hks|congruence|].
  pose proof (tk_run _ _ (ti_task _ _ Ht _ _ Hjs)) as Hrun. rewrite Hr in Hrun.
  destruct (download_shape _ _ _ Hrun) as (ds & closed & lost & Hf & Hc & _). rewrite <- Hc.
  trans (concat ds); [|by apply prefix_app_r]. apply concat_prefix. etrans; [exact Hpre|]. etrans; [exact Hpipe|].
  rewrite <- Hids, (proj1 (ti_down _ _ Ht) js st Hjs Hks), Hf, payloads_app.
  assert (payloads (t_id st) (if closed then [Close (t_id st)] else []) = []) as -> by (by destruct closed).
  rewrite app_nil_r, payloads_map. done.
Qed.
(** C5: Accepted means connected: when a handler of the client has received a
    positive acknowledgement, which is what it tells its application, the
    server has dialled the very destination that application asked for, and
    that destination is allowed. *)
Theorem accepted_means_connected (w : world) (h : task) (timeout : option N)
  (Hwf : wf_routing routing) (Hreach : reachable routing w) (Hin : h ∈ w_tasks w)
  (Hside : t_side h = AtClient) (Hfe : ∃ fe, (fe, t_prog h) ∈ handlers routing (t_id h))
  (Hack : (RecvAck timeout, AFlag true) ∈ calls_of (t_hist h)) :
  ∃ o dest first, tunnelled w h o dest first.
Proof.
  pose proof (session_inv_reach Hwf w Hreach) as Hi. pose proof (si_tasks _ Hi) as Ht.
  apply list_elem_of_lookup_1 in Hin as [j Hj]. assert (Hk : t_kind h = Handler).
  { destruct Hfe as [fe Hfe]. unfold t_kind. rewrite Hside. by eapply handler_kind. }
  assert (Hlab : LCall (RecvAck timeout) (AFlag true) ∈ t_hist h).
  { unfold calls_of in Hack. apply list_elem_of_omap in Hack as ([c a| |] & Hl & E); try done. by injection E as -> ->. }
  pose proof (ap_hist _ _ _ _ _ (si_acks _ Hi) j h timeout true Hj Hlab) as Htk.
  assert (Hx : true ∈ acks_in (t_id h) (sent w AtServer)).
  { apply acks_in_elem. destruct (ti_pipes _ _ Ht AtServer) as (todo & q & -> & _). apply elem_of_app. by left. }
  assert (Hn : acks_in (t_id h) (sent w AtServer) ≠ []) by (intros E; rewrite E in Hx; by apply elem_of_nil in Hx).
  destruct (proj2 (ti_acks _ _ Ht) _ Hn) as (jo & o & Hjo & Hko & Hid).
  destruct (opener_dest w jo o Hi Hjo Hko) as (dest & Hp & Hopen & q & Hpast).
  assert (Hdial : dialled dest (t_hist o)).
  { rewrite <- Hid, (proj1 (ti_acks _ _ Ht) jo o Hjo Hko) in Hx. apply acks_in_elem in Hx.
    destruct Hpast as (_ & Hf & _). rewrite Forall_forall in Hf. by destruct (Hf _ Hx) as [?|[_ ?]]. }
  destruct (opener_tunnelled Hwf w jo o dest Hi Hjo Hko Hp Hopen Hdial) as (jh & h' & first & _ & _ & _ & Hh & Hkh & Hidh & Htn & _).
  assert (jh = j) as ->.
  { apply (ti_alone _ _ Ht jh j h' h Hh Hj); [congruence|by rewrite Hkh|congruence]. }
  exists o, dest, first. congruence.
Qed.

(** C9: Nothing malformed is ever on the wire: every message a reader of either
    end will find decodes to the well-formed frame it was encoded from, so the
    error branches of both readers are dead in a session between the two
    programs. *)
Theorem wire_always_decodes (w : world) (s : side) (m : bytes)
  (Hwf : wf_routing routing) (Hreach : reachable routing w) (Hin : m ∈ wire (in_of w s)) :
  ∃ f, wf_frame f ∧ m = encode f ∧ decode m = Ok f.
Proof.
  pose proof (si_tasks _ (session_inv_reach Hwf w Hreach)) as Ht.
  destruct (ti_pipes _ _ Ht (other s)) as (todo & q & Hq & Hw & _). assert (E : other (other s) = s) by (by destruct s).
  rewrite E in *. rewrite Hw in Hin. apply list_elem_of_fmap in Hin as (f & -> & Hf). exists f.
  assert (Hfw : wf_frame f).
  { pose proof (ti_sound _ _ Ht (other s)) as Hs. rewrite Forall_forall in Hs. apply Hs. rewrite Hq, !elem_of_app. auto. }
  split_and!; [done|done|by apply decode_encode_aux].
Qed.

(** C6: Between a reader and a write task nothing is lost: while a stream is
    registered at an end and its receiver is alive, every payload of it that
    the end has read has been taken out, is queued in order, or is the one
    [route] is waiting to queue, or was waiting to queue when the shutdown
    dropped the server's reader; in particular no payload arrives before its
    stream is registered. *)
Theorem registered_stream_complete (w : world) (s : side) (i : N) (r : nat)
  (Hwf : wf_routing routing) (Hreach : reachable routing w)
  (Hreg : inner (reg (in_of w s)) !! i = Some r) (Halive : r ∉ dead (in_of w s)) :
  ∃ c, heap (reg (in_of w s)) !! r = Some c ∧ is_closed c = false ∧
    got (in_of w s) r ++ queued c ++ held_for (reg (in_of w s)) r ++ lost_for (in_of w s) r =
      payloads i (taken (in_of w s)) ∧
    (lost_for (in_of w s) r = [] ∨ s = AtServer ∧ w_reader w = Cancelled).
Proof.
  pose proof (li_link _ (si_links _ (session_inv_reach Hwf w Hreach)) s) as Hok.
  pose proof (lo_owner _ _ Hok i r Hreg) as Ho. destruct (lo_dom _ _ Hok i r Ho) as [c Hc]. exists c.
  destruct (link_delivers (λ _, True) _ i r c Hok I Ho Hc) as [_ Hd]. split_and!; [done| | |].
  - apply (lo_alive _ _ Hok r c Hc); [|done]. apply in_use_iff. left. by exists i.
  - rewrite Hd by done. by apply (lo_all _ _ Hok).
  - destruct (li_lost _ (si_links _ (session_inv_reach Hwf w Hreach)) s) as [E|?]; [left|by right].
    unfold lost_for. by rewrite E.
Qed.

(** C10: No task of either program panics, in any reachable state of a session. *)
Theorem session_never_panics (w : world) (t : task)
  (Hwf : wf_routing routing) (Hreach : reachable routing w) (Hin : t ∈ w_tasks w) : fst (t_conf t) ≠ Crash.
Proof.
  apply list_elem_of_lookup_1 in Hin as [j Hj]. eapply task_no_crash; [exact Hwf|].
  by apply (ti_task _ _ (si_tasks _ (session_inv_reach Hwf w Hreach)) j).
Qed.

End EndToEnd.

(** ** Witnesses *)

#[local] Existing Instances queue_channels one_message demo_case demo_engine demo_nets.

(** One connection: CONNECT, "hello" up, "hi" down, both delivered. *)
Definition demo_acts : list act :=
  [AAccept 1; AHttp 0 demo_request; AAnswer 0 AOk; AAnswer 0 AOk; AAnswer 0 AOk; AAnswer 0 AOk;
   ATake AtClient; AWrite AtClient; ARead AtServer; AAnswer 1 AOk; AAnswer 1 AOk; AAnswer 1 AOk; AGo 1; AOpened;
   ATake AtServer; AWrite AtServer; ARead AtClient; AAnswer 0 (AFlag true); AAnswer 0 AOk; AGo 0; AGo 0;
   AAnswer 0 (ABytes (bs "hello")); AAnswer 0 AOk; ATake AtClient; AWrite AtClient; ARead AtServer; AResume AtServer;
   AGo 2; AGo 4; AAnswer 4 (ABytes (bs "hello")); AAnswer 4 AOk;
   AGo 2; AAnswer 2 (ABytes (bs "hi")); AAnswer 2 AOk; ATake AtServer; AWrite AtServer; ARead AtClient; AResume AtClient;
   AGo 3; AAnswer 3 (ABytes (bs "hi")); AAnswer 3 AOk;
   AGo 0; AAnswer 0 (ABytes (bs "bye")); AAnswer 0 AOk; ATake AtClient; AWrite AtClient].

Definition demo_world : world := after demo_routing demo_acts.

Definition demo_task (j : nat) : task := task_after demo_routing demo_acts j.

Lemma demo_reachable : reachable demo_routing demo_world.
Proof.
  apply after_reachable; [|vm_compute; reflexivity].
  unfold demo_acts. repeat (apply Forall_cons; split; [first [exact I|exact demo_request_possible]|]). constructor.
Qed.

Lemma demo_task_in (j : nat) : j < 5 → demo_task j ∈ w_tasks demo_world.
Proof. apply task_after_in. vm_compute. reflexivity. Qed.

Lemma demo_handler : ∃ fe, (fe, t_prog (demo_task 0)) ∈ handlers demo_routing (t_id (demo_task 0)).
Proof.
  apply (handler_front demo_routing demo_routing_wf demo_world); [exact demo_reachable|apply demo_task_in; lia|].
  vm_compute. reflexivity.
Qed.

Lemma upload_end_to_end_witness :
  writes_of (t_hist (demo_task 4)) = [bs "hello"] ∧
  ∃ h o dest first, t_id h = t_id (demo_task 4) ∧ tunnelled demo_routing demo_world h o dest first ∧
    concat (writes_of (t_hist (demo_task 4))) `prefix_of` first ++ reads_of (t_hist h) ∧
    comes_from (t_hist h) first (concat (writes_of (t_hist (demo_task 4)))).
Proof.
  split; [vm_compute; reflexivity|].
  apply (upload_end_to_end demo_routing demo_world (demo_task 4) demo_routing_wf demo_reachable).
  - apply demo_task_in. lia.
  - vm_compute. reflexivity.
  - vm_compute. reflexivity.
  - vm_compute. discriminate.
Defined.

Lemma download_end_to_end_witness :
  writes_of (t_hist (demo_task 3)) = [bs "hi"] ∧
  ∃ h o st dest first, t_id h = t_id (demo_task 3) ∧ tunnelled demo_routing demo_world h o dest first ∧
    st ∈ w_tasks demo_world ∧ t_side st = AtServer ∧ t_prog st = stream_task (t_id (demo_task 3)) ∧
    concat (writes_of (t_hist (demo_task 3))) `prefix_of` reads_of (t_hist st).
Proof.
  split; [vm_compute; reflexivity|].
  apply (download_end_to_end demo_routing demo_world (demo_task 3) demo_routing_wf demo_reachable).
  - apply demo_task_in. lia.
  - vm_compute. reflexivity.
  - vm_compute. reflexivity.
  - vm_compute. discriminate.
Defined.

Lemma accepted_means_connected_witness :
  ∃ o dest first, tunnelled demo_routing demo_world (demo_task 0) o dest first.
Proof.
  apply (accepted_means_connected demo_routing demo_world (demo_task 0) (Some 10%N) demo_routing_wf demo_reachable).
  - apply demo_task_in. lia.
  - vm_compute. reflexivity.
  - exact demo_handler.
  - apply (list_elem_of_lookup_2 _ 5). vm_compute. reflexivity.
Defined.

Lemma wire_always_decodes_witness :
  ∃ f, wf_frame f ∧ encode (Data 1 (bs "bye")) = encode f ∧ decode (encode (Data 1 (bs "bye"))) = Ok f.
Proof.
  apply (wire_always_decodes demo_routing demo_world AtServer _ demo_routing_wf demo_reachable).
  apply (list_elem_of_lookup_2 _ 0). vm_compute. reflexivity.
Defined.

Lemma registered_stream_complete_witness :
  ∃ c, heap (reg (in_of demo_world AtServer)) !! 0 = Some c ∧ is_closed c = false ∧
    got (in_of demo_world AtServer) 0 ++ queued c ++ held_for (reg (in_of demo_world AtServer)) 0 ++
      lost_for (in_of demo_world AtServer) 0 = payloads 1 (taken (in_of demo_world AtServer)) ∧
    (lost_for (in_of demo_world AtServer) 0 = [] ∨ AtServer = AtServer ∧ w_reader demo_world = Cancelled).
Proof.
  apply (registered_stream_complete demo_routing demo_world AtServer 1 0 demo_routing_wf demo_reachable).
  - vm_compute. reflexivity.
  - vm_compute. by intros ?.
Defined.

Lemma session_never_panics_witness : fst (t_conf (demo_task 2)) ≠ Crash.
Proof.
  apply (session_never_panics demo_routing demo_world (demo_task 2) demo_routing_wf demo_reachable).
  apply demo_task_in. lia.
Defined.
