(* ===== verification/WorldRelease.v ===== *)
(** * Invariants of a session, IV: nobody waits for nothing

    A write task waits on its data channel only while something can still send
    on it: a task that will spawn it keeps the receiver for it, a channel
    whose stream is registered nowhere is closed, and after the server's
    reader has ended no stream of it is registered again.  After a shutdown
    its streams stay registered, each with a stream task that goes on. *)
From S2P Require Import Prelude Utf8 Text Net Frame GeoSite GeoIp Routing Sock Http Socks5 Task Relay.
From S2P Require Import Channel Registry Control Mux Client ClientProtocol ClientTraces Ssrf Server Flow Link Roles.
From S2P Require Import World Threads WorldOk WorldLinks WorldAcks Schedule EndToEnd.

(** ** What a task has done before it spawns *)

Section Phases.
Context (fe : front_end).

(** Phases before the write task is spawned. *)
Definition pre_spawn (q : phase) : bool :=
  match q with
  | Start | Asking _ | NoSession _ | Direct _ DStart | Direct _ DUp | Direct _ DReady => true
  | Mux _ (Relaying _) | Mux _ Draining | Mux _ CloseSent | Mux _ (Freed _) => false
  | Mux _ _ => true
  | _ => false
  end.

Lemma pre_spawn_back (q q' : phase) (l : label) :
  advance (local_protocol fe) q l q' → pre_spawn q' = true → pre_spawn q = true ∧ spawns_of [l] = [].
Proof.
  destruct l as [c a|p|]; cbn [advance p_call p_spawn local_protocol]; [|by inversion 1|by intros ->].
  intros Hc Hq. split; [|done]. destruct (pre_spawn q) eqn:E; [done|exfalso]. revert Hq. apply not_true_iff_false.
  destruct q as [|pl|pl|pl s|pl s|]; [done..| | |by destruct c].
  - apply conn_call_mux in Hc as (s' & Hc & ->). destruct s as [| | | | | | | | |[d|]| | |[]]; try done;
      destruct c as [| | | |i| |[]| | | | | | |]; try done; cbn in Hc.
    + case_match; [|done]. apply expect_Some in Hc as [_ ->]. by destruct (is_ok a).
    + injection Hc as <-. by destruct a as [| |[]| | | |].
    + by apply for_stream_Some in Hc as [_ ->].
    + by apply for_stream_Some in Hc as [_ ->].
    + by apply expect_Some in Hc as [_ ->].
  - apply conn_call_direct in Hc as (s' & Hc & ->). destruct s as [| | | |[d|]|]; try done; destruct c; try done; cbn in Hc.
    + by apply expect_Some in Hc as [_ ->].
    + apply expect_Some in Hc as [_ ->]. by destruct (is_ok a).
    + injection Hc as <-. by destruct a as [| |[]| | | |].
Qed.

Lemma pre_spawn_unspawned (q0 q : phase) (ls : list label) :
  accepts (local_protocol fe) q0 ls q → pre_spawn q = true → spawns_of ls = [].
Proof.
  revert q. induction ls as [|l ls IH] using rev_ind; intros q Ha Hq; [done|].
  apply accepts_snoc in Ha as (q1 & Ha & Hl). destruct (pre_spawn_back _ _ _ Hl Hq) as [Hq1 Hs].
  unfold spawns_of in *. rewrite omap_app, Hs, app_nil_r. by apply (IH q1).
Qed.

Lemma fresh_step (q q' : phase) (l : label) :
  advance (local_protocol fe) q l q' → fresh_phase q = true → fresh_phase q' = false → regs_of [l] ≠ [].
Proof.
  destruct l as [c a|p|]; cbn [advance p_call p_spawn local_protocol]; [|by inversion 1|by intros -> ->].
  intros Hc Hq Hq'. destruct q as [|pl|pl|pl s|pl s|]; [| | | | |by destruct c].
  - destruct c; try done; cbn in Hc; repeat (case_match; simplify_eq/=; try done).
  - destruct c; try done. cbn in Hc. injection Hc as <-. by destruct (is_ok a).
  - destruct c; try done. cbn in Hc. by apply expect_Some in Hc as [_ ->].
  - apply conn_call_mux in Hc as (s' & Hc & ->). destruct s; try done. by destruct c.
  - apply conn_call_direct in Hc as (s' & Hc & ->). done.
Qed.

Lemma live_registered (q0 q : phase) (ls : list label) :
  accepts (local_protocol fe) q0 ls q → fresh_phase q0 = true → fresh_phase q = false → regs_of ls ≠ [].
Proof.
  revert q. induction ls as [|l ls IH] using rev_ind; intros q Ha H0 Hq; [inversion Ha; subst; congruence|].
  apply accepts_snoc in Ha as (q1 & Ha & Hl). rewrite regs_of_app. intros [H1 H2]%app_eq_nil.
  destruct (fresh_phase q1) eqn:E; [by apply (fresh_step _ _ _ Hl E Hq)|by apply (IH q1)].
Qed.
End Phases.

Lemma opener_has_registered (id : N) (dest : bytes) (q : opener_phase) (ls : list label) :
  accepts (opener_protocol id dest) OpStart ls q → q = OpRegistered ∨ q = OpAcked → regs_of ls ≠ [].
Proof.
  revert q. induction ls as [|l ls IH] using rev_ind; intros q Ha Hq; [inversion Ha; subst; by destruct Hq|].
  apply accepts_snoc in Ha as (q1 & Ha & Hl). rewrite regs_of_app. intros [H1 H2]%app_eq_nil.
  destruct l as [c a|p|]; cbn in Hl.
  - destruct q1, c; try done; cbn in Hl; repeat (case_match; simplify_eq; try done);
      try (by destruct Hq); try (by apply expect_Some in Hl as [_ ->]; destruct (is_ok a), Hq).
    apply (IH OpRegistered); [done|by left|done].
  - destruct Hl as (_ & _ & ->). by destruct Hq.
  - subst q1. by apply (IH q).
Qed.

Section World.
Context `{ChannelLib, Transport, UnicodeCase, RegexEngine, IpNets} (routing : RoutingConfig).
Hypothesis Hwf : wf_routing routing.

(** ** The receiver stays where it is needed *)

(** A write task holds its [data_rx]; so does, before it, the task that will
    spawn it. *)
Definition keeps_rx (t : task) : Prop :=
  match t_kind t with
  | Handler | Opener => regs_of (t_hist t) ≠ [] → spawns_of (t_hist t) = [] → t_rx t ≠ None
  | Streamer => spawns_of (t_hist t) = [] → t_rx t ≠ None
  | Writer => t_rx t ≠ None
  | Copier => True
  end.

Definition rx_inv (w : world) : Prop := ∀ j t, w_tasks w !! j = Some t → keeps_rx t.

(** Where a task spawns a write task or a stream task, it has the receiver. *)
Lemma spawner_keeps (t : task) (p k : prog) (st : list (prog * prog)) :
  task_ok routing t → keeps_rx t → t_conf t = (Spawn p k, st) →
  kind_of (t_side t) p = Copier ∨ (kind_of (t_side t) p ≠ Handler ∧ kind_of (t_side t) p ≠ Opener ∧ t_rx t ≠ None).
Proof.
  intros Hok Hk Hc. pose proof (tk_run _ _ Hok) as Hs. rewrite Hc in Hs. pose proof (kind_side_of t) as Hside.
  unfold keeps_rx in Hk. destruct (t_kind t) eqn:Hkd.
  - destruct (handler_phase _ Hwf t Hok Hkd) as (fe & _ & Hin & Hp & _).
    destruct (refines_spawn _ _ _ (handlers_refine routing _ _ _ Hwf Hin) _ _ _ _ Hs Hp) as (q & q' & Ha & Hq).
    rewrite (Hside AtClient eq_refl). inversion Hq; subst; [right|by left]. split_and!; [done..|].
    apply Hk; [by apply (live_registered _ _ _ _ Ha)|by apply (pre_spawn_unspawned _ _ _ _ Ha)].
  - by destruct (writer_phase_of _ t Hok Hkd) as (_ & _ & _ & _ & Hx); destruct (Hx _ _ _ Hc).
  - by destruct (copier_phase_of _ t Hok Hkd) as (_ & _ & _ & _ & Hx); destruct (Hx _ _ _ Hc).
  - pose proof (tk_role _ _ Hok) as Hr. unfold role_ok in Hr. rewrite Hkd in Hr. destruct Hr as (_ & dest & Hv & Hp).
    destruct (opener_phase_at _ t dest Hok Hv Hp) as (q & _ & _ & Hx). destruct (Hx _ _ _ Hc) as [-> Hsp].
    rewrite Hp in Hs. destruct (refines_spawn _ _ _ (follows_refines _ _ _ (handle_open_follows (t_id t) dest Hv)) _ _ _ _ Hs
      (opener_free _ _ _)) as (q1 & q' & Ha & -> & _ & _).
    rewrite (Hside AtServer eq_refl). right. split_and!; [done..|].
    apply Hk; [by apply (opener_has_registered _ _ _ _ Ha); right|done].
  - pose proof (tk_role _ _ Hok) as Hr. unfold role_ok in Hr. rewrite Hkd in Hr. destruct Hr as [_ Hp]. rewrite Hp in Hs.
    destruct (refines_spawn _ _ _ (stream_task_refines (t_id t)) _ _ _ _ Hs (all_possible _)) as (q & q' & Ha & Hq).
    destruct (streamer_phase _ t Hok Hkd) as (q0 & _ & _ & _ & _ & Hx). rewrite (Hx _ _ _ Hc) in *.
    rewrite (Hside AtServer eq_refl). right. inversion Hq; subst. split_and!; [done..|].
    apply Hk. by apply (pre_spawn_unspawned _ _ _ _ Ha).
Qed.

Lemma keeps_moved (t : task) (rx ack : option nat) (l : label) (cf : config) :
  keeps_rx t → rx = t_rx t ∧ regs_of [l] = [] ∨ rx ≠ None → keeps_rx (moved (holding t rx ack) l cf).
Proof.
  unfold keeps_rx. change (t_kind (moved (holding t rx ack) l cf)) with (t_kind t). cbn [t_hist t_rx moved holding].
  intros Hk Hrx. rewrite regs_of_app. unfold spawns_of. rewrite omap_app. fold (spawns_of (t_hist t)).
  destruct Hrx as [[-> Hr]|Hrx]; [rewrite Hr, app_nil_r|]; destruct (t_kind t); try done.
  - intros Hn [Hsp _]%app_eq_nil. by apply Hk.
  - intros Hn [Hsp _]%app_eq_nil. by apply Hk.
  - intros [Hsp _]%app_eq_nil. by apply Hk.
Qed.

Lemma rx_inv_step (w w' : world) : world_step routing w w' → tasks_inv routing w → rx_inv w → rx_inv w'.
Proof.
  intros Hst Hi Hk. apply world_step_logs in Hst.
  destruct Hst as [_ Ht|j t l cf ack _ Hj Hst Hd Hg Ht|j t p k st _ Hj Hcf Ht|j t i k st Hj Hcf r Ht _|j t r d k st Hj Hcf Hr Ht _];
    intros i' u Hu.
  - destruct Ht as [Ht|(s & i & p & Ht & Hkd)]; rewrite Ht in Hu; [by eapply Hk|].
    apply lookup_new in Hu as [Hu|[_ ->]]; [by eapply Hk|]. unfold keeps_rx, t_kind. cbn. by destruct Hkd as [-> | ->].
  - rewrite Ht in Hu. apply (lookup_moved _ _ _ _ _ _ Hj) in Hu as [[_ ->]|[_ Hu]]; [|by eapply Hk].
    apply keeps_moved; [by eapply Hk|by left].
  - pose proof (spawner_keeps t p k st (ti_task _ _ Hi _ _ Hj) (Hk _ _ Hj) Hcf) as Hsp.
    rewrite Ht in Hu. apply lookup_new in Hu as [Hu|[_ ->]].
    + apply (lookup_moved _ _ _ _ _ _ Hj) in Hu as [[_ ->]|[_ Hu]]; [|by eapply Hk]. unfold keeps_rx.
      change (t_kind (moved (holding t None (t_ack t)) (LSpawn p) (k, st))) with (t_kind t). cbn [t_hist moved holding].
      unfold spawns_of. rewrite omap_app. cbn.
      destruct (t_kind t) eqn:Hkd; [intros _ [_ [=]]%app_eq_nil| |done|intros _ [_ [=]]%app_eq_nil|intros [_ [=]]%app_eq_nil].
      by destruct (writer_phase_of _ t (ti_task _ _ Hi _ _ Hj) Hkd) as (_ & _ & _ & _ & Hx); destruct (Hx _ _ _ Hcf).
    + unfold keeps_rx, t_kind. cbn. destruct Hsp as [->|(Hn1 & Hn2 & Hrx)]; [done|].
      by destruct (kind_of (t_side t) p).
  - rewrite Ht in Hu. apply (lookup_moved _ _ _ _ _ _ Hj) in Hu as [[_ ->]|[_ Hu]]; [|by eapply Hk].
    apply keeps_moved; [by eapply Hk|by right].
  - rewrite Ht in Hu. apply (lookup_moved _ _ _ _ _ _ Hj) in Hu as [[_ ->]|[_ Hu]]; [|by eapply Hk].
    apply (keeps_moved t (t_rx t) (t_ack t)); [by eapply Hk|by left].
Qed.

(** ** What a task has done stays done *)

Lemma step_hist (w w' : world) (j : nat) (t : task) (l : label) :
  world_step routing w w' → w_tasks w !! j = Some t → l ∈ t_hist t →
  ∃ t', w_tasks w' !! j = Some t' ∧ same_task t t' ∧ l ∈ t_hist t'.
Proof.
  intros Hst Hj Hin. apply world_step_tasks in Hst.
  assert (Hmove : ∀ j0 t0 rx ack lb cf, w_tasks w !! j0 = Some t0 →
    ∃ t', <[j0 := moved (holding t0 rx ack) lb cf]> (w_tasks w) !! j = Some t' ∧ same_task t t' ∧ l ∈ t_hist t').
  { intros j0 t0 rx ack lb cf Hj0.
    destruct (lookup_stays _ j0 j t0 (moved (holding t0 rx ack) lb cf) t Hj0 ltac:(done) Hj) as (u & Hu & Hs & Hne & Heq).
    exists u. split_and!; [done..|]. destruct (decide (j = j0)) as [->|Hn]; [|by rewrite Hne].
    rewrite Heq by done. assert (t = t0) as -> by congruence. apply elem_of_app. by left. }
  assert (Hnew : ∀ ts u, w_tasks w' = ts ++ [u] → (∃ t', ts !! j = Some t' ∧ same_task t t' ∧ l ∈ t_hist t') →
    ∃ t', w_tasks w' !! j = Some t' ∧ same_task t t' ∧ l ∈ t_hist t').
  { intros ts u E (t' & Ht' & ?). exists t'. rewrite E. split; [by apply lookup_app_l_Some|done]. }
  destruct Hst as [Ht|j0 t0 lb cf rx ack Hj0 _ _ _ Ht|j0 t0 p k st Hj0 _ Ht|id fe p _ _ _ Ht|m rest id dest _ _ _ Ht].
  - exists t. by rewrite Ht.
  - rewrite Ht. by apply Hmove.
  - eapply Hnew; [exact Ht|]. by apply Hmove.
  - eapply Hnew; [exact Ht|]. by exists t.
  - eapply Hnew; [exact Ht|]. by exists t.
Qed.

(** A task of the server's has unregistered stream [i]. *)
Definition unregistered (w : world) (i : N) : Prop :=
  ∃ j t a, w_tasks w !! j = Some t ∧ t_side t = AtServer ∧ LCall (Unregister i) a ∈ t_hist t.

Lemma unregistered_step (w w' : world) (i : N) : world_step routing w w' → unregistered w i → unregistered w' i.
Proof.
  intros Hst (j & t & a & Hj & Hs & Hin). destruct (step_hist _ _ _ _ _ Hst Hj Hin) as (t' & Hj' & (E & _) & Hin').
  exists j, t', a. by rewrite E.
Qed.

(** ** Streams that have been unregistered *)

(** A call in a task's history was there before, or is the step. *)
Lemma step_label (w w' : world) (j : nat) (t : task) (c : call) (a : answer) :
  world_step routing w w' → w_tasks w' !! j = Some t → LCall c a ∈ t_hist t →
  (∃ t0, w_tasks w !! j = Some t0 ∧ same_task t0 t ∧ LCall c a ∈ t_hist t0) ∨
  ∃ t0 w1 t1, w_tasks w !! j = Some t0 ∧ same_task t0 t ∧ do_call w t0 c a = Some (w1, t1) ∧
    ∀ s, end_of w' s = end_of w1 s.
Proof.
  intros Hst Hj Hin.
  assert (Hsame : w_tasks w' = w_tasks w → ∃ t0, w_tasks w !! j = Some t0 ∧ same_task t0 t ∧ LCall c a ∈ t_hist t0)
    by (intros E; rewrite E in Hj; by exists t).
  assert (Hnew : ∀ u, w_tasks w' = w_tasks w ++ [u] → t_hist u = [] →
    ∃ t0, w_tasks w !! j = Some t0 ∧ same_task t0 t ∧ LCall c a ∈ t_hist t0).
  { intros u E Hu. rewrite E in Hj. apply lookup_new in Hj as [Hj|[_ ->]]; [by exists t|].
    rewrite Hu in Hin. by apply elem_of_nil in Hin. }
  destruct Hst as [who Hst]; destruct Hst as [w' Hst| | | | | | | | | | | | | |]; try (left; by apply Hsame); try (left; by eapply Hnew);
    try (left; apply Hsame; by destruct s).
  destruct Hst as [j0 t0 c0 k st b w' t' [Hj0 Hpl] Hcf Henv Hc|j0 t0 p k st [Hj0 Hpl] Hcf|j0 t0 cf [Hj0 Hpl] Hst|j0 t0 r Hj0 Hcf Hrx l].
  - apply (lookup_moved _ _ _ _ _ _ Hj0) in Hj as [[-> ->]|[_ Hj]]; [|left; by exists t].
    pose proof (call_effect_sent _ _ _ _ _ _ (do_call_effect _ _ _ _ _ _ Hc)) as (_ & _ & rx & ack & Hm).
    rewrite (Hm (LCall c0 b) (k b, st)) in Hin |- *. cbn in Hin.
    apply elem_of_app in Hin as [Hin|Hin%list_elem_of_singleton]; [left; by exists t0|right].
    injection Hin as <- <-. exists t0, w', t'. split_and!; [done..|]. intros s. apply end_with_tasks.
  - left. apply lookup_new in Hj as [Hj|[_ ->]]; [|by apply elem_of_nil in Hin].
    apply (lookup_moved _ _ _ _ _ _ Hj0) in Hj as [[-> ->]|[_ Hj]]; [|by exists t].
    cbn in Hin. apply elem_of_app in Hin as [Hin|Hin%list_elem_of_singleton]; [by exists t0|done].
  - left. apply (lookup_moved _ _ _ _ _ _ Hj0) in Hj as [[-> ->]|[_ Hj]]; [|by exists t].
    cbn in Hin. apply elem_of_app in Hin as [Hin|Hin%list_elem_of_singleton]; [by exists t0|done].
  - left. apply Hsame. by destruct (t_side t0).
Qed.

(** Only [register] adds a stream. *)
Lemma inner_from (w : world) (s : side) (l : link) (i : N) (r : nat) :
  link_effect w s l → inner (reg l) !! i = Some r →
  inner (reg (in_of w s)) !! i = Some r ∨
  ∃ j t k st, w_tasks w !! j = Some t ∧ t_side t = s ∧ t_conf t = (Do (Register i) k, st).
Proof.
  destruct 1 as [|m|rest|i'| |x Hx|j t i' k st Hj Hs Hcf|rest f x Hr Hp Hreg|rest i' d Hr|j t x d r' Hj Hs Hrx Hx|j t x Hj Hs Hrx|Hs Hen];
    try (by left); cbn [reg set_reg read_link take_one log_got cut_link].
  - intros Hi. left. by eapply inner_close.
  - intros Hi. by apply inner_close_all in Hi.
  - rewrite (inner_route_finish _ _ Hx). by left.
  - unfold open_link. cbn [reg set_reg log_owner]. rewrite inner_register.
    intros [[-> _]|[_ Hi]]%lookup_insert_Some; [right|by left]. by eexists j, t, k, st.
  - destruct Hreg as [->|[i' ->]]; [by left|]. intros Hi. left. by eapply inner_close.
  - unfold route_start. destruct (inner _ !! i'); by left.
  - unfold receive in Hx. destruct (heap _ !! x) as [c|]; [|done]. cbn in Hx.
    destruct (pull c) as [[d' c']|]; [|done]. injection Hx as <- <-. by left.
  - rewrite (proj1 (abandon_same _)). by left.
Qed.

(** An opener that still makes calls has not spawned its stream task. *)
Lemma calling_unspawned (t : task) (c : call) (k : answer → prog) (st : list (prog * prog)) :
  task_ok routing t → t_kind t = Opener → t_conf t = (Do c k, st) → spawns_of (t_hist t) = [].
Proof.
  intros Hok Hk Hcf. pose proof (tk_role _ _ Hok) as Hr. unfold role_ok in Hr. rewrite Hk in Hr.
  destruct Hr as (_ & dest & Hv & Hp). pose proof (tk_run _ _ Hok) as Hs. rewrite Hp, Hcf in Hs.
  destruct (refines_call _ _ _ (follows_refines _ _ _ (handle_open_follows (t_id t) dest Hv)) _ c AErr _ _ Hs
    (opener_free _ _ _) I) as (q & q' & Ha & Hq).
  destruct (opener_unspawned _ _ _ _ Ha) as [->|?]; [|done]. by destruct c.
Qed.

(** A stream task that has unregistered its stream leaves nothing behind. *)
Definition unregistered_gone (w : world) : Prop :=
  ∀ j t a, w_tasks w !! j = Some t → t_kind t = Streamer → LCall (Unregister (t_id t)) a ∈ t_hist t →
    inner (reg (in_of w AtServer)) !! t_id t = None.

Lemma unregistered_gone_step (w w' : world) :
  world_step routing w w' → session_inv routing w → unregistered_gone w → unregistered_gone w'.
Proof.
  intros Hst [Ht Ho Hl _] Hg j t a Hj Hk Hin.
  assert (Hside : ∀ t0, same_task t0 t → t_side t0 = AtServer).
  { intros t0 Hs. apply kind_side_of. by rewrite <- (same_kind _ _ Hs), Hk. }
  destruct (step_label _ _ _ _ _ _ Hst Hj Hin) as [(t0 & Hj0 & Hs & Hin0)|(t0 & w1 & t1 & Hj0 & Hs & Hc & He)].
  - pose proof (Hside t0 Hs) as Hsd. rewrite (same_kind _ _ Hs) in Hk. destruct Hs as (_ & Hid & _).
    rewrite Hid in Hin0 |- *. pose proof (Hg j t0 a Hj0 Hk Hin0) as Hn.
    destruct (inner (reg (in_of w' AtServer)) !! t_id t0) as [r|] eqn:Hi; [exfalso|done].
    destruct (inner_from _ _ _ _ _ (world_step_link _ _ _ Hst AtServer) Hi) as [?|(jo & u & k & st & Hu & Hsu & Hcf)]; [congruence|].
    pose proof (ti_task _ _ Ht _ _ Hu) as Hok.
    destruct (task_register _ Hwf u _ k st Hok Hcf) as (Hidu & Hreg & [[Hku _]|Hku]).
    { pose proof (kind_side_of u AtClient) as Hx. rewrite Hku in Hx. by rewrite Hx in Hsu. }
    destruct (ti_streamer _ _ Ht j t0 Hj0 Hk) as (j' & o & Hjo & Hko & Hido & Hsp).
    assert (j' = jo) as -> by (apply (ti_alone _ _ Ht j' jo o u Hjo Hu); [congruence|by rewrite Hko|congruence]).
    assert (o = u) as -> by congruence. by rewrite (calling_unspawned u _ k st Hok Hku Hcf) in Hsp.
  - unfold in_of. rewrite He. pose proof (Hside t0 Hs) as Hsd. destruct a; try done. cbn in Hc. injection Hc as <- <-.
    rewrite Hsd. unfold with_link. rewrite end_of_with_end, decide_True by done. cbn. unfold close.
    destruct (drop_old_same (inner (reg (in_of w AtServer)) !! t_id t)
      (with_inner (reg (in_of w AtServer)) (delete (t_id t) (inner (reg (in_of w AtServer)))))) as (-> & _).
    cbn. apply lookup_delete_eq.
Qed.

(** ** After the server's session *)

Definition ended_inv (w : world) : Prop :=
  w_ended w = true → held (reg (in_of w AtServer)) = None ∧
    (w_reader w = Ended → w_opening w = None ∧ inner (reg (in_of w AtServer)) = ∅).

Lemma inner_close_all_nil (s : streams) : inner (close_all s) = ∅ ∧ held (close_all s) = held s.
Proof. unfold close_all. by destruct (foldr_drop_same (map snd (map_to_list (inner s))) (with_inner s ∅)) as (-> & -> & _). Qed.

(** The loop of the server's reader ends once, where it takes messages, or is
    dropped. *)
Lemma world_step_ended (w w' : world) : world_step routing w w' → w_ended w' = true →
  w_ended w = true ∧ w_reader w' = w_reader w ∧ (w_opening w = None → w_opening w' = None) ∨
  reader_ready w AtServer ∧ w_opening w' = None ∧ reg (in_of w' AtServer) = close_all (reg (in_of w AtServer)) ∨
  w' = server_cancel w.
Proof.
  intros [who Hst]; destruct Hst as [w' Hst|id fe p Hge Hn Hin|s0 f c Hc Hh Hf|s0 f Hc Hh Hroom|s0 closes Hc Hf Hcs|s0 m rest e Hr Hw Hd|s0 r Hr|m rest f Hr Hw Hd
    |ev Hr Hev| |m rest f id dest Hr Hw Hd He|j t Hen Ho Hj Hf|m rest f act Hr Hw Hd He Hn|Hr|Hcan];
    try (by left); try (by destruct s0; left).
  - destruct Hst as [j t c k st a w' t' [Hj Hpl] Hcf Ha Hc|j t p k st [Hj Hpl] Hcf|j t cf [Hj Hpl] Hst|j t r Hj Hcf Hrx l]; try (by left);
      [|by destruct (t_side t); left].
    apply do_call_effect in Hc. destruct Hc as [i l|i l|i|f e He|o b r ch ch' Hr Hch Hp|d r s Hr Hd|]; try (by left);
      by destruct (t_side t); left.
  - intros Hx. exfalso. destruct Hr as (_ & Hr & _). unfold w_ended in *. cbn in Hx. congruence.
  - right. left. by split_and!; [|apply Hr|].
  - right. by right.
Qed.

(** After it nothing is routed, and in order it has left nothing registered. *)
Lemma held_ended (w : world) (l : link) :
  w_ended w = true → held (reg (in_of w AtServer)) = None → link_effect w AtServer l → held (reg l) = None.
Proof.
  intros He Hh. assert (Hno : ¬ reader_ready w AtServer) by (intros (_ & Hx & _); congruence).
  destruct 1 as [|m|rest|i| |r Hr|j t i k st Hj Hs Hcf|rest f r Hr Hp Hreg|rest i d Hr|j t r d r' Hj Hs Hrx Hr|j t r Hj Hs Hrx|Hs Hen];
    try done; cbn [reg set_reg log_got log_drop cut_link].
  - by rewrite held_close.
  - by rewrite held_close_all.
  - by apply held_route_finish in Hr.
  - unfold open_link. cbn [reg set_reg log_owner]. by rewrite held_register.
  - unfold receive in Hr. destruct (heap _ !! r) as [c|]; [|done]. cbn in Hr.
    destruct (pull c) as [[d' c']|]; [|done]. by injection Hr as <- <-.
  - by apply abandon_same.
Qed.

Lemma inner_ended (w : world) (l : link) :
  tasks_inv routing w → opening_inv w → w_opening w = None → inner (reg (in_of w AtServer)) = ∅ →
  link_effect w AtServer l → inner (reg l) = ∅.
Proof.
  intros Ht Ho Hop Hin Hl. apply map_empty. intros i. destruct (inner (reg l) !! i) as [r|] eqn:Hi; [exfalso|done].
  destruct (inner_from _ _ _ _ _ Hl Hi) as [Hx|(j & t & k & st & Hj & Hs & Hcf)]; [by rewrite Hin, lookup_empty in Hx|].
  destruct (task_register _ Hwf t i k st (ti_task _ _ Ht _ _ Hj) Hcf) as (_ & _ & [[Hk _]|Hk]).
  - pose proof (kind_side_of t AtClient) as Hx. rewrite Hk in Hx. by rewrite Hx in Hs.
  - pose proof (oi_wait _ Ho j t Hj Hk ltac:(by rewrite Hcf)). congruence.
Qed.

Lemma ended_inv_step (w w' : world) :
  world_step routing w w' → tasks_inv routing w → opening_inv w → ended_inv w → ended_inv w'.
Proof.
  intros Hst Ht Ho Hi He. pose proof (world_step_link _ _ _ Hst AtServer) as Hl.
  destruct (world_step_ended _ _ Hst He) as [(He0 & Hrd & Hop)|[([Hh _] & Hop & Hr)|Hr]].
  - destruct (Hi He0) as (Hh & Hx). split; [by apply (held_ended w)|]. rewrite Hrd. intros Hrd0.
    destruct (Hx Hrd0) as [Hop0 Hin]. split; [by apply Hop|by apply (inner_ended w)].
  - rewrite Hr. destruct (inner_close_all_nil (reg (in_of w AtServer))) as [-> ->]. done.
  - subst w'. split; [|done]. apply abandon_same.
Qed.

(** ** A write task of the server's has been spawned by the stream's task *)

Definition writers_spawned (w : world) : Prop :=
  ∀ j t, w_tasks w !! j = Some t → t_side t = AtServer → t_kind t = Writer →
    ∃ j' st, w_tasks w !! j' = Some st ∧ t_kind st = Streamer ∧ t_id st = t_id t.

Lemma server_writer_spawner (t : task) (p k : prog) (st : list (prog * prog)) :
  task_ok routing t → t_side t = AtServer → t_conf t = (Spawn p k, st) → kind_of AtServer p = Writer → t_kind t = Streamer.
Proof.
  intros Hok Hs Hcf Hp. pose proof (kind_side_of t) as Hside. destruct (t_kind t) eqn:Hk; [| | | |done].
  - specialize (Hside AtClient eq_refl). congruence.
  - by destruct (writer_phase_of _ t Hok Hk) as (_ & _ & _ & _ & Hx); destruct (Hx _ _ _ Hcf).
  - by destruct (copier_phase_of _ t Hok Hk) as (_ & _ & _ & _ & Hx); destruct (Hx _ _ _ Hcf).
  - destruct (opener_phase_of _ t Hok Hk) as (dest & q & _ & _ & _ & Hx). by destruct (Hx _ _ _ Hcf) as [-> _].
Qed.

Lemma writers_spawned_step (w w' : world) :
  world_step routing w w' → tasks_inv routing w → writers_spawned w → writers_spawned w'.
Proof.
  intros Hst Ht Hi. apply world_step_tasks in Hst.
  assert (Hmove : ∀ j0 t0 t1 i, w_tasks w !! j0 = Some t0 → same_task t0 t1 →
    (∃ j' st, w_tasks w !! j' = Some st ∧ t_kind st = Streamer ∧ t_id st = i) →
    ∃ j' st, <[j0 := t1]> (w_tasks w) !! j' = Some st ∧ t_kind st = Streamer ∧ t_id st = i).
  { intros j0 t0 t1 i Hj0 Hs (j' & st & Hj' & Hk & Hid).
    destruct (lookup_stays _ _ _ _ _ _ Hj0 Hs Hj') as (u & Hu & Hsu & _). exists j', u.
    rewrite (same_kind _ _ Hsu). destruct Hsu as (_ & -> & _). done. }
  assert (Hnew : ∀ ts u i, (∃ j' st, ts !! j' = Some st ∧ t_kind st = Streamer ∧ t_id st = i) →
    ∃ j' st, (ts ++ [u]) !! j' = Some st ∧ t_kind st = Streamer ∧ t_id st = i).
  { intros ts u i (j' & st & Hj' & ?). exists j', st. split; [by apply lookup_app_l_Some|done]. }
  destruct Hst as [E _ _|j0 t0 l cf rx ack Hj0 Hst Hl Hnsp E _ _|j0 t0 p k st Hj0 Hcf E _ _|id fe p Hge Hle Hin E _ _
    |m rest id dest Ho Hw Hd E _ _ _]; intros j t Hj Hs Hk; rewrite E in Hj |- *.
  - by eapply Hi.
  - apply (Hmove _ t0); [done..|]. apply (lookup_moved _ _ _ _ _ _ Hj0) in Hj as [[-> ->]|[_ Hj]]; [by eapply (Hi j0 t0)|by eapply Hi].
  - apply Hnew. eapply (Hmove _ t0); [done..|]. apply lookup_new in Hj as [Hj|[_ ->]].
    + apply (lookup_moved _ _ _ _ _ _ Hj0) in Hj as [[-> ->]|[_ Hj]]; [by eapply (Hi j0 t0)|by eapply Hi].
    + exists j0, t0. split; [done|]. split; [|done]. cbn in Hs. unfold t_kind in Hk. cbn in Hk. rewrite Hs in Hk.
      by apply (server_writer_spawner t0 p k st (ti_task _ _ Ht _ _ Hj0)).
  - apply Hnew. apply lookup_new in Hj as [Hj|[_ ->]]; [by eapply Hi|done].
  - apply Hnew. apply lookup_new in Hj as [Hj|[_ ->]]; [by eapply Hi|]. unfold t_kind in Hk. cbn in Hk. by rewrite opener_kind in Hk.
Qed.

Record release_inv (w : world) : Prop := {
  ri_rx : rx_inv w;
  ri_ended : ended_inv w;
  ri_gone : unregistered_gone w;
  ri_writers : writers_spawned w
}.

Lemma release_inv_reach (w : world) : reachable routing w → release_inv w.
Proof.
  revert w. unfold reachable. apply (rtc_ind_r release_inv).
  - split; [by intros j t Hj|done|by intros j t a Hj|by intros j t Hj].
  - intros w w' Hr Hst [Hrx He Hg Hw]. pose proof (session_inv_reach routing Hwf w Hr) as Hi. pose proof Hi as [Ht Ho _ _].
    split; [by eapply rx_inv_step|by eapply ended_inv_step|by eapply unregistered_gone_step|by eapply writers_spawned_step].
Qed.

(** A registered stream that has a write task has its stream task. *)
Lemma registered_streams_on (w : world) (j : nat) (t : task) (r : nat) :
  session_inv routing w → release_inv w → w_tasks w !! j = Some t → t_side t = AtServer → t_kind t = Writer →
  inner (reg (in_of w AtServer)) !! t_id t = Some r →
  ∃ st, st ∈ w_tasks w ∧ t_side st = AtServer ∧ t_prog st = stream_task (t_id t) ∧ fst (t_conf st) ≠ Return.
Proof.
  intros Hi Hr Hj Hs Hk Hin. destruct (ri_writers _ Hr j t Hj Hs Hk) as (j' & st & Hj' & Hks & Hid).
  pose proof (ti_task _ _ (si_tasks _ _ Hi) _ _ Hj') as Hok. pose proof (tk_role _ _ Hok) as Hro. unfold role_ok in Hro.
  rewrite Hks in Hro. destruct Hro as [_ Hp]. pose proof (tk_run _ _ Hok) as Hrun. rewrite Hp in Hrun.
  exists st. split_and!; [by eapply list_elem_of_lookup_2|apply kind_side_of; by rewrite Hks|congruence|]. intros Hret.
  destruct (download_shape _ _ _ Hrun) as (_ & _ & _ & _ & _ & _ & Hun). destruct (Hun Hret) as [a Ha].
  pose proof (ri_gone _ Hr j' st a Hj' Hks Ha) as Hn. rewrite Hid in Hn. congruence.
Qed.

(** ** A channel that is neither fed nor closed has a sender *)

Definition can_receive (w : world) (t : task) : Prop := ∃ a w' t', do_call w t DataRecv a = Some (w', t').

Lemma receiver_served (w : world) (t : task) (r : nat) (i : N) :
  link_ok (λ _, True) (in_of w (t_side t)) → t_rx t = Some r → owner (in_of w (t_side t)) !! r = Some i →
  can_receive w t ∨
  inner (reg (in_of w (t_side t))) !! i = Some r ∨
  ∃ d s, held (reg (in_of w (t_side t))) = Some (r, d) ∧ route_finish (reg (in_of w (t_side t))) = Some s.
Proof.
  intros Hl Hr Ho. unfold can_receive, do_call. rewrite Hr. cbn.
  destruct (lo_dom _ _ Hl _ _ Ho) as [c Hc]. pose proof (lo_reg _ _ Hl) as Hreg.
  destruct (pull c) as [[d c']|] eqn:Hp.
  { left. exists (ABytes d). unfold receive. rewrite Hc. cbn. rewrite Hp. cbn. rewrite bool_decide_true by done. eauto. }
  destruct (is_closed c) eqn:Hcl.
  { left. exists AErr. rewrite Hc. cbn. unfold drained. rewrite Hcl, Hp. cbn. eauto. }
  right. destruct (in_use (reg (in_of w (t_side t))) r) eqn:Hu.
  - apply in_use_iff in Hu as [(i' & Hi)|(d & Hd)]; [left|right].
    + pose proof (lo_owner _ _ Hl _ _ Hi). congruence.
    + exists d. unfold route_finish. rewrite Hd, Hc, Hcl.
      assert (queued c = []) as Hq.
      { destruct (queued c) eqn:E; [done|]. destruct (pull_ready c) as [x Hx]; congruence. }
      destruct (push_ready d c Hcl) as [c' ->]; [|eauto].
      destruct (wf_cap _ _ Hreg _ _ Hc) as [-> _]. rewrite Hq. cbn. lia.
  - destruct (wf_closed _ _ Hreg _ _ Hc Hu) as [Hx|Hx]; [by apply elem_of_nil in Hx|congruence].
Qed.
End World.

(** ** Properties *)

Section Properties.
Context `{ChannelLib, Transport, UnicodeCase, RegexEngine, IpNets} (routing : RoutingConfig).

(** C7: No write task is orphaned: in every state a session can reach, a write
    task of either end that waits for data either is served now, with a payload
    or with the end of its channel; or its stream is still registered, and at
    the server the stream's task, which will unregister it, has not returned;
    or a payload for it is being routed and can be put into the channel now.
    Once the server's reader has stopped every write task of the server is
    served; after a shutdown nothing is routed, but streams stay registered
    while their tasks go on. *)
Theorem write_task_never_orphaned (w : world) (t : task) (k : answer → prog) (st : list (prog * prog))
  (Hwf : wf_routing routing) (Hreach : reachable routing w) (Hin : t ∈ w_tasks w)
  (Hprog : t_prog t = write_task) (Hwaits : t_conf t = (Do DataRecv k, st)) :
  can_receive w t ∨
  ∃ r, t_rx t = Some r ∧ (t_side t = AtServer → w_reader w ≠ Ended) ∧
    (inner (reg (in_of w (t_side t))) !! t_id t = Some r ∧
       (t_side t = AtServer → ∃ u, u ∈ w_tasks w ∧ t_side u = AtServer ∧ t_prog u = stream_task (t_id t) ∧
          fst (t_conf u) ≠ Return) ∨
     (t_side t = AtServer → w_reader w = Reads) ∧
       ∃ d s, held (reg (in_of w (t_side t))) = Some (r, d) ∧ route_finish (reg (in_of w (t_side t))) = Some s).
Proof.
  apply list_elem_of_lookup_1 in Hin as [j Hj]. pose proof (release_inv_reach routing Hwf w Hreach) as Hri.
  pose proof (session_inv_reach routing Hwf w Hreach) as Hi. pose proof (ri_ended _ Hri) as He.
  pose proof (writer_kind t Hprog) as Hkd. pose proof (ri_rx _ Hri j t Hj) as Hk. unfold keeps_rx in Hk. rewrite Hkd in Hk.
  destruct (t_rx t) as [r|] eqn:Hr; [|done]. pose proof (li_rx _ (si_links _ _ Hi) j t r Hj Hr) as Ho.
  destruct (receiver_served w t r (t_id t) (li_link _ (si_links _ _ Hi) _) Hr Ho) as [?|Hx]; [by left|right].
  exists r. split; [done|]. split.
  - intros Hs Hrd. destruct (He ltac:(unfold w_ended; by rewrite Hrd)) as [Hh Hn]. destruct (Hn Hrd) as [_ Hin].
    rewrite Hs in Hx. rewrite Hin, Hh, lookup_empty in Hx. naive_solver.
  - destruct Hx as [Hx|Hx]; [left|right]; (split; [|done]) || (split; [done|]); intros Hs; rewrite Hs in Hx.
    + by apply (registered_streams_on routing w j t r).
    + destruct Hx as (d & s & Hd & _). destruct (w_reader w) eqn:Hrd; [done|..];
        destruct (He ltac:(unfold w_ended; by rewrite Hrd)) as [Hh _]; congruence.
Qed.

End Properties.
(** ** Witnesses *)

#[local] Existing Instances queue_channels one_message demo_case demo_engine demo_nets.

(** The demo of [EndToEnd] up to where the server's write task waits for the
    first payload, which is in its channel. *)
Definition waiting_acts : list act := take 29 demo_acts.

Definition waiting_task : task := task_after demo_routing waiting_acts 4.

Lemma waiting_reachable : reachable demo_routing (after demo_routing waiting_acts).
Proof.
  apply after_reachable; [|vm_compute; reflexivity].
  unfold waiting_acts, demo_acts. cbn [take]. repeat (apply Forall_cons; split; [first [exact I|exact demo_request_possible]|]). constructor.
Qed.

Lemma write_task_never_orphaned_witness :
  let w := after demo_routing waiting_acts in
  let t := waiting_task in
  can_receive w t ∨
  ∃ r, t_rx t = Some r ∧ (t_side t = AtServer → w_reader w ≠ Ended) ∧
    (inner (reg (in_of w (t_side t))) !! t_id t = Some r ∧
       (t_side t = AtServer → ∃ u, u ∈ w_tasks w ∧ t_side u = AtServer ∧ t_prog u = stream_task (t_id t) ∧
          fst (t_conf u) ≠ Return) ∨
     (t_side t = AtServer → w_reader w = Reads) ∧
       ∃ d s, held (reg (in_of w (t_side t))) = Some (r, d) ∧ route_finish (reg (in_of w (t_side t))) = Some s).
Proof.
  eapply (write_task_never_orphaned demo_routing _ waiting_task _ _ demo_routing_wf waiting_reachable).
  - apply (task_after_in demo_routing waiting_acts 4 5); [vm_compute; reflexivity|lia].
  - vm_compute. reflexivity.
  - unfold waiting_task. vm_compute. reflexivity.
Defined.
