(* ===== verification/WorldSends.v ===== *)
(** * Invariants of a session, V: the channel to a writer loop

    What a step does to an end's [frame_channel(128)]: its capacity stays, and
    once closed it stays closed; a send fails only then.  From that, the order
    of the server's frames: a stream's DATA comes after its OPEN_ACK. *)
From S2P Require Import Prelude Utf8 Text Net Frame GeoSite GeoIp Routing Sock Http Socks5 Task Relay.
From S2P Require Import Channel Registry Control Mux Client ClientProtocol ClientTraces Ssrf Server Flow Link Roles.
From S2P Require Import World Threads WorldOk WorldLinks WorldAcks Schedule EndToEnd WorldRelease.

#[local] Arguments payloads : simpl never.
#[local] Arguments acks_in : simpl never.

(** An opener that has spawned its stream task has sent a positive OPEN_ACK, or
    has tried to. *)
Lemma opener_acked_label (id : N) (dest : bytes) (q : opener_phase) (ls : list label) :
  accepts (opener_protocol id dest) OpStart ls q → q = OpAcked ∨ spawns_of ls ≠ [] →
  ∃ a, LCall (Send (OpenAck id true)) a ∈ ls.
Proof.
  revert q. induction ls as [|l ls IH] using rev_ind; intros q Ha Hq.
  { inversion Ha; subst. by destruct Hq. }
  apply accepts_snoc in Ha as (q1 & Ha & Hl).
  assert (Hold : q1 = OpAcked ∨ spawns_of ls ≠ [] → ∃ a, LCall (Send (OpenAck id true)) a ∈ ls ++ [l]).
  { intros Hx. destruct (IH q1 Ha Hx) as [a Hin]. exists a. apply elem_of_app. by left. }
  unfold spawns_of in *. rewrite omap_app in Hq.
  destruct l as [c a|p|]; cbn in Hl, Hq; rewrite ?app_nil_r in Hq.
  - destruct Hq as [->|Hq]; [|by apply Hold; right].
    destruct q1, c; try done; cbn in Hl.
    + repeat (case_match; try done).
    + repeat (case_match; try done); apply expect_Some in Hl as [_ Hl]; congruence.
    + by case_match.
    + destruct f as [| |i []| |]; try done. destruct (i =? id)%N eqn:E; [|done]. apply N.eqb_eq in E as ->.
      exists a. apply elem_of_app. right. by apply list_elem_of_singleton.
    + by case_match.
    + destruct f as [| |i []| |]; try done. by case_match.
  - destruct Hl as (-> & _ & _). apply Hold. by left.
  - apply Hold. by destruct Hq; [left; subst|right].
Qed.

Section World.
Context `{ChannelLib, Transport, UnicodeCase, RegexEngine, IpNets} (routing : RoutingConfig).
Hypothesis Hwf : wf_routing routing.

(** ** What a step does to an end's channel *)

Definition out_of (w : world) (s : side) : chan Frame := ep_out (end_of w s).

Inductive out_effect (w w' : world) (s : side) : Prop :=
| oe_same : out_of w' s = out_of w s → sent w' s = sent w s → out_effect w w' s
| oe_push f : push f (out_of w s) = Some (out_of w' s) → sent w' s = sent w s ++ [f] → out_effect w w' s
| oe_pull f : pull (out_of w s) = Some (f, out_of w' s) → sent w' s = sent w s → out_effect w w' s
| oe_shut : out_of w' s = shut (out_of w s) → sent w' s = sent w s → out_effect w w' s.

Lemma out_ext (w w' : world) : (∀ s, end_of w' s = end_of w s) → ∀ s, out_effect w w' s.
Proof. intros E s. apply oe_same; unfold out_of, sent; by rewrite E. Qed.

Lemma out_link (w : world) (s0 : side) (l : link) (s : side) : out_effect w (with_link w s0 l) s.
Proof. apply oe_same; unfold out_of; [|apply sent_with_link]. unfold with_link. rewrite end_of_with_end. by case_decide; subst. Qed.

Lemma out_trans (w w1 w' : world) (s : side) : (∀ s', end_of w' s' = end_of w1 s') → out_effect w w1 s → out_effect w w' s.
Proof.
  intros E Ho. assert (Eo : out_of w' s = out_of w1 s) by (unfold out_of; by rewrite E).
  assert (Es : sent w' s = sent w1 s) by (unfold sent; by rewrite E).
  destruct Ho; rewrite <- ?Eo, <- ?Es in *; [by apply oe_same|by eapply oe_push|by eapply oe_pull|by eapply oe_shut].
Qed.

Lemma world_step_out (w w' : world) : world_step routing w w' → ∀ s, out_effect w w' s.
Proof.
  intros [who Hst]; destruct Hst as [w' Hst|id fe p Hge Hn Hin|s0 f c Hc Hh Hf|s0 f Hc Hh Hroom|s0 closes Hc Hf Hcs|s0 m rest e Hr Hw Hd|s0 r Hr|m rest f Hr Hw Hd
    |ev Hr Hev| |m rest f id dest Hr Hw Hd He|j t Hen Ho Hj Hf|m rest f act Hr Hw Hd He Hn|Hr|Hcan]; intros s;
    try (by apply out_ext; intros []); try (by apply out_link); try (by apply oe_same; destruct s).
  - destruct Hst as [j t c k st a w' t' [Hj Hpl] Hcf Ha Hc|j t p k st [Hj Hpl] Hcf|j t cf [Hj Hpl] Hst|j t r Hj Hcf Hrx l];
      try (by apply out_ext; intros []); [|by apply out_link].
    apply do_call_effect in Hc. eapply out_trans; [intros; apply end_with_tasks|].
    destruct Hc as [i l|i l|i|f e He|o b r ch ch' Hr Hch Hp|d r x Hr Hd|];
      try (by apply out_ext; intros []); try (by apply out_link).
    unfold push_frame in He. destruct (push f (ep_out (end_of w (t_side t)))) as [ch|] eqn:Ep; [|done]. cbn in He. injection He as <-.
    destruct (decide (t_side t = s)) as [E|E].
    + apply (oe_push _ _ _ f); unfold out_of, sent; rewrite end_of_with_end, decide_True by done; [by subst|by rewrite E].
    + apply oe_same; unfold out_of, sent; by rewrite end_of_with_end, decide_False.
  - destruct (decide (s0 = s)) as [->|E].
    + apply (oe_pull _ _ _ f); [etrans; [exact Hf|]|]; by destruct s.
    + apply oe_same; by destruct s0, s.
  - by apply oe_same; destruct s0, s.
  - destruct (decide (s0 = s)) as [->|E].
    + by apply oe_shut; destruct s.
    + apply oe_same; by destruct s0, s.
Qed.

Record outs_inv (w : world) : Prop := {
  ou_cap s : capacity (out_of w s) = 128;
  ou_failed j t f a : w_tasks w !! j = Some t → LCall (Send f) a ∈ t_hist t → is_ok a = false →
    is_closed (out_of w (t_side t)) = true
}.

Lemma out_effect_keeps (w w' : world) (s : side) : out_effect w w' s →
  capacity (out_of w' s) = capacity (out_of w s) ∧ (is_closed (out_of w s) = true → is_closed (out_of w' s) = true).
Proof.
  intros [Eo _|f Hp _|f Hp _|Eo _]; [by rewrite Eo| | |].
  - apply push_spec in Hp as (Hcl & _ & _ & -> & _). split; [done|congruence].
  - apply pull_spec in Hp as (_ & -> & ->). done.
  - by rewrite Eo, shut_capacity, shut_closed.
Qed.

(** A send that has failed did so before, or the channel is closed. *)
Lemma step_send (w w' : world) (j : nat) (t : task) (f : Frame) (a : answer) :
  world_step routing w w' → w_tasks w' !! j = Some t → LCall (Send f) a ∈ t_hist t → is_ok a = false →
  is_closed (out_of w (t_side t)) = true ∨
  ∃ t0, w_tasks w !! j = Some t0 ∧ t_side t0 = t_side t ∧ LCall (Send f) a ∈ t_hist t0.
Proof.
  intros Hst Hj Hin Ha.
  destruct (step_label _ _ _ _ _ _ _ Hst Hj Hin) as [(t0 & Hj0 & Hs & Hin0)|(t0 & w1 & t1 & Hj0 & Hs & Hc & _)].
  - right. exists t0. by destruct Hs as (-> & _).
  - left. destruct Hs as (-> & _). destruct a; try done. cbn in Hc. by destruct (is_closed _) eqn:E.
Qed.

Lemma outs_inv_step (w w' : world) : world_step routing w w' → outs_inv w → outs_inv w'.
Proof.
  intros Hst [Hcap Hf]. pose proof (world_step_out _ _ Hst) as Ho. split.
  - intros s. destruct (out_effect_keeps _ _ _ (Ho s)) as [-> _]. apply Hcap.
  - intros j t f a Hj Hin Ha. destruct (out_effect_keeps _ _ _ (Ho (t_side t))) as [_ Hk]. apply Hk.
    destruct (step_send _ _ _ _ _ _ Hst Hj Hin Ha) as [?|(t0 & Hj0 & <- & Hin0)]; [done|by eapply Hf].
Qed.

(** ** Acknowledged before anything is sent back *)

Definition acked_first (w : world) : Prop :=
  ∀ fs i, fs `prefix_of` sent w AtServer → payloads i fs ≠ [] → acks_in i fs ≠ [].

(** While the channel is open, a stream task's stream has been acknowledged. *)
Lemma streamer_acked (w : world) (j : nat) (t : task) :
  tasks_inv routing w → outs_inv w → w_tasks w !! j = Some t → t_kind t = Streamer →
  is_closed (out_of w AtServer) = false → acks_in (t_id t) (sent w AtServer) ≠ [].
Proof.
  intros Ht Hou Hj Hk Hop. destruct (ti_streamer _ _ Ht j t Hj Hk) as (jo & o & Hjo & Hko & <- & Hsp).
  pose proof (ti_task _ _ Ht _ _ Hjo) as Hok. pose proof (tk_role _ _ Hok) as Hr. unfold role_ok in Hr. rewrite Hko in Hr.
  destruct Hr as (_ & dest & Hv & Hp). pose proof (tk_run _ _ Hok) as Hs. rewrite Hp in Hs.
  destruct (follows_refines _ _ _ (handle_open_follows (t_id o) dest Hv) _ _ Hs (opener_free _ _ _)) as (q & Ha & _).
  destruct (opener_acked_label _ _ _ _ Ha (or_intror Hsp)) as [a Hin].
  rewrite (proj1 (ti_acks _ _ Ht) jo o Hjo Hko). intros E.
  assert (Hok' : is_ok a = true).
  { destruct (is_ok a) eqn:Ea; [done|]. pose proof (ou_failed _ Hou jo o _ a Hjo Hin Ea) as Hc.
    rewrite (kind_side_of o AtServer) in Hc by (by rewrite Hko). congruence. }
  assert (Hx : true ∈ acks_in (t_id o) (frames_of (t_hist o))); [|rewrite E in Hx; by apply elem_of_nil in Hx].
  apply acks_in_elem. unfold frames_of. apply list_elem_of_omap. eexists. split; [exact Hin|]. cbn. by rewrite Hok'.
Qed.

(** A DATA frame the server sends is a stream task's. *)
Lemma data_by_streamer (w w' : world) (f : Frame) (i : N) :
  world_step routing w w' → tasks_inv routing w → sent w' AtServer = sent w AtServer ++ [f] → payloads i [f] ≠ [] →
  ∃ j t, w_tasks w !! j = Some t ∧ t_kind t = Streamer ∧ t_id t = i.
Proof.
  intros Hst Ht Hs Hp.
  assert (Hno : sent w' AtServer = sent w AtServer → ∃ j t, w_tasks w !! j = Some t ∧ t_kind t = Streamer ∧ t_id t = i).
  { intros E. rewrite E in Hs. apply (f_equal length) in Hs. rewrite length_app in Hs. cbn in Hs. lia. }
  apply world_step_tasks in Hst.
  destruct Hst as [_ E|j t l cf rx ack Hj Hst He _ _ E|j t p k st _ _ _ E|id fe p _ _ _ _ E|m rest id dest _ _ _ _ _ E]; try (by apply Hno).
  specialize (E AtServer). rewrite Hs in E. apply app_inv_head in E. case_decide as Hside; [|done].
  pose proof (task_frames _ Hwf _ (task_ok_moved _ t rx ack l cf (ti_task _ _ Ht _ _ Hj) Hst He)) as Hf.
  cbn [moved holding t_hist] in Hf. rewrite frames_of_app, <- E in Hf. apply Forall_app in Hf as [_ Hf].
  rewrite Forall_singleton in Hf. exists j, t. split; [done|].
  by apply (payloads_only (moved (holding t rx ack) l cf) i f).
Qed.

Lemma acked_first_step (w w' : world) :
  world_step routing w w' → tasks_inv routing w → outs_inv w → acked_first w → acked_first w'.
Proof.
  intros Hst Ht Hou Ha fs i Hfs Hp.
  assert (Hsame : sent w' AtServer = sent w AtServer → acks_in i fs ≠ []) by (intros E; rewrite E in Hfs; by apply Ha).
  destruct (world_step_out _ _ Hst AtServer) as [_ E|f Hpush E|f _ E|_ E]; try (by apply Hsame).
  rewrite E in Hfs. destruct Hfs as [k Hk]. destruct k as [|x k _] using rev_ind.
  - rewrite app_nil_r in Hk. subst fs. rewrite payloads_app in Hp. rewrite acks_in_app.
    assert (Hacks : acks_in i (sent w AtServer) ≠ []).
    { destruct (decide (payloads i (sent w AtServer) = [])) as [E0|E0]; [|by apply Ha].
      rewrite E0 in Hp. cbn [app] in Hp.
      destruct (data_by_streamer _ _ f i Hst Ht E Hp) as (j & t & Hj & Hk & <-).
      apply (streamer_acked w j); [done..|]. by apply push_spec in Hpush as (-> & _). }
    by destruct (acks_in i (sent w AtServer)).
  - rewrite app_assoc in Hk. apply app_inj_tail in Hk as [Hk _]. apply (Ha fs i); [|done]. by exists k.
Qed.

(** Whatever the client has read of a stream's payloads, it has read the
    acknowledgement before. *)
Lemma data_after_ack (w : world) (i : N) :
  tasks_inv routing w → acked_first w → payloads i (taken (in_of w AtClient)) ≠ [] → acks_in i (taken (in_of w AtClient)) ≠ [].
Proof.
  intros Ht Ha. apply Ha. destruct (ti_pipes _ _ Ht AtServer) as (todo & q & -> & _). cbn [other]. by exists (todo ++ q).
Qed.

Lemma sends_inv_reach (w : world) : reachable routing w → outs_inv w ∧ acked_first w.
Proof.
  revert w. unfold reachable. apply (rtc_ind_r (λ w, outs_inv w ∧ acked_first w)).
  - split; [split; [intros s|by intros j t]|intros fs i Hfs].
    + assert (out_of world_init s = bounded 128) as -> by (by destruct s).
      by destruct (bounded_spec (A:=Frame) 128) as (_ & -> & _).
    + apply prefix_nil_inv in Hfs as ->. done.
  - intros w w' Hr Hst [Hou Ha]. pose proof (session_inv_reach routing Hwf w Hr) as [Ht _ _ _].
    split; [by eapply outs_inv_step|by eapply acked_first_step].
Qed.

(** Where an end's writer loop is: it is running, and it can receive a frame
    now, or it can send the one it has in hand, or it waits in [ws_sink.send]
    for the peer to read. *)
Definition writer_busy (w : world) (s : side) : Prop :=
  is_closed (out_of w s) = false ∧
  ((ep_hand (end_of w s) = None ∧ is_Some (pull (out_of w s))) ∨
   ∃ f, ep_hand (end_of w s) = Some f ∧
     (has_room (wire (in_of w (other s))) = true ∨
      has_room (wire (in_of w (other s))) = false ∧ wire (in_of w (other s)) ≠ [])).

(** A send is accepted or fails now, or the channel is full and the writer loop
    is busy. *)
Lemma send_served (w : world) (t : task) (f : Frame) :
  outs_inv w → (∃ a w' t', a ≠ ATimeout ∧ do_call w t (Send f) a = Some (w', t')) ∨ writer_busy w (t_side t).
Proof.
  intros Hou. destruct (is_closed (out_of w (t_side t))) eqn:Hc.
  { left. exists AErr. unfold do_call, out_of in *. rewrite Hc. eauto. }
  destruct (push f (out_of w (t_side t))) as [c|] eqn:Hp.
  { left. exists AOk. unfold do_call, push_frame, out_of in *. rewrite Hp. cbn. eauto. }
  right. split; [done|]. destruct (ep_hand (end_of w (t_side t))) as [g|] eqn:Hh.
  - right. exists g. split; [done|]. destruct (has_room _) eqn:Hr; [by left|right]. split; [done|].
    intros E. rewrite E, room_empty in Hr. done.
  - left. split; [done|]. apply pull_ready. intros E.
    destruct (push_ready f (out_of w (t_side t))) as [c Hx]; [done| |congruence].
    rewrite E, (ou_cap _ Hou). cbn. lia.
Qed.
End World.
