(* ===== verification/WorldBlocked.v ===== *)
(** * Invariants of a session, VI: what a reader can wait for

    A reader that routes a payload waits while the stream's channel is full.
    The channel's receiver is then held by a task of that stream.  That task can
    go on without the reader (a handler that still waits for its acknowledgement
    cannot be the one, because the acknowledgement was read before the
    payloads), unless it is sending and the transport behind its writer loop is
    full: then it waits for the reader of the other end. *)
From S2P Require Import Prelude Utf8 Text Net Frame GeoSite GeoIp Routing Sock Http Socks5 Task Relay.
From S2P Require Import Channel Registry Control Mux Client ClientProtocol ClientTraces Ssrf Server Flow Link Roles.
From S2P Require Import World Threads WorldOk WorldLinks WorldAcks Schedule EndToEnd WorldRelease WorldSends.

#[local] Arguments payloads : simpl never.
#[local] Arguments acks_in : simpl never.

(** ** A handler before its acknowledgement *)

Definition inserts_of (ls : list label) : list N :=
  omap (λ l, match l with LCall (InsertAck i) _ => Some i | _ => None end) ls.

Section Stages.
Context (fe : front_end).

(** 0: the acknowledgement is not registered; 1: it is, and OPEN is not sent;
    2: OPEN is sent; 3: it is no longer awaited. *)
Definition ack_stage (q : phase) : nat :=
  match q with
  | Start | Asking _ | NoSession _ | Mux _ Idle | Mux _ Registered => 0
  | Mux _ AckInserted => 1
  | Mux _ Opened => 2
  | _ => 3
  end.

Lemma stage_step (q q' : phase) (l : label) :
  advance (local_protocol fe) q l q' →
  ack_stage q ≤ ack_stage q' ∧ (ack_stage q' ≤ 1 → frames_of [l] = []) ∧
  (ack_stage q = 0 → 1 ≤ ack_stage q' ≤ 2 → inserts_of [l] ≠ []).
Proof.
  destruct l as [c a|p|]; cbn [advance p_call p_spawn local_protocol]; [|by inversion 1|by intros ->; split_and!; [|done|lia]].
  intros Hc. destruct q as [|pl|pl|pl s|pl s|]; [| | | | |by destruct c].
  - destruct c; try done; cbn in Hc; repeat (case_match; simplify_eq/=; try done); split_and!; try done; lia.
  - destruct c; try done. cbn in Hc. injection Hc as <-. destruct (is_ok a); cbn; split_and!; try done; lia.
  - destruct c; try done. cbn in Hc. apply expect_Some in Hc as [_ ->]. cbn. split_and!; try done; lia.
  - apply conn_call_mux in Hc as (s' & Hc & ->).
    destruct s as [| | | | | | | | |[d|]| | |[]]; try done; destruct c as [| | | |i| |[]| | | | | | |]; try done; cbn in Hc;
      repeat (case_match; try done);
      try (apply for_stream_Some in Hc as [_ ->]); try (apply expect_Some in Hc as [_ ->]); try (injection Hc as <-);
      repeat case_match; cbn; split_and!; try done; lia.
  - apply conn_call_direct in Hc as (s' & Hc & ->). cbn. split_and!; [done|lia..].
Qed.

Lemma stage_past (q0 q : phase) (ls : list label) :
  accepts (local_protocol fe) q0 ls q → ack_stage q0 = 0 →
  (ack_stage q ≤ 1 → frames_of ls = []) ∧ (1 ≤ ack_stage q ≤ 2 → inserts_of ls ≠ []).
Proof.
  revert q. induction ls as [|l ls IH] using rev_ind; intros q Ha H0; [inversion Ha; subst; split; [done|lia]|].
  apply accepts_snoc in Ha as (q1 & Ha & Hl). destruct (IH q1 Ha H0) as [Hf Hi].
  destruct (stage_step _ _ _ Hl) as (Hle & Hf' & Hi'). unfold inserts_of in *. rewrite frames_of_app, omap_app. split.
  - intros Hq. rewrite Hf, Hf' by lia. done.
  - intros Hq [E1 E2]%app_eq_nil. destruct (decide (ack_stage q1 = 0)) as [E|E]; [by apply Hi'|by apply Hi; [lia|]].
Qed.

Lemma stage_over (q0 q : phase) (ls : list label) :
  accepts (local_protocol fe) q0 ls q → ack_stage q0 = 3 → ack_stage q = 3.
Proof.
  induction 1 as [|q l q1 ls q' Hl _ IH]; [done|]. intros Hq. apply IH.
  destruct (stage_step _ _ _ Hl) as (Hle & _). assert (ack_stage q1 ≤ 3) by (by destruct q1 as [|?|?|? []|? ?|]; cbn; lia). lia.
Qed.

Lemma insert_stage (q q' : phase) (i : N) (a : answer) : conn_call fe q (InsertAck i) a = Some q' → ack_stage q = 0.
Proof.
  destruct q as [|pl|pl|pl s|pl s|]; try done.
  - intros (s' & Hc & _)%conn_call_mux. by destruct s as [| | | | | | | | |[]| | |[]].
  - intros (s' & Hc & _)%conn_call_direct. by destruct s as [| | | |[]|].
Qed.

Lemma recv_stage (q q' : phase) (o : option N) (a : answer) : conn_call fe q (RecvAck o) a = Some q' → ack_stage q = 2.
Proof.
  destruct q as [|pl|pl|pl s|pl s|]; try done.
  - intros (s' & Hc & _)%conn_call_mux. by destruct s as [| | | | | | | | |[]| | |[]].
  - intros (s' & Hc & _)%conn_call_direct. by destruct s as [| | | |[]|].
Qed.
End Stages.

Section World.
Context `{ChannelLib, Transport, UnicodeCase, RegexEngine, IpNets} (routing : RoutingConfig).
Hypothesis Hwf : wf_routing routing.

(** Only handlers, before they send anything, register for an acknowledgement;
    and only after that do they wait for it. *)
Lemma ack_call (t : task) (c : call) (k : answer → prog) (st : list (prog * prog)) :
  task_ok routing t → t_conf t = (Do c k, st) →
  match c with
  | InsertAck _ => t_kind t = Handler ∧ frames_of (t_hist t) = []
  | RecvAck _ => t_kind t = Handler ∧ inserts_of (t_hist t) ≠ []
  | _ => True
  end.
Proof.
  intros Hok Hc. pose proof (tk_run _ _ Hok) as Hs. rewrite Hc in Hs. destruct (t_kind t) eqn:Hk.
  - destruct (handler_phase _ Hwf t Hok Hk) as (fe & _ & Hin & Hp & _).
    destruct (refines_call _ _ _ (handlers_refine routing _ _ _ Hwf Hin) _ _ _ _ _ Hs Hp (handler_answer _ _ _ _ c Hin))
      as (q & q' & Ha & Hq). destruct (stage_past fe _ _ _ Ha eq_refl) as [Hf Hi].
    destruct c; try done; [apply insert_stage in Hq|apply recv_stage in Hq]; (split; [done|]); [apply Hf; lia|apply Hi; lia].
  - destruct (writer_phase_of _ t Hok Hk) as (_ & _ & _ & Hx & _). by destruct (Hx _ _ _ Hc) as [->|[d ->]].
  - destruct (copier_phase_of _ t Hok Hk) as (_ & _ & _ & Hx & _). by destruct (Hx _ _ _ Hc) as [->|[d ->]].
  - destruct (opener_phase_of _ t Hok Hk) as (dest & q & _ & _ & Hx & _). destruct (Hx _ _ _ Hc) as [q' Hq']. by destruct q, c.
  - pose proof (tk_role _ _ Hok) as Hr. unfold role_ok in Hr. rewrite Hk in Hr. destruct Hr as [_ Hp]. rewrite Hp in Hs.
    destruct (refines_call _ _ _ (stream_task_refines (t_id t)) _ c AErr _ _ Hs (all_possible _)) as (q & q' & Ha & Hq); [by destruct c|].
    apply stage_over in Ha; [|done]. destruct c; try done; [apply insert_stage in Hq|apply recv_stage in Hq]; congruence.
Qed.

(** ** Acknowledgements on their way *)

(** Of the tasks, the session, and the frames the client has read: a handler's
    channel has been closed, or its sender is registered and the
    acknowledgement has not been read. *)
Record ack_open (x : session) (ts : list task) (tk : list Frame) : Prop := {
  ao_chan j t r : ts !! j = Some t → t_ack t = Some r →
    ∃ c, ack_chans x !! r = Some c ∧
      (is_closed c = true ∨ (pending_acks x !! t_id t = Some r ∧ acks_in (t_id t) tk = []));
  ao_held j t : ts !! j = Some t → inserts_of (t_hist t) ≠ [] → t_ack t ≠ None
}.

Definition ack_open_inv (w : world) : Prop := ack_open (w_acks w) (w_tasks w) (taken (in_of w AtClient)).

Lemma ao_registry (x y : session) (ts : list task) (tk : list Frame) :
  pending_acks y = pending_acks x → ack_chans y = ack_chans x → ack_open x ts tk → ack_open y ts tk.
Proof. intros Ep Ec [Hc Hh]. split; [|done]. by rewrite Ep, Ec. Qed.

Lemma ao_quiet (x : session) (ts : list task) (tk : list Frame) (f : Frame) :
  (∀ i b, f ≠ OpenAck i b) → ack_open x ts tk → ack_open x ts (tk ++ [f]).
Proof.
  intros Hf [Hc Hh]. split; [|done]. intros j t r Hj Hr. destruct (Hc j t r Hj Hr) as (c & Hx & Hd). exists c.
  split; [done|]. rewrite acks_in_app. destruct f as [|?|i b| |]; try (by destruct (Hf i b)); by rewrite app_nil_r.
Qed.

Lemma ao_new (x : session) (ts : list task) (tk : list Frame) (s : side) (i : N) (p : prog) (rx : option nat) :
  ack_open x ts tk → ack_open x (ts ++ [new_task s i p rx]) tk.
Proof.
  intros [Hc Hh]. split.
  - intros j t r [Hj|[-> ->]]%lookup_new; [by eapply Hc|done].
  - intros j t [Hj|[-> ->]]%lookup_new; [by eapply Hh|done].
Qed.

Lemma ao_moved (x : session) (ts : list task) (tk : list Frame) (j : nat) (t : task) (rx : option nat) (l : label) (cf : config) :
  ts !! j = Some t → inserts_of [l] = [] → ack_open x ts tk → ack_open x (<[j := moved (holding t rx (t_ack t)) l cf]> ts) tk.
Proof.
  intros Hj Hl [Hc Hh]. split.
  - intros i u r [[-> ->]|[_ Hi]]%(lookup_moved _ _ _ _ _ _ Hj); [by apply (Hc j t)|by apply (Hc i)].
  - intros i u [[-> ->]|[_ Hi]]%(lookup_moved _ _ _ _ _ _ Hj); [|by apply (Hh i)].
    cbn. unfold inserts_of in *. rewrite omap_app, Hl, app_nil_r. by apply (Hh j).
Qed.

Lemma ao_insert (x : session) (ts : list task) (tk : list Frame) (j : nat) (t : task) (rx : option nat) (a : answer) (cf : config) :
  ts !! j = Some t → acks_in (t_id t) tk = [] → (∀ j t r, ts !! j = Some t → t_ack t = Some r → r < ack_fresh x) →
  ack_open x ts tk →
  ack_open (snd (insert_ack (t_id t) x))
    (<[j := moved (holding t rx (Some (ack_fresh x))) (LCall (InsertAck (t_id t)) a) cf]> ts) tk.
Proof.
  intros Hj Hno Hb [Hc Hh]. split; unfold insert_ack; cbn [snd pending_acks ack_chans].
  - intros i u r [[-> ->]|[_ Hi]]%(lookup_moved _ _ _ _ _ _ Hj); intros Hr.
    + cbn in Hr. injection Hr as <-. exists (bounded 1). rewrite !lookup_insert_eq. split; [done|]. by right.
    + pose proof (Hb i u r Hi Hr) as Hlt. destruct (Hc i u r Hi Hr) as (c & Hx & Hd).
      rewrite lookup_insert_ne by lia. destruct (decide (t_id t = t_id u)) as [E|E].
      * destruct (pending_acks x !! t_id t) as [old|] eqn:Ep.
        -- destruct (decide (old = r)) as [->|Hn]; [rewrite lookup_alter_eq, Hx|rewrite lookup_alter_ne, Hx by done];
             (eexists; split; [done|left]); [by rewrite shut_closed|]. destruct Hd as [?|[Hd _]]; [done|congruence].
        -- exists c. split; [done|left]. destruct Hd as [?|[Hd _]]; [done|congruence].
      * rewrite lookup_insert_ne by done.
        destruct (pending_acks x !! t_id t) as [old|] eqn:Ep; [|by exists c].
        destruct (decide (old = r)) as [->|Hn]; [rewrite lookup_alter_eq, Hx|rewrite lookup_alter_ne, Hx by done];
          (eexists; split; [done|]); [left; by rewrite shut_closed|done].
  - intros i u [[-> ->]|[_ Hi]]%(lookup_moved _ _ _ _ _ _ Hj); [done|by apply (Hh i)].
Qed.

Lemma ao_pull (x : session) (ts : list task) (tk : list Frame) (r : nat) (b : bool) (c c' : chan bool) :
  ack_chans x !! r = Some c → pull c = Some (b, c') → ack_open x ts tk →
  ack_open (with_acks x (pending_acks x) (<[r := c']> (ack_chans x))) ts tk.
Proof.
  intros Hr (_ & _ & Hcl)%pull_spec [Hc Hh]. split; [|done]. intros j t r' Hj Hr'. cbn.
  destruct (Hc j t r' Hj Hr') as (c0 & Hx & Hd). destruct (decide (r = r')) as [<-|Hn].
  - exists c'. rewrite lookup_insert_eq. split; [done|]. assert (c0 = c) as -> by congruence. by rewrite Hcl.
  - exists c0. by rewrite lookup_insert_ne.
Qed.

Lemma ao_deliver (x : session) (ts : list task) (tk : list Frame) (id : N) (ok : bool) :
  ack_open x ts tk → ack_open (deliver_ack id ok x) ts (tk ++ [OpenAck id ok]).
Proof.
  intros [Hc Hh]. split; [|done]. intros j t r Hj Hr. destruct (Hc j t r Hj Hr) as (c & Hx & Hd).
  unfold deliver_ack. rewrite acks_in_app. destruct (pending_acks x !! id) as [r'|] eqn:Ep; cbn.
  - destruct (decide (r' = r)) as [->|Hn]; [rewrite lookup_alter_eq, Hx|rewrite lookup_alter_ne, Hx by done];
      (eexists; split; [done|]); [left; by rewrite shut_closed|].
    destruct Hd as [?|[Hd Ha]]; [by left|right]. assert (id ≠ t_id t) as Hid by congruence.
    rewrite lookup_delete_ne, Ha by done. split; [done|]. unfold acks_in. cbn. by rewrite (proj2 (N.eqb_neq id (t_id t))).
  - exists c. split; [done|]. destruct Hd as [?|[Hd Ha]]; [by left|right]. assert (id ≠ t_id t) as Hid by congruence.
    rewrite Ha. split; [done|]. unfold acks_in. cbn. by rewrite (proj2 (N.eqb_neq id (t_id t))).
Qed.

Lemma ao_clear (x : session) (ts : list task) (tk : list Frame) : ack_open x ts tk → ack_open (clear_acks x) ts tk.
Proof.
  intros [Hc Hh]. split; [|done]. intros j t r Hj Hr. destruct (Hc j t r Hj Hr) as (c & Hx & Hd). cbn.
  destruct (proj2 (foldr_shut_dom (map snd (map_to_list (pending_acks x))) (ack_chans x) r)) as [c' Hc']; [by rewrite Hx|].
  exists c'. split; [done|left]. apply foldr_shut_inv in Hc' as (c0 & Hx0 & _ & Hcl). apply Hcl.
  assert (c0 = c) as -> by congruence. destruct Hd as [?|[Hd _]]; [by right|left].
  apply list_elem_of_fmap. exists (t_id t, r). split; [done|]. by apply elem_of_map_to_list.
Qed.

(** Before a handler sends OPEN there is no acknowledgement of its stream. *)
Lemma insert_guard (w : world) (j : nat) (t : task) :
  tasks_inv routing w → w_tasks w !! j = Some t → t_kind t = Handler → frames_of (t_hist t) = [] →
  acks_in (t_id t) (taken (in_of w AtClient)) = [].
Proof.
  intros Ht Hj Hk Hf. destruct (acks_in (t_id t) (taken (in_of w AtClient))) eqn:E; [done|exfalso].
  assert (Hn : acks_in (t_id t) (sent w AtServer) ≠ []).
  { destruct (ti_pipes _ _ Ht AtServer) as (todo & q & Hq & _). rewrite Hq, acks_in_app. cbn [other]. by rewrite E. }
  destruct (proj2 (ti_acks _ _ Ht) _ Hn) as (jo & o & Hjo & Hko & Hid).
  destruct (ti_opener _ _ Ht jo o Hjo Hko) as (dest & _ & Hin).
  pose proof (proj1 (ti_up _ _ Ht) j t Hj Hk) as Hs. rewrite Hf in Hs.
  assert (Hx : Open (t_id t) dest ∈ by_stream (t_id t) (sent w AtClient)).
  { apply list_elem_of_filter. split; [done|]. destruct (ti_pipes _ _ Ht AtClient) as (todo & q & -> & _).
    apply elem_of_app. left. by rewrite <- Hid. }
  rewrite Hs in Hx. by apply elem_of_nil in Hx.
Qed.

(** A call that registers nothing for an acknowledgement. *)
Lemma call_acks (w w' : world) (t t' : task) (c : call) (a : answer) :
  call_effect w t c a w' t' → (∀ i, c ≠ InsertAck i) →
  (∃ rx, ∀ l cf, moved t' l cf = moved (holding t rx (t_ack t)) l cf) ∧
  taken (in_of w' AtClient) = taken (in_of w AtClient) ∧
  (w_acks w' = w_acks w ∨ ∃ r b ch ch', ack_chans (w_acks w) !! r = Some ch ∧ pull ch = Some (b, ch') ∧
     w_acks w' = with_acks (w_acks w) (pending_acks (w_acks w)) (<[r := ch']> (ack_chans (w_acks w)))).
Proof.
  assert (Htk : ∀ s l, taken l = taken (in_of w s) → taken (in_of (with_link w s l) AtClient) = taken (in_of w AtClient))
    by (intros [] l E; [exact E|done]).
  assert (Hac : ∀ s e, w_acks (with_end w s e) = w_acks w) by (by intros []).
  intros Hc Hn. destruct Hc as [i l|i l|i|f e He|o b r ch ch' Hr Hch Hp|d r s Hr Hd|c a Hfr _ _ Hna].
  - split_and!; [by eexists|by apply Htk|left; apply Hac].
  - split_and!; [by exists (t_rx t)|by apply Htk|left; apply Hac].
  - by destruct (Hn i).
  - split_and!; [by exists (t_rx t)| |left; apply Hac]. unfold in_of. rewrite end_of_with_end. case_decide as Es; [|done].
    unfold push_frame in He. destruct (push f _); [|done]. cbn in He. injection He as <-. cbn. by rewrite Es.
  - split_and!; [by exists (t_rx t)|done|right]. by exists r, b, ch, ch'.
  - split_and!; [by exists (t_rx t)|by apply Htk|left; apply Hac].
  - split_and!; [by exists (t_rx t)|done|by left].
Qed.

Lemma ack_open_call (w : world) (j : nat) (t : task) (c : call) (k : answer → prog) (st : list (prog * prog))
    (a : answer) (w' : world) (t' : task) :
  tasks_inv routing w → acks_inv w → ack_open_inv w → w_tasks w !! j = Some t → t_conf t = (Do c k, st) →
  do_call w t c a = Some (w', t') →
  ack_open_inv (with_tasks w' (<[j := moved t' (LCall c a) (k a, st)]> (w_tasks w))).
Proof.
  intros Ht Hac Ha Hj Hcf Hc. pose proof (ti_task _ _ Ht _ _ Hj) as Hok.
  assert (Hdec : (∃ i, c = InsertAck i) ∨ ∀ i, c ≠ InsertAck i) by (destruct c; eauto).
  destruct Hdec as [[i ->]|Hn].
  - rewrite (task_insert_ack _ Hwf t i k st Hok Hcf) in *. destruct (ack_call t _ k st Hok Hcf) as [Hk Hf].
    destruct a; try done. cbn in Hc. injection Hc as <- <-. apply (ao_insert (client_session w)).
    + done.
    + by apply (insert_guard w j).
    + intros j0 t0 r. apply (ap_bound _ _ _ _ _ Hac).
    + by apply (ao_registry (w_acks w)).
  - apply do_call_effect, call_acks in Hc as ((rx & Hm) & Htk & Hx); [|done].
    unfold ack_open_inv. cbn [w_tasks w_acks with_tasks]. rewrite Hm.
    unfold in_of. rewrite end_with_tasks. fold (in_of w' AtClient). rewrite Htk.
    apply ao_moved; [done|by destruct c; try done; destruct (Hn id)|].
    destruct Hx as [->|(r & b & ch & ch' & Hch & Hp & ->)]; [done|by eapply ao_pull].
Qed.

Lemma ack_open_step (w w' : world) :
  world_step routing w w' → tasks_inv routing w → acks_inv w → ack_open_inv w → ack_open_inv w'.
Proof.
  intros Hst Ht Hac Ha.
  assert (Hx : ack_open (client_session w) (w_tasks w) (taken (in_of w AtClient))) by (by apply (ao_registry (w_acks w))).
  destruct Hst as [who Hst]; destruct Hst as [w' Hst|id fe p Hge Hn Hin|s0 f c Hc Hh Hf|s0 f Hc Hh Hroom|s0 closes Hc Hf Hcs|s0 m rest e Hr Hw Hd|s0 r Hr|m rest f Hr Hw Hd
    |ev Hr Hev| |m rest f id dest Hr Hw Hd He|j t Hen Ho Hj Hf|m rest f act Hr Hw Hd He Hn|Hr|Hcan];
    try (by destruct s0); try (by apply ao_new); try exact Ha.
  - destruct Hst as [j t c k st a w' t' [Hj Hpl] Hcf Henv Hc|j t p k st [Hj Hpl] Hcf|j t cf [Hj Hpl] Hst|j t r Hj Hcf Hrx l].
    + by eapply ack_open_call.
    + apply ao_new. by apply ao_moved.
    + by apply (ao_moved (w_acks w) _ _ _ _ (t_rx t)).
    + by destruct (t_side t).
  - destruct s0, closes; exact Ha.
  - unfold ack_open_inv, client_read, reader_event. rewrite Hd.
    destruct f as [?|i d|i ok|i d|i]; try (by apply (ao_quiet (client_session w)));
      try (apply (ao_quiet (with_registry (client_session w) _) (w_tasks w) (taken (in_of w AtClient))); [done|by apply (ao_registry (w_acks w))]).
    by apply (ao_deliver (client_session w)).
  - unfold ack_open_inv, client_stop; cbn zeta. assert (E : reader_event ev (client_session w) = reader_stop (client_session w))
      by (destruct ev as [|d|d| | |]; try done; by destruct (Hev d)).
    rewrite E. apply (ao_registry (clear_acks (client_session w))); [done..|]. by apply ao_clear.
  - apply (ao_registry (clear_acks (client_session w))); [done..|]. by apply ao_clear.
Qed.

(** ** The payload a reader holds, and the task that can take it *)

Definition held_owned (l : link) : Prop :=
  ∀ r d, held (reg l) = Some (r, d) → ∃ i, owner l !! r = Some i ∧ payloads i (taken l) ≠ [].

Lemma held_owned_effect (w : world) (s : side) (l : link) :
  link_effect w s l → link_ok (λ _, True) (in_of w s) → held_owned (in_of w s) → held_owned l.
Proof.
  intros He Hok Hh.
  destruct He as [|m|rest|i| |r Hr|j t i k st Hj Hs Hcf|rest f r Hr Hp Hreg|rest i d Hr|j t r d r' Hj Hs Hrx Hr|j t r Hj Hs Hrx|Hs Hen]; try exact Hh.
  - intros r d. cbn. rewrite held_close. apply Hh.
  - intros r d. cbn. rewrite held_close_all. apply Hh.
  - intros r' d. cbn. by rewrite (held_route_finish _ _ Hr).
  - intros r d. unfold open_link. cbn [reg set_reg log_owner]. rewrite held_register. intros Hx.
    destruct (Hh r d Hx) as (i' & Ho & Hp). exists i'. split; [|done]. cbn. rewrite lookup_insert_ne; [done|].
    intros <-. apply (lo_dom _ _ Hok) in Ho. rewrite fresh_heap in Ho by apply Hok. by destruct Ho.
  - intros r0 d Hx. exfalso. destruct Hr as [Hr _]. cbn in Hx.
    destruct Hreg as [->|[i ->]]; [|rewrite held_close in Hx]; congruence.
  - intros r d0. cbn. destruct Hr as [Hr _]. unfold route_start. destruct (inner _ !! i) as [r0|] eqn:Ei; cbn; [|congruence].
    intros [= <- <-]. exists i. split; [by apply (lo_owner _ _ Hok)|].
    rewrite payloads_app, payloads_same. by destruct (payloads i _).
  - intros r0 d0. unfold receive in Hr. destruct (heap _ !! r) as [c|]; [|done]. cbn in Hr.
    destruct (pull c) as [[d' c']|]; [|done]. injection Hr as <- <-. apply Hh.
  - intros r d. cbn. by rewrite (proj2 (abandon_same _)).
Qed.

(** Every channel's receiver is held by a task of its end, or dropped. *)
Definition has_holder (w : world) : Prop :=
  ∀ s r i, owner (in_of w s) !! r = Some i →
    r ∈ dead (in_of w s) ∨ ∃ j t, w_tasks w !! j = Some t ∧ t_side t = s ∧ t_rx t = Some r.

Lemma dead_grows (w : world) (s : side) (l : link) : link_effect w s l → dead (in_of w s) ⊆ dead l.
Proof. destruct 1; cbn; set_solver. Qed.

Lemma has_holder_step (w w' : world) :
  world_step routing w w' → tasks_inv routing w → opening_inv w → links_inv w → has_holder w → has_holder w'.
Proof.
  intros Hst Ht Ho Hl Hh s r i Hr. pose proof (dead_grows _ _ _ (world_step_link _ _ _ Hst s)) as Hdead.
  apply world_step_logs in Hst.
  assert (Hgo : owner (in_of w s) !! r = Some i →
    (∀ j t, w_tasks w !! j = Some t → t_side t = s → t_rx t = Some r → ∃ j' t', w_tasks w' !! j' = Some t' ∧ t_side t' = s ∧ t_rx t' = Some r) →
    r ∈ dead (in_of w' s) ∨ ∃ j t, w_tasks w' !! j = Some t ∧ t_side t = s ∧ t_rx t = Some r).
  { intros Hr0 Hkeep. destruct (Hh s r i Hr0) as [Hd|(j & t & Hj & Hs & Hx)]; [left; by apply Hdead|right; by eapply Hkeep]. }
  assert (Hmove : ∀ j0 t0 t1 j t, w_tasks w !! j0 = Some t0 → w_tasks w !! j = Some t → same_task t0 t1 →
    (t_rx t0 = Some r → t_rx t1 = Some r) → t_side t = s → t_rx t = Some r →
    ∃ j' t', <[j0 := t1]> (w_tasks w) !! j' = Some t' ∧ t_side t' = s ∧ t_rx t' = Some r).
  { intros j0 t0 t1 j t Hj0 Hj Hsm Hk Hs Hx. destruct (lookup_stays _ j0 j t0 t1 t Hj0 Hsm Hj) as (u & Hu & (Es & _) & Hne & Heq).
    exists j, u. split; [done|]. split; [congruence|]. destruct (decide (j = j0)) as [->|Hn]; [|by rewrite Hne].
    rewrite Heq by done. apply Hk. congruence. }
  destruct Hst as [Hs E|j t l cf ack Hs Hj Hst _ _ E|j t p k st Hs Hj Hcf E|j t i0 k st Hj Hcf r0 E Hs|j t r0 d k st Hj Hcf Hr0 E Hs].
  - destruct (Hs s) as [Eo _]. rewrite Eo in Hr. apply Hgo; [done|]. intros j t Hj Hsd Hx. exists j, t. split; [|done].
    destruct E as [->|(?&?&?& -> &_)]; [done|by apply lookup_app_l_Some].
  - destruct (Hs s) as [Eo _]. rewrite Eo in Hr. apply Hgo; [done|]. intros j' t' Hj' Hsd Hx. rewrite E. by eapply Hmove.
  - destruct (Hs s) as [Eo _]. rewrite Eo in Hr. apply Hgo; [done|]. intros j' t' Hj' Hsd Hx. rewrite E.
    destruct (decide (j' = j)) as [->|Hn].
    + assert (t' = t) as -> by congruence. eexists _, _. split; [by apply list_lookup_middle|by split].
    + exists j', t'. split; [|done]. apply lookup_app_l_Some. by rewrite list_lookup_insert_ne.
  - destruct (Hs s) as [Eo _]. rewrite Eo in Hr. pose proof (register_guard _ Hwf w j t i0 k st Ht Ho Hl Hj Hcf) as [Hno _].
    pose proof (task_register _ Hwf t i0 k st (ti_task _ _ Ht _ _ Hj) Hcf) as (Hid & _ & _).
    assert (Hrx : t_rx t = None).
    { destruct (t_rx t) as [r1|] eqn:E1; [|done]. pose proof (li_rx _ Hl j t r1 Hj E1) as Hx. rewrite <- Hid in Hx. by destruct (Hno r1). }
    assert (Hold : owner (in_of w s) !! r = Some i → r ∈ dead (in_of w' s) ∨ ∃ j t, w_tasks w' !! j = Some t ∧ t_side t = s ∧ t_rx t = Some r).
    { intros Hr1. apply Hgo; [done|]. intros j' t' Hj' Hsd Hx. rewrite E. eapply (Hmove j t); [done..| |done|done]. by rewrite Hrx. }
    case_decide as Hsd; [|by apply Hold]. apply lookup_insert_Some in Hr as [[<- <-]|[_ Hr]]; [right|by apply Hold].
    eexists j, _. rewrite E. split; [apply list_lookup_insert_eq; by eapply lookup_lt_Some|]. cbn. split; [done|]. unfold r0. by rewrite Hsd.
  - destruct (Hs s) as [Eo _]. rewrite Eo in Hr. apply Hgo; [done|]. intros j' t' Hj' Hsd Hx. rewrite E. by eapply (Hmove j t).
Qed.

Record blocked_inv (w : world) : Prop := {
  bi_acks : ack_open_inv w;
  bi_held s : held_owned (in_of w s);
  bi_holder : has_holder w
}.

Lemma blocked_inv_reach (w : world) : reachable routing w → blocked_inv w.
Proof.
  revert w. unfold reachable. apply (rtc_ind_r blocked_inv).
  - split; [split; by intros j t|intros []; by intros r d|intros [] r i Hr; cbn in Hr; by rewrite lookup_empty in Hr].
  - intros w w' Hr Hst [Ha Hh Ho]. pose proof (session_inv_reach routing Hwf w Hr) as [Ht Hop Hl Hac].
    split; [by eapply ack_open_step| |by eapply (has_holder_step w)].
    intros s. apply (held_owned_effect w s); [by apply (world_step_link routing)|apply Hl|apply Hh].
Qed.

(** ** Going on *)

(** The call can return now, and not because a deadline has passed. *)
Definition served (w : world) (t : task) (c : call) : Prop :=
  ∃ a w' t', a ≠ ATimeout ∧ env_answer c a ∧ do_call w t c a = Some (w', t').

(** The writer loop of an end is running, and it can receive a frame now, or
    the transport has room for the one it has in hand. *)
Definition writer_goes_on (w : world) (s : side) : Prop :=
  is_closed (ep_out (end_of w s)) = false ∧
  (ep_hand (end_of w s) = None ∧ is_Some (pull (ep_out (end_of w s))) ∨
   is_Some (ep_hand (end_of w s)) ∧ has_room (wire (in_of w (other s))) = true).

(** The writer loop of an end waits in [ws_sink.send] for the peer, whose reader
    has messages that it has not read. *)
Definition writer_waits (w : world) (s : side) : Prop :=
  is_closed (ep_out (end_of w s)) = false ∧ is_Some (ep_hand (end_of w s)) ∧
  has_room (wire (in_of w (other s))) = false ∧ wire (in_of w (other s)) ≠ [].

(** The task can go on: its call is served, or waits only for the end's writer
    loop, which can go on; or it is about to do something else, or has
    returned. *)
Definition can_go_on (w : world) (t : task) : Prop :=
  match fst (t_conf t) with
  | Do (Send f) _ => served w t (Send f) ∨ writer_goes_on w (t_side t)
  | Do c _ => served w t c
  | Return => True
  | _ => ∃ l cf, step (t_conf t) l cf
  end.

(** A task stops only at a call, or where it returns. *)
Lemma task_progress (t : task) : task_ok routing t →
  fst (t_conf t) = Return ∨ (∃ c k, fst (t_conf t) = Do c k) ∨ (∃ l cf, step (t_conf t) l cf ∧ ∀ c a, l ≠ LCall c a).
Proof.
  intros Hok. pose proof (tk_role _ _ Hok) as Hr. pose proof (tk_run _ _ Hok) as Hs. unfold role_ok in Hr. destruct (t_kind t) eqn:Hk.
  - destruct (handler_phase _ Hwf t Hok Hk) as (fe & _ & Hin & Hp & _).
    by destruct (handlers_refine routing _ _ _ Hwf Hin _ _ Hs Hp) as (_ & _ & _ & _ & ?).
  - rewrite Hr in Hs. destruct (follows_refines _ _ _ write_task_follows _ _ Hs) as (_ & _ & _ & _ & ?); [|done].
    apply Forall_true. by intros [].
  - rewrite Hr in Hs. destruct (follows_refines _ _ _ a_to_b_follows _ _ Hs) as (_ & _ & _ & _ & ?); [|done].
    apply Forall_true. by intros [].
  - destruct Hr as (_ & dest & Hv & Hp). rewrite Hp in Hs.
    by destruct (follows_refines _ _ _ (handle_open_follows (t_id t) dest Hv) _ _ Hs (opener_free _ _ _)) as (_ & _ & _ & _ & ?).
  - destruct Hr as [_ Hp]. rewrite Hp in Hs. by destruct (stream_task_refines (t_id t) _ _ Hs (all_possible _)) as (_ & _ & _ & _ & ?).
Qed.

(** The acknowledgement of a handler whose stream's payloads have been read. *)
Lemma ack_served (w : world) (j : nat) (t : task) (o : option N) (k : answer → prog) (st : list (prog * prog)) :
  session_inv routing w → acked_first w → blocked_inv w → w_tasks w !! j = Some t → t_conf t = (Do (RecvAck o) k, st) →
  payloads (t_id t) (taken (in_of w (t_side t))) ≠ [] → served w t (RecvAck o).
Proof.
  intros Hi Hf Hb Hj Hcf Hp. pose proof (ti_task _ _ (si_tasks _ _ Hi) _ _ Hj) as Hok.
  destruct (ack_call t _ k st Hok Hcf) as [Hk Hins]. destruct (bi_acks _ Hb) as [Hc Hh].
  destruct (t_ack t) as [r|] eqn:Er; [|by destruct (Hh j t Hj Hins)].
  destruct (Hc j t r Hj Er) as (c & Hx & Hd).
  assert (Hcl : is_closed c = true).
  { destruct Hd as [?|[_ Hd]]; [done|exfalso]. assert (Hs : t_side t = AtClient); [|rewrite Hs in Hp; by eapply data_after_ack; [apply Hi|..]].
    apply kind_side_of. by rewrite Hk. }
  destruct (pull c) as [[b c']|] eqn:Hpl; [exists (AFlag b)|exists AErr].
  - unfold do_call. destruct o; rewrite Er; cbn; rewrite Hx; cbn; rewrite Hpl; cbn; rewrite Bool.eqb_reflx; eauto.
  - unfold do_call, drained. destruct o; rewrite Er; cbn; rewrite Hx; cbn; rewrite Hcl, Hpl; cbn; eauto.
Qed.

Lemma holder_goes_on (w : world) (j : nat) (t : task) (r : nat) (c : chan bytes) :
  session_inv routing w → outs_inv w → acked_first w → blocked_inv w → w_tasks w !! j = Some t → t_rx t = Some r →
  heap (reg (in_of w (t_side t))) !! r = Some c → queued c ≠ [] → payloads (t_id t) (taken (in_of w (t_side t))) ≠ [] →
  can_go_on w t ∨ (∃ f k, fst (t_conf t) = Do (Send f) k) ∧ writer_waits w (t_side t).
Proof.
  intros Hi Hou Hf Hb Hj Hr Hc Hq Hp. unfold can_go_on.
  destruct (task_progress t (ti_task _ _ (si_tasks _ _ Hi) _ _ Hj)) as [Hx|[(cl & k & Hx)|(l & cf & Hx & Hn)]].
  - left. by rewrite Hx.
  - rewrite Hx. destruct (t_conf t) as [p st] eqn:Hcf. cbn in Hx. subst p.
    destruct cl as [| | |i|i|i|f|o| |d| |d| |d]; try (by left; exists AErr, w, t);
      try (by left; eexists AOk, _, _).
    + left. exists AErr, w, t. split_and!; [done|by left|done].
    + left. exists AErr, w, t. split_and!; [done|by left|done].
    + destruct (send_served w t f Hou) as [(a & w' & t' & Ha & Hd)|[Hcl [Hh|(g & Hh & [Hroom|[Hroom Hw]])]]].
      * left. left. by exists a, w', t'.
      * left. right. split; [done|by left].
      * left. right. split; [done|right]. split; [by exists g|done].
      * right. split; [by exists f, k|]. split_and!; [done|by exists g|done..].
    + left. by eapply ack_served.
    + left. destruct (pull_ready c Hq) as [[d c'] Hd]. exists (ABytes d). unfold do_call, receive. rewrite Hr. cbn. rewrite Hc. cbn.
      rewrite Hd. cbn. rewrite bool_decide_true by done. eauto.
  - destruct (t_conf t) as [[| |cl k| | | |] st]; try (by left); try (by left; exists l, cf).
    exfalso. inversion Hx; subst. by eapply Hn.
Qed.
End World.

(** ** Properties *)

Section Properties.
Context `{ChannelLib, Transport, UnicodeCase, RegexEngine, IpNets} (routing : RoutingConfig).

(** C8: A reader waits only for the stream it serves.  In every state a session
    can reach, when the reader of either end holds a payload that it cannot put
    into its channel, that channel is full, and its receiver is held by a task
    of the same end and stream that is polled and that does not itself wait for
    this reader: its call is served now (by a socket, by its channel, by an
    acknowledgement that has been read before), or it waits for the end's writer
    loop, which can go on; or — the one wait that goes further — it waits in a
    send for that writer loop, which waits in [ws_sink.send], because the
    transport to the peer is full, until the peer's reader reads.  When the
    peer's reader waits in the same way the session is stuck
    ([WorldDeadlock.readers_deadlock]). *)
Theorem reader_waits_for_its_stream (w : world) (s : side) (r : nat) (d : bytes)
  (Hwf : wf_routing routing) (Hreach : reachable routing w)
  (Hheld : held (reg (in_of w s)) = Some (r, d)) (Hfull : route_finish (reg (in_of w s)) = None) :
  ∃ j t c, polled w j t ∧ t_side t = s ∧ t_rx t = Some r ∧ owner (in_of w s) !! r = Some (t_id t) ∧
    heap (reg (in_of w s)) !! r = Some c ∧ length (queued c) = 32 ∧
    (can_go_on w t ∨ (∃ f k, fst (t_conf t) = Do (Send f) k) ∧ writer_waits w s).
Proof.
  pose proof (session_inv_reach routing Hwf w Hreach) as Hi. pose proof (blocked_inv_reach routing Hwf w Hreach) as Hb.
  destruct (sends_inv_reach routing Hwf w Hreach) as [Hou Hf]. pose proof (li_link _ (si_links _ _ Hi) s) as Hl.
  destruct (bi_held _ Hb s r d Hheld) as (i & Ho & Hp).
  unfold route_finish in Hfull. rewrite Hheld in Hfull. destruct (heap (reg (in_of w s)) !! r) as [c|] eqn:Hc; [|done].
  destruct (is_closed c) eqn:Hcl; [done|].
  destruct (wf_cap _ _ (lo_reg _ _ Hl) _ _ Hc) as [Hcap Hle].
  assert (Hlen : length (queued c) = 32).
  { destruct (decide (length (queued c) < 32)) as [Hlt|]; [|lia]. rewrite <- Hcap in Hlt.
    destruct (push_ready d c Hcl Hlt) as [c' E]. by rewrite E in Hfull. }
  destruct (bi_holder _ Hb s r i Ho) as [Hd|(j & t & Hj & <- & Hr)].
  - destruct (lo_shut _ _ Hl r Hd) as (c0 & Hc0 & ?). congruence.
  - pose proof (li_rx _ (si_links _ _ Hi) j t r Hj Hr) as Ho'. assert (i = t_id t) as -> by congruence.
    exists j, t, c. split_and!; [split; [done|]|done..|].
    { intros [Hrd Hop]. destruct (ri_ended _ (release_inv_reach routing Hwf w Hreach) ltac:(unfold w_ended; by rewrite Hrd)) as [Hh _].
      destruct (oi_fresh _ (si_opening _ _ Hi) j Hop) as (t' & Hj' & Hk' & _). assert (t' = t) as -> by congruence.
      rewrite (kind_side_of t AtServer) in Hheld by (by rewrite Hk'). congruence. }
    apply (holder_goes_on routing Hwf w j t r c); try done. by intros E; rewrite E in Hlen.
Qed.
End Properties.

(** ** Witnesses *)

#[local] Existing Instances queue_channels one_message demo_case demo_engine demo_nets.

(** The demo of [EndToEnd], and then an application that goes on sending while
    the server's write task does not get to run. *)
Definition chunk_acts : list act :=
  [AGo 0; AAnswer 0 (ABytes (bs "x")); AAnswer 0 AOk; ATake AtClient; AWrite AtClient; ARead AtServer].

Definition full_acts : list act :=
  take 29 demo_acts ++ concat (repeat (chunk_acts ++ [AResume AtServer]) 31) ++ chunk_acts.

Lemma full_reachable : reachable demo_routing (after demo_routing full_acts).
Proof.
  apply after_reachable; [|vm_compute; reflexivity]. unfold full_acts. apply Forall_app. split.
  - unfold demo_acts. cbn [take]. repeat (apply Forall_cons; split; [first [exact I|exact demo_request_possible]|]). constructor.
  - apply plain_ok. vm_compute. reflexivity.
Qed.

Lemma reader_waits_for_its_stream_witness :
  let w := after demo_routing full_acts in
  ∃ j t c, polled w j t ∧ t_side t = AtServer ∧ t_rx t = Some 0 ∧ owner (in_of w AtServer) !! 0 = Some (t_id t) ∧
    heap (reg (in_of w AtServer)) !! 0 = Some c ∧ length (queued c) = 32 ∧
    (can_go_on w t ∨ (∃ f k, fst (t_conf t) = Do (Send f) k) ∧ writer_waits w AtServer).
Proof.
  apply (reader_waits_for_its_stream demo_routing _ AtServer 0 (bs "x") demo_routing_wf full_reachable).
  - vm_compute. reflexivity.
  - vm_compute. reflexivity.
Defined.
