(* ===== verification/WorldDeadlock.v ===== *)
(** * How a session gets stuck

    The wait that [WorldBlocked] leaves open is real: with two transports that
    hold a bounded number of messages, the two readers can wait for each other.
    The client's reader awaits room in the channel of a stream whose handler has
    not begun to relay, because it is still sending the body of its request; the
    server's reader awaits [handle_open], which is sending an acknowledgement;
    and each of the two sends waits, behind its end's writer loop, for the reader
    of the other end. *)
From S2P Require Import Prelude Utf8 Text Net Frame GeoSite GeoIp Routing Sock Http Socks5 Task Relay.
From S2P Require Import Channel Registry Control Mux Client ClientProtocol ClientTraces Ssrf Server Flow Link Roles.
From S2P Require Import World Threads WorldOk WorldLinks WorldAcks Schedule EndToEnd WorldRelease WorldSends WorldBlocked.

Section Waiting.
Context `{ChannelLib, Transport}.

(** The task waits in a send: its end's channel is open and full. *)
Definition send_waits (w : world) (t : task) : bool :=
  match fst (t_conf t) with
  | Do (Send f) _ =>
      negb (is_closed (ep_out (end_of w (t_side t)))) &&
      match push f (ep_out (end_of w (t_side t))) with Some _ => false | None => true end
  | _ => false
  end.

(** Such a send returns nothing now, neither a success nor an error. *)
Lemma send_waits_blocked (w : world) (t : task) (f : Frame) (k : answer → prog) :
  send_waits w t = true → fst (t_conf t) = Do (Send f) k → ∀ a, do_call w t (Send f) a = None.
Proof.
  unfold send_waits. intros Hw E. rewrite E in Hw. apply andb_true_iff in Hw as [Hc Hp]. apply negb_true_iff in Hc.
  intros a. destruct a; try done; cbn [do_call]; unfold push_frame.
  - by destruct (push f _).
  - by rewrite Hc.
Qed.

(** The client's reader waits for the task [h], the server's for the task [o],
    and each of the two for the reader of the other end: [h]'s send for the
    client's writer loop, which waits in [ws_sink.send] until the server's reader
    reads; [o]'s for the server's writer loop, which waits until the client's
    does. *)
Record deadlocked (w : world) (h o : nat) : Prop := {
  dl_client : ∃ r d t, held (reg (in_of w AtClient)) = Some (r, d) ∧ route_finish (reg (in_of w AtClient)) = None ∧
    polled w h t ∧ t_side t = AtClient ∧ t_rx t = Some r ∧ send_waits w t = true;
  dl_client_writer : writer_waits w AtClient;
  dl_server : ∃ t, w_reader w = Reads ∧ w_opening w = Some o ∧ w_tasks w !! o = Some t ∧ t_side t = AtServer ∧
    send_waits w t = true;
  dl_server_writer : writer_waits w AtServer
}.
End Waiting.

(** ** A run into it *)

#[local] Existing Instances queue_channels one_message demo_case demo_engine demo_nets.

Definition plain_request : answer :=
  ARequest (bs "example.com:80") (bs "POST / HTTP/1.1" ++ CRLF ++ bs "Host: example.com" ++ CRLF ++ CRLF) [].

Lemma plain_request_possible : http_answer plain_request.
Proof.
  right. exists 0, (demo_sock (bs "POST / HTTP/1.1" ++ CRLF ++ bs "Host: example.com" ++ CRLF ++ CRLF)).
  eexists _, _, _, _. split; [|reflexivity]. vm_compute. reflexivity.
Qed.

(** A handler, task [j], asks for a stream; the server's [handle_open], task
    [o], opens it; the client reads the acknowledgement. *)
Definition ask (j : nat) (a : answer) : list act :=
  AAccept 1 :: AHttp j a :: repeat (AAnswer j AOk) 4 ++ [ATake AtClient; AWrite AtClient].
Definition serve_open (o : nat) : list act :=
  ARead AtServer :: repeat (AAnswer o AOk) 3 ++ [AGo o; AOpened; ATake AtServer; AWrite AtServer; ARead AtClient].

(** A relaying task [j] reads a byte and sends it. *)
Definition chunk (j : nat) : list act := [AAnswer j (ABytes (bs "x")); AAnswer j AOk; AGo j].

(** As many as its end takes while its writer loop gets one message sent: one
    under way, one in hand, 128 in the channel. *)
Definition fill (s : side) (j : nat) : list act :=
  chunk j ++ [ATake s; AWrite s] ++ chunk j ++ [ATake s] ++ concat (repeat (chunk j) 128).

(** Stream 1 is a POST whose destination speaks first; stream 2 a CONNECT whose
    application has a lot to send; stream 3 is opened while they do. *)
Definition deadlock_acts : list act :=
  ask 0 plain_request ++ serve_open 1 ++ [AGo 2; AGo 2] ++
  ask 4 demo_request ++ serve_open 5 ++ [AAnswer 4 (AFlag true); AAnswer 4 AOk; AGo 4; AGo 4] ++
  ask 8 demo_request ++
  concat (repeat (chunk 2 ++ [ATake AtServer; AWrite AtServer; ARead AtClient; AResume AtClient]) 32) ++
  chunk 2 ++ [ATake AtServer; AWrite AtServer; ARead AtClient] ++
  fill AtServer 2 ++ [ARead AtServer; AAnswer 9 AOk; AAnswer 9 AOk] ++
  fill AtClient 4 ++ [AAnswer 0 (AFlag true)].

Definition deadlock_world : world := after demo_routing deadlock_acts.

Lemma ask_ok (j : nat) (a : answer) : http_answer a → Forall act_ok (ask j a).
Proof. intros Ha. unfold ask. constructor; [exact I|]. constructor; [exact Ha|]. by apply plain_ok. Qed.

Lemma deadlock_acts_ok : Forall act_ok deadlock_acts.
Proof.
  unfold deadlock_acts.
  repeat first [apply Forall_app; split|apply ask_ok, plain_request_possible|apply ask_ok, demo_request_possible];
    apply plain_ok; vm_compute; reflexivity.
Qed.

Lemma deadlock_reachable : reachable demo_routing deadlock_world.
Proof. apply after_reachable; [exact deadlock_acts_ok|vm_compute; reflexivity]. Qed.

Lemma deadlock_task (j : nat) : j < 10 → w_tasks deadlock_world !! j = Some (task_after demo_routing deadlock_acts j).
Proof. apply task_after_lookup. vm_compute. reflexivity. Qed.

(** The two readers of a session can wait for each other, with no fault of the
    transport, of an application or of a destination: the writer loops await
    [ws_sink.send] while nobody reads the other end. *)
Theorem readers_deadlock : ∃ w h o, reachable demo_routing w ∧ deadlocked w h o.
Proof.
  exists deadlock_world, 0, 9. split; [exact deadlock_reachable|]. constructor.
  - exists 0, (bs "x"), (task_after demo_routing deadlock_acts 0).
    split; [vm_compute; reflexivity|]. split; [vm_compute; reflexivity|].
    split; [split; [apply deadlock_task; lia|intros [Hc _]; vm_compute in Hc; discriminate]|].
    split_and!; vm_compute; reflexivity.
  - split_and!; [vm_compute; reflexivity|apply not_eq_None_Some; vm_compute; discriminate|vm_compute; reflexivity|vm_compute; discriminate].
  - exists (task_after demo_routing deadlock_acts 9).
    split; [vm_compute; reflexivity|]. split; [vm_compute; reflexivity|]. split; [apply deadlock_task; lia|].
    split; vm_compute; reflexivity.
  - split_and!; [vm_compute; reflexivity|apply not_eq_None_Some; vm_compute; discriminate|vm_compute; reflexivity|vm_compute; discriminate].
Qed.
