(* ===== verification/WorldComplete.v ===== *)
(** * Nothing is missing at the end

    [EndToEnd] says that what a destination has received is a prefix of what
    the handler has read from the application.  Here: when the application has
    closed, the frames have arrived and the write task has emptied its channel,
    it is all of it, and all that the application sent but for what the HTTP
    parser had read ahead of the request, unless the server's stream task had ended before or the session is
    over. *)
From S2P Require Import Prelude Utf8 Text Net Frame GeoSite GeoIp Routing Sock Http Socks5 Task Relay.
From S2P Require Import Channel Registry Control Mux Client ClientProtocol ClientTraces Ssrf Server Flow Link Roles.
From S2P Require Import Tunnel World Threads WorldOk WorldLinks WorldAcks Schedule EndToEnd WorldRelease WorldSends.

#[local] Arguments payloads : simpl never.
#[local] Arguments by_stream : simpl never.

(** A stream's frames end with CLOSE. *)
Lemma no_data_after_close (i : N) (dest : bytes) (ds : list bytes) (closed : bool) (fs gs : list Frame) (d : bytes) :
  stream_frames i dest ds closed = fs ++ Data i d :: gs → Close i ∉ fs.
Proof.
  unfold stream_frames. intros E Hin. apply list_elem_of_split in Hin as (l1 & l2 & ->).
  destruct l1 as [|x l1]; cbn in E; [done|]. injection E as _ E.
  assert (Hc : ∀ es k, map (Data i) es ++ (if closed then [Close i] else []) = k ++ Close i :: l2 ++ Data i d :: gs → False).
  { induction es as [|e es IH]; intros k Hk; cbn in Hk.
    - destruct closed; [|by destruct k]. destruct k as [|y k]; cbn in Hk; [by destruct l2|by destruct k].
    - destruct k as [|y k]; cbn in Hk; [done|]. injection Hk as _ Hk. by eapply IH. }
  apply (Hc ds l1). rewrite E, <- app_assoc. done.
Qed.

Section World.
Context `{ChannelLib, Transport, UnicodeCase, RegexEngine, IpNets} (routing : RoutingConfig).
Hypothesis Hwf : wf_routing routing.

(** The server's side of the session is over. *)
Definition over (w : world) : Prop := w_ended w = true ∨ is_closed (out_of w AtServer) = true.

Lemma over_step (w w' : world) : world_step routing w w' → over w → over w'.
Proof.
  intros Hst [He|Hc]; [left|right].
  - unfold w_ended in *. by rewrite (ended_step routing _ _ Hst He).
  - by apply (out_effect_keeps _ _ _ (world_step_out _ _ _ Hst AtServer)).
Qed.

(** ** How a stream leaves the server's registry *)

Lemma inner_close_ne (i j : N) (s : streams) : i ≠ j → inner (close i s) !! j = inner s !! j.
Proof.
  intros Hn. unfold close. destruct (drop_old_same (inner s !! i) (with_inner s (delete i (inner s)))) as (-> & _).
  cbn. by apply lookup_delete_ne.
Qed.

Lemma inner_route_start (i : N) (d : bytes) (s : streams) : inner (route_start i d s) = inner s.
Proof. unfold route_start. by destruct (inner s !! i). Qed.

Lemma call_leaves (w w' : world) (j : nat) (t t' : task) (c : call) (k : answer → prog) (st : list (prog * prog)) (a : answer)
    (i : N) (r : nat) :
  session_inv routing w → w_tasks w !! j = Some t → t_conf t = (Do c k, st) → call_effect w t c a w' t' →
  inner (reg (in_of w AtServer)) !! i = Some r →
  inner (reg (in_of w' AtServer)) !! i = Some r ∨ (t_side t = AtServer ∧ c = Unregister i ∧ t_side t' = AtServer).
Proof.
  intros [Ht Ho Hl _] Hj Hcf Hc Hi. pose proof (li_link _ Hl AtServer) as Hok.
  destruct Hc as [i' l|i' l|i'|f e He|o b r' ch ch' Hr Hch Hp|d r' s Hr Hd|c a]; try (by left).
  - left. unfold in_of, with_link. rewrite end_of_with_end. case_decide as Hs; [|done]. unfold open_link. cbn [ep_in ep_link reg set_reg log_owner]. rewrite inner_register.
    rewrite lookup_insert_ne; [unfold l; by rewrite Hs|]. intros ->.
    destruct (register_guard _ Hwf w j t i k st Ht Ho Hl Hj Hcf) as [Hno _]. rewrite Hs in Hno.
    by destruct (Hno r (lo_owner _ _ Hok _ _ Hi)).
  - unfold in_of, with_link. rewrite end_of_with_end. case_decide as Hs; [|by left]. cbn.
    destruct (decide (i' = i)) as [->|Hn]; [by right|left]. rewrite inner_close_ne by done. unfold l. by rewrite Hs.
  - left. unfold in_of. rewrite end_of_with_end. case_decide as Hs; [|done]. unfold push_frame in He.
    destruct (push f _); [|done]. cbn in He. injection He as <-. cbn. by rewrite Hs.
  - left. unfold in_of, with_link. rewrite end_of_with_end. case_decide as Hs; [|done]. unfold receive in Hd. rewrite Hs in Hd.
    destruct (heap _ !! r'); [|done]. cbn in Hd. destruct (pull _) as [[d' c']|]; [|done]. by injection Hd as <- <-.
Qed.

Lemma stream_leaves (w w' : world) (i : N) (r : nat) :
  world_step routing w w' → session_inv routing w → inner (reg (in_of w AtServer)) !! i = Some r →
  inner (reg (in_of w' AtServer)) !! i = Some r ∨ Close i ∈ taken (in_of w' AtServer) ∨ unregistered w' i ∨ over w'.
Proof.
  intros Hst Hsi Hi.
  destruct Hst as [who Hst]; destruct Hst as [w' Hst|id fe p Hge Hn Hin|s0 f c Hc Hh Hf|s0 f Hc Hh Hroom|s0 closes Hc Hf Hcs|s0 m rest e Hr Hw Hd|s0 x Hr|m rest f Hr Hw Hd
    |ev Hr Hev| |m rest f id dest Hr Hw Hd He|j t Hen Ho Hj Hf|m rest f act Hr Hw Hd He Hn|Hr|Hcan]; try (by left); try (by destruct s0; left).
  - destruct Hst as [j t c k st a w' t' [Hj Hpl] Hcf Ha Hc|j t p k st [Hj Hpl] Hcf|j t cf [Hj Hpl] Hst|j t x Hj Hcf Hrx l]; try (by left);
      [|left; unfold l; by destruct (t_side t)].
    apply do_call_effect in Hc. destruct (call_leaves _ _ _ _ _ _ _ _ _ _ _ Hsi Hj Hcf Hc Hi) as [?|(Hs & -> & Hs')].
    + left. unfold in_of. by rewrite end_with_tasks.
    + right. right. left. exists j. eexists _, a. cbn [w_tasks with_tasks].
      split; [apply list_lookup_insert_eq; by eapply lookup_lt_Some|]. split; [done|]. cbn. apply elem_of_app. right. by left.
  - destruct s0; [by left|]. right. right. right. right. unfold out_of. cbn. apply shut_closed.
  - left. destruct s0; [done|]. cbn. by rewrite (inner_route_finish _ _ Hr).
  - rewrite (server_event_frame _ _ Hd) in He. unfold server_read, in_of, with_link. rewrite end_of_with_end, decide_True by done.
    destruct f as [?|? ?|? ?|i' d|i']; subst act; try (by left).
    + left. cbn [ep_in ep_link reg read_link take_one server_apply]. by rewrite inner_route_start.
    + destruct (decide (i' = i)) as [->|Hni]; [right; left|left].
      * cbn. apply elem_of_app. right. by left.
      * cbn [ep_in ep_link reg read_link take_one server_apply]. by rewrite inner_close_ne.
  - right. right. right. by left.
  - right. right. right. by left.
Qed.

(** ** What has been routed to a stream that left in order *)

(** A channel of the server's: its stream is still registered; or its CLOSE has
    been read, and all payloads read were routed; or it was cut short. *)
Definition kept (w : world) : Prop :=
  ∀ r i, owner (in_of w AtServer) !! r = Some i →
    inner (reg (in_of w AtServer)) !! i = Some r ∨
    (Close i ∈ taken (in_of w AtServer) ∧ routed (in_of w AtServer) r = payloads i (taken (in_of w AtServer))) ∨
    unregistered w i ∨ over w.

(** The server reads no payload of a stream after its CLOSE. *)
Lemma close_is_last (w : world) (i : N) (d : bytes) (fs : list Frame) :
  tasks_inv routing w → taken (in_of w AtServer) = fs ++ [Data i d] → Close i ∉ fs.
Proof.
  intros Ht Htk Hc. destruct (ti_pipes _ _ Ht AtClient) as (todo & q & Hs & _). cbn [other] in Hs. rewrite Htk in Hs.
  assert (Hb : by_stream i (sent w AtClient) = by_stream i fs ++ Data i d :: by_stream i (todo ++ q)).
  { rewrite Hs, !by_stream_app, <- app_assoc. f_equal. unfold by_stream. by rewrite filter_cons_True. }
  destruct (stream_sent _ Hwf w i Ht) as (jh & h & dest & first & ds & closed & lost & _ & _ & _ & _ & Hf & _).
  { rewrite Hb. by destruct (by_stream i fs). }
  rewrite Hf in Hb. apply no_data_after_close in Hb. by apply Hb, list_elem_of_filter.
Qed.

(** What routing one more frame does to a stream whose CLOSE has been read. *)
Lemma closed_stays (w w' : world) (r : nat) (i : N) :
  world_step routing w w' → session_inv routing w → session_inv routing w' → owner (in_of w AtServer) !! r = Some i →
  Close i ∈ taken (in_of w AtServer) → routed (in_of w AtServer) r = payloads i (taken (in_of w AtServer)) →
  Close i ∈ taken (in_of w' AtServer) ∧ routed (in_of w' AtServer) r = payloads i (taken (in_of w' AtServer)).
Proof.
  intros Hst Hsi Hsi' Ho Hc Hr. pose proof (world_step_link _ _ _ Hst AtServer) as He.
  pose proof (si_tasks _ _ Hsi') as Ht'. pose proof (li_link _ (si_links _ _ Hsi) AtServer) as Hok.
  remember (in_of w' AtServer) as l' eqn:El.
  destruct He as [|m|rest|i'| |x Hx|j t i' k st Hj Hs Hcf|rest f x Hrd Hp Hreg|rest i' d Hrd|j t x d r' Hj Hs Hrx Hx|j t x Hj Hs Hrx|Hs Hen];
    try done.
  - cbn. split; [by apply elem_of_app; left|]. by rewrite payloads_app, Hp, app_nil_r.
  - split; [by apply elem_of_app; left|]. cbn [taken read_link take_one log_route routed]. rewrite payloads_app.
    destruct (decide (i' = i)) as [->|Hn].
    + exfalso. apply (close_is_last w' i d (taken (in_of w AtServer)) Ht'); [by rewrite <- El|done].
    + rewrite payloads_other, app_nil_r by done. rewrite <- Hr.
      destruct (inner (reg (in_of w AtServer)) !! i') as [r0|] eqn:Ei; [|done]. unfold upd.
      destruct (Nat.eqb_spec r r0) as [->|]; [|done]. pose proof (lo_owner _ _ Hok _ _ Ei). congruence.
Qed.

(** Where a channel comes from. *)
Lemma owner_from (w : world) (s : side) (l : link) (r : nat) (i : N) :
  link_effect w s l → owner l !! r = Some i → owner (in_of w s) !! r = Some i ∨ inner (reg l) !! i = Some r.
Proof.
  destruct 1; try (by left). unfold open_link. cbn [owner log_owner set_reg reg].
  intros [[<- <-]|[_ Ho]]%lookup_insert_Some; [right|by left]. rewrite inner_register. apply lookup_insert_eq.
Qed.

(** All that is read while the stream is registered is routed. *)
Lemma routed_all (w : world) (s : side) (l : link) (r : nat) (i : N) :
  link_effect w s l → link_ok (λ _, True) (in_of w s) → inner (reg (in_of w s)) !! i = Some r →
  routed l r = payloads i (taken l).
Proof.
  intros He Hok Hi. pose proof (lo_all _ _ Hok i r I Hi) as Hr.
  destruct He as [|m|rest|i'| |x Hx|j t i' k st Hj Hs Hcf|rest f x Hrd Hp Hreg|rest i' d Hrd|j t x d r' Hj Hs Hrx Hx|j t x Hj Hs Hrx|Hs Hen];
    try exact Hr.
  - cbn. by rewrite payloads_app, Hp, app_nil_r.
  - cbn [taken read_link take_one log_route routed]. rewrite payloads_app. destruct (decide (i' = i)) as [->|Hn].
    + rewrite Hi, payloads_same, <- Hr. unfold upd. by rewrite Nat.eqb_refl.
    + rewrite payloads_other, app_nil_r, <- Hr by done.
      destruct (inner (reg (in_of w s)) !! i') as [r0|] eqn:Ei; [|done]. unfold upd.
      destruct (Nat.eqb_spec r r0) as [->|]; [|done]. destruct Hn. by apply (wf_inj _ _ (lo_reg _ _ Hok) _ _ r0).
Qed.

Lemma kept_step (w w' : world) :
  world_step routing w w' → session_inv routing w → session_inv routing w' → kept w → kept w'.
Proof.
  intros Hst Hsi Hsi' Hk r i Ho'. pose proof (world_step_link _ _ _ Hst AtServer) as He.
  destruct (owner_from _ _ _ _ _ He Ho') as [Ho|Hi]; [|by left].
  destruct (Hk r i Ho) as [Hi|[[Hc Hr]|[Hu|Hv]]].
  - destruct (stream_leaves _ _ i r Hst Hsi Hi) as [?|[Hc|[?|?]]]; [by left| |by auto..].
    right. left. split; [done|]. by eapply routed_all; [|apply Hsi|].
  - right. left. by apply (closed_stays w).
  - right. right. left. by eapply unregistered_step.
  - right. right. right. by eapply over_step.
Qed.

(** ** Dropped receivers *)

(** A receiver has been dropped by a task that has returned, or by the
    shutdown. *)
Definition dropped (w : world) : Prop :=
  ∀ s r, r ∈ dead (in_of w s) → over w ∨
    ∃ j t, w_tasks w !! j = Some t ∧ t_side t = s ∧ t_rx t = Some r ∧ fst (t_conf t) = Return.

Lemma dead_from (w w' : world) (s : side) (r : nat) :
  world_step routing w w' → r ∈ dead (in_of w' s) →
  r ∈ dead (in_of w s) ∨ over w ∨ ∃ j t, w_tasks w !! j = Some t ∧ t_side t = s ∧ t_rx t = Some r ∧ fst (t_conf t) = Return.
Proof.
  intros Hst Hr. pose proof (world_step_link _ _ _ Hst s) as He.
  destruct He as [| | | | | | | | | |j t x Hj Hs Hrx Hret|]; try (by left).
  cbn in Hr. apply elem_of_union in Hr as [Hr%elem_of_singleton|Hr]; [right|by left]. subst.
  destruct Hret as [Hret|[Hrd _]]; [right; by exists j, t|left; left]. by apply cancelled_ended.
Qed.

(** A task that has returned stays where it is. *)
Lemma returned_stays (w w' : world) (j : nat) (t : task) :
  world_step routing w w' → w_tasks w !! j = Some t → fst (t_conf t) = Return → w_tasks w' !! j = Some t.
Proof.
  intros Hst Hj Hr. apply world_step_logs in Hst.
  assert (Hne : ∀ j0 t0 u, w_tasks w !! j0 = Some t0 → fst (t_conf t0) ≠ Return → <[j0 := u]> (w_tasks w) !! j = Some t).
  { intros j0 t0 u Hj0 Hn. rewrite list_lookup_insert_ne; [done|]. intros ->. congruence. }
  destruct Hst as [_ [->|(?&?&?& -> &_)]|j0 t0 l cf ack _ Hj0 Hst _ _ ->|j0 t0 p k st _ Hj0 Hcf ->|j0 t0 i k st Hj0 Hcf r -> _|j0 t0 r d k st Hj0 Hcf _ -> _].
  - done.
  - by apply lookup_app_l_Some.
  - apply (Hne j0 t0); [done|by eapply step_not_return].
  - apply lookup_app_l_Some, (Hne j0 t0); [done|by rewrite Hcf].
  - apply (Hne j0 t0); [done|by rewrite Hcf].
  - apply (Hne j0 t0); [done|by rewrite Hcf].
Qed.

Lemma dropped_step (w w' : world) : world_step routing w w' → dropped w → dropped w'.
Proof.
  intros Hst Hd s r Hr.
  assert (over w ∨ ∃ j t, w_tasks w !! j = Some t ∧ t_side t = s ∧ t_rx t = Some r ∧ fst (t_conf t) = Return)
    as [Ho|(j & t & Hj & Hs & Hx & Hf)] by (destruct (dead_from _ _ _ _ Hst Hr) as [Hr0|?]; [by apply Hd|done]).
  - left. by eapply over_step.
  - right. exists j, t. split; [by eapply returned_stays|done].
Qed.

Lemma complete_inv_reach (w : world) : reachable routing w → kept w ∧ dropped w.
Proof.
  revert w. unfold reachable. apply (rtc_ind_r (λ w, kept w ∧ dropped w)).
  - split; [intros r i Hr; cbn in Hr; by rewrite lookup_empty in Hr|intros [] r Hr; cbn in Hr; set_solver].
  - intros w w' Hr Hst [Hk Hd]. split; [|by eapply dropped_step].
    apply (kept_step w); [done|by apply session_inv_reach|apply session_inv_reach; [done|by eapply rtc_r]|done].
Qed.

(** ** A write task that waits has written what it has received *)

Lemma waiting_written (t : task) (k : answer → prog) (st : list (prog * prog)) :
  task_ok routing t → t_prog t = write_task → t_conf t = (Do DataRecv k, st) → data_of (t_hist t) = writes_of (t_hist t).
Proof.
  intros [_ Hs _] Hp Hcf. rewrite Hp, Hcf in Hs.
  destruct (refines_call _ _ _ (follows_refines _ _ _ write_task_follows) _ _ AErr _ _ Hs) as (q & q' & Ha & Hq); [|done|].
  - apply Forall_true. by intros [].
  - destruct (writer_accepts _ _ Ha) as [Hd _]. destruct q; try done. by rewrite Hd, app_nil_r.
Qed.

(** A handler that has sent CLOSE, and lost no send, has sent all it has read. *)
Lemma closed_sent_all (w : world) (j : nat) (h : task) :
  session_inv routing w → outs_inv w → is_closed (out_of w AtClient) = false →
  w_tasks w !! j = Some h → t_kind h = Handler → Close (t_id h) ∈ frames_of (t_hist h) →
  ∃ dest first, request_of (t_hist h) = Some (dest, first) ∧
    concat (payloads (t_id h) (sent w AtClient)) = first ++ reads_of (t_hist h).
Proof.
  intros Hi Hou Hopen Hj Hk Hcl. pose proof (ti_task _ _ (si_tasks _ _ Hi) _ _ Hj) as Hok.
  pose proof (tk_role _ _ Hok) as Hr. unfold role_ok in Hr. rewrite Hk in Hr. destruct Hr as [Hid [fe Hin]].
  pose proof (handler_possible _ Hwf _ _ _ _ _ Hin (tk_run _ _ Hok) (tk_env _ _ Hok)) as Hp.
  destruct (upload_shape routing _ fe _ _ _ Hwf Hid Hin (tk_run _ _ Hok) Hp)
    as [Hf|(dest & first & ds & closed & lost & Hreq & Hf & Hc & _ & Hl)]; [by rewrite Hf in Hcl; apply elem_of_nil in Hcl|].
  exists dest, first. split; [done|].
  rewrite <- payloads_by_stream, (proj1 (ti_up _ _ (si_tasks _ _ Hi)) j h Hj Hk), payloads_by_stream, Hf, payloads_stream_frames.
  rewrite <- Hc, Hl, app_nil_r; [done| |].
  - destruct closed; [done|]. rewrite Hf in Hcl. unfold stream_frames in Hcl. rewrite app_nil_r in Hcl.
    apply elem_of_cons in Hcl as [|Hcl]; [done|]. by apply list_elem_of_fmap in Hcl as (? & ? & _).
  - apply not_true_iff_false. intros Hx. unfold send_failed in Hx. apply existsb_exists in Hx as (l & Hl' & Hx).
    destruct l as [[] a| |]; try done. apply negb_true_iff in Hx. apply list_elem_of_In in Hl'.
    pose proof (ou_failed _ Hou j h _ a Hj Hl' Hx) as Hy. rewrite (kind_side_of h AtClient) in Hy by (by rewrite Hk). congruence.
Qed.

(** Everything the client has accepted has been read by the server and put into
    its channels. *)
Definition all_arrived (w : world) : Prop :=
  is_closed (out_of w AtClient) = false ∧ queued (out_of w AtClient) = [] ∧ ep_hand (end_of w AtClient) = None ∧
  wire (in_of w AtServer) = [] ∧ held (reg (in_of w AtServer)) = None.

Lemma arrived_taken (w : world) : tasks_inv routing w → all_arrived w → taken (in_of w AtServer) = sent w AtClient.
Proof.
  intros Ht (Hc & Hq & Hh & Hw & _). destruct (ti_pipes _ _ Ht AtClient) as (todo & q & -> & Hwi & Hx). cbn [other] in *.
  rewrite Hw in Hwi. destruct todo; [|done]. unfold out_of in *. by rewrite (Hx Hc), Hh, Hq, app_nil_r.
Qed.

(** A write task that still waits has received all that was routed to it. *)
Lemma waiting_received (w : world) (j : nat) (t : task) (r : nat) (k : answer → prog) (st : list (prog * prog)) :
  session_inv routing w → dropped w → w_tasks w !! j = Some t → t_conf t = (Do DataRecv k, st) → t_rx t = Some r →
  queue_at (reg (in_of w (t_side t))) r = Some [] → held (reg (in_of w (t_side t))) = None → ¬ over w →
  data_of (t_hist t) = routed (in_of w (t_side t)) r.
Proof.
  intros Hi Hd Hj Hcf Hr Hq Hh Hup. pose proof (li_link _ (si_links _ _ Hi) (t_side t)) as Hok.
  pose proof (li_rx _ (si_links _ _ Hi) j t r Hj Hr) as Ho.
  unfold queue_at in Hq. destruct (heap _ !! r) as [c|] eqn:Hc; [|done]. cbn in Hq. injection Hq as Hq.
  assert (Hlo : lost (in_of w (t_side t)) = None).
  { destruct (li_lost _ (si_links _ _ Hi) (t_side t)) as [?|[_ Hrd]]; [done|]. destruct Hup. left. by apply cancelled_ended. }
  pose proof (link_delivers_all _ _ r c Hok Hlo Hc) as Hx. pose proof (li_data _ (si_links _ _ Hi) j t Hj) as Hdt.
  rewrite Hr in Hdt. rewrite Hdt, <- Hx, Hq; [unfold held_for; by rewrite Hh, app_nil_r|].
  intros Hdead. destruct (Hd _ _ Hdead) as [?|(j' & t' & Hj' & Hs' & Hr' & Hf)]; [done|].
  assert (j' = j) as -> by (by apply (li_rx_alone _ (si_links _ _ Hi) j' j t' t r)).
  assert (t' = t) as -> by congruence. by rewrite Hcf in Hf.
Qed.
End World.

(** ** Properties *)

Section Properties.
Context `{ChannelLib, Transport, UnicodeCase, RegexEngine, IpNets} (routing : RoutingConfig).

(** C4: Nothing is missing at the end of an upload: when the client's handler
    has sent CLOSE, all frames have arrived and the server's write task waits
    on an empty channel, the destination has received exactly the request, if
    it is one to forward, and all that the handler has read from the
    application — provided the server has not unregistered the stream on its
    own account (its stream task had ended before) and the session is not over.
    When the handler has read to the end of the application's stream, that is
    all the application sent, less the bytes that the HTTP parser had read ahead
    of its request ([is_all_of]). *)
Theorem upload_complete (w : world) (t h : task) (r : nat) (k : answer → prog) (st : list (prog * prog))
  (Hwf : wf_routing routing) (Hreach : reachable routing w)
  (Hin : t ∈ w_tasks w) (Hside : t_side t = AtServer) (Hprog : t_prog t = write_task)
  (Hwaits : t_conf t = (Do DataRecv k, st)) (Hrx : t_rx t = Some r)
  (Hempty : queue_at (reg (in_of w AtServer)) r = Some []) (Harrived : all_arrived w)
  (Hinh : h ∈ w_tasks w) (Hsideh : t_side h = AtClient) (Hfe : ∃ fe, (fe, t_prog h) ∈ handlers routing (t_id h))
  (Hid : t_id h = t_id t) (Hclosed : Close (t_id h) ∈ frames_of (t_hist h))
  (Hreg : ¬ unregistered w (t_id t)) (Hup : ¬ over w) :
  ∃ dest first, request_of (t_hist h) = Some (dest, first) ∧
    concat (writes_of (t_hist t)) = first ++ reads_of (t_hist h) ∧
    comes_from (t_hist h) first (concat (writes_of (t_hist t))) ∧
    is_all_of (t_hist h) first (concat (writes_of (t_hist t))).
Proof.
  pose proof (session_inv_reach routing Hwf w Hreach) as Hi. destruct (complete_inv_reach routing Hwf w Hreach) as [Hk Hd].
  destruct (sends_inv_reach routing Hwf w Hreach) as [Hou _]. pose proof (si_tasks _ _ Hi) as Ht.
  apply list_elem_of_lookup_1 in Hin as [j Hj]. apply list_elem_of_lookup_1 in Hinh as [jh Hjh].
  assert (Hkh : t_kind h = Handler) by (destruct Hfe as [fe Hfe]; unfold t_kind; rewrite Hsideh; by eapply handler_kind).
  destruct Harrived as (Hopen & Hrest). pose proof (arrived_taken routing w Ht (conj Hopen Hrest)) as Htk. destruct Hrest as (_ & _ & _ & Hheld).
  destruct (closed_sent_all routing Hwf w jh h Hi Hou Hopen Hjh Hkh Hclosed) as (dest & first & Hreq & Hall).
  exists dest, first. split; [done|].
  cut (concat (writes_of (t_hist t)) = first ++ reads_of (t_hist h)).
  { intros E. split_and!; [done|eapply reads_come_from; [done|by rewrite E]|by eapply reads_all_of]. }
  rewrite <- Hall, Hid, <- Htk.
  rewrite <- (waiting_written routing t k st (ti_task _ _ Ht _ _ Hj) Hprog Hwaits). f_equal.
  pose proof (li_rx _ (si_links _ _ Hi) j t r Hj Hrx) as Ho. pose proof (waiting_received routing w j t r k st Hi Hd Hj Hwaits Hrx) as Hx.
  rewrite Hside in *. rewrite Hx by done. destruct (Hk r _ Ho) as [Hin|[[_ Hin]|[?|?]]]; [|done..].
  by apply (lo_all _ _ (li_link _ (si_links _ _ Hi) AtServer)).
Qed.
End Properties.

(** ** Witnesses *)

Definition unregisters (i : N) (t : task) : bool :=
  match t_side t with
  | AtServer => existsb (λ l, match l with LCall (Unregister i') _ => (i' =? i)%N | _ => false end) (t_hist t)
  | AtClient => false
  end.

Lemma not_unregistered `{ChannelLib} (w : world) (i : N) : existsb (unregisters i) (w_tasks w) = false → ¬ unregistered w i.
Proof.
  intros Hf (j & t & a & Hj & Hs & Hin). apply not_true_iff_false in Hf. apply Hf, existsb_exists. exists t.
  split; [by eapply list_elem_of_In, list_elem_of_lookup_2|]. unfold unregisters. rewrite Hs. apply existsb_exists.
  eexists. split; [by apply list_elem_of_In|]. apply N.eqb_refl.
Qed.

#[local] Existing Instances queue_channels one_message demo_case demo_engine demo_nets.

(** The demo of [EndToEnd] to its end: "bye" delivered, end of input, CLOSE. *)
Definition closing_acts : list act :=
  demo_acts ++ [ARead AtServer; AResume AtServer; AGo 4; AAnswer 4 (ABytes (bs "bye")); AAnswer 4 AOk; AGo 4;
    AGo 0; AAnswer 0 (ABytes []); AGo 0; AAnswer 0 AOk; ATake AtClient; AWrite AtClient; ARead AtServer].

Definition closing_task (j : nat) : task := task_after demo_routing closing_acts j.

Lemma closing_reachable : reachable demo_routing (after demo_routing closing_acts).
Proof.
  apply after_reachable; [|vm_compute; reflexivity]. unfold closing_acts, demo_acts. cbn [app].
  repeat (apply Forall_cons; split; [first [exact I|exact demo_request_possible]|]). constructor.
Qed.

Lemma closing_task_in (j : nat) : j < 5 → closing_task j ∈ w_tasks (after demo_routing closing_acts).
Proof. apply task_after_in. vm_compute. reflexivity. Qed.

Lemma upload_complete_witness :
  app_stream (demo_header ++ bs "hellobye") 0 (t_hist (closing_task 0)) ∧
  LCall TcpRead (ABytes []) ∈ t_hist (closing_task 0) ∧
  ∃ dest first, request_of (t_hist (closing_task 0)) = Some (dest, first) ∧
    concat (writes_of (t_hist (closing_task 4))) = first ++ reads_of (t_hist (closing_task 0)) ∧
    comes_from (t_hist (closing_task 0)) first (concat (writes_of (t_hist (closing_task 4)))) ∧
    is_all_of (t_hist (closing_task 0)) first (concat (writes_of (t_hist (closing_task 4)))).
Proof.
  split; [|split].
  { apply demo_app_stream; [eexists; split|..]; vm_compute; reflexivity. }
  { apply (list_elem_of_lookup_2 _ 15). vm_compute. reflexivity. }
  eapply (upload_complete demo_routing _ (closing_task 4) (closing_task 0) 0 _ _ demo_routing_wf closing_reachable).
  - apply closing_task_in. lia.
  - vm_compute. reflexivity.
  - vm_compute. reflexivity.
  - unfold closing_task. vm_compute. reflexivity.
  - vm_compute. reflexivity.
  - vm_compute. reflexivity.
  - split_and!; vm_compute; reflexivity.
  - apply closing_task_in. lia.
  - vm_compute. reflexivity.
  - apply (handler_front demo_routing demo_routing_wf _ _ closing_reachable); [apply closing_task_in; lia|vm_compute; reflexivity].
  - vm_compute. reflexivity.
  - apply (list_elem_of_lookup_2 _ 3). vm_compute. reflexivity.
  - apply not_unregistered. vm_compute. reflexivity.
  - intros [Hx|Hx]; revert Hx; vm_compute; discriminate.
Defined.
