(* ===== verification/HalfClose.v ===== *)
(** * What a half-closed connection loses

    An application that has sent its request may shut down its sending half and
    wait for the reply.  [do_mux_relay] ([client/src/lib.rs]) takes the end of
    its input for the end of the stream: it sends CLOSE and forgets the stream,
    so that the rest of the reply finds nobody.  The first theorem says so of
    every session; the second shows a run in which nothing fails and the whole
    reply is lost. *)
From S2P Require Import Prelude Utf8 Text Net Frame GeoSite GeoIp Routing Sock Http Socks5 Task Relay.
From S2P Require Import Channel Registry Control Mux Client ClientProtocol ClientTraces Ssrf Server Flow Link Roles.
From S2P Require Import Tunnel World Threads WorldOk WorldLinks WorldAcks Schedule EndToEnd WorldRelease WorldComplete.

(** ** A handler after the end of its input *)

Section Phases.
Context (fe : front_end).

Definition input_ended (q : phase) : bool :=
  match q with Mux _ Draining | Mux _ CloseSent | Mux _ (Freed false) => true | _ => false end.

Lemma eof_phase (q q' : phase) (l : label) :
  advance (local_protocol fe) q l q' → input_ended q = true ∨ l = LCall TcpRead (ABytes []) → input_ended q' = true.
Proof.
  destruct l as [c a|p|]; cbn [advance p_call p_spawn local_protocol];
    [|by inversion 1; intros [|]|by intros ->; intros [|]].
  intros Hc Hq. destruct q as [|pl|pl|pl s|pl s|]; try (by destruct Hq as [|[= -> ->]]).
  - apply conn_call_mux in Hc as (s' & Hc & ->). destruct Hq as [Hq|[= -> ->]].
    + destruct s as [| | | | | | | | |[]| | |[]]; try done; destruct c as [| | | |i| |[]| | | | | | |]; try done; cbn in Hc.
      * by apply for_stream_Some in Hc as [_ ->].
      * by apply for_stream_Some in Hc as [_ ->].
    + destruct s as [| | | | | | | | |[]| | |[]]; try done. by injection Hc as <-.
  - apply conn_call_direct in Hc as (s' & Hc & ->). destruct Hq as [Hq|[= -> ->]]; [done|]. by destruct s as [| | | |[]|].
Qed.

Lemma eof_ended (q0 q : phase) (ls : list label) :
  accepts (local_protocol fe) q0 ls q → LCall TcpRead (ABytes []) ∈ ls → input_ended q = true.
Proof.
  revert q. induction ls as [|l ls IH] using rev_ind; intros q Ha Hin; [by apply elem_of_nil in Hin|].
  apply accepts_snoc in Ha as (q1 & Ha & Hl). apply (eof_phase _ _ _ Hl).
  apply elem_of_app in Hin as [Hin|Hin%list_elem_of_singleton]; [left; by eapply IH|by right].
Qed.

(** A handler unregisters what it has registered. *)
Lemma unregister_registered (q : phase) (ls : list label) (i : N) (a : answer) :
  accepts (local_protocol fe) Start ls q → LCall (Unregister i) a ∈ ls → regs_of ls ≠ [].
Proof.
  revert q. induction ls as [|l ls IH] using rev_ind; intros q Ha Hin; [by apply elem_of_nil in Hin|].
  apply accepts_snoc in Ha as (q1 & Ha & Hl). rewrite regs_of_app. intros [H1 H2]%app_eq_nil.
  apply elem_of_app in Hin as [Hin|<-%list_elem_of_singleton]; [by apply (IH q1)|].
  apply (live_registered fe _ _ _ Ha); [done| |done]. cbn [advance p_call local_protocol] in Hl.
  destruct q1 as [|pl|pl|pl s|pl s|]; try done.
  - apply conn_call_mux in Hl as (s' & Hc & _). by destruct s as [| | | | | | | | |[]| | |[]].
  - apply conn_call_direct in Hl as (s' & Hc & _). by destruct s as [| | | |[]|].
Qed.
End Phases.

Section World.
Context `{ChannelLib, Transport, UnicodeCase, RegexEngine, IpNets} (routing : RoutingConfig).
Hypothesis Hwf : wf_routing routing.

(** A stream that its handler has unregistered is not registered any more. *)
Definition handler_gone (w : world) : Prop :=
  ∀ j t a, w_tasks w !! j = Some t → t_kind t = Handler → LCall (Unregister (t_id t)) a ∈ t_hist t →
    inner (reg (in_of w AtClient)) !! t_id t = None.

Lemma handler_registered_once (t : task) (i : N) (a : answer) (k : answer → prog) (st : list (prog * prog)) :
  task_ok routing t → t_kind t = Handler → LCall (Unregister i) a ∈ t_hist t → t_conf t ≠ (Do (Register i) k, st).
Proof.
  intros Hok Hk Hin Hcf. destruct (handler_phase routing Hwf t Hok Hk) as (fe & q & _ & _ & Ha & _).
  destruct (task_register routing Hwf t i k st Hok Hcf) as (_ & Hr & _). by eapply unregister_registered.
Qed.

Lemma handler_gone_step (w w' : world) :
  world_step routing w w' → session_inv routing w → handler_gone w → handler_gone w'.
Proof.
  intros Hst [Ht Ho Hl _] Hg j t a Hj Hk Hin.
  assert (Hside : ∀ t0, same_task t0 t → t_side t0 = AtClient).
  { intros t0 Hs. apply kind_side_of. by rewrite <- (same_kind _ _ Hs), Hk. }
  destruct (step_label routing _ _ _ _ _ _ Hst Hj Hin) as [(t0 & Hj0 & Hs & Hin0)|(t0 & w1 & t1 & Hj0 & Hs & Hc & He)].
  - pose proof (Hside t0 Hs) as Hsd. rewrite (same_kind _ _ Hs) in Hk. destruct Hs as (_ & Hid & _).
    rewrite Hid in Hin0 |- *. pose proof (Hg j t0 a Hj0 Hk Hin0) as Hn.
    destruct (inner (reg (in_of w' AtClient)) !! t_id t0) as [r|] eqn:Hi; [exfalso|done].
    destruct (inner_from _ _ _ _ _ (world_step_link routing _ _ Hst AtClient) Hi)
      as [?|(jo & u & k & st & Hu & Hsu & Hcf)]; [congruence|].
    pose proof (ti_task _ _ Ht _ _ Hu) as Hok.
    destruct (task_register routing Hwf u _ k st Hok Hcf) as (Hidu & Hreg & [[Hku _]|Hku]).
    2: { pose proof (kind_side_of u AtServer) as Hx. rewrite Hku in Hx. by rewrite Hx in Hsu. }
    assert (j = jo) as -> by (apply (ti_alone _ _ Ht j jo t0 u Hj0 Hu); [congruence|by rewrite Hk|congruence]).
    assert (t0 = u) as -> by congruence. by apply (handler_registered_once u _ a k st Hok Hku Hin0).
  - unfold in_of. rewrite He. pose proof (Hside t0 Hs) as Hsd. destruct a; try done. cbn in Hc. injection Hc as <- <-.
    rewrite Hsd. unfold with_link. rewrite end_of_with_end, decide_True by done. cbn. unfold close.
    destruct (drop_old_same (inner (reg (in_of w AtClient)) !! t_id t)
      (with_inner (reg (in_of w AtClient)) (delete (t_id t) (inner (reg (in_of w AtClient)))))) as (-> & _).
    cbn. apply lookup_delete_eq.
Qed.

Lemma handler_gone_reach (w : world) : reachable routing w → handler_gone w.
Proof.
  revert w. unfold reachable. apply (rtc_ind_r handler_gone); [by intros j t a Hj|].
  intros w w' Hr Hst. by apply handler_gone_step, (session_inv_reach routing Hwf).
Qed.

(** What is read of a stream that is not registered reaches none of its
    channels. *)
Lemma unregistered_routes (w : world) (s : side) (l : link) (r : nat) (i : N) :
  link_effect w s l → link_ok (λ _, True) (in_of w s) → inner (reg (in_of w s)) !! i = None →
  inner (reg l) !! i = None → owner l !! r = Some i →
  owner (in_of w s) !! r = Some i ∧ routed l r = routed (in_of w s) r.
Proof.
  intros He Hok Hn Hn' Ho'.
  assert (Ho : owner (in_of w s) !! r = Some i).
  { destruct (owner_from _ _ _ _ _ He Ho') as [?|?]; [done|congruence]. }
  split; [done|].
  destruct He as [|m|rest|i'| |x Hx|j t i' k st Hj Hs Hcf|rest f x Hrd Hp Hreg|rest i' d Hrd|j t x d r' Hj Hs Hrx Hx|j t x Hj Hs Hrx|Hs Hen];
    try done.
  cbn [routed read_link take_one log_route]. destruct (inner (reg (in_of w s)) !! i') as [r0|] eqn:Ei; [|done].
  unfold upd. destruct (Nat.eqb_spec r r0) as [->|]; [|done]. pose proof (lo_owner _ _ Hok _ _ Ei). congruence.
Qed.

Lemma gone_stays (w w' : world) (h : task) (a : answer) :
  reachable routing w → rtc (world_step routing) w w' → h ∈ w_tasks w → t_kind h = Handler →
  LCall (Unregister (t_id h)) a ∈ t_hist h →
  ∀ r, owner (in_of w' AtClient) !! r = Some (t_id h) →
    owner (in_of w AtClient) !! r = Some (t_id h) ∧ routed (in_of w' AtClient) r = routed (in_of w AtClient) r.
Proof.
  intros Hr Hs. revert Hr h. induction Hs as [w|w w1 w' Hst Hs IH]; intros Hr h [j Hj]%list_elem_of_lookup_1 Hk Hu r Ho; [done|].
  assert (Hr1 : reachable routing w1) by (by eapply rtc_r).
  destruct (step_hist routing _ _ _ _ _ Hst Hj Hu) as (h1 & Hj1 & Hsame & Hu1). pose proof (same_kind _ _ Hsame) as Hk1.
  destruct Hsame as (_ & Hid & _). rewrite <-Hid in Hu1, Ho |- *.
  destruct (IH Hr1 h1) with (r := r) as [Ho1 Hx]; [by eapply list_elem_of_lookup_2|congruence|done|done|].
  rewrite Hx. pose proof (handler_gone_reach w1 Hr1 j h1 a Hj1 ltac:(congruence) Hu1) as Hn1.
  pose proof (handler_gone_reach w Hr j h a Hj Hk Hu) as Hn. rewrite Hid in *.
  apply (unregistered_routes w AtClient _ r (t_id h)); [by apply (world_step_link routing)| |done..].
  apply (li_link _ (si_links _ _ (session_inv_reach routing Hwf w Hr))).
Qed.

(** What a task of the client has been given is what was routed. *)
Lemma written_routed (w : world) (t : task) :
  reachable routing w → t ∈ w_tasks w → t_side t = AtClient → t_prog t = write_task →
  writes_of (t_hist t) = [] ∨
  ∃ r, owner (in_of w AtClient) !! r = Some (t_id t) ∧ writes_of (t_hist t) `prefix_of` routed (in_of w AtClient) r.
Proof.
  intros Hr [j Hj]%list_elem_of_lookup_1 Hs Hp. pose proof (session_inv_reach routing Hwf w Hr) as Hi.
  destruct (writer_phase_of routing t (ti_task _ _ (si_tasks _ _ Hi) _ _ Hj) (writer_kind t Hp)) as (Hd & _).
  pose proof (li_data _ (si_links _ _ Hi) j t Hj) as Hg. destruct (t_rx t) as [r|] eqn:Hrx.
  2: { left. rewrite Hg in Hd. by destruct (writes_of (t_hist t)). }
  right. exists r. pose proof (li_rx _ (si_links _ _ Hi) j t r Hj Hrx) as Ho. rewrite Hs in *. split; [done|].
  pose proof (li_link _ (si_links _ _ Hi) AtClient) as Hok. destruct (lo_dom _ _ Hok _ _ Ho) as [c Hc].
  pose proof (lo_carries _ _ Hok r) as Hca. unfold carries in Hca. rewrite Hc in Hca.
  trans (got (in_of w AtClient) r); [rewrite <-Hg, Hd; by apply prefix_app_r|].
  case_decide; [|rewrite <-Hca; by apply prefix_app_r]. etrans; [|exact Hca]. by apply prefix_app_r.
Qed.

Lemma handler_kind_of (h : task) : t_side h = AtClient → (∃ fe, (fe, t_prog h) ∈ handlers routing (t_id h)) → t_kind h = Handler.
Proof. intros Hs [fe Hfe]. unfold t_kind. rewrite Hs. by eapply handler_kind. Qed.

(** After the end of its input a handler only sends CLOSE and unregisters. *)
Lemma calls_after_eof (w : world) (h : task) (c : call) (k : answer → prog) (st : list (prog * prog)) :
  reachable routing w → h ∈ w_tasks w → t_kind h = Handler → LCall TcpRead (ABytes []) ∈ t_hist h →
  t_conf h = (Do c k, st) → c = Send (Close (t_id h)) ∨ c = Unregister (t_id h).
Proof.
  intros Hr [j Hj]%list_elem_of_lookup_1 Hk Hin Hcf.
  pose proof (ti_task _ _ (si_tasks _ _ (session_inv_reach routing Hwf w Hr)) _ _ Hj) as Hok.
  destruct (handler_phase routing Hwf h Hok Hk) as (fe & _ & Hfe & Hp & _).
  pose proof (handler_call routing Hwf h c k st Hok Hk Hcf) as Hid. pose proof (tk_run _ _ Hok) as Hs. rewrite Hcf in Hs.
  destruct (refines_call _ _ _ (handlers_refine routing _ _ _ Hwf Hfe) _ c AErr _ _ Hs Hp (handler_answer _ _ _ _ c Hfe))
    as (q & q' & Ha & Hq).
  pose proof (eof_ended fe _ _ _ Ha Hin) as He. destruct q as [|pl|pl|pl s|pl s|]; try done.
  apply (conn_call_mux fe) in Hq as (s' & Hq & _).
  destruct s as [| | | | | | | | |[]| | |[]]; try done; destruct c as [| | | |i| |[]| | | | | | |]; try done; cbn in Hid.
  - left. by injection Hid as ->.
  - right. by rewrite Hid.
Qed.
End World.

(** ** Properties *)

Section Properties.
Context `{ChannelLib, Transport, UnicodeCase, RegexEngine, IpNets} (routing : RoutingConfig).

(** C35: The end of the application's input is the end of its reply, in every
    state a session can reach.  Once a handler has read the end of its
    application's stream, the only calls it makes are the send of CLOSE and the
    unregistering of its stream; and once it has unregistered, whatever happens
    later, the stream's write task has written, and will ever write, nothing but
    a prefix of the payloads that the client had read by then: what the
    destination sends afterwards never reaches the application, although the
    application may still be reading ([half_close_loses_reply] is such a run). *)
Theorem half_close_ends_download (w : world) (h : task)
  (Hwf : wf_routing routing) (Hreach : reachable routing w)
  (Hin : h ∈ w_tasks w) (Hside : t_side h = AtClient) (Hfe : ∃ fe, (fe, t_prog h) ∈ handlers routing (t_id h)) :
  (∀ c k st, LCall TcpRead (ABytes []) ∈ t_hist h → t_conf h = (Do c k, st) →
     c = Send (Close (t_id h)) ∨ c = Unregister (t_id h)) ∧
  (∀ w' t, LCall (Unregister (t_id h)) AOk ∈ t_hist h → rtc (world_step routing) w w' →
     t ∈ w_tasks w' → t_side t = AtClient → t_prog t = write_task → t_id t = t_id h →
     writes_of (t_hist t) `prefix_of` payloads (t_id h) (taken (in_of w AtClient))).
Proof.
  pose proof (handler_kind_of routing h Hside Hfe) as Hk. split.
  - intros c k st Heof Hcf. by eapply (calls_after_eof routing Hwf w).
  - intros w' t Hu Hs Ht Hst Hp Hid. assert (Hr' : reachable routing w') by (unfold reachable in *; by etrans).
    destruct (written_routed routing Hwf w' t Hr' Ht Hst Hp) as [->|(r & Ho & Hpre)]; [apply prefix_nil|].
    rewrite Hid in Ho. destruct (gone_stays routing Hwf w w' h AOk Hreach Hs Hin Hk Hu r Ho) as [Ho0 E].
    rewrite E in Hpre. etrans; [exact Hpre|].
    apply (lo_prefix _ _ (li_link _ (si_links _ _ (session_inv_reach routing Hwf w Hreach)) AtClient)); done.
Qed.
End Properties.

(** ** A run *)

#[local] Existing Instances queue_channels one_message demo_case demo_engine demo_nets.

(** CONNECT; the application sends "ask" and its end; the destination replies. *)
Definition half_close_acts : list act :=
  [AAccept 1; AHttp 0 demo_request; AAnswer 0 AOk; AAnswer 0 AOk; AAnswer 0 AOk; AAnswer 0 AOk;
   ATake AtClient; AWrite AtClient; ARead AtServer; AAnswer 1 AOk; AAnswer 1 AOk; AAnswer 1 AOk; AGo 1; AOpened;
   ATake AtServer; AWrite AtServer; ARead AtClient; AAnswer 0 (AFlag true); AAnswer 0 AOk; AGo 0; AGo 0;
   AAnswer 0 (ABytes (bs "ask")); AAnswer 0 AOk; AGo 0;
   AAnswer 0 (ABytes []); AGo 0; AAnswer 0 AOk; AAnswer 0 AOk;
   ATake AtClient; AWrite AtClient; ARead AtServer; AResume AtServer; ATake AtClient; AWrite AtClient; ARead AtServer;
   AGo 2; AGo 4; AAnswer 4 (ABytes (bs "ask")); AAnswer 4 AOk;
   AGo 2; AAnswer 2 (ABytes (bs "reply")); AAnswer 2 AOk; ATake AtServer; AWrite AtServer; ARead AtClient; AResume AtClient;
   AGo 3; AAnswer 3 AErr; AGo 3].

Definition half_closed : world := after demo_routing half_close_acts.

Definition half_task (j : nat) : task := task_after demo_routing half_close_acts j.

Lemma half_close_ok : Forall act_ok half_close_acts.
Proof. unfold half_close_acts. repeat (apply Forall_cons; split; [first [exact I|exact demo_request_possible]|]). constructor. Qed.

Lemma half_closed_reachable : reachable demo_routing half_closed.
Proof. apply after_reachable; [exact half_close_ok|vm_compute; reflexivity]. Qed.

Lemma half_task_in (j : nat) : j < 5 → half_task j ∈ w_tasks half_closed.
Proof. apply task_after_in. vm_compute. reflexivity. Qed.

(** The session is as it was set up: nothing has been closed on either side. *)
Definition session_intact (w : world) : bool :=
  negb (is_closed (ep_out (w_client w))) && negb (is_closed (ep_out (w_server w))) &&
  negb (w_ended w) && negb (stopped (w_acks w)).

(** Every call of the task has succeeded, but for the receive that finds the
    stream's channel closed. *)
Definition no_error (t : task) : bool :=
  forallb (λ '(c, a), is_ok a || match c with DataRecv => true | _ => false end) (calls_of (t_hist t)).

(** A reply can be lost although nothing fails: there is a run in which the
    keeper closes nothing, the session is still as it was set up, and no call of
    any task has failed, but for the receive of the write task that finds its
    channel closed; the application behind a positively acknowledged stream has
    ended its sending half after its request; the destination has received the
    request, its reply has been read, sent and received by the client; and the
    task that would write it to the application has returned without having
    written anything. *)
Theorem half_close_loses_reply :
  ∃ w h st up down, rtc (unclosed_step demo_routing) world_init w ∧
    session_intact w = true ∧ forallb no_error (w_tasks w) = true ∧
    h ∈ w_tasks w ∧ st ∈ w_tasks w ∧ up ∈ w_tasks w ∧ down ∈ w_tasks w ∧
    t_id h = 1%N ∧ t_id st = 1%N ∧ t_id up = 1%N ∧ t_id down = 1%N ∧
    (t_side h, t_kind h) = (AtClient, Handler) ∧ (t_side st, t_kind st) = (AtServer, Streamer) ∧
    (t_side up, t_kind up) = (AtServer, Writer) ∧ (t_side down, t_kind down) = (AtClient, Writer) ∧
    (RecvAck (Some 10%N), AFlag true) ∈ calls_of (t_hist h) ∧ (TcpRead, ABytes []) ∈ calls_of (t_hist h) ∧
    writes_of (t_hist up) = [bs "ask"] ∧ reads_of (t_hist st) = bs "reply" ∧
    payloads 1 (taken (in_of w AtClient)) = [bs "reply"] ∧
    writes_of (t_hist down) = [] ∧ fst (t_conf down) = Return.
Proof.
  exists half_closed, (half_task 0), (half_task 2), (half_task 4), (half_task 3).
  split_and!; [apply after_unclosed; [exact half_close_ok|vm_compute; reflexivity]| | |apply half_task_in; lia..
    | | | | | | | | | | | | | | |]; try (vm_compute; reflexivity).
  - apply (list_elem_of_lookup_2 _ 5). vm_compute. reflexivity.
  - apply (list_elem_of_lookup_2 _ 9). vm_compute. reflexivity.
Qed.

(** The handler of the run has ended its input and unregistered; the next world
    is where it has been left. *)
Lemma half_close_ends_download_witness :
  LCall TcpRead (ABytes []) ∈ t_hist (half_task 0) ∧ LCall (Unregister 1) AOk ∈ t_hist (half_task 0) ∧
  writes_of (t_hist (half_task 3)) `prefix_of` payloads 1 (taken (in_of half_closed AtClient)).
Proof.
  split; [apply (list_elem_of_lookup_2 _ 12); vm_compute; reflexivity|].
  split; [apply (list_elem_of_lookup_2 _ 15); vm_compute; reflexivity|].
  destruct (half_close_ends_download demo_routing half_closed (half_task 0) demo_routing_wf half_closed_reachable) as [_ Hx].
  - apply half_task_in. lia.
  - vm_compute. reflexivity.
  - apply (handler_front demo_routing demo_routing_wf half_closed); [exact half_closed_reachable|apply half_task_in; lia|].
    vm_compute. reflexivity.
  - apply (Hx half_closed (half_task 3)); [|apply rtc_refl|apply half_task_in; lia|vm_compute; reflexivity..].
    apply (list_elem_of_lookup_2 _ 15). vm_compute. reflexivity.
Defined.
