(* ===== verification/WorldShutdown.v ===== *)
(** * What the shutdown of a session ends, and what it leaves

    [accept_connection] ([server/src/lib.rs]) drops the future of
    [run_server_mux_session] when the shutdown arrives ([World.server_cancel]).
    From then on the server reads nothing, dials nothing and delivers nothing
    new; but the tasks of the streams that are open, and the writer loop they
    send through, have been spawned and go on: the other direction still works,
    and the client is told nothing. *)
From S2P Require Import Prelude Utf8 Text Net Frame GeoSite GeoIp Routing Sock Http Socks5 Task Relay.
From S2P Require Import Channel Registry Control Mux Client ClientProtocol ClientTraces Ssrf Server Flow Link Roles.
From S2P Require Import World Threads WorldOk WorldLinks WorldAcks Schedule EndToEnd WorldRelease.

#[local] Arguments payloads : simpl never.

Section World.
Context `{ChannelLib, Transport, UnicodeCase, RegexEngine, IpNets} (routing : RoutingConfig).
Hypothesis Hwf : wf_routing routing.

(** ** Steps after the end *)

Lemma ended_taken (w w' : world) :
  world_step routing w w' → w_ended w = true → taken (in_of w' AtServer) = taken (in_of w AtServer).
Proof.
  intros Hst He. apply (world_step_link _ _) with (s := AtServer) in Hst.
  assert (Hno : ¬ reader_ready w AtServer) by (intros (_ & Hx & _); congruence). by destruct Hst.
Qed.

(** A task that has changed was polled. *)
Lemma step_polled (w w' : world) (j : nat) (u : task) :
  world_step routing w w' → w_tasks w' !! j = Some u →
  w_tasks w !! j = Some u ∨ w_tasks w !! j = None ∨
  ∃ t, polled w j t ∧ fst (t_conf t) ≠ Return ∧ same_task t u.
Proof.
  intros Hst Hj.
  assert (Hnew : ∀ ts v, (ts ++ [v]) !! j = Some u → ts !! j = Some u ∨ j = length ts)
    by (by intros ts v [?|[? _]]%lookup_new; [left|right]).
  assert (Hgone : ∀ ts : list task, j = length ts → ts !! j = None) by (intros ts ->; by apply lookup_ge_None).
  destruct Hst as [who Hst]; destruct Hst as [w' Hst|id fe p Hge Hn Hin|s0 f c Hc Hh Hf|s0 f Hc Hh Hroom|s0 closes Hc Hf Hcs|s0 m rest e Hr Hw Hd|s0 r Hr|m rest f Hr Hw Hd
    |ev Hr Hev| |m rest f id dest Hr Hw Hd He|i t Hen Ho Hi Hf|m rest f act Hr Hw Hd He Hn|Hr|Hcan];
    try (by left); try (by destruct s0; left).
  - destruct Hst as [i t c k st a w' t' [Hi Hpl] Hcf Ha Hc|i t p k st [Hi Hpl] Hcf|i t cf [Hi Hpl] Hst|i t r Hi Hcf Hrx l].
    + apply (lookup_moved _ _ _ _ _ _ Hi) in Hj as [[-> ->]|[_ Hj]]; [right; right|by left]. exists t.
      pose proof (call_effect_sent _ _ _ _ _ _ (do_call_effect _ _ _ _ _ _ Hc)) as (_ & _ & rx & ack & Hm).
      rewrite Hm. split_and!; [by split|by rewrite Hcf|done].
    + apply Hnew in Hj as [Hj|Hj].
      * apply (lookup_moved _ _ _ _ _ _ Hi) in Hj as [[-> ->]|[_ Hj]]; [right; right|by left].
        exists t. split_and!; [by split|by rewrite Hcf|done].
      * right. left. apply Hgone. by rewrite Hj, length_insert.
    + apply (lookup_moved _ _ _ _ _ _ Hi) in Hj as [[-> ->]|[_ Hj]]; [right; right|by left].
      exists t. split_and!; [by split|by eapply step_not_return|done].
    + left. by destruct (t_side t).
  - apply Hnew in Hj as [?|?]; [by left|right; left; by apply Hgone].
  - apply Hnew in Hj as [?|?]; [by left|right; left; by apply Hgone].
Qed.

(** No opener starts, and none goes on. *)
Lemma openers_still (w w' : world) (j : nat) (u : task) :
  world_step routing w w' → session_inv routing w → release_inv w → w_ended w = true →
  w_tasks w' !! j = Some u → t_kind u = Opener → w_tasks w !! j = Some u.
Proof.
  intros Hst [Ht Ho _ _] Hr He Hj Hk.
  destruct (step_polled _ _ _ _ Hst Hj) as [?|[Hn|(t & [Ht' Hpl] & Hret & Hs)]]; [done|exfalso..].
  - pose proof (ended_taken _ _ Hst He) as Htk. apply world_step_tasks in Hst.
    assert (Hins : ∀ i t1 (t2 : task), <[i := t2]> (w_tasks w) !! j = Some t1 → False).
    { intros i t1 t2 Hx. apply lookup_lt_Some in Hx. rewrite length_insert in Hx.
      apply lookup_ge_None in Hn. lia. }
    destruct Hst as [E _ _|i t l cf rx ack Hi Hst Hl Hnsp E _ _|i t p k st Hi Hcf E _ _|id fe p Hge Hle Hin E _ _
      |m rest id dest Hop Hw Hd E Htaken _ _]; rewrite E in Hj.
    + congruence.
    + by eapply Hins.
    + apply lookup_new in Hj as [Hj|[_ ->]]; [by eapply Hins|].
      destruct (task_spawn _ Hwf t p k st (t_rx t) (ti_task _ _ Ht _ _ Hi) Hcf) as (_ & _ & [Hx|[Hx|(_ & Hx & _)]]); congruence.
    + apply lookup_new in Hj as [Hj|[_ ->]]; [congruence|]. unfold t_kind in Hk. cbn in Hk. by rewrite (handler_kind _ _ _ _ Hin) in Hk.
    + rewrite Htk in Htaken. apply (f_equal length) in Htaken. rewrite length_app in Htaken. cbn in Htaken. lia.
  - rewrite (same_kind _ _ Hs) in Hk. pose proof (oi_wait _ Ho j t Ht' Hk Hret) as Hop.
    destruct (ri_ended _ Hr He) as [_ Hend]. unfold w_ended in He. destruct (w_reader w) eqn:Hrd; [done| |by destruct Hpl].
    destruct (Hend eq_refl) as [? _]. congruence.
Qed.

Lemma ended_run (w w' : world) :
  rtc (world_step routing) w w' → reachable routing w → w_ended w = true →
  reachable routing w' ∧ w_ended w' = true ∧ taken (in_of w' AtServer) = taken (in_of w AtServer) ∧
  ∀ j u, w_tasks w' !! j = Some u → t_kind u = Opener → w_tasks w !! j = Some u.
Proof.
  intros Hrun. induction Hrun as [w|w w1 w' Hst _ IH]; intros Hr He; [done|].
  assert (He1 : w_ended w1 = true) by (unfold w_ended in *; by rewrite (ended_step routing _ _ Hst He)).
  destruct (IH ltac:(by eapply rtc_r) He1) as (Hr' & He' & Htk & Hop). split_and!; [done|done| |].
  - by rewrite Htk, (ended_taken _ _ Hst He).
  - intros j u Hj Hk. apply (openers_still w w1); [done|by apply session_inv_reach|by apply (release_inv_reach routing)|done|by apply Hop|done].
Qed.
End World.

(** ** Properties *)

Section Properties.
Context `{ChannelLib, Transport, UnicodeCase, RegexEngine, IpNets} (routing : RoutingConfig).

(** C36: The end of the server's session, by itself or by the shutdown, is the end
    of all uploads: whatever happens afterwards, the server dials nothing (its
    [handle_open] tasks stay as they are, and there is no new one), and what a
    write task of the server has written is a prefix of the payloads of its
    stream that had been read by then. *)
Theorem shutdown_ends_uploads (w w' : world) (t : task)
  (Hwf : wf_routing routing) (Hreach : reachable routing w) (Hended : w_ended w = true)
  (Hrun : rtc (world_step routing) w w') (Hin : t ∈ w_tasks w')
  (Hside : t_side t = AtServer) :
  (t_prog t = write_task →
   concat (writes_of (t_hist t)) `prefix_of` concat (payloads (t_id t) (taken (in_of w AtServer)))) ∧
  ((∃ dest, t_prog t = handle_open (t_id t) dest) → t ∈ w_tasks w).
Proof.
  destruct (ended_run routing Hwf w w' Hrun Hreach Hended) as (Hr' & _ & Htk & Hop).
  apply list_elem_of_lookup_1 in Hin as [j Hj]. pose proof (session_inv_reach routing Hwf w' Hr') as Hi. split.
  - intros Hprog. destruct (decide (writes_of (t_hist t) = [])) as [->|Hn]; [apply prefix_nil|].
    destruct (writer_prefix routing w' j t Hi Hj (writer_kind t Hprog) Hn) as (r & _ & Hp).
    rewrite Hside, Htk in Hp. by apply concat_prefix.
  - intros [dest Hp]. apply (list_elem_of_lookup_2 _ j), Hop; [done|]. unfold t_kind. rewrite Hside, Hp. apply opener_kind.
Qed.
End Properties.

(** ** A run *)

#[local] Existing Instances queue_channels one_message demo_case demo_engine demo_nets.

(** CONNECT and its stream task and write tasks; the shutdown; the application
    sends "more", the destination sends "late". *)
Definition before_shutdown : list act :=
  [AAccept 1; AHttp 0 demo_request; AAnswer 0 AOk; AAnswer 0 AOk; AAnswer 0 AOk; AAnswer 0 AOk;
   ATake AtClient; AWrite AtClient; ARead AtServer; AAnswer 1 AOk; AAnswer 1 AOk; AAnswer 1 AOk; AGo 1; AOpened;
   ATake AtServer; AWrite AtServer; ARead AtClient; AAnswer 0 (AFlag true); AAnswer 0 AOk; AGo 0; AGo 0; AGo 2; ACancel].

Definition after_shutdown : list act :=
  [AAnswer 0 (ABytes (bs "more")); AAnswer 0 AOk; ATake AtClient; AWrite AtClient;
   AGo 2; AAnswer 2 (ABytes (bs "late")); AAnswer 2 AOk; ATake AtServer; AWrite AtServer; ARead AtClient; AResume AtClient;
   AGo 3; AAnswer 3 (ABytes (bs "late")); AAnswer 3 AOk; AGo 4].

Definition cancelled_world : world := after demo_routing before_shutdown.
Definition left_world : world := after demo_routing (before_shutdown ++ after_shutdown).
Definition left_task (j : nat) : task := task_after demo_routing (before_shutdown ++ after_shutdown) j.

Lemma before_ok : Forall act_ok before_shutdown.
Proof. unfold before_shutdown. repeat (apply Forall_cons; split; [first [exact I|exact demo_request_possible]|]). constructor. Qed.

Lemma cancelled_reachable : reachable demo_routing cancelled_world.
Proof. apply after_reachable; [exact before_ok|vm_compute; reflexivity]. Qed.

Lemma left_run : rtc (world_step demo_routing) cancelled_world left_world.
Proof. apply after_runs; [unfold after_shutdown; repeat (constructor; [exact I|]); constructor|vm_compute; reflexivity]. Qed.

Lemma left_task_in (j : nat) : j < 5 → left_task j ∈ w_tasks left_world.
Proof. apply task_after_in. vm_compute. reflexivity. Qed.

(** The shutdown of the server leaves a session half open.  In this run it
    arrives while a stream is open over which nothing has been sent.  After it
    the destination's bytes still reach the application; the application's
    bytes are accepted and sent by the client, but stay unread for ever; the
    stream stays registered at the server; and the client's session, which is
    told nothing, goes on. *)
Theorem shutdown_leaves_streams :
  ∃ w w' h st up down, reachable demo_routing w ∧ w_reader w = Cancelled ∧
    payloads 1 (sent w AtClient) = [] ∧ payloads 1 (sent w AtServer) = [] ∧
    rtc (world_step demo_routing) w w' ∧
    h ∈ w_tasks w' ∧ st ∈ w_tasks w' ∧ up ∈ w_tasks w' ∧ down ∈ w_tasks w' ∧
    t_id h = 1%N ∧ t_id st = 1%N ∧ t_id up = 1%N ∧ t_id down = 1%N ∧
    (t_side h, t_kind h) = (AtClient, Handler) ∧ (t_side st, t_kind st) = (AtServer, Streamer) ∧
    (t_side up, t_kind up) = (AtServer, Writer) ∧ (t_side down, t_kind down) = (AtClient, Writer) ∧
    reads_of (t_hist st) = bs "late" ∧ writes_of (t_hist down) = [bs "late"] ∧
    reads_of (t_hist h) = bs "more" ∧ wire (in_of w' AtServer) = [encode (Data 1 (bs "more"))] ∧
    writes_of (t_hist up) = [] ∧ inner (reg (in_of w' AtServer)) !! 1%N = t_rx up ∧ t_rx up ≠ None ∧
    stopped (w_acks w') = false.
Proof.
  exists cancelled_world, left_world, (left_task 0), (left_task 2), (left_task 4), (left_task 3).
  split; [exact cancelled_reachable|]. do 3 (split; [vm_compute; reflexivity|]). split; [exact left_run|].
  do 4 (split; [apply left_task_in; lia|]). split_and!; try (vm_compute; reflexivity). vm_compute. discriminate.
Qed.

(** ** Witness *)

Lemma shutdown_ends_uploads_witness :
  writes_of (t_hist (left_task 4)) = [] ∧
  concat (writes_of (t_hist (left_task 4))) `prefix_of` concat (payloads (t_id (left_task 4)) (taken (in_of cancelled_world AtServer))) ∧
  left_task 1 ∈ w_tasks cancelled_world.
Proof.
  split; [vm_compute; reflexivity|]. split.
  - apply (shutdown_ends_uploads demo_routing cancelled_world left_world (left_task 4) demo_routing_wf cancelled_reachable);
      [vm_compute; reflexivity|exact left_run|apply left_task_in; lia|vm_compute; reflexivity|vm_compute; reflexivity].
  - apply (shutdown_ends_uploads demo_routing cancelled_world left_world (left_task 1) demo_routing_wf cancelled_reachable);
      [vm_compute; reflexivity|exact left_run|apply left_task_in; lia|vm_compute; reflexivity|].
    exists (bs "example.com:443"). vm_compute. reflexivity.
Defined.
