(* ===== verification/System.v ===== *)
(** * The running client: accept loops, keeper and its sessions

    [run_proxy_resilient] ([client/src/lib.rs]) as a whole: the accept loops
    number the connections and start their handlers ([Proxy]); the keeper logs
    in, publishes a session and closes it when it is over ([Proxy]); a handler
    that wants the tunnel takes the session that is in the shared slot at that
    moment, and stays with it.  Each session, with its server, is a [World];
    there can be several at a time, since the handlers of an old session go on
    after the keeper has closed it. *)
From S2P Require Import Prelude Utf8 Text Net Frame GeoSite GeoIp Routing Sock Http Socks5 Task Relay.
From S2P Require Import Channel Registry Control Mux Client ClientProtocol ClientTraces Ssrf Server Flow Link Roles.
From S2P Require Import Proxy World Threads WorldOk WorldLinks WorldAcks Schedule EndToEnd WorldSends.

Section System.
Context `{ChannelLib, Transport, UnicodeCase, RegexEngine, IpNets} (routing : RoutingConfig).

(** The keeper, the accept loops, the tasks of connections that use no session
    (yet), every session there has been, in order, and the messages that wait in
    the [disc_rx] of the session in the slot. *)
Record system := {
  s_keeper : keeper;
  s_proxy : proxy;
  s_local : list task;
  s_sessions : list world;
  s_signals : nat
}.

Definition system_init (socks : bool) : system :=
  {| s_keeper := keeper_init; s_proxy := proxy_init socks; s_local := []; s_sessions := [];
     s_signals := 0 |}.

(** ** What an accept starts *)

Definition handler_of (f : front) (id : N) : prog :=
  match f with
  | HttpFront => handle_local_connection_resilient routing id
  | SocksFront => handle_socks_connection_resilient routing id
  end.

Definition spawned_by (e : accept_event) (id : N) : list task :=
  match e with
  | HttpAccepted => [new_task AtClient id (handler_of HttpFront id) None]
  | SocksAccepted => [new_task AtClient id (handler_of SocksFront id) None]
  | HttpFailed | SocksFailed | ProxyShutdown => []
  end.

(** ** Connections without a session *)

(** Calls that concern no session. *)
Definition outside (c : call) : bool :=
  match c with
  | ParseHttp | ParseSocks | Connect _ | TcpRead | TcpWrite _ | UpRead | UpWrite _ => true
  | _ => false
  end.

Inductive local_step (slot : option nat) (ts : list task) : list task → Prop :=
(** a call returns; the slot may be found empty *)
| ls_call j t c k st a :
    ts !! j = Some t → t_conf t = (Do c k, st) → env_answer c a →
    outside c = true ∨ (c = Snapshot ∧ a = AErr ∧ slot = None) →
    local_step slot ts (<[j := moved t (LCall c a) (k a, st)]> ts)
| ls_spawn j t p k st :
    ts !! j = Some t → t_conf t = (Spawn p k, st) →
    local_step slot ts (<[j := moved t (LSpawn p) (k, st)]> ts ++ [new_task AtClient (t_id t) p None])
| ls_tau j t cf :
    ts !! j = Some t → step (t_conf t) LTau cf →
    local_step slot ts (<[j := moved t LTau cf]> ts).

(** The connection's task goes on in the session. *)
Definition join_session (t : task) (w : world) : world := with_tasks w (w_tasks w ++ [t]).

(** ** The keeper and its sessions *)

(** The two tasks of a session that the keeper hears of: the writer loop and
    the reader of the client. *)
Definition writer_over (w : world) : bool := is_closed (ep_out (w_client w)).
Definition reader_over (w : world) : bool := stopped (w_acks w).

(** A session is alive while both are running. *)
Definition alive (w : world) : bool := negb (writer_over w) && negb (reader_over w).

(** [disc_tx.try_send(())] of a task that ends in the step from [w] to [w'],
    into a channel of two. *)
Definition try_signal (n : nat) : nat := if n <? 2 then S n else n.

Definition ends_now (before after : bool) : bool := negb before && after.

Definition told (w w' : world) (n : nat) : nat :=
  let n1 := if ends_now (writer_over w) (writer_over w') then try_signal n else n in
  if ends_now (reader_over w) (reader_over w') then try_signal n1 else n1.

(** Only the session in the slot has its [disc_rx] waited on; that of an older
    session is gone. *)
Definition signals_after (s : system) (g : nat) (w w' : world) : nat :=
  if decide (shared (s_keeper s) = Some g) then told w w' (s_signals s) else s_signals s.

(** When the keeper's [select!] can yield the event. *)
Definition keeper_may (s : system) (e : keeper_event) : Prop :=
  match e with
  | Disconnected => 0 < s_signals s
  | Shutdown => keeper_told (s_proxy s) = true
  | _ => True
  end.

(** A session starts; [MuxConn::close] on the one in the slot. *)
Definition keeper_effect (k : keeper) (e : keeper_event) (ws : list world) : list world :=
  match at_await k, e with
  | SendHello _, HelloSent true => ws ++ [world_init]
  | SessionUp, Disconnected | SessionUp, Shutdown =>
      match shared k with Some g => alter client_close g ws | None => ws end
  | _, _ => ws
  end.

(** The channel of a session is new with it, and gone when the keeper goes on. *)
Definition keeper_signals (k : keeper) (e : keeper_event) (n : nat) : nat :=
  match at_await k, e with
  | SendHello _, HelloSent true | SessionUp, Disconnected | SessionUp, Shutdown => 0
  | _, _ => n
  end.

(** A step of the keeper. *)
Inductive keeper_move (s : system) : system → Prop :=
| keeper_goes e k :
    keeper_step (s_keeper s) e = Some k → keeper_may s e →
    keeper_move s {| s_keeper := k; s_proxy := s_proxy s; s_local := s_local s;
                     s_sessions := keeper_effect (s_keeper s) e (s_sessions s);
                     s_signals := keeper_signals (s_keeper s) e (s_signals s) |}.

(** The slot's [MuxConn] has a [frame_tx]: as long as it is there the writer
    loop ends only with a frame in hand. *)
Definition slot_sends (s : system) (g : nat) (w w' : world) : Prop :=
  shared (s_keeper s) = Some g → ep_hand (w_client w) = None →
  is_closed (ep_out (w_client w')) = is_closed (ep_out (w_client w)).

Inductive sys_step (s : system) : system → Prop :=
| sy_accept e p :
    proxy_step (s_proxy s) e = Some p →
    sys_step s {| s_keeper := s_keeper s; s_proxy := p;
                  s_local := s_local s ++ spawned_by e (next_id (s_proxy s)); s_sessions := s_sessions s;
                  s_signals := s_signals s |}
| sy_local ts :
    local_step (shared (s_keeper s)) (s_local s) ts →
    sys_step s {| s_keeper := s_keeper s; s_proxy := s_proxy s; s_local := ts; s_sessions := s_sessions s;
                  s_signals := s_signals s |}
(** [shared_mux.lock().unwrap().clone()] finds a session *)
| sy_join j t k st g w :
    s_local s !! j = Some t → t_conf t = (Do Snapshot k, st) →
    shared (s_keeper s) = Some g → s_sessions s !! g = Some w →
    sys_step s {| s_keeper := s_keeper s; s_proxy := s_proxy s; s_local := delete j (s_local s);
                  s_sessions := <[g := join_session (moved t (LCall Snapshot AOk) (k AOk, st)) w]> (s_sessions s);
                  s_signals := s_signals s |}
| sy_session g w w' :
    s_sessions s !! g = Some w → moves routing w Running w' → slot_sends s g w w' →
    sys_step s {| s_keeper := s_keeper s; s_proxy := s_proxy s; s_local := s_local s;
                  s_sessions := <[g := w']> (s_sessions s); s_signals := signals_after s g w w' |}
| sy_keeper s' : keeper_move s s' → sys_step s s'.

Definition sys_reachable (socks : bool) (s : system) : Prop := rtc sys_step (system_init socks) s.

(** Fewer than 2^32 connections so far: the ids have not wrapped around. *)
Definition few (s : system) : Prop := (N.of_nat (length (spawned (s_proxy s))) < 4294967296)%N.

(** ** Where the connections are *)

(** The handlers of a pool, with their stream ids. *)
Definition ids (ts : list task) : list (N * prog) :=
  map (λ t, (t_id t, t_prog t)) (filter (λ t, t_kind t = Handler) ts).

Definition accepted (p : proxy) : list (N * prog) := map (λ '(f, i), (i, handler_of f i)) (spawned p).

Definition conns (s : system) : list (N * prog) := ids (s_local s) ++ concat (map (λ w, ids (w_tasks w)) (s_sessions s)).

(** ** Lists of ids *)

#[local] Arguments ids : simpl never.

Lemma ids_app (ts ts' : list task) : ids (ts ++ ts') = ids ts ++ ids ts'.
Proof. unfold ids. by rewrite filter_app, map_app. Qed.

Lemma ids_one (t : task) : ids [t] = if decide (t_kind t = Handler) then [(t_id t, t_prog t)] else [].
Proof. unfold ids. rewrite filter_cons. by case_decide. Qed.

Lemma ids_same (ts : list task) (j : nat) (t t' : task) :
  ts !! j = Some t → same_task t t' → ids (<[j := t']> ts) = ids ts.
Proof.
  intros Hj Hs. rewrite insert_take_drop by (by eapply lookup_lt_Some).
  rewrite <- (take_drop_middle ts j t Hj) at 3. rewrite (cons_middle t'), (cons_middle t), !ids_app, !ids_one.
  rewrite (same_kind _ _ Hs). by destruct Hs as (_ & -> & ->).
Qed.

Lemma ids_delete (ts : list task) (j : nat) (t : task) :
  ts !! j = Some t → ids ts ≡ₚ ids [t] ++ ids (delete j ts).
Proof.
  intros Hj. rewrite <- ids_app. unfold ids. by rewrite (delete_Permutation ts j t Hj) at 1.
Qed.

Lemma ids_in (ts : list task) (j : nat) (t : task) :
  ts !! j = Some t → t_kind t = Handler → (t_id t, t_prog t) ∈ ids ts.
Proof.
  intros Hj Hk. unfold ids. apply list_elem_of_fmap. exists t. split; [done|]. apply list_elem_of_filter.
  split; [done|]. by eapply list_elem_of_lookup_2.
Qed.

Lemma sessions_insert (ws : list world) (g : nat) (w w' : world) (new : list (N * prog)) :
  ws !! g = Some w → ids (w_tasks w') = ids (w_tasks w) ++ new →
  concat (map (λ w, ids (w_tasks w)) (<[g := w']> ws)) ≡ₚ new ++ concat (map (λ w, ids (w_tasks w)) ws).
Proof.
  intros Hg Hn. rewrite insert_take_drop by (by eapply lookup_lt_Some).
  rewrite <- (take_drop_middle ws g w Hg) at 3. rewrite !map_app, !concat_app. cbn. rewrite Hn. solve_Permutation.
Qed.

(** A session's own steps start no handler. *)
Lemma running_ids (w w' : world) :
  wf_routing routing → moves routing w Running w' → tasks_inv routing w → ids (w_tasks w') = ids (w_tasks w).
Proof.
  intros Hwf Hst Hi. inversion Hst; subst; try done; try (by destruct s).
  - match goal with Ht : task_step _ _ |- _ => destruct Ht as [j t c k st a w1 t' [Hj _] Hcf Ha Hc|j t p k st [Hj _] Hcf|j t cf [Hj _] Hs|j t r Hj Hcf Hrx l] end.
    + apply do_call_effect, call_effect_sent in Hc as (_ & _ & rx & ack & Hm). cbn. rewrite Hm. by eapply ids_same.
    + cbn [w_tasks with_tasks]. rewrite ids_app, ids_one, (ids_same _ _ t) by done.
      destruct (task_spawn _ Hwf t p k st (t_rx t) (ti_task _ _ Hi _ _ Hj) Hcf) as (_ & _ & [-> | [-> | (_ & -> & _)]]);
        by rewrite app_nil_r.
    + by eapply ids_same.
    + by destruct (t_side t).
  - cbn [w_tasks server_open]. rewrite ids_app, ids_one. unfold t_kind. cbn [t_side t_prog new_task].
    by rewrite opener_kind, app_nil_r.
Qed.

(** ** Joining a session *)

(** What a connection does before it uses a session. *)
Definition quiet (l : label) : Prop :=
  match l with
  | LCall c a => (outside c = true ∨ c = Snapshot) ∧ env_answer c a
  | LSpawn _ => False
  | LTau => True
  end.

Lemma asking_quiet (fe : front_end) (ls : list label) (q : phase) :
  accepts (local_protocol fe) Start ls q → Forall env_label ls →
  match q with Start | Asking _ => Forall quiet ls | _ => True end.
Proof.
  revert q. induction ls as [|l ls IH] using rev_ind; intros q Ha He; [by destruct q|].
  apply accepts_snoc in Ha as (q1 & Ha & Hl). apply Forall_app in He as [He Hel]. rewrite Forall_singleton in Hel.
  specialize (IH q1 Ha He).
  assert (Hgo : match q1 with Start | Asking _ => Forall quiet ls | _ => True end → quiet l →
    match q1 with Start | Asking _ => True | _ => False end → Forall quiet (ls ++ [l])).
  { intros Hx Hy Hz. apply Forall_app. split; [by destruct q1|]. by constructor. }
  destruct l as [c a|p|]; cbn [advance p_call p_spawn local_protocol] in Hl.
  - destruct q1 as [|pl|pl|pl s|pl s|]; [|..].
    + destruct q; try done; apply Hgo; try done; destruct c; try done; (split; [by left|exact Hel]).
    + destruct c; try done. cbn in Hl. destruct (is_ok a); by simplify_eq.
    + destruct c; try done. cbn in Hl. unfold expect in Hl. case_match; by simplify_eq.
    + apply conn_call_mux in Hl as (s' & _ & ->). done.
    + apply conn_call_direct in Hl as (s' & _ & ->). done.
    + by destruct c.
  - inversion Hl; subst; done.
  - subst q1. destruct q; try done; by apply Hgo.
Qed.

(** Nothing else is behind a task that asks for the session. *)
Lemma asker (t : task) (k : answer → prog) (st : list (prog * prog)) :
  wf_routing routing → task_ok routing t → t_side t = AtClient → t_conf t = (Do Snapshot k, st) →
  Forall quiet (t_hist t) ∧ t_kind t = Handler ∧ (t_id t ≤ U32_MAX)%N ∧ ∃ fe, (fe, t_prog t) ∈ handlers routing (t_id t).
Proof.
  intros Hwf Hok Hside Hcf. assert (Hk : t_kind t = Handler).
  { destruct (t_kind t) eqn:Hk; [done|..].
    - destruct (writer_phase_of routing t Hok Hk) as (_ & _ & _ & Hx & _). destruct (Hx _ _ _ Hcf) as [|[d ?]]; done.
    - destruct (copier_phase_of routing t Hok Hk) as (_ & _ & _ & Hx & _). destruct (Hx _ _ _ Hcf) as [|[d ?]]; done.
    - pose proof (kind_side_of t AtServer ltac:(by rewrite Hk)). congruence.
    - pose proof (kind_side_of t AtServer ltac:(by rewrite Hk)). congruence. }
  pose proof (tk_role _ _ Hok) as Hr. unfold role_ok in Hr. rewrite Hk in Hr. destruct Hr as [Hid Hfe].
  split_and!; [|done|done|done].
  destruct (handler_phase _ Hwf t Hok Hk) as (fe & _ & Hin & Hp & _).
  pose proof (tk_run _ _ Hok) as Hs. rewrite Hcf in Hs.
  destruct (refines_call _ _ _ (handlers_refine routing _ _ _ Hwf Hin) _ _ _ _ _ Hs Hp (handler_answer _ _ _ _ Snapshot Hin))
    as (q & q' & Ha & Hq).
  pose proof (asking_quiet _ _ _ Ha (tk_env _ _ Hok)) as Hx. destruct q as [| |?|? s|? s|]; try done.
  - apply (conn_call_mux fe) in Hq as (s' & Hq & _). by destruct s as [| | | | | | | | |[]| | |[]].
  - apply (conn_call_direct fe) in Hq as (s' & Hq & _). by destruct s as [| | | |[]|].
Qed.

(** The steps it has made alone, it could have made in the session. *)
Lemma replay (w : world) (id : N) (fe : front_end) (p : prog) (ls : list label) (cf : config) :
  opening_inv w → fresh_id w id → (id ≤ U32_MAX)%N → (fe, p) ∈ handlers routing id →
  steps (p, []) ls cf → Forall quiet ls →
  rtc (world_step routing) w
    (join_session {| t_side := AtClient; t_id := id; t_prog := p; t_conf := cf; t_rx := None; t_ack := None; t_hist := ls |} w).
Proof.
  intros Ho Hf Hid Hin Hs Hq. revert cf Hs. induction ls as [|l ls IH] using rev_ind; intros cf Hs.
  - inversion Hs; subst. apply rtc_once. exists Accepting. by apply (ws_accept routing w id fe p).
  - apply Forall_app in Hq as [Hq Hl]. rewrite Forall_singleton in Hl.
    apply steps_snoc_inv in Hs as (cf1 & Hs & Hst). eapply rtc_r; [by apply IH|]. exists Running. apply ws_task.
    set (t1 := {| t_conf := cf1 |}). set (w1 := join_session t1 w).
    assert (Hj : polled w1 (length (w_tasks w)) t1).
    { split; [apply list_lookup_middle; done|]. intros [_ Hop]. destruct (oi_fresh _ Ho _ Hop) as (u & Hu & _).
      apply lookup_lt_Some in Hu. lia. }
    assert (E : ∀ l cf, join_session (moved t1 l cf) w = with_tasks w1 (<[length (w_tasks w) := moved t1 l cf]> (w_tasks w1))).
    { intros l0 cf0. unfold w1, join_session. cbn [w_tasks with_tasks]. by rewrite insert_app_r_alt, Nat.sub_diag by done. }
    change (task_step w1 (join_session (moved t1 l cf) w)). rewrite E.
    destruct Hst as [c k a st|p' k st|b k st|b k st|b k st]; cbn in Hl; [|done|..].
    + destruct Hl as [Hc Ha]. eapply (ts_call w1 _ t1 c k st a w1 t1); [done|done|done|].
      destruct Hc as [Hc| ->]; [by destruct c|done].
    + apply ts_tau; [done|constructor].
    + apply ts_tau; [done|constructor].
    + apply ts_tau; [done|constructor].
Qed.

(** ** The invariant *)

Record sys_inv (s : system) : Prop := {
  sv_worlds g w : s_sessions s !! g = Some w → reachable routing w;
  sv_local j t : s_local s !! j = Some t →
    task_ok routing t ∧ t_side t = AtClient ∧ t_rx t = None ∧ t_ack t = None;
  sv_keeper : keeper_ok (s_keeper s);
  sv_count : next_session (s_keeper s) = length (s_sessions s);
  sv_ids : ids_ok (s_proxy s);
  sv_conns : conns s ≡ₚ accepted (s_proxy s)
}.

Lemma sys_inv_init (socks : bool) : sys_inv (system_init socks).
Proof. by split; try apply ids_ok_init. Qed.

Lemma accepted_ids (p : proxy) : map fst (accepted p) = map snd (spawned p).
Proof. unfold accepted. rewrite map_map. apply map_ext. by intros [f i]. Qed.

Lemma conns_distinct (s : system) : sys_inv s → few s → NoDup (map fst (conns s)).
Proof.
  intros Hi Hf. rewrite (Permutation_map fst (sv_conns _ Hi)), accepted_ids. by apply ids_distinct; [apply Hi|].
Qed.

Lemma elem_of_concat {A : Type} (x : A) (l : list A) (ls : list (list A)) : x ∈ l → l ∈ ls → x ∈ concat ls.
Proof. rewrite !list_elem_of_In. intros Hx Hl. apply in_concat. by exists l. Qed.

Lemma session_conns (s : system) (g : nat) (w : world) (i : N * prog) :
  s_sessions s !! g = Some w → i ∈ ids (w_tasks w) → i ∈ concat (map (λ w, ids (w_tasks w)) (s_sessions s)).
Proof.
  intros Hg Hi. apply (elem_of_concat _ _ _ Hi), list_elem_of_fmap. exists w. split; [done|]. by eapply list_elem_of_lookup_2.
Qed.

(** A connection is in one place only. *)
Lemma one_session (s : system) (g g' : nat) (w w' : world) (i : N) :
  NoDup (map fst (conns s)) → s_sessions s !! g = Some w → s_sessions s !! g' = Some w' →
  i ∈ map fst (ids (w_tasks w)) → i ∈ map fst (ids (w_tasks w')) → g = g'.
Proof.
  unfold conns. rewrite map_app. intros (_ & _ & Hn)%NoDup_app Hg Hg' Hi Hi'. destruct (decide (g = g')) as [?|Hne]; [done|exfalso].
  assert (Hp : s_sessions s ≡ₚ w :: delete g (s_sessions s)) by (by apply delete_Permutation).
  assert (Hin : w' ∈ delete g (s_sessions s)).
  { assert (Hx : ∃ j, delete g (s_sessions s) !! j = Some w'); [|destruct Hx; by eapply list_elem_of_lookup_2].
    destruct (decide (g' < g)); [exists g'; by rewrite list_lookup_delete_lt|].
    exists (pred g'). rewrite list_lookup_delete_ge by lia. by replace (S (pred g')) with g' by lia. }
  assert (Hn' : NoDup (map fst (concat (map (λ w, ids (w_tasks w)) (w :: delete g (s_sessions s)))))) by (by rewrite <- Hp).
  cbn in Hn'. rewrite map_app in Hn'. apply NoDup_app in Hn' as (_ & Hx & _). apply (Hx i Hi).
  apply list_elem_of_fmap in Hi' as (x & -> & Hi'). apply list_elem_of_fmap. exists x. split; [done|].
  apply (elem_of_concat _ _ _ Hi'), list_elem_of_fmap. by exists w'.
Qed.

(** ** Every step keeps it *)

Section Steps.
Hypothesis Hwf : wf_routing routing.

Lemma proxy_spawned (p p' : proxy) (e : accept_event) :
  proxy_step p e = Some p' → accepted p' = ids (spawned_by e (next_id p)) ++ accepted p.
Proof. destruct e; cbn; case_match; intros [= <-]; done. Qed.

Lemma spawned_local (e : accept_event) (id : N) (t : task) :
  (id ≤ U32_MAX)%N → t ∈ spawned_by e id → task_ok routing t ∧ t_side t = AtClient ∧ t_rx t = None ∧ t_ack t = None.
Proof.
  intros Hid Hin. assert (Hgo : ∀ fe p, (fe, p) ∈ handlers routing id → t = new_task AtClient id p None →
    task_ok routing t ∧ t_side t = AtClient ∧ t_rx t = None ∧ t_ack t = None).
  { intros fe p Hp ->. split; [|done]. apply task_ok_new. unfold role_ok, t_kind. cbn.
    rewrite (handler_kind _ _ _ _ Hp). eauto. }
  destruct e; cbn [spawned_by] in Hin; try (by apply elem_of_nil in Hin); apply list_elem_of_singleton in Hin;
    (eapply Hgo; [|exact Hin]); unfold handlers; rewrite !elem_of_cons; eauto.
Qed.

Lemma accept_inv (s : system) (e : accept_event) (p : proxy) :
  let s' := {| s_keeper := s_keeper s; s_proxy := p;
               s_local := s_local s ++ spawned_by e (next_id (s_proxy s)); s_sessions := s_sessions s;
               s_signals := s_signals s |} in
  sys_inv s → proxy_step (s_proxy s) e = Some p → few s' → sys_inv s'.
Proof.
  intros s' [Hw Hl Hk Hc Hi Hcs] Hst Hf. pose proof (ids_ok_step _ _ _ Hi Hst) as Hi'. pose proof (proxy_spawned _ _ _ Hst) as Hsp.
  split; try done; cbn.
  - intros j t [?|[_ Hj]]%lookup_app_Some; [by eapply Hl|]. apply list_elem_of_lookup_2 in Hj.
    eapply spawned_local; [|exact Hj]. destruct (ids_distinct _ Hi' Hf) as [_ Hb]. rewrite <- accepted_ids, Hsp, map_app in Hb.
    rewrite Forall_forall in Hb. destruct (Hb (next_id (s_proxy s))); [|done].
    apply elem_of_app. left. destruct e; try (by apply elem_of_nil in Hj); by left.
  - unfold conns in *. cbn. rewrite ids_app, Hsp, <- Hcs. solve_Permutation.
Qed.

Lemma local_ids (slot : option nat) (ts ts' : list task) :
  local_step slot ts ts' → (∀ j t, ts !! j = Some t → task_ok routing t ∧ t_side t = AtClient ∧ t_rx t = None ∧ t_ack t = None) →
  ids ts' = ids ts ∧ ∀ j t, ts' !! j = Some t → task_ok routing t ∧ t_side t = AtClient ∧ t_rx t = None ∧ t_ack t = None.
Proof.
  intros Hst Hl.
  assert (Hmove : ∀ j t l cf, ts !! j = Some t → step (t_conf t) l cf → env_label l →
    ids (<[j := moved t l cf]> ts) = ids ts ∧
    ∀ i u, <[j := moved t l cf]> ts !! i = Some u → task_ok routing u ∧ t_side u = AtClient ∧ t_rx u = None ∧ t_ack u = None).
  { intros j t l cf Hj Hs He. split; [by eapply ids_same|].
    intros i u [[-> ->]|[_ ?]]%(lookup_moved _ _ _ _ _ _ Hj); [|by eapply Hl]. destruct (Hl j t Hj) as (Hok & ?).
    split; [|done]. by apply (task_ok_moved _ t (t_rx t) (t_ack t)). }
  destruct Hst as [j t c k st a Hj Hcf Ha _|j t p k st Hj Hcf|j t cf Hj Hs].
  - apply Hmove; [done|rewrite Hcf; constructor|done].
  - destruct (Hmove j t (LSpawn p) (k, st) Hj ltac:(rewrite Hcf; constructor) I) as [Hids Hall].
    destruct (Hl j t Hj) as (Hok & Hside & _). pose proof (task_spawn _ Hwf t p k st None Hok Hcf) as (_ & Hok' & Hkind).
    rewrite Hside in Hok', Hkind. split.
    + rewrite ids_app, Hids, ids_one. destruct Hkind as [-> | [-> | (_ & -> & _)]]; by rewrite app_nil_r.
    + intros i u [Hu|[_ ->]]%lookup_new; [by eapply Hall|done].
  - by apply Hmove.
Qed.

Lemma local_inv (s : system) (ts : list task) :
  sys_inv s → local_step (shared (s_keeper s)) (s_local s) ts →
  sys_inv {| s_keeper := s_keeper s; s_proxy := s_proxy s; s_local := ts; s_sessions := s_sessions s;
             s_signals := s_signals s |}.
Proof.
  intros [Hw Hl Hk Hc Hi Hcs] Hst. destruct (local_ids _ _ _ Hst Hl) as [Hids Hall].
  split; try done. unfold conns in *. cbn. by rewrite Hids.
Qed.

(** The task found the session: the session goes on as if it had started there. *)
Lemma join_reachable (s : system) (j g : nat) (t : task) (k : answer → prog) (st : list (prog * prog)) (w : world) :
  sys_inv s → few s → s_local s !! j = Some t → t_conf t = (Do Snapshot k, st) → s_sessions s !! g = Some w →
  reachable routing (join_session (moved t (LCall Snapshot AOk) (k AOk, st)) w) ∧ t_kind t = Handler.
Proof.
  intros Hi Hf Hj Hcf Hg. destruct (sv_local _ Hi j t Hj) as (Hok & Hside & Hrx & Hack).
  destruct (asker t k st Hwf Hok Hside Hcf) as (Hq & Hk & Hid & fe & Hin). split; [|done].
  pose proof (sv_worlds _ Hi g w Hg) as Hr. pose proof (session_inv_reach routing Hwf w Hr) as Hw.
  assert (Hfresh : fresh_id w (t_id t)).
  { intros i u Hu Hs Hid'. destruct (t_kind u) eqn:Hku.
    - exfalso. pose proof (conns_distinct _ Hi Hf) as Hn. unfold conns in Hn. rewrite map_app in Hn.
      apply NoDup_app in Hn as (_ & Hn & _). apply (Hn (t_id t)); apply list_elem_of_fmap.
      + exists (t_id t, t_prog t). split; [done|]. by eapply ids_in.
      + exists (t_id u, t_prog u). split; [done|]. eapply session_conns; [exact Hg|]. by eapply ids_in.
    - pose proof (tk_role _ _ (ti_task _ _ (si_tasks _ _ Hw) _ _ Hu)) as Hro. unfold role_ok in Hro. rewrite Hku in Hro. by left.
    - pose proof (tk_role _ _ (ti_task _ _ (si_tasks _ _ Hw) _ _ Hu)) as Hro. unfold role_ok in Hro. rewrite Hku in Hro. by right.
    - pose proof (kind_side_of u AtServer ltac:(by rewrite Hku)). congruence.
    - pose proof (kind_side_of u AtServer ltac:(by rewrite Hku)). congruence. }
  unfold reachable. etrans; [exact Hr|].
  assert (E : moved t (LCall Snapshot AOk) (k AOk, st) =
    {| t_side := AtClient; t_id := t_id t; t_prog := t_prog t; t_conf := (k AOk, st); t_rx := None; t_ack := None;
       t_hist := t_hist t ++ [LCall Snapshot AOk] |}) by (unfold moved; by rewrite Hside, Hrx, Hack).
  rewrite E. eapply replay; [apply Hw|done|done|exact Hin| |].
  - eapply steps_snoc; [apply Hok|]. rewrite Hcf. constructor.
  - apply Forall_app. split; [done|]. apply Forall_singleton. split; [by right|done].
Qed.

Lemma worlds_insert (ws : list world) (g : nat) (w' : world) :
  (∀ i w, ws !! i = Some w → reachable routing w) → reachable routing w' →
  ∀ i w, <[g := w']> ws !! i = Some w → reachable routing w.
Proof.
  intros Hw Hr i w Hi. destruct (decide (i = g)) as [->|Hn]; [|rewrite list_lookup_insert_ne in Hi by done; by eapply Hw].
  destruct (decide (g < length ws)) as [Hlt|Hge]; [rewrite list_lookup_insert_eq in Hi by done; by injection Hi as <-|].
  rewrite list_insert_ge in Hi by lia. by eapply Hw.
Qed.

Lemma join_inv (s : system) (j g : nat) (t : task) (k : answer → prog) (st : list (prog * prog)) (w : world) :
  sys_inv s → few s → s_local s !! j = Some t → t_conf t = (Do Snapshot k, st) → s_sessions s !! g = Some w →
  sys_inv {| s_keeper := s_keeper s; s_proxy := s_proxy s; s_local := delete j (s_local s);
             s_sessions := <[g := join_session (moved t (LCall Snapshot AOk) (k AOk, st)) w]> (s_sessions s);
             s_signals := s_signals s |}.
Proof.
  intros Hi Hf Hj Hcf Hg. destruct (join_reachable s j g t k st w Hi Hf Hj Hcf Hg) as [Hr Hk].
  destruct Hi as [Hw Hl Hkp Hc Hids Hcs]. split; try done; cbn [s_local s_sessions s_keeper s_proxy].
  - by apply worlds_insert.
  - intros i u Hu. apply list_elem_of_lookup_2 in Hu.
    assert (Hin : u ∈ s_local s) by (rewrite (delete_Permutation _ _ _ Hj); by right).
    apply list_elem_of_lookup_1 in Hin as [i' Hi']. by eapply Hl.
  - by rewrite length_insert.
  - rewrite <- Hcs. unfold conns. cbn [s_local s_sessions].
    rewrite (sessions_insert _ _ _ _ (ids [moved t (LCall Snapshot AOk) (k AOk, st)]) Hg) by (by cbn; rewrite ids_app).
    rewrite (ids_delete _ _ _ Hj), !ids_one. change (t_kind (moved t _ _)) with (t_kind t). rewrite Hk. cbn. solve_Permutation.
Qed.

Lemma session_step_inv (s : system) (g n : nat) (w w' : world) :
  sys_inv s → s_sessions s !! g = Some w → world_step routing w w' → ids (w_tasks w') = ids (w_tasks w) →
  sys_inv {| s_keeper := s_keeper s; s_proxy := s_proxy s; s_local := s_local s; s_sessions := <[g := w']> (s_sessions s);
             s_signals := n |}.
Proof.
  intros [Hw Hl Hk Hc Hi Hcs] Hg Hst Hids. split; try done; cbn [s_local s_sessions s_keeper s_proxy].
  - apply worlds_insert; [done|]. eapply rtc_r; [by eapply Hw|exact Hst].
  - by rewrite length_insert.
  - rewrite <- Hcs. unfold conns. cbn [s_local s_sessions].
    by rewrite (sessions_insert _ _ _ _ [] Hg) by (by rewrite app_nil_r).
Qed.

Lemma keeper_inv (s : system) (e : keeper_event) (k : keeper) (n : nat) :
  sys_inv s → keeper_step (s_keeper s) e = Some k →
  sys_inv {| s_keeper := k; s_proxy := s_proxy s; s_local := s_local s;
             s_sessions := keeper_effect (s_keeper s) e (s_sessions s); s_signals := n |}.
Proof.
  intros Hi Hst. pose proof (keeper_ok_step _ _ _ (sv_keeper _ Hi) Hst) as Hk'.
  assert (Hsame : next_session k = next_session (s_keeper s) → ∀ ws, sys_inv {| s_keeper := s_keeper s;
      s_proxy := s_proxy s; s_local := s_local s; s_sessions := ws; s_signals := n |} →
    sys_inv {| s_keeper := k; s_proxy := s_proxy s; s_local := s_local s; s_sessions := ws; s_signals := n |}).
  { intros Hn ws [Hw Hl Hk Hc Hids Hcs]. split; try done. cbn in *. by rewrite Hn. }
  assert (Hi0 : sys_inv {| s_keeper := s_keeper s; s_proxy := s_proxy s; s_local := s_local s; s_sessions := s_sessions s;
    s_signals := n |}) by (by destruct Hi).
  assert (Hclose : sys_inv {| s_keeper := s_keeper s; s_proxy := s_proxy s; s_local := s_local s;
    s_sessions := match shared (s_keeper s) with Some g => alter client_close g (s_sessions s) | None => s_sessions s end; s_signals := n |}).
  { destruct (shared (s_keeper s)) as [g|]; [|done]. destruct (s_sessions s !! g) as [w|] eqn:Hg.
    - assert (alter client_close g (s_sessions s) = <[g := client_close w]> (s_sessions s)) as ->.
      { apply list_eq. intros i. destruct (decide (i = g)) as [->|Hn].
        - rewrite list_lookup_alter_eq, Hg. rewrite list_lookup_insert_eq by (by eapply lookup_lt_Some). done.
        - by rewrite list_lookup_alter_ne, list_lookup_insert_ne by done. }
      apply (session_step_inv s g n w); [done|done| |done]. eexists. apply ws_client_close.
    - assert (alter client_close g (s_sessions s) = s_sessions s) as ->; [|done].
      apply list_eq. intros i. destruct (decide (i = g)) as [->|Hn]; [by rewrite list_lookup_alter_eq, Hg|by rewrite list_lookup_alter_ne]. }
  unfold keeper_effect, keeper_step in *.
  destruct (at_await (s_keeper s)) eqn:Ea, e as [[x|]| |[]|[]| |]; try done; injection Hst as <-; try by apply Hsame.
  destruct Hi as [Hw Hl Hk Hc Hids Hcs]. split; try done; cbn [s_local s_sessions s_keeper s_proxy next_session].
  - intros g w [Hg|[_ Hg]]%lookup_app_Some; [by eapply Hw|].
    apply list_lookup_singleton_Some in Hg as [_ <-]. apply rtc_refl.
  - rewrite length_app. cbn. lia.
  - rewrite <- Hcs. unfold conns. cbn [s_local s_sessions]. rewrite map_app, concat_app. cbn. by rewrite !app_nil_r.
Qed.

Lemma sys_inv_step (s s' : system) : sys_step s s' → few s → few s' → sys_inv s → sys_inv s'.
Proof.
  intros Hst Hf Hf' Hi. destruct Hst as [e p Hst|ts Hst|j t k st g w Hj Hcf Hsh Hg|g w w' Hg Hm _|s' [e k Hst _]].
  - by apply accept_inv.
  - by apply local_inv.
  - by apply join_inv.
  - apply (session_step_inv s g _ w); [done|done|by exists Running|].
    apply running_ids; [done|done|]. apply (session_inv_reach routing Hwf), (sv_worlds _ Hi g w Hg).
  - by apply keeper_inv.
Qed.

Lemma few_back (s s' : system) : sys_step s s' → few s' → few s.
Proof.
  unfold few. destruct 1 as [e p Hst| | | |s' [e k Hst _]]; try done. cbn.
  destruct e; cbn in Hst; case_match; simplify_eq; cbn; lia.
Qed.

Lemma sys_inv_reach (socks : bool) (s : system) : sys_reachable socks s → few s → sys_inv s.
Proof.
  intros Hr. revert s Hr. apply (rtc_ind_r (λ s, few s → sys_inv s)); [intros _; apply sys_inv_init|].
  intros s s' _ Hst IH Hf. pose proof (few_back _ _ Hst Hf) as Hf0. by eapply sys_inv_step; [..|apply IH].
Qed.
End Steps.

(** ** The keeper is told of every end *)

(** How many of the two tasks of a session have ended. *)
Definition over_count (w : world) : nat :=
  (if writer_over w then 1 else 0) + (if reader_over w then 1 else 0).

Lemma alive_count (w : world) : alive w = false ↔ 0 < over_count w.
Proof. unfold alive, over_count. destruct (writer_over w), (reader_over w); cbn; split; done || lia. Qed.

Lemma over_count_init : over_count world_init = 0.
Proof.
  unfold over_count, writer_over. cbn. unfold frame_channel.
  by destruct (bounded_spec (A:=Frame) 128) as (_ & _ & ->).
Qed.

Lemma reader_over_step (w w' : world) : world_step routing w w' → reader_over w = true → reader_over w' = true.
Proof.
  unfold reader_over. intros Hst Hs.
  destruct Hst as [who Hst]; destruct Hst as [w' Hst|id fe p Hge Hn Hin|s0 f c Hc Hh Hf|s0 f Hc Hh Hroom|s0 closes Hc Hf Hcs|s0 m rest e Hr Hw Hd|s0 r Hr|m rest f Hr Hw Hd
    |ev Hr Hev| |m rest f id dest Hr Hw Hd He|j t Hen Ho Hj Hf|m rest f act Hr Hw Hd He Hn|Hr|Hcan];
    try done; try (by destruct s0).
  - destruct Hst as [j t c k st a w' t' [Hj Hpl] Hcf Ha Hc|j t p k st [Hj Hpl] Hcf|j t cf [Hj Hpl] Hst|j t r Hj Hcf Hrx l];
      try done; [|by destruct (t_side t)].
    apply do_call_effect in Hc. by destruct Hc; try done; destruct (t_side t).
  - destruct Hr as [_ Hr]. congruence.
  - destruct Hr as [_ Hr]. congruence.
Qed.

Lemma writer_over_step (w w' : world) : world_step routing w w' → writer_over w = true → writer_over w' = true.
Proof. intros Hst. by apply (out_effect_keeps _ _ _ (world_step_out routing _ _ Hst AtClient)). Qed.

Lemma told_count (w w' : world) : world_step routing w w' → told w w' (over_count w) = over_count w'.
Proof.
  intros Hst. pose proof (reader_over_step _ _ Hst) as Hr. pose proof (writer_over_step _ _ Hst) as Hw.
  unfold told, over_count, ends_now.
  destruct (writer_over w), (reader_over w), (writer_over w'), (reader_over w'); try done;
    try (by specialize (Hr eq_refl)); try (by specialize (Hw eq_refl)).
Qed.

Record signals_ok (s : system) : Prop := {
  so_slot g w : at_await (s_keeper s) = SessionUp → shared (s_keeper s) = Some g → s_sessions s !! g = Some w →
    s_signals s = over_count w;
  so_stopped : at_await (s_keeper s) = Stopped → keeper_told (s_proxy s) = true
}.

Lemma signals_init (socks : bool) : signals_ok (system_init socks).
Proof. by split. Qed.

Lemma signals_keeper (s s' : system) : keeper_move s s' → sys_inv s → signals_ok s → signals_ok s'.
Proof.
  intros [e k Hst Hmay] Hi [Hs Hp]. unfold keeper_effect, keeper_signals, keeper_step in *.
  pose proof (sv_count _ Hi) as Hn.
  destruct (at_await (s_keeper s)) eqn:Ea, e as [[x|]| |[]|[]| |]; try done; injection Hst as <-; split; try done; cbn.
  intros g w _ [= <-]. rewrite Hn, list_lookup_middle by done. intros [= <-]. by rewrite over_count_init.
Qed.

Lemma signals_step (s s' : system) : sys_step s s' → sys_inv s → signals_ok s → signals_ok s'.
Proof.
  intros Hst Hi [Hs Hp]. destruct Hst as [e p Hst|ts Hst|j t k st g w Hj Hcf Hsh Hg|g w w' Hg Hm _|s' Hst].
  - split; cbn; [done|]. intros Ha%Hp. destruct e; cbn in Hst; case_match; try done; injection Hst as <-; done.
  - by split.
  - split; cbn; [|done]. intros g' w' Ha Hg'. destruct (decide (g' = g)) as [->|Hne].
    + rewrite list_lookup_insert_eq by (by eapply lookup_lt_Some). intros [= <-]. by rewrite (Hs g w Ha Hsh Hg).
    + rewrite list_lookup_insert_ne by done. by apply Hs.
  - split; cbn; [|done]. unfold signals_after. intros g' w0 Ha Hg'. destruct (decide (g' = g)) as [->|Hne].
    + rewrite decide_True, list_lookup_insert_eq by (done || by eapply lookup_lt_Some). intros [= <-].
      rewrite (Hs g w Ha Hg' Hg). apply told_count. by exists Running.
    + rewrite decide_False, list_lookup_insert_ne by congruence. by apply Hs.
  - by eapply signals_keeper; [|apply Hi|].
Qed.

Lemma signals_reach (socks : bool) (s : system) :
  wf_routing routing → sys_reachable socks s → few s → sys_inv s ∧ signals_ok s.
Proof.
  intros Hwf Hr. revert s Hr. apply (rtc_ind_r (λ s, few s → sys_inv s ∧ signals_ok s)).
  - intros _. split; [apply sys_inv_init|apply signals_init].
  - intros s s' _ Hst IH Hf. pose proof (few_back _ _ Hst Hf) as Hf0. destruct (IH Hf0) as [Hi Hs].
    split; [by eapply sys_inv_step|by eapply signals_step].
Qed.

(** ** The keeper comes back *)

(** A session is up that is alive; connections are where they were. *)
Definition back_up (s s' : system) : Prop :=
  at_await (s_keeper s') = SessionUp ∧ s_proxy s' = s_proxy s ∧ s_local s' = s_local s ∧
  ∃ g w, shared (s_keeper s') = Some g ∧ s_sessions s' !! g = Some w ∧ alive w = true.

Definition keeper_runs (s s' : system) : Prop := rtc keeper_move s s'.

(** One step of the keeper, where it is known where it stands. *)
Lemma keeper_runs_l (s s' : system) (e : keeper_event) (k : keeper) :
  keeper_step (s_keeper s) e = Some k → keeper_may s e →
  keeper_runs {| s_keeper := k; s_proxy := s_proxy s; s_local := s_local s;
                 s_sessions := keeper_effect (s_keeper s) e (s_sessions s);
                 s_signals := keeper_signals (s_keeper s) e (s_signals s) |} s' →
  keeper_runs s s'.
Proof. intros Hk Hm Hr. eapply rtc_l; [by apply (keeper_goes s e k)|exact Hr]. Qed.

Lemma new_session_up (s s0 : system) (t : bytes) :
  at_await (s_keeper s) = SendHello t → next_session (s_keeper s) = length (s_sessions s) →
  s_proxy s = s_proxy s0 → s_local s = s_local s0 → ∃ s', keeper_runs s s' ∧ back_up s0 s'.
Proof.
  destruct s as [[a b sh n c] p l ws sg]. cbn. intros -> -> -> ->. eexists. split.
  - eapply (keeper_runs_l _ _ (HelloSent true)); [reflexivity|done|]. apply rtc_refl.
  - split_and!; [done..|]. exists (length ws), world_init. split_and!; [done| |].
    + cbn. by apply list_lookup_middle.
    + apply not_false_iff_true. rewrite alive_count, over_count_init. lia.
Qed.

Lemma logged_in_up (s s0 : system) :
  at_await (s_keeper s) = ObtainToken → next_session (s_keeper s) = length (s_sessions s) →
  s_proxy s = s_proxy s0 → s_local s = s_local s0 → ∃ s', keeper_runs s s' ∧ back_up s0 s'.
Proof.
  destruct s as [[a b sh n c] p l ws sg]. cbn. intros -> Hn Hp Hl.
  edestruct (new_session_up {| s_keeper := {| at_await := SendHello []; backoff := RECONNECT_INITIAL_MS; shared := sh;
    next_session := n; closed_sessions := c |}; s_proxy := p; s_local := l; s_sessions := ws; s_signals := sg |} s0 [])
    as (s' & Hr & Hb); [done..|]. exists s'. split; [|done].
  eapply (keeper_runs_l _ _ (TokenResult (Some []))); [reflexivity|done|].
  eapply (keeper_runs_l _ _ (Connected true)); [reflexivity|done|]. exact Hr.
Qed.

(** From a sleep. *)
Lemma slept_up (s : system) :
  keeper_step (s_keeper s) Slept = Some (goto (s_keeper s) ObtainToken (grow (backoff (s_keeper s)))) →
  keeper_effect (s_keeper s) Slept (s_sessions s) = s_sessions s →
  next_session (s_keeper s) = length (s_sessions s) → ∃ s', keeper_runs s s' ∧ back_up s s'.
Proof.
  intros Hk He Hn. edestruct (logged_in_up {| s_keeper := goto (s_keeper s) ObtainToken (grow (backoff (s_keeper s)));
    s_proxy := s_proxy s; s_local := s_local s; s_sessions := keeper_effect (s_keeper s) Slept (s_sessions s);
    s_signals := keeper_signals (s_keeper s) Slept (s_signals s) |} s) as (s' & Hr & Hb); [done|by rewrite He|done..|].
  exists s'. split; [|exact Hb]. by eapply keeper_runs_l.
Qed.

Lemma keeper_comes_back (s : system) :
  sys_inv s → signals_ok s → at_await (s_keeper s) ≠ Stopped → ∃ s', keeper_runs s s' ∧ back_up s s'.
Proof.
  intros [_ _ [_ _ Hsh] Hn _ _] [Hsig _] Hgo. destruct (at_await (s_keeper s)) as [| |t| |t| |] eqn:Ha.
  - by apply logged_in_up.
  - apply slept_up; unfold keeper_step, keeper_effect; by rewrite ?Ha.
  - edestruct (new_session_up {| s_keeper := goto (s_keeper s) (SendHello t) (backoff (s_keeper s)); s_proxy := s_proxy s;
      s_local := s_local s; s_sessions := s_sessions s; s_signals := s_signals s |} s t) as (s' & Hr & Hb); [done..|].
    exists s'. split; [|exact Hb]. eapply (keeper_runs_l _ _ (Connected true)); [unfold keeper_step; by rewrite Ha|done|].
    unfold keeper_effect, keeper_signals. rewrite Ha. exact Hr.
  - apply slept_up; unfold keeper_step, keeper_effect; by rewrite ?Ha.
  - by apply (new_session_up s s t).
  - destruct Hsh as (g & Hg & Hng & _).
    destruct (lookup_lt_is_Some_2 (s_sessions s) g ltac:(lia)) as [w Hw]. destruct (alive w) eqn:Hov.
    + exists s. split; [apply rtc_refl|]. split_and!; [done..|]. by exists g, w.
    + apply alive_count in Hov. rewrite <-(Hsig g w eq_refl Hg Hw) in Hov.
      edestruct (logged_in_up {| s_keeper := take_and_close (s_keeper s) ObtainToken; s_proxy := s_proxy s;
        s_local := s_local s; s_sessions := alter client_close g (s_sessions s); s_signals := 0 |} s)
        as (s' & Hr & Hb); [done| |done..|]. { cbn. by rewrite length_alter. }
      exists s'. split; [|exact Hb]. eapply (keeper_runs_l _ _ Disconnected); [unfold keeper_step; by rewrite Ha|exact Hov|].
      unfold keeper_effect, keeper_signals. rewrite Ha, Hg. exact Hr.
  - done.
Qed.
End System.
