(* ===== verification/Sessions.v ===== *)
(** * What holds across the sessions of a running client

    The theorems of [System]: every session is one [World] can reach, what a
    destination receives is independent of reconnections, and the client comes
    back after a session has been lost.  The witnesses run a client through a
    lost session. *)
From S2P Require Import Prelude Utf8 Text Net Frame GeoSite GeoIp Routing Sock Http Socks5 Task Relay.
From S2P Require Import Channel Registry Control Mux Client ClientProtocol ClientTraces Ssrf Server Flow Link Roles.
From S2P Require Import Proxy World Threads WorldOk WorldLinks WorldAcks Schedule EndToEnd System.

(** ** Runs, for examples *)

(** What happens next: an accept loop, the request of a local connection has
    been read, a local connection takes the session, a step of a session, the
    keeper. *)
Inductive sact : Type :=
| SAccept (e : accept_event)
| SHttp (j : nat) (a : answer)
| SJoin (j : nat)
| SRun (g : nat) (x : act)
| SKeeper (e : keeper_event).

Definition sact_ok (x : sact) : Prop :=
  match x with SHttp _ a => http_answer a | SRun _ y => act_ok y | _ => True end.

Section Runs.
Context `{ChannelLib, Transport, UnicodeCase, RegexEngine, IpNets} (routing : RoutingConfig).

Definition keeper_ready (s : system) (e : keeper_event) : bool :=
  match e with
  | Disconnected => 0 <? s_signals s
  | Shutdown => keeper_told (s_proxy s)
  | _ => true
  end.

Definition sys_exec (s : system) (x : sact) : option system :=
  match x with
  | SAccept e =>
      p ← proxy_step (s_proxy s) e;
      Some {| s_keeper := s_keeper s; s_proxy := p;
              s_local := s_local s ++ spawned_by routing e (next_id (s_proxy s)); s_sessions := s_sessions s;
              s_signals := s_signals s |}
  | SHttp j a =>
      t ← s_local s !! j;
      match t_conf t with
      | (Do ParseHttp k, st) =>
          Some {| s_keeper := s_keeper s; s_proxy := s_proxy s;
                  s_local := <[j := moved t (LCall ParseHttp a) (k a, st)]> (s_local s); s_sessions := s_sessions s;
                  s_signals := s_signals s |}
      | _ => None
      end
  | SJoin j =>
      t ← s_local s !! j; g ← shared (s_keeper s); w ← s_sessions s !! g;
      match t_conf t with
      | (Do Snapshot k, st) =>
          Some {| s_keeper := s_keeper s; s_proxy := s_proxy s; s_local := delete j (s_local s);
                  s_sessions := <[g := join_session (moved t (LCall Snapshot AOk) (k AOk, st)) w]> (s_sessions s);
                  s_signals := s_signals s |}
      | _ => None
      end
  | SRun _ (AAccept _) => None
  | SRun g y =>
      w ← s_sessions s !! g; w' ← exec routing w y;
      if Bool.eqb (is_closed (ep_out (w_client w'))) (is_closed (ep_out (w_client w))) then
        Some {| s_keeper := s_keeper s; s_proxy := s_proxy s; s_local := s_local s;
                s_sessions := <[g := w']> (s_sessions s); s_signals := signals_after s g w w' |}
      else None
  | SKeeper e =>
      k ← keeper_step (s_keeper s) e;
      if keeper_ready s e then
        Some {| s_keeper := k; s_proxy := s_proxy s; s_local := s_local s;
                s_sessions := keeper_effect (s_keeper s) e (s_sessions s);
                s_signals := keeper_signals (s_keeper s) e (s_signals s) |}
      else None
  end.

Fixpoint sys_exec_all (s : system) (xs : list sact) : option system :=
  match xs with [] => Some s | x :: xs' => s' ← sys_exec s x; sys_exec_all s' xs' end.

Lemma sys_exec_step (s s' : system) (x : sact) : sact_ok x → sys_exec s x = Some s' → sys_step routing s s'.
Proof.
  intros Hok. destruct x as [e|j a|j|g y|e]; cbn [sys_exec].
  - destruct (proxy_step _ e) as [p|] eqn:Hp; [|done]. intros [= <-]. by apply sy_accept.
  - destruct (s_local s !! j) as [t|] eqn:Hj; [|done]. cbn.
    destruct (t_conf t) as [[| |[] k|p k|b k| |] st] eqn:Hcf; try done. intros [= <-].
    apply sy_local. apply ls_call; [done..|by left].
  - destruct (s_local s !! j) as [t|] eqn:Hj; [|done]. cbn. destruct (shared _) as [g|] eqn:Hg; [|done]. cbn.
    destruct (s_sessions s !! g) as [w|] eqn:Hw; [|done]. cbn.
    destruct (t_conf t) as [[| |[] k|p k|b k| |] st] eqn:Hcf; try done. intros [= <-]. by apply sy_join.
  - assert (Hgo : (w ← s_sessions s !! g; w' ← exec routing w y;
      if Bool.eqb (is_closed (ep_out (w_client w'))) (is_closed (ep_out (w_client w))) then
        Some {| s_keeper := s_keeper s; s_proxy := s_proxy s; s_local := s_local s;
                s_sessions := <[g := w']> (s_sessions s); s_signals := signals_after s g w w' |}
      else None) = Some s' → (∀ n, y ≠ AAccept n) → sys_step routing s s').
    { destruct (s_sessions s !! g) as [w|] eqn:Hw; [|done]. cbn. destruct (exec routing w y) as [w'|] eqn:He; [|done]. cbn.
      destruct (Bool.eqb _ _) eqn:Hc; [|done]. intros [= <-] Hn. apply Bool.eqb_prop in Hc.
      apply (sy_session _ _ g w); [done| |by intros _ _]. pose proof (exec_moves routing w w' y Hok He) as Hm.
      destruct y; try done. by destruct (Hn n). }
    destruct y; try done; intros Hx; by apply Hgo.
  - destruct (keeper_step _ e) as [k|] eqn:Hk; [|done]. cbn. destruct (keeper_ready s e) eqn:Hr; [|done]. intros [= <-].
    apply sy_keeper, keeper_goes; [done|]. destruct e; try done. by apply Nat.ltb_lt.
Qed.

Lemma sys_exec_reach (s s' : system) (xs : list sact) :
  Forall sact_ok xs → sys_exec_all s xs = Some s' → rtc (sys_step routing) s s'.
Proof.
  intros Hok. revert s. induction Hok as [|x xs Hx _ IH]; intros s; cbn [sys_exec_all]; [by intros [= <-]|].
  destruct (sys_exec s x) as [s1|] eqn:E; [|done]. intros Hr. eapply rtc_l; [by eapply sys_exec_step|by apply IH].
Qed.

Definition sys_runs (socks : bool) (xs : list sact) : bool :=
  match sys_exec_all (system_init socks) xs with Some _ => true | None => false end.

Definition sys_after (socks : bool) (xs : list sact) : system :=
  default (system_init socks) (sys_exec_all (system_init socks) xs).

Lemma sys_after_reachable (socks : bool) (xs : list sact) :
  Forall sact_ok xs → sys_runs socks xs = true → sys_reachable routing socks (sys_after socks xs).
Proof.
  unfold sys_runs, sys_after. intros Hok Hr. destruct (sys_exec_all _ xs) as [s|] eqn:E; [|done].
  by apply (sys_exec_reach _ _ xs).
Qed.
End Runs.

(** ** Properties *)

Section Properties.
Context `{ChannelLib, Transport, UnicodeCase, RegexEngine, IpNets} (routing : RoutingConfig).

(** C11: The running client is made of sessions.  As long as the stream ids have not
    wrapped around, every session of the client is one that [World] can reach,
    although its handlers did their first steps before they knew which session
    they would use; every accepted connection has exactly one handler, which is
    in one session or in none, with the program of the listener it came from;
    and while a session is in the slot it is the newest and has not been
    closed, so none is joined after its end. *)
Theorem client_is_sessions (socks : bool) (s : system)
  (Hwf : wf_routing routing) (Hreach : sys_reachable routing socks s) (Hfew : few s) :
  (∀ g w, s_sessions s !! g = Some w → reachable routing w) ∧
  conns s ≡ₚ accepted routing (s_proxy s) ∧ NoDup (map fst (conns s)) ∧
  (∀ g, shared (s_keeper s) = Some g → S g = length (s_sessions s) ∧ g ∉ closed_sessions (s_keeper s)).
Proof.
  pose proof (sys_inv_reach routing Hwf socks s Hreach Hfew) as Hi. split_and!.
  - apply Hi.
  - apply Hi.
  - by apply (conns_distinct routing).
  - intros g Hg. pose proof (ko_shared _ (sv_keeper _ _ Hi)) as Hk.
    destruct (at_await (s_keeper s)); try (destruct Hk as [Hk _]; congruence).
    destruct Hk as (g' & Hg' & Hn & Hc). rewrite Hg in Hg'. injection Hg' as <-. rewrite <- (sv_count _ _ Hi).
    split; [done|]. rewrite Hc. intros [_ Hlt]%elem_of_seq. lia.
Qed.

(** C3: Upload across reconnections, for a client that has accepted fewer than
    2^32 connections, through whatever sessions it has gone: the bytes that a
    write task of any session's server has written to its destination come from
    one accepted connection, whose handler runs in that session and asked for
    that destination, and are a prefix of the request, if it is one to forward,
    followed by what the handler has read from the application: so they are the
    bytes the application sends, in order, less those that the HTTP parser had
    read ahead of its request ([comes_from]); and no other session ever carries
    a frame of the stream. *)
Theorem upload_across_sessions (socks : bool) (s : system) (g : nat) (w : world) (t : task)
  (Hwf : wf_routing routing) (Hreach : sys_reachable routing socks s) (Hfew : few s)
  (Hg : s_sessions s !! g = Some w) (Hin : t ∈ w_tasks w)
  (Hside : t_side t = AtServer) (Hprog : t_prog t = write_task) (Hwrote : writes_of (t_hist t) ≠ []) :
  ∃ f h o dest first, (f, t_id t) ∈ spawned (s_proxy s) ∧ t_prog h = handler_of routing f (t_id t) ∧
    t_id h = t_id t ∧ tunnelled routing w h o dest first ∧
    concat (writes_of (t_hist t)) `prefix_of` first ++ reads_of (t_hist h) ∧
    comes_from (t_hist h) first (concat (writes_of (t_hist t))) ∧
    ∀ g' w', s_sessions s !! g' = Some w' → by_stream (t_id t) (sent w' AtClient) ≠ [] → g' = g.
Proof.
  pose proof (sys_inv_reach routing Hwf socks s Hreach Hfew) as Hi. pose proof (sv_worlds _ _ Hi g w Hg) as Hr.
  destruct (upload_behind routing Hwf w t Hr Hin Hside Hprog Hwrote) as (h & o & dest & first & Hid & Htn & Hp & Hfrom).
  destruct (tn_handler _ _ _ _ _ _ Htn) as (Hh & Hs & fe & Hfe). apply list_elem_of_lookup_1 in Hh as [j Hj].
  assert (Hk : t_kind h = Handler) by (unfold t_kind; rewrite Hs; by eapply handler_kind).
  pose proof (ids_in _ _ _ Hj Hk) as Hids. rewrite Hid in Hids.
  assert (Hacc : (t_id t, t_prog h) ∈ accepted routing (s_proxy s)).
  { rewrite <- (sv_conns _ _ Hi). unfold conns. apply elem_of_app. right. by eapply session_conns. }
  unfold accepted in Hacc. apply list_elem_of_fmap in Hacc as ([f i] & [= <- Hpr] & Hf).
  exists f, h, o, dest, first. split_and!; [done..|]. intros g' w' Hg' Hn.
  pose proof (session_inv_reach routing Hwf w' (sv_worlds _ _ Hi g' w' Hg')) as Hw'.
  destruct (stream_sent routing Hwf w' (t_id t) (si_tasks _ _ Hw') Hn) as (j' & h' & ? & ? & ? & ? & ? & Hj' & Hk' & Hid' & _).
  apply (one_session s g' g w' w (t_id t)); [by apply (conns_distinct routing)|done|done|..]; apply list_elem_of_fmap.
  - exists (t_id h', t_prog h'). split; [done|]. by eapply ids_in.
  - by exists (t_id t, t_prog h).
Qed.

(** C12: The client recovers.  Of every state that the running client can reach
    with fewer than 2^32 connections: the keeper has not stopped unless the
    accept loop told it to, so it has survived every login, connection and HELLO
    that failed and every session that was lost; while it waits on the session
    in the slot it is told of the end of that session's writer loop or reader,
    and of nothing else; and unless it has stopped there is a way, of the
    keeper's steps alone, to a session whose writer loop and reader both run,
    with the connections where they were, so that every one that wants the
    tunnel can join it. *)
Theorem client_recovers (socks : bool) (s : system)
  (Hwf : wf_routing routing) (Hreach : sys_reachable routing socks s) (Hfew : few s) :
  (at_await (s_keeper s) = Stopped → keeper_told (s_proxy s) = true) ∧
  (∀ g w, at_await (s_keeper s) = SessionUp → shared (s_keeper s) = Some g → s_sessions s !! g = Some w →
     keeper_may s Disconnected ↔ alive w = false) ∧
  (at_await (s_keeper s) ≠ Stopped →
   ∃ s' g w, rtc keeper_move s s' ∧ at_await (s_keeper s') = SessionUp ∧
     s_proxy s' = s_proxy s ∧ s_local s' = s_local s ∧
     shared (s_keeper s') = Some g ∧ s_sessions s' !! g = Some w ∧ alive w = true ∧
     ∀ j t k st, s_local s !! j = Some t → t_conf t = (Do Snapshot k, st) →
       ∃ s'' w'', sys_step routing s' s'' ∧ s_sessions s'' !! g = Some w'' ∧
         moved t (LCall Snapshot AOk) (k AOk, st) ∈ w_tasks w'').
Proof.
  destruct (signals_reach routing socks s Hwf Hreach Hfew) as [Hi Hs]. split_and!.
  - apply Hs.
  - intros g w Ha Hg Hw. cbn. by rewrite alive_count, (so_slot _ Hs g w).
  - intros Hruns. destruct (keeper_comes_back routing s) as (s' & Hr & Ha & Hp & Hl & g & w & Hg & Hw & Ho); [done..|].
    exists s', g, w. split_and!; [done..|]. intros j t k st Hj Hcf. rewrite <- Hl in Hj.
    eexists _, (join_session (moved t (LCall Snapshot AOk) (k AOk, st)) w). split; [by eapply sy_join|]. split.
    + cbn. apply list_lookup_insert_eq. by eapply lookup_lt_Some.
    + cbn. apply elem_of_app. right. by left.
Qed.
End Properties.

(** ** A run *)

#[local] Existing Instances queue_channels one_message demo_case demo_engine demo_nets.

Definition log_in : list sact :=
  map SKeeper [TokenResult (Some (bs "t")); Connected true; HelloSent true].

Definition tunnel (j : nat) : list sact := [SAccept HttpAccepted; SHttp j demo_request; SJoin j].

(** A connection joins the first session, which is lost before it has sent its
    OPEN; the next connection joins the second session and sends "hello", which
    is delivered. *)
Definition reconnect_acts : list sact :=
  log_in ++ tunnel 0 ++ [SRun 0 (AAnswer 0 AOk); SRun 0 ALost; SKeeper Disconnected] ++
  log_in ++ tunnel 0 ++ map (SRun 1) (drop 3 demo_acts).

Definition reconnected : system := sys_after demo_routing false reconnect_acts.

Definition second_world : world := default world_init (s_sessions reconnected !! 1).

Definition second_task (j : nat) : task := default (new_task AtClient 0 Return None) (w_tasks second_world !! j).

Lemma reconnect_ok : Forall sact_ok reconnect_acts.
Proof.
  unfold reconnect_acts, log_in, tunnel, demo_acts. cbn [map app drop].
  repeat (apply Forall_cons; split; [first [exact I|exact demo_request_possible]|]). constructor.
Qed.

Lemma reconnected_reachable : sys_reachable demo_routing false reconnected.
Proof. apply sys_after_reachable; [exact reconnect_ok|vm_compute; reflexivity]. Qed.

Lemma second_session : s_sessions reconnected !! 1 = Some second_world.
Proof.
  unfold second_world. assert (Hl : 1 < length (s_sessions reconnected)) by (apply Nat.ltb_lt; vm_compute; reflexivity).
  by destruct (lookup_lt_is_Some_2 _ _ Hl) as [w ->].
Qed.

Lemma second_task_in (j : nat) : j < 5 → second_task j ∈ w_tasks second_world.
Proof.
  intros Hj. apply (list_elem_of_lookup_2 _ j). unfold second_task.
  assert (Hl : length (w_tasks second_world) = 5) by (vm_compute; reflexivity).
  assert (Hlt : j < length (w_tasks second_world)) by (by rewrite Hl).
  by destruct (lookup_lt_is_Some_2 _ _ Hlt) as [t ->].
Qed.

Lemma reconnected_few : few reconnected.
Proof. vm_compute. reflexivity. Qed.

Lemma client_is_sessions_witness :
  length (s_sessions reconnected) = 2 ∧ shared (s_keeper reconnected) = Some 1 ∧
  1 ∉ closed_sessions (s_keeper reconnected) ∧ reachable demo_routing second_world.
Proof.
  do 2 (split; [vm_compute; reflexivity|]).
  destruct (client_is_sessions demo_routing false reconnected demo_routing_wf reconnected_reachable reconnected_few)
    as (Hw & _ & _ & Hs). split; [apply (Hs 1); vm_compute; reflexivity|]. apply (Hw 1), second_session.
Defined.

Lemma upload_across_sessions_witness :
  writes_of (t_hist (second_task 4)) = [bs "hello"] ∧ t_id (second_task 4) = 2%N ∧
  ∃ f h o dest first, (f, t_id (second_task 4)) ∈ spawned (s_proxy reconnected) ∧
    t_prog h = handler_of demo_routing f (t_id (second_task 4)) ∧
    t_id h = t_id (second_task 4) ∧ tunnelled demo_routing second_world h o dest first ∧
    concat (writes_of (t_hist (second_task 4))) `prefix_of` first ++ reads_of (t_hist h) ∧
    comes_from (t_hist h) first (concat (writes_of (t_hist (second_task 4)))) ∧
    ∀ g' w', s_sessions reconnected !! g' = Some w' → by_stream (t_id (second_task 4)) (sent w' AtClient) ≠ [] → g' = 1.
Proof.
  do 2 (split; [vm_compute; reflexivity|]).
  apply (upload_across_sessions demo_routing false reconnected 1 second_world (second_task 4)
    demo_routing_wf reconnected_reachable reconnected_few).
  - exact second_session.
  - apply second_task_in. lia.
  - vm_compute. reflexivity.
  - vm_compute. reflexivity.
  - vm_compute. discriminate.
Defined.

(** While the first session is lost and the next one not yet there: one login
    has failed. *)
Definition outage_acts : list sact :=
  log_in ++ [SRun 0 ALost; SKeeper Disconnected; SKeeper (TokenResult None); SKeeper Slept;
             SAccept HttpAccepted; SHttp 0 demo_request].

Definition outage : system := sys_after demo_routing false outage_acts.

Lemma outage_reachable : sys_reachable demo_routing false outage.
Proof.
  apply sys_after_reachable; [|vm_compute; reflexivity].
  unfold outage_acts, log_in. cbn [map app]. repeat (apply Forall_cons; split; [first [exact I|exact demo_request_possible]|]). constructor.
Qed.

Lemma client_recovers_witness :
  shared (s_keeper outage) = None ∧ length (s_local outage) = 1 ∧ at_await (s_keeper outage) = ObtainToken ∧
  ∃ s', rtc keeper_move outage s' ∧ at_await (s_keeper s') = SessionUp ∧ s_local s' = s_local outage.
Proof.
  do 3 (split; [vm_compute; reflexivity|]).
  destruct (client_recovers demo_routing false outage demo_routing_wf outage_reachable) as (_ & _ & Hup).
  - vm_compute. reflexivity.
  - destruct Hup as (s' & g & w & Hr & Ha & _ & Hl & _); [vm_compute; discriminate|]. by exists s'.
Defined.
